(* ===== verification/_CoqProject ===== *)
-Q . S2P
Prelude.v
Errors.v
Codec.v
Task.v
ApiClient.v
Proto.v
Buffer.v
BTree.v
Timer.v
TimerInv.v
Net.v
TcpClient.v
ServerTask.v
TcpServer.v
ApiServer.v
EndToEnd.v
Server.v
RpcServer.v
Services.v
Failover.v
ApiCall.v
Pool.v
Stream.v
StreamInv.v
StreamTrace.v
StreamPoll.v
Throttle.v
Wire.v
System.v
SystemEnds.v
SystemInv.v
SystemCall.v
SystemRun.v
SystemProgress.v
SystemSpec.v
PingStall.v
Client.v
ClientInv.v
FailoverClient.v
Facts.v
MacroSyntax.v
ClientMacro.v
ClientGen.v
ClientEnumMacro.v
ServerMacro.v
MacroCall.v
FileTasks.v
FileService.v
ServiceMacro.v
Graceful.v
Display.v
