(* ===== verification/Prelude.v ===== *)
(** * razor-rpc: a verification development

    razor-rpc is an RPC framework in two layers. The stream layer
    ([stream/], with the TCP transport of [transport/tcp/]) moves tasks between
    a client and a server: a client connection sends the encoded request of a
    task and hands the task back when its response arrives, fails or times
    out; a server connection reads requests, dispatches them and writes the
    answers. The API layer ([src/], with the code generated by [macros/])
    turns typed remote calls into such tasks and dispatches requests to the
    methods of services. This development models both layers as executable
    definitions and proves the theorems that make them correct; the paths below
    are relative to [src/].

    ** How the parts of the program map to the files

    - [Prelude] (this file): machine integers with their wrap-around, byte
      strings, little-endian fields, UTF-8 validation, the [result], [may]
      (may panic) and [poll] (may wait) types, tactics and hint databases.
    - [Errors], [Codec], [Task]: error values and their wire form
      (stream/src/error.rs), the codec trait and msgpack (codec/src), the task
      traits (stream/src/client/task.rs, stream/src/server/task.rs) as classes.
      A task type is a parameter everywhere below: the theorems hold of every
      instance of [ClientTask] and [ServerTaskEncode].
    - [ApiClient]: the task of the API client (src/client/task.rs), the instance
      used in whole calls and in concrete examples.
    - [Proto]: the request and response headers (stream/src/proto.rs); [Display]:
      their text in the log, and that of requests and tasks.
    - [Buffer]: the buffers for response blobs (stream/src/buffer.rs), with the
      undefined behaviour of [set_len] as an outcome.
    - [BTree], [Timer], [TimerInv]: the table of waiting tasks of a client
      connection (stream/src/client/timer.rs). [ClientTaskTimer] has the fields
      of the struct: the channel, the tasks of this second, the batches of past
      seconds, the counters. [timer_step] lists its operations as steps.
    - [Net]: the byte stream under the transport, a class with its contract and
      an instance in memory. [TcpClient], [TcpServer]: the two ends of the TCP
      transport (transport/tcp/src/client.rs, server.rs) over it. The read of a
      response is suspended where the code awaits: in [take_task], for a
      registration ([RWait]), and in each [read_exact] of the body ([RBody], with
      a [body_pc]), when the task is in no one's hands but the future's.
      [read_resp_all] carries a read through.
    - [ServerTask]: server tasks and the response channel
      (stream/src/server/task.rs, mod.rs, dispatch.rs).
    - [ApiServer]: the API server (src/server) and the code that the [service]
      and [service_mux_struct] macros generate.
    - [Services]: the traits that put services and dispatchers together
      ([ServiceStatic], [ServiceDyn], [APIDispatchTrait], [Dispatch]) as classes
      with the instances of src/server and stream/src/server/dispatch.rs.
    - [MacroSyntax]: the syntax trees the procedural macros inspect, and the
      outcome of a macro (an expansion, a syntax error, a panic).
      [ClientMacro], [ClientGen], [ClientEnumMacro], [ServerMacro]: the task macros
      (stream/macros/src), each from the annotated item to the code it writes,
      and that code's meaning: [client_task_impl], [client_task_enum_impl],
      [server_task_enum_impl] are the functions of those names. [ServiceMacro]:
      the API macros (macros/src), [service], [service_mux_struct],
      [endpoint_async], [endpoint_client].
    - [EndToEnd]: client and server composed over a wire. [MacroCall]: the same
      with tasks generated by the macros at both ends.
    - [Server]: the reader and writer coroutines of a server connection
      (stream/src/server/server.rs). The state [ServerConn] holds the
      connection, the response channel and both program counters.
      [RpcServer]: the listener tasks, the connections and [close].
    - [Failover]: routing over a cluster of pools, the retry worker, updates of
      the address list (stream/src/client/failover.rs). [ApiCall]: the call
      loop of the API client over it (src/client/mod.rs).
    - [Pool]: the channel and the workers of the connection pool of an address
      (stream/src/client/pool.rs).
    - [Graceful]: the restart that hands the listening sockets to a new process
      (stream/src/server/graceful.rs).
    - [Stream], [StreamInv]: the sending and receiving coroutines of a client
      connection (stream/src/client/stream.rs, throttler.rs) over the timer and
      the transport. The receiver is in the header ([RReading]), in [take_task]
      ([RWaiting]), in a part of the body ([RInBody]) or, after an error, in its
      clean-up ([RClean], [RCheck], with the body it was stopped in). [StreamTrace] gives tasks an identity ([TaskTag]),
      [StreamPoll] adds the poll of the receiver's future, [Throttle] the wait
      for room in the sliding window.
    - [Client], [ClientInv]: the pool with its connections: each worker owns a
      [Stream], and what it is told in a turn is what that connection answers.
    - [Wire], [System], [SystemEnds], [SystemInv], [SystemCall]: a client
      connection and the server connection at its other end, run together.
      [System] holds a [ClientStream] and a [ServerConn], each with a stream in
      memory; [sys_step] is a step of either, or of the network, which carries
      any number of bytes, cuts frames anywhere and may break a direction. One
      behaviour of [Stream] is left out there ([lossless]): when the close channel
      cuts off the read of a header, the bytes of it that had been read are lost,
      the client is out of step, and nothing can be said of what it reads next.
      [Wire]: reading a frame while it is still arriving; [SystemEnds]: what a
      step of either end does to the wire; [SystemInv]: the invariant of the
      whole; [SystemCall]: concurrent calls of the API layer over it;
      [SystemProgress]: how it gets every waiting task answered; [SystemSpec]:
      the abstract service that a connection implements. [PingStall]: a
      response to a ping that overtakes the others. [SystemRun]: schedules that
      are computed and are runs of [System].
    - [FailoverClient]: the whole client: the cluster of [Failover] with a
      [Client] per pool, the callers that wait to submit, the retry channel and
      the retry worker. [fo_step] lists its steps.
    - [Facts]: the configurations and plugins ([ClientFacts], [ServerFacts]) and
      how connections and pools are made from them (stream/src/client/mod.rs,
      stream/src/server/mod.rs, src/client/mod.rs). It supplies the parameters
      that the files above are stated for.
    - [FileTasks], [FileService]: an application built with the macros, the file
      service of the test suite (test-suite/src/stream/client.rs, server.rs):
      its tasks at both ends, the handler of its throughput benchmark, and what
      its callers get over one connection.

    They interact as the program's parts do: [Stream] calls [Timer] and
    [TcpClient], which call [Proto] and the task class; [Server] calls
    [TcpServer] and a dispatcher, [ApiServer] provides one; [ApiCall] calls
    [Failover]. [Pool] sees a connection through what it answers, and [Client]
    puts the two together; [Failover] sees a pool through its address and
    health, and [FailoverClient] supplies the pools.

    ** Conventions

    A coroutine is a program counter in the state and a step runs to its next
    suspension point or atomic access, so that a run of the step relation
    ([stream_step], [server_step], [sys_step], [pool_step], [client_step],
    [fo_step], [rpc_step], [timer_step]) is an interleaving. Callbacks to the user are outputs of a step: [EvDone] and
    [EvRetry] for a task that leaves the framework, messages written for the
    server. Panics are [Panic]; a step relation takes only steps that return,
    and the theorems about totality say where panics cannot occur. Code outside
    the repository is a parameter with its documented behaviour as hypothesis:
    the byte stream ([AsyncStreamOk]), [Buffer::alloc], the wait group of
    crossfire, the serializers of msgpack, the user's methods and dispatchers.

    Counters of 64 bits (sequence numbers, pending tasks, workers) wrap around
    as in the source; the steps that add to them require that they do not
    reach the limit. Fuel is explicit and bounded in the statements:
    [writer_run] takes one turn per message and two more, [call_loop] one per
    attempt, [close_wait] one per second and two more.

    The macros are functions on syntax trees. A value of an annotated struct is
    a map from field names to values ([struct_val]); a field used at a wrong
    type is [None], and the type soundness theorem shows that this does not
    happen. A value of an annotated enum is a variant with the task inside.
    What the compiler checks of an expansion, and the impls of the fields' own
    types, are hypotheses ([rustc_accepts], [TaskEnvOk]).

    ** What the theorems show

    - A remote call gives the caller exactly the method's result
      ([call_roundtrip], and [stream_call_roundtrip] between generated tasks);
      requests, responses, headers and errors survive the wire
      ([request_roundtrip], [response_roundtrip], [req_head_codec_total],
      [resp_head_codec_total], [int_err_names_roundtrip],
      [string_err_roundtrip]), and where they do not, exactly when
      ([num_action_roundtrip_iff], [num_err_roundtrip_iff]).
    - With any number of requests in flight, whatever the schedules of the two
      ends and the network do, a task is handed back with the server's answer to
      its own request or with a failure of the connection, and at most once
      ([no_cross_talk]), and what is observed of a connection is a trace of an
      abstract service that serves requests in order and at most once, answers
      each at most once and gives each task back at most once
      ([connection_refines_service]); so every concurrent call returns what its method returns
      for its argument, or an IO error or a timeout ([concurrent_calls]). While
      both ends work, no call of [send_task] is in progress and no ping has been
      sent since the last request, every waiting task can still get its answer ([calls_can_complete]); a response to a ping that overtakes
      them makes them time out ([overtaken_requests_time_out], a finding). The
      callers of the file service get what its specification [file_serve] says
      ([file_calls]), which puts the macros, both ends and the network together.
    - The macros accept what they document and nothing else, but for the
      findings ([client_task_accepts_iff], [client_enum_accepts_iff],
      [server_enum_accepts_iff], [endpoint_accepts_iff], [service_accepts_iff],
      [server_attrs_roundtrip]); what they generate is well typed
      ([client_task_type_sound]), keeps the contracts of the framework
      ([generated_task_contract]) and sends a request where it belongs
      ([server_enum_routes], [endpoint_methods_served], [mux_struct_shadows]), and
      services are reached by name through any multiplexer, but multiplexers do
      not nest ([muxes_dispatch]).
    - No task is handed back twice, and it is known which are lost: none in the
      timer ([timer_conservation], [take_task_spec], [timeout_exact],
      [clean_pending_tasks_total]); on a connection ([tasks_handed_back],
      [no_task_stranded], [receiver_exits], [inner_drop_hands_back]) those that
      cannot be encoded ([encode_failure_wedges]) and the one whose body is being
      read when [has_err] stops the receiver ([task_dropped] is a run), both of
      them findings; none in a pool ([pool_tasks_conserved], [monitor_serves],
      [pool_one_monitor], [pool_health_final]). The same account holds from the
      submission to a pool to the caller ([client_hands_back];
      [client_refines_pool] carries the results on pools over), and when a
      request fails over from pool to pool ([failover_hands_back]).
      No request waits longer than its timeout for its response to begin
      ([request_deadline], [receiver_poll_refines]); the ticks do not reach a
      request whose body is being read.
    - The sliding window of a connection is as wide as configured
      ([window_bounded]), always opens again ([throttle_released]), and only a
      request that has been flushed waits for it ([unflushed_never_waits]).
    - The client stays in step with the bytes of its connection
      ([read_resp_in_sync]) and panics exactly on the malformed frames of
      [read_resp_panic_iff].
    - A server answers every request once ([api_server_answers],
      [dispatch_one_response], [mux_dyn_struct_equiv]), what it writes are the
      answers ([server_wire]), it reads pipelined requests apart
      ([reader_reads_all]), loses nothing at the end ([writer_drains],
      [close_answers_all]) and closes in time ([close_ends], [close_wait_ends]). Its listeners outlive it
      ([graceful_handover], [restart_ends], [graceful_empty_panics]).
    - Failover tries as often as it may and goes where it should
      ([failover_attempts_bounded], [failover_call_ends], [select_spec],
      [error_handle_decision], [retry_avoids_last], [round_robin_fair],
      [update_addrs_spec], [get_or_add_addr_spec], [resubmit_sets_leader]).
    - Blob buffers are safe exactly under the condition of
      [Vec_reserve_safe_iff]; [Buffer_reserve_spec] has none.

    ** What is not modelled

    The parser of [syn] that builds the syntax trees, the printing of generated
    code. Of [graceful.rs] the operating system (processes,
    files, signals, sockets), which is a parameter. [bind] and
    [accept], logging, wakers and clocks: a timer that fires is a step. The
    queue in front of a mutex or a full channel is not ordered: whoever can take
    a step may take it. The remaining lines of the source are documentation,
    tests and the examples in comments, imports, trait declarations whose
    methods the models give, getters and forwarding impls ([Arc], [Clone]),
    the entry points of the macros, which call the functions modelled, the
    runner of the test suite, and the empty crates for other transports. *)
From Stdlib Require Import ZArith Lia.
From Stdlib Require Import Strings.Byte Strings.String.
From stdpp Require Import base list strings sets.
Local Open Scope Z_scope.

Declare Scope rpc_scope.
Delimit Scope rpc_scope with rpc.

(** ** Byte strings *)

Abbreviation bytes := (list Byte.byte).

#[global] Instance byte_eq_decision : EqDecision Byte.byte := Byte.byte_eq_dec.

(** The bytes of a string literal of the source. *)
Definition str_bytes (s : String.string) : bytes := String.list_byte_of_string s.

(** The length of a slice or of a [Vec], as the [usize] the sources compute with. *)
Definition zlen {A} (l : list A) : Z := Z.of_nat (length l).

(** ** Machine integers *)

Definition U32_MAX : Z := 2 ^ 32 - 1.
Definition I32_MAX : Z := 2 ^ 31 - 1.
Definition ISIZE_MAX : Z := 2 ^ 63 - 1.

Definition as_u8 (z : Z) : Z := z mod 2 ^ 8.
Definition as_u32 (z : Z) : Z := z mod 2 ^ 32.
Definition as_u64 (z : Z) : Z := z mod 2 ^ 64.
Definition as_usize (z : Z) : Z := z mod 2 ^ 64.

(** [z as i32]: two's complement on 32 bits. *)
Definition as_i32 (z : Z) : Z :=
  let u := z mod 2 ^ 32 in if u <? 2 ^ 31 then u else u - 2 ^ 32.

Definition is_u8 (z : Z) : Prop := 0 <= z < 2 ^ 8.
Definition is_u32 (z : Z) : Prop := 0 <= z < 2 ^ 32.
Definition is_u64 (z : Z) : Prop := 0 <= z < 2 ^ 64.
Definition is_usize (z : Z) : Prop := 0 <= z < 2 ^ 64.
Definition is_i32 (z : Z) : Prop := - 2 ^ 31 <= z < 2 ^ 31.

(** [fetch_add(1)] and [fetch_sub(1)] of [AtomicU64]/[AtomicUsize] wrap around. *)
Definition u64_incr (z : Z) : Z := as_u64 (z + 1).
Definition u64_decr (z : Z) : Z := as_u64 (z - 1).

(** ** Results and panics *)

Inductive result (A E : Type) : Type :=
| Ok (a : A)
| Err (e : E).
Arguments Ok {A E} a.
Arguments Err {A E} e.

(** A computation that may panic ([unwrap], [expect], [unreachable!], a slice
    index out of range, a capacity overflow). *)
Inductive may (A : Type) : Type :=
| Ret (a : A)
| Panic.
Arguments Ret {A} a.
Arguments Panic {A}.

Definition may_bind {A B} (m : may A) (k : A -> may B) : may B :=
  match m with Ret a => k a | Panic => Panic end.

Notation "'let?' x := m 'in' k" := (may_bind m (fun x => k))
  (at level 10, x pattern, m at level 100, k at level 200) : rpc_scope.

(** [Option::unwrap] / [expect]. *)
Definition unwrap {A} (o : option A) : may A :=
  match o with Some a => Ret a | None => Panic end.

Definition is_ok {A E} (r : result A E) : bool :=
  match r with Ok _ => true | Err _ => false end.

(** [Poll] of an asynchronous operation. *)
Inductive poll (A : Type) : Type :=
| Ready (a : A)
| Pending.
Arguments Ready {A} a.
Arguments Pending {A}.

(** ** Little-endian integer fields *)

Definition Z_of_byte (b : Byte.byte) : Z := Z.of_N (Byte.to_N b).

Definition byte_of_Z (z : Z) : Byte.byte :=
  match Byte.of_N (Z.to_N (z mod 256)) with Some b => b | None => Byte.x00 end.

Fixpoint le_bytes (n : nat) (z : Z) : bytes :=
  match n with
  | O => []
  | S n' => byte_of_Z z :: le_bytes n' (z / 256)
  end.

Fixpoint le_val (l : bytes) : Z :=
  match l with
  | [] => 0
  | b :: l' => Z_of_byte b + 256 * le_val l'
  end.

(** ** UTF-8: [str::from_utf8] *)

Definition in_rng (lo hi : Z) (b : Byte.byte) : bool :=
  (lo <=? Z_of_byte b) && (Z_of_byte b <=? hi).

Definition is_cont (b : Byte.byte) : bool := in_rng 128 191 b.

(** The well-formed byte sequences of the Unicode standard (table 3-7). *)
Fixpoint utf8_valid (s : bytes) : bool :=
  match s with
  | [] => true
  | b0 :: s0 =>
    if in_rng 0 127 b0 then utf8_valid s0
    else match s0 with
    | [] => false
    | b1 :: s1 =>
      if in_rng 194 223 b0 then is_cont b1 && utf8_valid s1
      else match s1 with
      | [] => false
      | b2 :: s2 =>
        if in_rng 224 224 b0 then in_rng 160 191 b1 && is_cont b2 && utf8_valid s2
        else if in_rng 237 237 b0 then in_rng 128 159 b1 && is_cont b2 && utf8_valid s2
        else if in_rng 225 239 b0 then is_cont b1 && is_cont b2 && utf8_valid s2
        else match s2 with
        | [] => false
        | b3 :: s3 =>
          if in_rng 240 240 b0
          then in_rng 144 191 b1 && is_cont b2 && is_cont b3 && utf8_valid s3
          else if in_rng 241 243 b0
          then is_cont b1 && is_cont b2 && is_cont b3 && utf8_valid s3
          else if in_rng 244 244 b0
          then in_rng 128 143 b1 && is_cont b2 && is_cont b3 && utf8_valid s3
          else false
        end
      end
    end
  end.

(** [str::from_utf8(b).ok()]. *)
Definition from_utf8 (b : bytes) : option bytes :=
  if utf8_valid b then Some b else None.

(** ** Slices *)

(** [slice::starts_with]. *)
Fixpoint starts_with (s pre : bytes) : bool :=
  match pre, s with
  | [], _ => true
  | p :: pre', b :: s' => bool_decide (p = b) && starts_with s' pre'
  | _ :: _, [] => false
  end.

(** [str::split_once] with a one-byte (ASCII) separator. *)
Fixpoint split_once (c : Byte.byte) (s : bytes) : option (bytes * bytes) :=
  match s with
  | [] => None
  | b :: s' =>
    if decide (b = c) then Some ([], s')
    else match split_once c s' with
         | Some (l, r) => Some (b :: l, r)
         | None => None
         end
  end.

(** [Vec::resize(n, 0)]. *)
Definition resize (n : Z) (l : bytes) : bytes :=
  take (Z.to_nat n) l ++ replicate (Z.to_nat n - length l) Byte.x00.

(** ** Tactics *)

Create HintDb rpc discriminated.
Create Rewrite HintDb rpc_len.

(** Split every [if]/[match] scrutinee of the goal. *)
Ltac split_cases := repeat (case_match; simplify_eq/=; try done).

(** Boolean comparisons of the code to arithmetic facts. *)
Ltac bool_to_prop :=
  repeat match goal with
  | H : (_ && _)%bool = true |- _ => apply andb_true_iff in H; destruct H
  | H : (_ || _)%bool = false |- _ => apply orb_false_iff in H; destruct H
  | H : (_ <? _) = true |- _ => apply Z.ltb_lt in H
  | H : (_ <? _) = false |- _ => apply Z.ltb_ge in H
  | H : (_ <=? _) = true |- _ => apply Z.leb_le in H
  | H : (_ <=? _) = false |- _ => apply Z.leb_gt in H
  | H : (_ =? _) = true |- _ => apply Z.eqb_eq in H
  | H : (_ =? _) = false |- _ => apply Z.eqb_neq in H
  end.

(** Decide a comparison of the goal by arithmetic, whichever way it goes. *)
Ltac rew_cmp :=
  match goal with
  | |- context [?a <? ?b] =>
      first [ rewrite (proj2 (Z.ltb_lt a b)) by lia
            | rewrite (proj2 (Z.ltb_ge a b)) by lia ]
  | |- context [?a <=? ?b] =>
      first [ rewrite (proj2 (Z.leb_le a b)) by lia
            | rewrite (proj2 (Z.leb_gt a b)) by lia ]
  | |- context [?a =? ?b] =>
      first [ rewrite (proj2 (Z.eqb_eq a b)) by lia
            | rewrite (proj2 (Z.eqb_neq a b)) by lia ]
  end.

(** ** Lemmas on lists and lengths *)

Lemma zlen_nonneg {A} (l : list A) : 0 <= zlen l.
Proof. unfold zlen. lia. Qed.

Lemma zlen_app {A} (l k : list A) : zlen (l ++ k) = zlen l + zlen k.
Proof. unfold zlen. rewrite length_app. lia. Qed.

Lemma zlen_nil {A} : zlen (@nil A) = 0.
Proof. done. Qed.

Lemma zlen_cons {A} (a : A) (l : list A) : zlen (a :: l) = zlen l + 1.
Proof. unfold zlen; simpl; lia. Qed.

Lemma zlen_nil_iff {A} (l : list A) : zlen l = 0 <-> l = [].
Proof. unfold zlen. destruct l; simpl; split; intros; try done; lia. Qed.

Lemma zlen_to_nat {A} (l : list A) : Z.to_nat (zlen l) = length l.
Proof. unfold zlen. lia. Qed.

Lemma take_zlen_app {A} (l k : list A) : take (Z.to_nat (zlen l)) (l ++ k) = l.
Proof. rewrite zlen_to_nat. apply take_app_length. Qed.

Lemma drop_zlen_app {A} (l k : list A) : drop (Z.to_nat (zlen l)) (l ++ k) = k.
Proof. rewrite zlen_to_nat. apply drop_app_length. Qed.

(** A sum over a list. *)
Fixpoint zsum {A} (f : A -> Z) (l : list A) : Z :=
  match l with [] => 0 | x :: l' => f x + zsum f l' end.

Lemma zsum_app {A} (f : A -> Z) l k : zsum f (l ++ k) = zsum f l + zsum f k.
Proof. induction l as [|x l IH]; cbn; [done|]. lia. Qed.

Lemma zsum_insert {A} (f : A -> Z) l i x y :
  l !! i = Some x -> zsum f (<[i := y]> l) = zsum f l - f x + f y.
Proof.
  revert i. induction l as [|z l IH]; intros [|i] H; simpl in *; [done..| |].
  - injection H as ->. lia.
  - rewrite (IH i H). lia.
Qed.

Lemma zsum_nonneg {A} (f : A -> Z) l : (forall x, 0 <= f x) -> 0 <= zsum f l.
Proof. intros H. induction l as [|x l IH]; cbn; [done|]. specialize (H x). lia. Qed.

Lemma zsum_ge {A} (f : A -> Z) l i x :
  (forall x, 0 <= f x) -> l !! i = Some x -> f x <= zsum f l.
Proof.
  intros Hf. revert i. induction l as [|z l IH]; intros [|i] H; cbn in *; [done..| |].
  - simplify_eq. pose proof (zsum_nonneg f l Hf). lia.
  - specialize (IH i H). specialize (Hf z). lia.
Qed.

Lemma zsum_le {A} (f g : A -> Z) l : (forall x, f x <= g x) -> zsum f l <= zsum g l.
Proof. intros H. induction l as [|x l IH]; cbn; [done|]. specialize (H x). lia. Qed.

Lemma zsum_zero {A} (f : A -> Z) l : Forall (fun x => f x = 0) l -> zsum f l = 0.
Proof. induction 1 as [|x l Hx _ IH]; cbn; lia. Qed.

(** Lists of lists. *)
Lemma concat_insert {A} (L : list (list A)) i x y :
  L !! i = Some x -> concat L ++ y ≡ₚ concat (<[i := y]> L) ++ x.
Proof.
  revert i. induction L as [|z L IH]; intros [|i]; cbn; intros H; simplify_eq.
  - solve_Permutation.
  - rewrite <- !app_assoc. by apply Permutation_app_head, IH.
Qed.

Lemma concat_map_insert {A B} (f : B -> list A) (L : list B) i x y :
  L !! i = Some x -> concat (map f L) ++ f y ≡ₚ concat (map f (<[i := y]> L)) ++ f x.
Proof.
  intros H. change (map f (<[i := y]> L)) with (f <$> <[i := y]> L). rewrite list_fmap_insert.
  apply concat_insert. change (map f L) with (f <$> L). by rewrite list_lookup_fmap, H.
Qed.

Lemma concat_nil_all {A} (L : list (list A)) : Forall (fun x => x = []) L -> concat L = [].
Proof. induction 1 as [|x L -> _ IH]; done. Qed.

#[export] Hint Resolve zlen_nonneg : rpc.
#[export] Hint Rewrite @zlen_app @zlen_to_nat : rpc_len.

(** ** Lemmas on bytes and little-endian fields *)

Lemma Z_of_byte_bound b : 0 <= Z_of_byte b < 256.
Proof.
  unfold Z_of_byte. pose proof (Byte.to_N_bounded b). lia.
Qed.

Lemma Z_of_byte_of_Z z : Z_of_byte (byte_of_Z z) = z mod 256.
Proof.
  unfold Z_of_byte, byte_of_Z.
  pose proof (Z.mod_pos_bound z 256 ltac:(lia)).
  destruct (Byte.of_N (Z.to_N (z mod 256))) as [b|] eqn:E.
  - apply Byte.to_of_N in E. rewrite E. lia.
  - apply Byte.of_N_None_iff in E. lia.
Qed.

Lemma byte_of_Z_of_byte b : byte_of_Z (Z_of_byte b) = b.
Proof.
  pose proof (Z_of_byte_bound b). unfold byte_of_Z, Z_of_byte in *.
  rewrite Z.mod_small by lia. rewrite N2Z.id, Byte.of_to_N. done.
Qed.

Lemma length_le_bytes n z : length (le_bytes n z) = n.
Proof. revert z. induction n; intros z; simpl; auto. Qed.

Lemma le_val_le_bytes n z : le_val (le_bytes n z) = z mod 256 ^ Z.of_nat n.
Proof.
  revert z. induction n as [|n IH]; intros z.
  - simpl. rewrite Z.mod_1_r. done.
  - cbn [le_bytes le_val]. rewrite IH, Z_of_byte_of_Z.
    rewrite Nat2Z.inj_succ, Z.pow_succ_r by lia.
    rewrite Z.rem_mul_r by lia. lia.
Qed.

Lemma le_val_bound l : 0 <= le_val l < 256 ^ zlen l.
Proof.
  induction l as [|b l IH]; unfold zlen in *; cbn [le_val length].
  - simpl. lia.
  - rewrite Nat2Z.inj_succ, Z.pow_succ_r by lia.
    pose proof (Z_of_byte_bound b). lia.
Qed.

Lemma le_bytes_le_val l : le_bytes (length l) (le_val l) = l.
Proof.
  induction l as [|b l IH]; [done|].
  cbn [length le_bytes le_val]. pose proof (Z_of_byte_bound b).
  f_equal.
  - rewrite <-(byte_of_Z_of_byte b) at 2. unfold byte_of_Z.
    do 3 f_equal.
    rewrite Z.mul_comm, Z_mod_plus_full. done.
  - rewrite Z.mul_comm, Z.div_add, Z.div_small by lia. simpl. done.
Qed.

Lemma le_bytes_mod n z : le_bytes n (z mod 256 ^ Z.of_nat n) = le_bytes n z.
Proof.
  rewrite <-le_val_le_bytes.
  rewrite <-(length_le_bytes n z) at 1. apply le_bytes_le_val.
Qed.

Lemma le_bytes_take n l : (n <= length l)%nat -> le_bytes n (le_val (take n l)) = take n l.
Proof.
  intros H. rewrite <-(le_bytes_le_val (take n l)) at 2.
  rewrite length_take_le by done. done.
Qed.

Lemma take_drop_app {A} n m (l : list A) : take m (drop n l) ++ drop (n + m) l = drop n l.
Proof. rewrite <-drop_drop. apply take_drop. Qed.

Lemma le_val_u32 z : is_u32 z -> le_val (le_bytes 4 z) = z.
Proof. intros H. rewrite le_val_le_bytes. apply Z.mod_small. exact H. Qed.

Lemma le_val_u64 z : is_u64 z -> le_val (le_bytes 8 z) = z.
Proof. intros H. rewrite le_val_le_bytes. apply Z.mod_small. exact H. Qed.

#[export] Hint Rewrite length_le_bytes : rpc_len.

(** ** Lemmas on integer casts *)

Lemma as_u32_small z : is_u32 z -> as_u32 z = z.
Proof. intros. apply Z.mod_small. exact H. Qed.

Lemma as_u32_range z : is_u32 (as_u32 z).
Proof. apply Z.mod_pos_bound. lia. Qed.

Lemma as_u64_range z : is_u64 (as_u64 z).
Proof. unfold is_u64, as_u64. apply Z.mod_pos_bound. lia. Qed.

Lemma as_i32_small z : is_i32 z -> as_i32 z = z.
Proof.
  unfold is_i32, as_i32. intros H. destruct (decide (0 <= z)).
  - rewrite Z.mod_small by lia. rew_cmp. done.
  - replace (z mod 2 ^ 32) with (z + 2 ^ 32).
    + rew_cmp. lia.
    + apply Z.mod_unique_pos with (q := -1); lia.
Qed.

Lemma as_i32_as_u32 z : as_i32 (as_u32 z) = as_i32 z.
Proof. unfold as_i32, as_u32. rewrite Z.mod_mod by lia. done. Qed.

Lemma as_u32_as_i32 z : as_u32 (as_i32 z) = as_u32 z.
Proof.
  unfold as_i32, as_u32. destruct (Z.ltb_spec (z mod 2 ^ 32) (2 ^ 31)).
  - apply Z.mod_mod. lia.
  - replace (z mod 2 ^ 32 - 2 ^ 32) with (z mod 2 ^ 32 + (-1) * 2 ^ 32) by lia.
    rewrite Z_mod_plus_full. apply Z.mod_mod. lia.
Qed.

Lemma as_i32_range z : is_i32 (as_i32 z).
Proof.
  unfold is_i32, as_i32. pose proof (Z.mod_pos_bound z (2 ^ 32) ltac:(lia)).
  destruct (Z.ltb_spec (z mod 2 ^ 32) (2 ^ 31)); lia.
Qed.

(** The top bit of a 32-bit word, on words below it. *)
Lemma land_high x : 0 <= x < 2 ^ 31 -> Z.land x (2 ^ 31) = 0.
Proof.
  intros H. apply Z.bits_inj'. intros n Hn.
  rewrite Z.land_spec, Z.pow2_bits_eqb, Z.bits_0 by lia.
  destruct (Z.eqb_spec 31 n) as [<-|]; [|apply andb_false_r].
  rewrite <-(Z.mod_small x (2 ^ 31)) by lia.
  rewrite Z.mod_pow2_bits_high by lia. done.
Qed.

Lemma lor_high x : 0 <= x < 2 ^ 31 -> Z.lor x (2 ^ 31) = x + 2 ^ 31.
Proof.
  intros H. rewrite Z.add_nocarry_lxor, Z.lxor_lor by (by apply land_high). done.
Qed.

Lemma land_high_set x : 0 <= x < 2 ^ 31 -> Z.land (x + 2 ^ 31) (2 ^ 31) = 2 ^ 31.
Proof.
  intros H. rewrite <-lor_high by done.
  rewrite Z.land_lor_distr_l, land_high, Z.land_diag by done. done.
Qed.

Lemma lxor_high_set x : 0 <= x < 2 ^ 31 -> Z.lxor (x + 2 ^ 31) (2 ^ 31) = x.
Proof.
  intros H. rewrite Z.add_nocarry_lxor by (by apply land_high).
  rewrite Z.lxor_assoc, Z.lxor_nilpotent. apply Z.lxor_0_r.
Qed.

Lemma as_usize_small z : 0 <= z < 2 ^ 64 -> as_usize z = z.
Proof. intros. apply Z.mod_small. done. Qed.

Lemma as_u64_small z : is_u64 z -> as_u64 z = z.
Proof. intros H. apply Z.mod_small. exact H. Qed.

(** ** Lemmas on UTF-8 and string operations *)

(** Every ASCII string is valid UTF-8. *)
Lemma utf8_ascii s : forallb (in_rng 0 127) s = true -> utf8_valid s = true.
Proof.
  induction s as [|b s IH]; intros H; [done|].
  cbn [forallb] in H. bool_to_prop. cbn [utf8_valid]. rewrite H. auto.
Qed.

Lemma from_utf8_valid s : utf8_valid s = true -> from_utf8 s = Some s.
Proof. unfold from_utf8. intros ->. done. Qed.

Lemma split_once_app c l r : c ∉ l -> split_once c (l ++ c :: r) = Some (l, r).
Proof.
  induction l as [|b l IH]; intros Hc; simpl.
  - rewrite decide_True by done. done.
  - rewrite decide_False by set_solver. rewrite IH by set_solver. done.
Qed.

Lemma split_once_sound c s l r : split_once c s = Some (l, r) -> s = l ++ c :: r /\ c ∉ l.
Proof.
  revert l. induction s as [|b s IH]; intros l H; simpl in H; [done|].
  case_decide; simplify_eq/=; [split; [done|apply not_elem_of_nil]|].
  destruct (split_once c s) as [[l' r']|] eqn:E; simplify_eq/=.
  destruct (IH l' eq_refl) as [-> ?]. split; [done|].
  apply not_elem_of_cons. auto.
Qed.

Lemma starts_with_app p s : starts_with (p ++ s) p = true.
Proof. induction p as [|b p IH]; simpl; [by destruct s|]. rewrite bool_decide_true by done. exact IH. Qed.

Lemma resize_0 l : resize 0 l = [].
Proof. unfold resize. simpl. done. Qed.

Lemma zlen_resize n l : 0 <= n -> zlen (resize n l) = n.
Proof.
  intros. unfold zlen, resize.
  rewrite length_app, length_take, length_replicate. lia.
Qed.
