(* ===== verification/Errors.v ===== *)
(** * Error values and their wire form (stream/src/error.rs)

    [RpcIntErr] (the framework's own errors, carried as strings with the
    reserved prefix), [EncodedErr] (the container handed to and parsed from the
    transport), [RpcError] (what a caller sees) and the [RpcErrCodec] trait
    with its built-in instances. The codec argument of the trait's methods is
    fixed per connection and is closed over by the instance. *)
From Stdlib Require Import ZArith Lia.
From Stdlib Require Import Strings.Byte Strings.String.
From stdpp Require Import base list strings sets pretty.
From S2P Require Import Prelude.
Local Open Scope Z_scope.

(** ** RpcIntErr *)

Definition RPC_ERR_PREFIX : bytes := str_bytes "rpc_".

Inductive RpcIntErr : Type :=
| Unreachable
| IO
| Timeout
| Method
| Service
| Encode
| Decode
| Internal
| Version.

#[global] Instance RpcIntErr_eq_dec : EqDecision RpcIntErr.
Proof. solve_decision. Defined.

(** The [repr(u8)] discriminants; the derived [PartialOrd] compares them. *)
Definition RpcIntErr_discr (e : RpcIntErr) : Z :=
  match e with
  | Unreachable => 0 | IO => 1 | Timeout => 2 | Method => 3 | Service => 4
  | Encode => 5 | Decode => 6 | Internal => 7 | Version => 8
  end.

Definition RpcIntErr_ltb (a b : RpcIntErr) : bool :=
  RpcIntErr_discr a <? RpcIntErr_discr b.

Definition RpcIntErr_all : list RpcIntErr :=
  [Unreachable; IO; Timeout; Method; Service; Encode; Decode; Internal; Version].

(** The [strum(serialize = ..)] names: [AsRefStr]. *)
Definition RpcIntErr_as_ref (e : RpcIntErr) : String.string :=
  match e with
  | Unreachable => "rpc_unreachable"
  | IO => "rpc_io_err"
  | Timeout => "rpc_timeout"
  | Method => "rpc_method_notfound"
  | Service => "rpc_service_notfound"
  | Encode => "rpc_encode"
  | Decode => "rpc_decode"
  | Internal => "rpc_internal_err"
  | Version => "rpc_invalid_ver"
  end%string.

Definition RpcIntErr_as_bytes (e : RpcIntErr) : bytes := str_bytes (RpcIntErr_as_ref e).

(** [FromStr] derived by strum: the variant whose name is the string. *)
Definition RpcIntErr_from_str (s : bytes) : option RpcIntErr :=
  find (fun e => bool_decide (RpcIntErr_as_bytes e = s)) RpcIntErr_all.

(** [impl From<std::io::Error> for RpcIntErr]. *)
Definition RpcIntErr_from_io {E} (_e : E) : RpcIntErr := IO.

(** ** EncodedErr *)

Inductive EncodedErr : Type :=
| ERpc (e : RpcIntErr)
| ENum (n : Z)
| EStatic (s : bytes)
| EBuf (b : bytes).

#[global] Instance EncodedErr_eq_dec : EqDecision EncodedErr.
Proof. solve_decision. Defined.

(** [impl From<RpcIntErr> for EncodedErr]. *)
Definition EncodedErr_from (e : RpcIntErr) : EncodedErr := ERpc e.

Definition try_as_str (x : EncodedErr) : result bytes unit :=
  match x with
  | EStatic s => Ok s
  | EBuf b => match from_utf8 b with Some s => Ok s | None => Err tt end
  | _ => Err tt
  end.

(** [impl PartialEq<EncodedErr> for EncodedErr]. *)
Definition EncodedErr_eqb (x y : EncodedErr) : bool :=
  match x with
  | ERpc e => match y with ERpc o => bool_decide (e = o) | _ => false end
  | ENum e => match y with ENum o => e =? o | _ => false end
  | EStatic s => match try_as_str y with Ok o => bool_decide (s = o) | Err _ => false end
  | EBuf s =>
    match y with
    | EBuf o => bool_decide (s = o)
    | _ =>
      match try_as_str y with
      | Ok o =>
        match from_utf8 s with Some s' => bool_decide (s' = o) | None => false end
      | Err _ => false
      end
    end
  end.

(** [impl fmt::Display for EncodedErr]; [{}] of an integer is its decimal form. *)
Definition EncodedErr_fmt (x : EncodedErr) : bytes :=
  match x with
  | ERpc e => RpcIntErr_as_bytes e
  | ENum no => str_bytes ("errno " +:+ pretty no)
  | EStatic s => s
  | EBuf b =>
    match from_utf8 b with
    | Some s => s
    | None => str_bytes ("err blob " +:+ pretty (zlen b) +:+ " length")
    end
  end.

(** ** RpcError *)

Inductive RpcError (E : Type) : Type :=
| User (e : E)
| Rpc (e : RpcIntErr).
Arguments User {E} e.
Arguments Rpc {E} e.

(** The three [PartialEq] impls of [RpcError<E>]. *)
Definition RpcError_eq_int {E} (x : RpcError E) (other : RpcIntErr) : bool :=
  match x with Rpc r => bool_decide (r = other) | _ => false end.

Definition RpcError_eq_user {E} `{!EqDecision E} (x : RpcError E) (other : E) : bool :=
  match x with User r => bool_decide (r = other) | _ => false end.

Definition RpcError_eqb {E} `{!EqDecision E} (x y : RpcError E) : bool :=
  match x with
  | Rpc r => match y with Rpc o => bool_decide (r = o) | _ => false end
  | User r => match y with User o => bool_decide (r = o) | _ => false end
  end.

(** ** The RpcErrCodec trait *)

(** [err_decode] receives [Ok code] for a numeric error and [Err buf] for a
    string one, as [buf: Result<u32, &[u8]>]. *)
Class RpcErrCodec (E : Type) : Type := {
  err_encode : E -> EncodedErr;
  err_decode : result Z bytes -> result E unit;
  err_fmt : E -> bytes;
  should_failover : E -> result (option bytes) unit;
}.

(** [Display] of [RpcIntErr], by strum, and of [RpcError]. *)
Definition RpcError_fmt {E} `{!RpcErrCodec E} (x : RpcError E) : bytes :=
  match x with User e => err_fmt e | Rpc e => RpcIntErr_as_bytes e end.

(** The provided method [should_failover]. *)
Definition should_failover_default {E} (_ : E) : result (option bytes) unit := Err tt.

(** *** impl_rpc_error_for_num!(i8, u8, i16, u16, i32, u32) *)

Inductive int_ty : Type := I8 | U8 | I16 | U16 | I32 | U32.

Definition int_bits (t : int_ty) : Z :=
  match t with I8 | U8 => 8 | I16 | U16 => 16 | I32 | U32 => 32 end.

Definition int_signed (t : int_ty) : bool :=
  match t with I8 | I16 | I32 => true | _ => false end.

Definition int_max (t : int_ty) : Z :=
  if int_signed t then 2 ^ (int_bits t - 1) - 1 else 2 ^ int_bits t - 1.

Definition int_min (t : int_ty) : Z :=
  if int_signed t then - 2 ^ (int_bits t - 1) else 0.

(** [i as $t]. *)
Definition int_cast (t : int_ty) (z : Z) : Z :=
  let u := z mod 2 ^ int_bits t in
  if int_signed t && (2 ^ (int_bits t - 1) <=? u) then u - 2 ^ int_bits t else u.

(** A value of the primitive type [t]. *)
Record rint (t : int_ty) : Type := RInt { rval : Z }.
Arguments RInt {t} rval.
Arguments rval {t} r.

Definition rint_ok {t} (x : rint t) : Prop := int_min t <= rval x <= int_max t.

Definition num_encode {t} (x : rint t) : EncodedErr := ENum (as_u32 (rval x)).

Definition num_decode {t} (buf : result Z bytes) : result (rint t) unit :=
  match buf with
  | Ok i => if i <=? int_max t then Ok (RInt (int_cast t i)) else Err tt
  | Err _ => Err tt
  end.

Definition num_fmt {t} (n : rint t) : bytes := str_bytes ("errno " +:+ pretty (rval n)).

#[global] Instance num_err_codec (t : int_ty) : RpcErrCodec (rint t) := {|
  err_encode := num_encode;
  err_decode := num_decode;
  err_fmt := num_fmt;
  should_failover := should_failover_default;
|}.

(** *** impl RpcErrCodec for () *)

Definition unit_encode (_ : unit) : EncodedErr := ENum 0.

Definition unit_decode (buf : result Z bytes) : result unit unit :=
  match buf with
  | Ok i => if i =? 0 then Ok tt else Err tt
  | Err _ => Err tt
  end.

#[global] Instance unit_err_codec : RpcErrCodec unit := {|
  err_encode := unit_encode;
  err_decode := unit_decode;
  err_fmt _ := str_bytes "err";
  should_failover := should_failover_default;
|}.

(** *** impl RpcErrCodec for String

    A [String] is the byte string it holds; being valid UTF-8 is [rstring_ok]. *)
Record rstring : Type := RString { rstr : bytes }.

Definition rstring_ok (s : rstring) : Prop := utf8_valid (rstr s) = true.

Definition string_encode (s : rstring) : EncodedErr := EBuf (rstr s).

Definition string_decode (buf : result Z bytes) : result rstring unit :=
  match buf with
  | Err s => match from_utf8 s with Some s' => Ok (RString s') | None => Err tt end
  | Ok _ => Err tt
  end.

#[global] Instance string_err_codec : RpcErrCodec rstring := {|
  err_encode := string_encode;
  err_decode := string_decode;
  err_fmt := rstr;
  should_failover := should_failover_default;
|}.

(** *** impl RpcErrCodec for nix::errno::Errno

    The enum of the nix crate is a parameter: its [as i32] value,
    [Errno::from_raw] and its [Debug] text. *)
Section errno.
Context {Errno : Type} (errno_raw : Errno -> Z) (from_raw : Z -> Errno) (errno_debug : Errno -> bytes).

Definition errno_encode (e : Errno) : EncodedErr := ENum (as_u32 (errno_raw e)).

Definition errno_decode (buf : result Z bytes) : result Errno unit :=
  match buf with
  | Ok i => if i <=? I32_MAX then Ok (from_raw (as_i32 i)) else Err tt
  | Err _ => Err tt
  end.

Definition errno_err_codec : RpcErrCodec Errno := {|
  err_encode := errno_encode;
  err_decode := errno_decode;
  err_fmt := errno_debug;
  should_failover := should_failover_default;
|}.

End errno.

(** ** What the transport delivers

    The client transport rebuilds an [EncodedErr] from what it reads: a code
    when the response carries a number, else a byte string, which is tried as
    an internal error first. [wire_err] is the value the receiving task is
    given for an error the server encoded as [x]. *)
Definition classify_buf (b : bytes) : EncodedErr :=
  if starts_with b RPC_ERR_PREFIX then
    match from_utf8 b with
    | Some s => match RpcIntErr_from_str s with Some e => ERpc e | None => EBuf b end
    | None => EBuf b
    end
  else EBuf b.

Definition wire_err (x : EncodedErr) : EncodedErr :=
  match x with
  | ENum n => ENum n
  | ERpc e => classify_buf (RpcIntErr_as_bytes e)
  | EStatic s => classify_buf s
  | EBuf b => classify_buf b
  end.

(** A user error that the receiving side can rebuild: its encoding is a [u32]
    code, or a byte string that is not the name of an internal error, and
    decoding gives it back. *)
Definition err_transportable {E} `{!RpcErrCodec E} (e : E) : Prop :=
  match wire_err (err_encode e) with
  | ENum n => is_u32 n /\ err_decode (Ok n) = Ok e
  | EBuf b => err_decode (Err b) = Ok e
  | _ => False
  end.

(** ** Lemmas *)

Lemma RpcIntErr_from_str_as_bytes e : RpcIntErr_from_str (RpcIntErr_as_bytes e) = Some e.
Proof. destruct e; vm_compute; reflexivity. Qed.

Lemma RpcIntErr_from_str_sound s e : RpcIntErr_from_str s = Some e -> s = RpcIntErr_as_bytes e.
Proof.
  unfold RpcIntErr_from_str. intros H.
  apply find_some in H as [_ H]. apply bool_decide_eq_true in H. done.
Qed.

Lemma RpcIntErr_as_bytes_prefix e : starts_with (RpcIntErr_as_bytes e) RPC_ERR_PREFIX = true.
Proof. destruct e; vm_compute; reflexivity. Qed.

Lemma RpcIntErr_as_bytes_utf8 e : utf8_valid (RpcIntErr_as_bytes e) = true.
Proof. destruct e; vm_compute; reflexivity. Qed.

Lemma RpcIntErr_as_bytes_len e : 0 < zlen (RpcIntErr_as_bytes e) <= 20.
Proof. destruct e; vm_compute; split; congruence. Qed.

Lemma classify_int e : classify_buf (RpcIntErr_as_bytes e) = ERpc e.
Proof.
  unfold classify_buf.
  rewrite RpcIntErr_as_bytes_prefix, from_utf8_valid by apply RpcIntErr_as_bytes_utf8.
  rewrite RpcIntErr_from_str_as_bytes. done.
Qed.

Lemma classify_buf_user b :
  (forall e, b <> RpcIntErr_as_bytes e) -> classify_buf b = EBuf b.
Proof.
  intros H. unfold classify_buf, from_utf8.
  destruct (starts_with b RPC_ERR_PREFIX); [|done].
  destruct (utf8_valid b); [|done].
  destruct (RpcIntErr_from_str b) eqn:E; [|done].
  apply RpcIntErr_from_str_sound in E. by destruct (H r).
Qed.

Lemma classify_buf_no_prefix b :
  starts_with b RPC_ERR_PREFIX = false -> classify_buf b = EBuf b.
Proof. unfold classify_buf. intros ->. done. Qed.

Lemma classify_buf_cases b :
  (exists e, b = RpcIntErr_as_bytes e /\ classify_buf b = ERpc e) \/ classify_buf b = EBuf b.
Proof.
  destruct (RpcIntErr_from_str b) as [e|] eqn:E.
  - left. exists e. apply RpcIntErr_from_str_sound in E as ->. auto using classify_int.
  - right. apply classify_buf_user. intros e ->.
    rewrite RpcIntErr_from_str_as_bytes in E. done.
Qed.

(** Casting to a type is the identity on the values of the type. *)
Lemma int_cast_small t z : 0 <= z <= int_max t -> int_cast t z = z.
Proof.
  unfold int_cast, int_max. intros H.
  assert (0 <= z < 2 ^ int_bits t) as Hz by (destruct t; simpl in *; lia).
  rewrite (Z.mod_small z) by done.
  destruct t; simpl in *; try done; rew_cmp; done.
Qed.

Lemma int_max_u32 t : 0 < int_max t < 2 ^ 32.
Proof. destruct t; vm_compute; split; congruence. Qed.

(** ** EncodedErr comparison as a setoid *)

Definition EncodedErr_equiv (x y : EncodedErr) : Prop := EncodedErr_eqb x y = true.

(** [==] identifies a static string and a buffer with the same UTF-8 content,
    and otherwise equal values only. *)
Lemma EncodedErr_eqb_spec x y :
  EncodedErr_eqb x y = true <->
  x = y \/
  exists s, utf8_valid s = true /\
    ((x = EStatic s /\ y = EBuf s) \/ (x = EBuf s /\ y = EStatic s)).
Proof.
  destruct x as [a|a|a|a], y as [b|b|b|b]; simpl;
    rewrite ?bool_decide_eq_true, ?Z.eqb_eq; try naive_solver.
  - unfold from_utf8. destruct (utf8_valid b) eqn:?; [rewrite bool_decide_eq_true|];
      naive_solver congruence.
  - unfold from_utf8. destruct (utf8_valid a) eqn:?; [rewrite bool_decide_eq_true|];
      naive_solver congruence.
Qed.

#[global] Instance EncodedErr_equivalence : Equivalence EncodedErr_equiv.
Proof.
  unfold EncodedErr_equiv. split; red; intros *; rewrite !EncodedErr_eqb_spec; naive_solver.
Qed.

(** Equal errors are displayed alike. *)
#[global] Instance EncodedErr_fmt_proper : Proper (EncodedErr_equiv ==> eq) EncodedErr_fmt.
Proof.
  intros x y [->|(s & Hs & [[-> ->]|[-> ->]])]%EncodedErr_eqb_spec; simpl;
    rewrite ?from_utf8_valid by done; done.
Qed.

(** ** Properties *)

(** The serialized names of the internal errors are pairwise distinct,
    parse back to the variant they name and to no other, all carry the
    reserved prefix, and are what the transport recognises as an internal error. *)
Theorem int_err_names_roundtrip s e :
  (RpcIntErr_from_str s = Some e <-> s = RpcIntErr_as_bytes e) /\
  starts_with (RpcIntErr_as_bytes e) RPC_ERR_PREFIX = true /\
  wire_err (EncodedErr_from e) = ERpc e.
Proof.
  split; [split|split].
  - apply RpcIntErr_from_str_sound.
  - intros ->. apply RpcIntErr_from_str_as_bytes.
  - apply RpcIntErr_as_bytes_prefix.
  - apply classify_int.
Qed.

(** The retriable errors are exactly the three connectivity errors. *)
Lemma retriable_iff e :
  RpcIntErr_ltb e Method = true <-> e = Unreachable \/ e = IO \/ e = Timeout.
Proof. destruct e; vm_compute; naive_solver. Qed.

Lemma int_negative_range t x :
  int_min t <= x <= int_max t -> x < 0 -> - 2 ^ 31 <= x /\ int_max t < 2 ^ 31.
Proof.
  assert (- 2 ^ 31 <= int_min t) by (destruct t; by vm_compute).
  assert (int_min t = 0 \/ int_max t < 2 ^ 31) by (destruct t; vm_compute; auto).
  lia.
Qed.

Lemma num_decode_encode {t} (x : rint t) :
  rint_ok x ->
  num_decode (t := t) (Ok (as_u32 (rval x))) = if 0 <=? rval x then Ok x else Err tt.
Proof.
  destruct x as [x]; unfold rint_ok, num_decode; cbn [rval]. intros Hx.
  pose proof (int_max_u32 t). destruct (Z.leb_spec 0 x).
  - rewrite as_u32_small by (unfold is_u32; lia). rew_cmp.
    rewrite int_cast_small by lia. done.
  - destruct (int_negative_range t x) as [? ?]; [done..|].
    assert (as_u32 x = x + 2 ^ 32) as ->.
    { unfold as_u32. symmetry. apply Z.mod_unique_pos with (q := -1); lia. }
    rew_cmp. done.
Qed.

(** C40. A numeric user error of any of the six built-in integer types is
    rebuilt by the client exactly when it is non-negative; a negative value is
    sent as its 32-bit two's complement and rejected by [decode]. *)
Theorem num_err_roundtrip_iff {t} (x : rint t) :
  rint_ok x -> (err_transportable x <-> 0 <= rval x).
Proof.
  intros Hx. unfold err_transportable.
  cbn [err_encode err_decode num_err_codec wire_err num_encode].
  rewrite num_decode_encode by done.
  pose proof (as_u32_range (rval x)).
  destruct (Z.leb_spec 0 (rval x)); split; try done; intros; lia || naive_solver.
Qed.

Lemma num_err_roundtrip_iff_witness :
  (rint_ok (@RInt I8 5) /\ err_transportable (@RInt I8 5)) /\
  (rint_ok (@RInt I16 (-1)) /\ ~ err_transportable (@RInt I16 (-1))).
Proof.
  split; (split; [vm_compute; split; congruence|]).
  - apply (num_err_roundtrip_iff (@RInt I8 5)); vm_compute; try split; congruence.
  - rewrite (num_err_roundtrip_iff (@RInt I16 (-1))); vm_compute; [tauto|split; congruence].
Defined.

(** The unit error is always rebuilt. *)
Lemma unit_err_transportable : err_transportable tt.
Proof. vm_compute. split; [split|]; congruence. Qed.

(** A string user error is rebuilt by the client exactly when it is not
    the name of an internal error; a string without the reserved prefix always is. *)
Theorem string_err_roundtrip s :
  rstring_ok s ->
  (err_transportable s <-> forall e, rstr s <> RpcIntErr_as_bytes e) /\
  (starts_with (rstr s) RPC_ERR_PREFIX = false -> err_transportable s).
Proof.
  unfold rstring_ok, err_transportable. destruct s as [s]; simpl. intros Hs.
  assert (string_decode (Err s) = Ok (RString s)) as Hd
    by (simpl; rewrite from_utf8_valid; done).
  split; [split|].
  - intros H e ->. rewrite classify_int in H. done.
  - intros H. rewrite classify_buf_user by done. done.
  - intros H. rewrite classify_buf_no_prefix by done. done.
Qed.

Lemma string_err_roundtrip_witness :
  rstring_ok (RString (str_bytes "not_found")) /\
  err_transportable (RString (str_bytes "not_found")).
Proof.
  split; [vm_compute; reflexivity|].
  apply (string_err_roundtrip (RString (str_bytes "not_found"))); vm_compute; reflexivity.
Defined.

(** With the nix crate's [from_raw] inverting the raw value, a non-negative
    errno is rebuilt. *)
Lemma errno_roundtrip {Errno} (raw : Errno -> Z) (from_raw : Z -> Errno) (debug : Errno -> bytes) e :
  (forall x, from_raw (raw x) = x) -> 0 <= raw e <= I32_MAX ->
  @err_transportable _ (errno_err_codec raw from_raw debug) e.
Proof.
  intros Hinv He. unfold err_transportable; simpl. unfold I32_MAX in *.
  rewrite as_u32_small by (unfold is_u32; lia). rew_cmp.
  rewrite as_i32_small by (unfold is_i32; lia). rewrite Hinv.
  split; [unfold is_u32; lia|done].
Qed.

(** The text of a user error is the same at both ends of the wire: for a string
    always, for a number exactly when it is not negative (the server prints the
    encoded number). *)
Lemma string_err_text (s : rstring) : rstring_ok s -> EncodedErr_fmt (err_encode s) = err_fmt s.
Proof. intros H. cbn. by rewrite from_utf8_valid. Qed.

Lemma num_err_text_iff {t} (n : rint t) :
  rint_ok n -> EncodedErr_fmt (err_encode n) = err_fmt n <-> 0 <= rval n.
Proof.
  intros Hn. assert (Hr : - 2 ^ 31 <= rval n < 2 ^ 32) by (destruct t; unfold rint_ok in Hn; cbn in Hn; lia).
  change (EncodedErr_fmt (num_encode n) = num_fmt n <-> 0 <= rval n). unfold num_fmt. split.
  - intros E. assert (He : pretty (as_u32 (rval n)) = pretty (rval n)).
    { unfold EncodedErr_fmt, num_encode, str_bytes in E. apply (f_equal String.string_of_list_byte) in E.
      rewrite !String.string_of_list_byte_of_string in E. by injection E. }
    apply (inj pretty) in He. unfold as_u32 in He. pose proof (Z.mod_pos_bound (rval n) (2 ^ 32) eq_refl). lia.
  - intros H0. unfold num_encode. by rewrite as_u32_small by (unfold is_u32; lia).
Qed.
