(* ===== verification/Codec.v ===== *)
(** * The codec interface and the msgpack codec (codec/src)

    [Codec] is the trait of codec/src/lib.rs, indexed by the message type its
    generic methods are used at. [CodecOk] states what the framework relies on;
    [MsgpCodec] is discharged from the documented behaviour of the [rmp_serde]
    functions it calls, which are parameters. *)
From Stdlib Require Import ZArith Lia.
From stdpp Require Import base list.
From S2P Require Import Prelude.
Local Open Scope Z_scope.

(** ** The trait *)

Class Codec (T : Type) : Type := {
  codec_encode : T -> result bytes unit;
  (** The new content of the buffer, and the size written. *)
  codec_encode_into : T -> bytes -> bytes * result Z unit;
  codec_decode : bytes -> result T unit;
}.

(** The contract: decoding inverts encoding, and encoding into a buffer
    appends exactly the encoding and reports its length. *)
Class CodecOk (T : Type) `{!Codec T} : Prop := {
  codec_decode_encode t b : codec_encode t = Ok b -> codec_decode b = Ok t;
  codec_encode_into_ok t b buf :
    codec_encode t = Ok b -> codec_encode_into t buf = (buf ++ b, Ok (zlen b));
  codec_encode_into_err t buf :
    codec_encode t = Err tt -> exists junk, codec_encode_into t buf = (buf ++ junk, Err tt);
}.

(** ** MsgpCodec *)

Section msgpack.
Context {T : Type}.
(** [rmp_serde::encode::to_vec_named], [write_named] (what it appended, and
    whether it succeeded) and [decode::from_slice]. *)
Context (to_vec_named : T -> option bytes).
Context (write_named : T -> bytes * bool).
Context (from_slice : bytes -> option T).

Definition MsgpCodec_encode (task : T) : result bytes unit :=
  match to_vec_named task with
  | Some buf => Ok buf
  | None => Err tt
  end.

Definition MsgpCodec_encode_into (task : T) (buf : bytes) : bytes * result Z unit :=
  let pre_len := zlen buf in
  let '(written, ok) := write_named task in
  let buf' := buf ++ written in
  if ok then (buf', Ok (zlen buf' - pre_len)) else (buf', Err tt).

Definition MsgpCodec_decode (buf : bytes) : result T unit :=
  match from_slice buf with
  | None => Err tt
  | Some s => Ok s
  end.

Definition MsgpCodec : Codec T := {|
  codec_encode := MsgpCodec_encode;
  codec_encode_into := MsgpCodec_encode_into;
  codec_decode := MsgpCodec_decode;
|}.

(** The two serializers of [rmp_serde] agree, and its deserializer inverts them. *)
Context (write_named_to_vec : forall t,
  match to_vec_named t with
  | Some b => write_named t = (b, true)
  | None => exists junk, write_named t = (junk, false)
  end).
Context (from_slice_to_vec : forall t b, to_vec_named t = Some b -> from_slice b = Some t).

(** The msgpack codec meets the codec contract whenever the
    serializers of rmp_serde agree with each other and its deserializer inverts
    them: decoding gives the value back, [encode_into] appends the encoding and
    returns the number of bytes it appended. *)
Lemma MsgpCodec_laws : @CodecOk T MsgpCodec.
Proof using write_named_to_vec from_slice_to_vec.
  split; simpl; unfold MsgpCodec_encode, MsgpCodec_encode_into, MsgpCodec_decode.
  - intros t b H. specialize (from_slice_to_vec t).
    destruct (to_vec_named t); simplify_eq. rewrite (from_slice_to_vec b); done.
  - intros t b buf H. specialize (write_named_to_vec t).
    destruct (to_vec_named t); simplify_eq. rewrite write_named_to_vec, zlen_app.
    repeat f_equal. lia.
  - intros t buf H. specialize (write_named_to_vec t).
    destruct (to_vec_named t); simplify_eq. destruct write_named_to_vec as [junk ->]. eauto.
Qed.

End msgpack.

(** ** A codec for witnesses: messages that are their own encoding *)

Definition raw_codec : Codec bytes := MsgpCodec Some (fun b => (b, true)) Some.

#[global] Instance raw_codec_laws : @CodecOk bytes raw_codec.
Proof. apply MsgpCodec_laws; [done|naive_solver]. Qed.
