(* ===== verification/Task.v ===== *)
(** * Actions and task traits

    [RpcAction] (stream/src/proto.rs), the client task traits
    (stream/src/client/task.rs) and the server response trait
    (stream/src/server/task.rs), as classes. A task is driven by the framework
    only through these operations, so the client and server layers are
    developed against them. *)
From Stdlib Require Import ZArith Lia.
From stdpp Require Import base list.
From S2P Require Import Prelude Errors.
Local Open Scope Z_scope.

(** ** RpcAction *)

Inductive RpcAction : Type :=
| AStr (s : bytes)
| ANum (n : Z).

Inductive RpcActionOwned : Type :=
| OStr (s : bytes)
| ONum (n : Z).

#[global] Instance RpcAction_eq_dec : EqDecision RpcAction.
Proof. solve_decision. Defined.

(** [impl From<RpcAction> for RpcActionOwned]. *)
Definition RpcActionOwned_from (a : RpcAction) : RpcActionOwned :=
  match a with AStr s => OStr s | ANum n => ONum n end.

Definition to_action (a : RpcActionOwned) : RpcAction :=
  match a with OStr s => AStr s | ONum n => ANum n end.

(** A value of the Rust type: a [str] is UTF-8, a number an [i32]. *)
Definition RpcAction_ok (a : RpcAction) : Prop :=
  match a with
  | AStr s => utf8_valid s = true /\ zlen s <= ISIZE_MAX
  | ANum n => is_i32 n
  end.

(** ** Client tasks

    [reserve_resp_blob] returns the task with its response buffer sized, and
    the length of the slice it lends, if any; [fill_resp_blob] is the write of
    received bytes into that slice. [done] only hands the task back to the
    user: the framework's calls of it are the [EvDone] events. *)
Class ClientTask (T : Type) : Type := {
  task_seq : T -> Z;
  set_seq : T -> Z -> T;
  get_action : T -> RpcAction;
  encode_req : T -> bytes -> bytes * result Z unit;
  get_req_blob : T -> option bytes;
  decode_resp : T -> bytes -> result T unit;
  reserve_resp_blob : T -> Z -> T * option Z;
  fill_resp_blob : T -> bytes -> T;
  set_custom_error : T -> EncodedErr -> Z -> Z -> T;
  set_rpc_error : T -> RpcIntErr -> T;
  set_ok : T -> T;
}.

(** What the timer and the transport rely on: the sequence number is the one
    set last, and recording an outcome does not change it. *)
Class ClientTaskOk (T : Type) `{!ClientTask T} : Prop := {
  task_seq_set_seq t s : task_seq (set_seq t s) = s;
  task_seq_set_rpc_error t e : task_seq (set_rpc_error t e) = task_seq t;
}.

(** How a task leaves the framework: handed to the user, or put on the retry
    channel of a failover pool ([ClientFacts::error_handle]). *)
Inductive event (T : Type) : Type :=
| EvDone (t : T)
| EvRetry (t : T).
Arguments EvDone {T} t.
Arguments EvRetry {T} t.

Definition ev_task {T} (e : event T) : T :=
  match e with EvDone t | EvRetry t => t end.

(** The provided method [ClientFacts::error_handle]. *)
Definition error_handle_default {T} (t : T) : event T := EvDone t.

(** ** Server responses

    [encode_resp] appends to the buffer and returns the sequence number with
    the message length and the blob, or the error to encode; it panics when
    the task carries no result. *)
Class ServerTaskEncode (R : Type) : Type := {
  encode_resp : R -> bytes -> may (bytes * (Z * result (Z * option bytes) EncodedErr));
}.

(** ** Contracts of a single task *)

(** The documented behaviour of [encode_req]: it appends the message and
    returns its size. *)
Definition encodes_to {T} `{!ClientTask T} (t : T) (msg : bytes) : Prop :=
  forall buf, encode_req t buf = (buf ++ msg, Ok (zlen msg)).

(** [encode_resp] appends [out] and returns [seq] with the outcome [r]. *)
Definition resp_yields {R} `{!ServerTaskEncode R} (t : R) (out : bytes) (seq : Z)
    (r : result (Z * option bytes) EncodedErr) : Prop :=
  forall buf, encode_resp t buf = Ret (buf ++ out, (seq, r)).

(** The actions both ends agree on: a number without sign bit, or a string
    whose length fits in 31 bits. *)
Definition action_sendable (a : RpcAction) : Prop :=
  match a with
  | ANum n => 0 <= n < 2 ^ 31
  | AStr s => utf8_valid s = true /\ zlen s < 2 ^ 31
  end.

Lemma to_action_from a : to_action (RpcActionOwned_from a) = a.
Proof. by destruct a. Qed.
