(* ===== verification/ApiClient.v ===== *)
(** * Client tasks of the API layer (src/client/task.rs)

    [APIClientReq] is the task every remote call of the API layer sends: its
    request is encoded when it is built, and its response and error stay
    encoded until [process_res]. It is the [ClientTask] instance the theorems
    of the lower layers are instantiated at. The one-shot channel of [noti] is
    present or not; [done] panics without it. *)
From Stdlib Require Import ZArith Lia Strings.String.
From stdpp Require Import base list.
From S2P Require Import Prelude Errors Codec Task.
Local Open Scope Z_scope.
Local Open Scope rpc_scope.

(** [ClientTaskCommon] (stream/src/client/task.rs). *)
Record ClientTaskCommon : Type := Common { common_seq : Z }.
Definition Common_set_seq (_ : ClientTaskCommon) (seq : Z) : ClientTaskCommon := Common seq.

Record APIClientReq : Type := APIReq {
  api_common : ClientTaskCommon;
  api_req_msg : option bytes;
  api_action : bytes;
  api_resp : option bytes;
  api_res : option (result unit EncodedErr);
  api_noti : bool;
  api_config_ver : Z;
  api_last_index : Z;
}.

#[global] Instance ClientTaskCommon_eq_dec : EqDecision ClientTaskCommon.
Proof. solve_decision. Defined.

(** ** Operations *)

Definition APIClientReq_new {Req} `{!Codec Req} (service_method : bytes) (req : Req)
    : may APIClientReq :=
  match codec_encode req with
  | Ok req_buf => Ret (APIReq (Common 0) (Some req_buf) service_method None None false 0 0)
  | Err _ => Panic
  end.

Definition api_set_noti (t : APIClientReq) : APIClientReq :=
  APIReq (api_common t) (api_req_msg t) (api_action t) (api_resp t) (api_res t) true
    (api_config_ver t) (api_last_index t).

Definition api_set_common (t : APIClientReq) (c : ClientTaskCommon) : APIClientReq :=
  APIReq c (api_req_msg t) (api_action t) (api_resp t) (api_res t) (api_noti t)
    (api_config_ver t) (api_last_index t).

Definition api_encode_req (t : APIClientReq) (buf : bytes) : bytes * result Z unit :=
  match api_req_msg t with
  | Some msg => (buf ++ msg, Ok (zlen msg))
  | None => (buf, Ok 0)
  end.

Definition api_decode_resp (t : APIClientReq) (buf : bytes) : result APIClientReq unit :=
  if negb (bool_decide (buf = []))
  then Ok (APIReq (api_common t) (api_req_msg t) (api_action t) (Some buf) (api_res t)
             (api_noti t) (api_config_ver t) (api_last_index t))
  else Ok t.

Definition api_set_res (t : APIClientReq) (r : result unit EncodedErr) : APIClientReq :=
  APIReq (api_common t) (api_req_msg t) (api_action t) (api_resp t) (Some r) (api_noti t)
    (api_config_ver t) (api_last_index t).

Definition api_set_custom_error (t : APIClientReq) (e : EncodedErr) (last_idx config_ver : Z)
    : APIClientReq :=
  let t := api_set_res t (Err e) in
  APIReq (api_common t) (api_req_msg t) (api_action t) (api_resp t) (api_res t) (api_noti t)
    config_ver last_idx.

Definition api_set_rpc_error (t : APIClientReq) (e : RpcIntErr) : APIClientReq :=
  api_set_res t (Err (EncodedErr_from e)).

Definition api_set_ok (t : APIClientReq) : APIClientReq := api_set_res t (Ok tt).

(** [done]: takes [noti] and sends the task through it. *)
Definition api_done (t : APIClientReq) : may APIClientReq :=
  if api_noti t
  then Ret (APIReq (api_common t) (api_req_msg t) (api_action t) (api_resp t) (api_res t) false
              (api_config_ver t) (api_last_index t))
  else Panic.

#[global] Instance APIClientReq_task : ClientTask APIClientReq := {|
  task_seq t := common_seq (api_common t);
  set_seq t s := api_set_common t (Common_set_seq (api_common t) s);
  get_action t := AStr (api_action t);
  encode_req := api_encode_req;
  get_req_blob _ := None;
  decode_resp := api_decode_resp;
  reserve_resp_blob t _ := (t, None);
  fill_resp_blob t _ := t;
  set_custom_error := api_set_custom_error;
  set_rpc_error := api_set_rpc_error;
  set_ok := api_set_ok;
|}.

(** [process_res]: the task with its result taken, and what the caller gets. *)
Definition process_res {Resp E} `{!Codec Resp} `{!RpcErrCodec E} (default : Resp)
    (t : APIClientReq) : may (APIClientReq * result Resp (RpcError E)) :=
  let? res := unwrap (api_res t) in
  let t := APIReq (api_common t) (api_req_msg t) (api_action t) (api_resp t) None
             (api_noti t) (api_config_ver t) (api_last_index t) in
  match res with
  | Ok _ =>
    match api_resp t with
    | Some resp =>
      match codec_decode resp with
      | Ok resp_msg => Ret (t, Ok resp_msg)
      | Err _ => Ret (t, Err (Rpc Decode))
      end
    | None => Ret (t, Ok default)
    end
  | Err (ERpc e) => Ret (t, Err (Rpc e))
  | Err (ENum n) =>
    match err_decode (Ok n) with
    | Ok e => Ret (t, Err (User e))
    | Err _ => Ret (t, Err (Rpc Decode))
    end
  | Err (EBuf buf) =>
    match err_decode (Err buf) with
    | Ok e => Ret (t, Err (User e))
    | Err _ => Ret (t, Err (Rpc Decode))
    end
  | Err (EStatic _) => Panic
  end.

(** ** Lemmas *)

#[global] Instance APIClientReq_task_ok : ClientTaskOk APIClientReq.
Proof. by split. Qed.

(** API tasks lend no buffer for blobs. *)
Lemma api_no_blob (t t' : APIClientReq) n m :
  0 < n -> reserve_resp_blob t n = (t', Some m) -> m = n.
Proof. intros _ H. cbn in H. congruence. Qed.

Lemma api_encodes_to t msg : api_req_msg t = Some msg -> encodes_to t msg.
Proof. intros H buf. cbn. unfold api_encode_req. by rewrite H. Qed.

(** A small task for concrete instances. *)
Definition sample_task (seq : Z) : APIClientReq :=
  APIReq (Common seq) (Some (str_bytes "ping"%string)) (str_bytes "Echo.repeat"%string)
    None None true 0 0.
