(* ===== verification/Proto.v ===== *)
(** * The wire protocol (stream/src/proto.rs)

    The two packed headers, their encoders and decoders. A buffer is the list
    of its initialised bytes; [set_len] on it exposes bytes the encoders always
    overwrite, so that what they produce does not depend on the buffer they are
    given ([ReqHead_encode_eq], [RespHead_encode_ok_eq]). *)
From Stdlib Require Import ZArith Lia.
From stdpp Require Import base list.
From S2P Require Import Prelude Errors Task.
Local Open Scope Z_scope.
Local Open Scope rpc_scope.

Definition PING_ACTION : Z := 0.
Definition RPC_MAGIC : Z := 19749.
Definition U32_HIGH_MASK : Z := Z.shiftl 1 31.
Definition RESP_FLAG_HAS_ERRNO : Z := 1.
Definition RESP_FLAG_HAS_ERR_STRING : Z := 2.
Definition RPC_VERSION_1 : Z := 1.

(** [size_of] of the two [repr(C, packed)] structs. *)
Definition RPC_REQ_HEADER_LEN : Z := 32.
Definition RPC_RESP_HEADER_LEN : Z := 20.

(** [unsafe { buf.set_len(n) }]. *)
Definition set_len (n : Z) (buf : bytes) : bytes := resize n buf.

(** ** ReqHead *)

Record ReqHead : Type := {
  rq_magic : Z;
  rq_ver : Z;
  rq_format : Z;
  rq_action : Z;
  rq_seq : Z;
  rq_client_id : Z;
  rq_msg_len : Z;
  rq_blob_len : Z;
}.

(** [IntoBytes] / [FromBytes] of the packed layout. *)
Definition ReqHead_to_bytes (h : ReqHead) : bytes :=
  le_bytes 2 (rq_magic h) ++ le_bytes 1 (rq_ver h) ++ le_bytes 1 (rq_format h) ++
  le_bytes 4 (rq_action h) ++ le_bytes 8 (rq_seq h) ++ le_bytes 8 (rq_client_id h) ++
  le_bytes 4 (rq_msg_len h) ++ le_bytes 4 (rq_blob_len h).

Definition ReqHead_ref_from_bytes (b : bytes) : option ReqHead :=
  if zlen b =? RPC_REQ_HEADER_LEN then
    Some {|
      rq_magic := le_val (take 2 b);
      rq_ver := le_val (take 1 (drop 2 b));
      rq_format := le_val (take 1 (drop 3 b));
      rq_action := le_val (take 4 (drop 4 b));
      rq_seq := le_val (take 8 (drop 8 b));
      rq_client_id := le_val (take 8 (drop 16 b));
      rq_msg_len := le_val (take 4 (drop 24 b));
      rq_blob_len := le_val (take 4 (drop 28 b));
    |}
  else None.

Definition ReqHead_write_head (buf : bytes) (client_id action seq msg_len blob_len : Z) : may bytes :=
  if zlen buf <? RPC_REQ_HEADER_LEN then Panic
  else
    Ret (ReqHead_to_bytes {|
           rq_magic := RPC_MAGIC;
           rq_ver := RPC_VERSION_1;
           rq_format := 0;
           rq_action := action;
           rq_seq := seq;
           rq_client_id := client_id;
           rq_msg_len := msg_len;
           rq_blob_len := as_u32 blob_len;
         |} ++ drop (Z.to_nat RPC_REQ_HEADER_LEN) buf).

Definition ReqHead_encode_ping (buf : bytes) (client_id seq : Z) : may bytes :=
  ReqHead_write_head (set_len RPC_REQ_HEADER_LEN buf) client_id PING_ACTION seq 0 0.

(** Write header, action and message; the blob is returned for a second write. *)
Definition ReqHead_encode {T} `{!ClientTask T} (buf : bytes) (client_id : Z) (task : T)
    : may (bytes * result (option bytes) unit) :=
  let buf0 := set_len RPC_REQ_HEADER_LEN buf in
  let '(action_flag, buf1) :=
    match get_action task with
    | ANum num => (as_u32 num, buf0)
    | AStr s => (Z.lor (as_u32 (zlen s)) U32_HIGH_MASK, buf0 ++ s)
    end in
  match encode_req task buf1 with
  | (buf2, Err _) => Ret (buf2, Err tt)
  | (buf2, Ok msg_len) =>
    if U32_MAX <? msg_len then Ret (buf2, Err tt)
    else
      let blob := get_req_blob task in
      let blob_len := match blob with Some b => zlen b | None => 0 end in
      if I32_MAX <? blob_len then Ret (buf2, Err tt)
      else
        let? buf3 := ReqHead_write_head buf2 client_id action_flag (task_seq task)
                       (as_u32 msg_len) (as_i32 blob_len) in
        Ret (buf3, Ok blob)
  end.

Definition ReqHead_decode_head (head_buf : bytes) : may (result ReqHead RpcIntErr) :=
  let? head := unwrap (ReqHead_ref_from_bytes head_buf) in
  if negb (rq_magic head =? RPC_MAGIC) then Ret (Err IO)
  else if negb (rq_ver head =? RPC_VERSION_1) then Ret (Err Version)
  else Ret (Ok head).

(** [Ok] of a numeric action, [Err] of the length of a string action. *)
Definition ReqHead_get_action (h : ReqHead) : result Z Z :=
  if Z.land (rq_action h) U32_HIGH_MASK =? 0 then Ok (as_i32 (rq_action h))
  else Err (as_i32 (Z.lxor (rq_action h) U32_HIGH_MASK)).

(** ** RespHead *)

Record RespHead : Type := {
  rs_magic : Z;
  rs_ver : Z;
  rs_flag : Z;
  rs_msg_len : Z;
  rs_seq : Z;
  rs_blob_len : Z;
}.

Definition RespHead_to_bytes (h : RespHead) : bytes :=
  le_bytes 2 (rs_magic h) ++ le_bytes 1 (rs_ver h) ++ le_bytes 1 (rs_flag h) ++
  le_bytes 4 (rs_msg_len h) ++ le_bytes 8 (rs_seq h) ++ le_bytes 4 (rs_blob_len h).

Definition RespHead_ref_from_bytes (b : bytes) : option RespHead :=
  if zlen b =? RPC_RESP_HEADER_LEN then
    Some {|
      rs_magic := le_val (take 2 b);
      rs_ver := le_val (take 1 (drop 2 b));
      rs_flag := le_val (take 1 (drop 3 b));
      rs_msg_len := le_val (take 4 (drop 4 b));
      rs_seq := le_val (take 8 (drop 8 b));
      rs_blob_len := as_i32 (le_val (take 4 (drop 16 b)));
    |}
  else None.

Definition RespHead_write_head (buf : bytes) (flag seq msg_len blob_len : Z) : may bytes :=
  if zlen buf <? RPC_RESP_HEADER_LEN then Panic
  else
    Ret (RespHead_to_bytes {|
           rs_magic := RPC_MAGIC;
           rs_ver := RPC_VERSION_1;
           rs_flag := flag;
           rs_msg_len := msg_len;
           rs_seq := seq;
           rs_blob_len := blob_len;
         |} ++ drop (Z.to_nat RPC_RESP_HEADER_LEN) buf).

(** [write_err!]: the header announces the string, which is appended to the
    buffer as it is. *)
Definition RespHead_write_err (buf : bytes) (seq : Z) (s : bytes) : may bytes :=
  let? buf' := RespHead_write_head buf RESP_FLAG_HAS_ERR_STRING seq 0 (as_i32 (zlen s)) in
  Ret (buf' ++ s).

Definition RespHead_encode_error (buf : bytes) (seq : Z) (e : EncodedErr) : may bytes :=
  match e with
  | ENum n => RespHead_write_head buf RESP_FLAG_HAS_ERRNO seq n 0
  | ERpc s => RespHead_write_err buf seq (RpcIntErr_as_bytes s)
  | EBuf s => RespHead_write_err buf seq s
  | EStatic s => RespHead_write_err buf seq s
  end.

Definition RespHead_encode {R} `{!ServerTaskEncode R} (buf : bytes) (task : R)
    : may (bytes * (Z * option bytes)) :=
  let buf0 := set_len RPC_RESP_HEADER_LEN buf in
  let? (buf1, (seq, r)) := encode_resp task buf0 in
  match r with
  | Ok (msg_len, None) =>
    if U32_MAX <? msg_len then
      let? buf2 := RespHead_encode_error buf1 seq (ERpc Encode) in
      Ret (buf2, (seq, None))
    else
      let? buf2 := RespHead_write_head buf1 0 seq (as_u32 msg_len) 0 in
      Ret (buf2, (seq, None))
  | Ok (msg_len, Some blob) =>
    if U32_MAX <? msg_len then
      let? buf2 := RespHead_encode_error buf1 seq (ERpc Encode) in
      Ret (buf2, (seq, None))
    else if I32_MAX <? zlen blob then
      let? buf2 := RespHead_encode_error buf1 seq (ERpc Encode) in
      Ret (buf2, (seq, None))
    else
      let? buf2 := RespHead_write_head buf1 0 seq (as_u32 msg_len) (as_i32 (zlen blob)) in
      Ret (buf2, (seq, Some blob))
  | Err e =>
    let? buf2 := RespHead_encode_error buf1 seq e in
    Ret (buf2, (seq, None))
  end.

Definition RespHead_encode_internal (buf : bytes) (seq : Z) (err : option RpcIntErr) : may (bytes * Z) :=
  let buf0 := set_len RPC_RESP_HEADER_LEN buf in
  match err with
  | Some e =>
    let? buf1 := RespHead_encode_error buf0 seq (EncodedErr_from e) in
    Ret (buf1, seq)
  | None =>
    let? buf1 := RespHead_write_head buf0 0 seq 0 0 in
    Ret (buf1, seq)
  end.

Definition RespHead_decode_head (head_buf : bytes) : may (result RespHead RpcIntErr) :=
  let? head := unwrap (RespHead_ref_from_bytes head_buf) in
  if negb (rs_magic head =? RPC_MAGIC) then Ret (Err IO)
  else if negb (rs_ver head =? RPC_VERSION_1) then Ret (Err Version)
  else Ret (Ok head).

(** ** Well-formed headers: every field in the range of its type *)

Definition ReqHead_ok (h : ReqHead) : Prop :=
  0 <= rq_magic h < 2 ^ 16 /\ is_u8 (rq_ver h) /\ is_u8 (rq_format h) /\
  is_u32 (rq_action h) /\ is_u64 (rq_seq h) /\ is_u64 (rq_client_id h) /\
  is_u32 (rq_msg_len h) /\ is_u32 (rq_blob_len h).

Definition RespHead_ok (h : RespHead) : Prop :=
  0 <= rs_magic h < 2 ^ 16 /\ is_u8 (rs_ver h) /\ is_u8 (rs_flag h) /\
  is_u32 (rs_msg_len h) /\ is_u64 (rs_seq h) /\ is_i32 (rs_blob_len h).

(** ** Lemmas on layouts *)

Lemma le_val_field n z rest :
  0 <= z < 256 ^ Z.of_nat n -> le_val (take n (le_bytes n z ++ rest)) = z.
Proof.
  intros H. rewrite take_app_le by (rewrite length_le_bytes; lia).
  rewrite take_ge by (rewrite length_le_bytes; lia).
  rewrite le_val_le_bytes. apply Z.mod_small. done.
Qed.

Lemma drop_field n m z rest :
  drop (n + m) (le_bytes n z ++ rest) = drop m rest.
Proof.
  rewrite drop_app_ge by (rewrite length_le_bytes; lia).
  rewrite length_le_bytes. f_equal. lia.
Qed.

Lemma zlen_ReqHead_to_bytes h : zlen (ReqHead_to_bytes h) = RPC_REQ_HEADER_LEN.
Proof. unfold zlen, ReqHead_to_bytes. rewrite !length_app, !length_le_bytes. done. Qed.

Lemma zlen_RespHead_to_bytes h : zlen (RespHead_to_bytes h) = RPC_RESP_HEADER_LEN.
Proof. unfold zlen, RespHead_to_bytes. rewrite !length_app, !length_le_bytes. done. Qed.

#[export] Hint Rewrite zlen_ReqHead_to_bytes zlen_RespHead_to_bytes : rpc_len.

(** Read the fields of a packed record one after the other. *)
Ltac read_fields :=
  repeat match goal with
  | |- context [drop ?k (le_bytes ?n ?z ++ ?rest)] =>
      let m := eval compute in (k - n)%nat in
      change (drop k (le_bytes n z ++ rest)) with (drop (n + m) (le_bytes n z ++ rest));
      rewrite (drop_field n m z rest)
  | |- context [drop 0 ?l] => change (drop 0 l) with l
  end.

Lemma ReqHead_from_to_bytes h :
  ReqHead_ok h -> ReqHead_ref_from_bytes (ReqHead_to_bytes h) = Some h.
Proof.
  intros (?&?&?&?&?&?&?&?). unfold ReqHead_ref_from_bytes.
  rewrite zlen_ReqHead_to_bytes. cbn [Z.eqb RPC_REQ_HEADER_LEN Pos.eqb].
  unfold ReqHead_to_bytes. rewrite <-(app_nil_r (le_bytes 4 (rq_blob_len h))).
  read_fields. rewrite !le_val_field by assumption. destruct h; done.
Qed.

Lemma RespHead_from_to_bytes h :
  RespHead_ok h -> RespHead_ref_from_bytes (RespHead_to_bytes h) = Some h.
Proof.
  intros (?&?&?&?&?&?). unfold RespHead_ref_from_bytes.
  rewrite zlen_RespHead_to_bytes. cbn [Z.eqb RPC_RESP_HEADER_LEN Pos.eqb].
  unfold RespHead_to_bytes. rewrite <-(app_nil_r (le_bytes 4 (rs_blob_len h))).
  read_fields. rewrite !le_val_field by assumption.
  rewrite take_app_le by (rewrite length_le_bytes; lia).
  rewrite take_ge by (rewrite length_le_bytes; lia).
  rewrite le_val_le_bytes.
  change (rs_blob_len h mod 256 ^ Z.of_nat 4) with (as_u32 (rs_blob_len h)).
  rewrite as_i32_as_u32, as_i32_small by done. destruct h; done.
Qed.

Lemma ReqHead_to_from_bytes b h :
  ReqHead_ref_from_bytes b = Some h -> ReqHead_to_bytes h = b /\ ReqHead_ok h.
Proof.
  unfold ReqHead_ref_from_bytes. case_match eqn:E; intros; simplify_eq.
  apply Z.eqb_eq in E. unfold zlen, RPC_REQ_HEADER_LEN in E.
  split.
  - unfold ReqHead_to_bytes; cbn [rq_magic rq_ver rq_format rq_action rq_seq rq_client_id
      rq_msg_len rq_blob_len].
    rewrite !le_bytes_take by (rewrite ?length_drop; lia).
    rewrite (take_ge (drop 28 b)) by (rewrite length_drop; lia).
    rewrite (take_drop_app 24 4), (take_drop_app 16 8), (take_drop_app 8 8), (take_drop_app 4 4),
      (take_drop_app 3 1), (take_drop_app 2 1).
    apply (take_drop 2).
  - assert (forall n m, (n + m <= 32)%nat -> 0 <= le_val (take m (drop n b)) < 256 ^ Z.of_nat m) as Hf.
    { intros n m Hnm. pose proof (le_val_bound (take m (drop n b))) as Hb.
      unfold zlen in Hb. rewrite length_take, length_drop in Hb.
      replace (m `min` (length b - n))%nat with m in Hb by lia. done. }
    repeat split; simpl; try apply (Hf 0%nat 2%nat); try apply Hf; lia.
Qed.

Lemma RespHead_to_from_bytes b h :
  RespHead_ref_from_bytes b = Some h -> RespHead_to_bytes h = b /\ RespHead_ok h.
Proof.
  unfold RespHead_ref_from_bytes. case_match eqn:E; intros; simplify_eq.
  apply Z.eqb_eq in E. unfold zlen, RPC_RESP_HEADER_LEN in E.
  assert (forall n m, (n + m <= 20)%nat -> 0 <= le_val (take m (drop n b)) < 256 ^ Z.of_nat m) as Hf.
  { intros n m Hnm. pose proof (le_val_bound (take m (drop n b))) as Hb.
    unfold zlen in Hb. rewrite length_take, length_drop in Hb.
    replace (m `min` (length b - n))%nat with m in Hb by lia. done. }
  split.
  - unfold RespHead_to_bytes; cbn [rs_magic rs_ver rs_flag rs_msg_len rs_seq rs_blob_len].
    rewrite <-(le_bytes_mod 4 (as_i32 _)).
    change (as_i32 ?v mod 256 ^ Z.of_nat 4) with (as_u32 (as_i32 v)).
    rewrite as_u32_as_i32, as_u32_small by (apply Hf; lia).
    rewrite !le_bytes_take by (rewrite ?length_drop; lia).
    rewrite (take_ge (drop 16 b)) by (rewrite length_drop; lia).
    rewrite (take_drop_app 8 8), (take_drop_app 4 4), (take_drop_app 3 1), (take_drop_app 2 1).
    apply (take_drop 2).
  - repeat split; simpl; try apply (Hf 0%nat 2%nat); try apply Hf; try apply as_i32_range; lia.
Qed.

(** ** Lemmas on encoders *)

(** The action field of the header, and what follows the header for it. *)
Definition action_flag (a : RpcAction) : Z :=
  match a with
  | ANum num => as_u32 num
  | AStr s => Z.lor (as_u32 (zlen s)) U32_HIGH_MASK
  end.

Definition action_body (a : RpcAction) : bytes :=
  match a with ANum _ => [] | AStr s => s end.

Definition blob_size (blob : option bytes) : Z :=
  match blob with Some b => zlen b | None => 0 end.

(** The header [ReqHead_encode] writes. *)
Definition req_head {T} `{!ClientTask T} (client_id : Z) (t : T) (msg : bytes) : ReqHead := {|
  rq_magic := RPC_MAGIC;
  rq_ver := RPC_VERSION_1;
  rq_format := 0;
  rq_action := action_flag (get_action t);
  rq_seq := task_seq t;
  rq_client_id := client_id;
  rq_msg_len := zlen msg;
  rq_blob_len := blob_size (get_req_blob t);
|}.

Lemma zlen_set_len n buf : 0 <= n -> zlen (set_len n buf) = n.
Proof. apply zlen_resize. Qed.

Lemma ReqHead_write_head_app pre rest cid act seq ml bl :
  zlen pre = RPC_REQ_HEADER_LEN ->
  ReqHead_write_head (pre ++ rest) cid act seq ml bl =
  Ret (ReqHead_to_bytes {| rq_magic := RPC_MAGIC; rq_ver := RPC_VERSION_1; rq_format := 0;
         rq_action := act; rq_seq := seq; rq_client_id := cid; rq_msg_len := ml;
         rq_blob_len := as_u32 bl |} ++ rest).
Proof.
  intros Hp. unfold ReqHead_write_head. rewrite zlen_app.
  pose proof (zlen_nonneg rest). rew_cmp. rewrite <-Hp, drop_zlen_app. done.
Qed.

Lemma RespHead_write_head_app pre rest flag seq ml bl :
  zlen pre = RPC_RESP_HEADER_LEN ->
  RespHead_write_head (pre ++ rest) flag seq ml bl =
  Ret (RespHead_to_bytes {| rs_magic := RPC_MAGIC; rs_ver := RPC_VERSION_1; rs_flag := flag;
         rs_msg_len := ml; rs_seq := seq; rs_blob_len := bl |} ++ rest).
Proof.
  intros Hp. unfold RespHead_write_head. rewrite zlen_app.
  pose proof (zlen_nonneg rest). rew_cmp. rewrite <-Hp, drop_zlen_app. done.
Qed.

Lemma blob_size_nonneg b : 0 <= blob_size b.
Proof. destruct b; simpl; [apply zlen_nonneg|lia]. Qed.

Section encode_lemmas.
Context {T : Type} `{!ClientTask T}.

(** A successful encoding is the header, the action string and the message. *)
Lemma ReqHead_encode_eq buf cid t msg :
  encodes_to t msg -> zlen msg <= U32_MAX -> blob_size (get_req_blob t) <= I32_MAX ->
  ReqHead_encode buf cid t =
  Ret (ReqHead_to_bytes (req_head cid t msg) ++ action_body (get_action t) ++ msg,
       Ok (get_req_blob t)).
Proof.
  intros He Hm Hb. unfold ReqHead_encode, req_head.
  pose proof (zlen_nonneg msg). pose proof (blob_size_nonneg (get_req_blob t)).
  unfold U32_MAX, I32_MAX in *. fold (blob_size (get_req_blob t)).
  pose proof (zlen_set_len RPC_REQ_HEADER_LEN buf ltac:(done)) as Hl.
  assert (as_u32 (as_i32 (blob_size (get_req_blob t))) = blob_size (get_req_blob t)) as Hbl
    by (rewrite as_u32_as_i32; apply as_u32_small; unfold is_u32; lia).
  assert (as_u32 (zlen msg) = zlen msg) as Hml by (apply as_u32_small; unfold is_u32; lia).
  destruct (get_action t) as [s|n]; cbn [action_flag action_body]; rewrite He;
    do 2 rew_cmp.
  - rewrite <-app_assoc, ReqHead_write_head_app by done.
    simpl. rewrite Hbl, Hml. done.
  - rewrite ReqHead_write_head_app by done. simpl. rewrite Hbl, Hml. done.
Qed.

(** A message or a blob over the limit, or a failing codec, is refused. *)
Lemma ReqHead_encode_err buf cid t buf' r :
  (forall b, encode_req t b = (buf' b, r)) ->
  (r = Err tt \/ (exists n, r = Ok n /\ U32_MAX < n) \/ I32_MAX < blob_size (get_req_blob t)) ->
  exists b, ReqHead_encode buf cid t = Ret (b, Err tt).
Proof.
  intros He Hr. unfold ReqHead_encode. fold (blob_size (get_req_blob t)).
  destruct (get_action t) as [s|k]; rewrite He;
    (destruct r as [n|[]]; [|eauto]);
    (destruct (Z.ltb_spec U32_MAX n); [eauto|]);
    (destruct (Z.ltb_spec I32_MAX (blob_size (get_req_blob t))); [eauto|]);
    naive_solver lia.
Qed.

Lemma action_flag_u32 a :
  match a with ANum n => is_i32 n | AStr s => zlen s < 2 ^ 31 end -> is_u32 (action_flag a).
Proof.
  destruct a as [s|n]; simpl; intros H; [|apply as_u32_range].
  pose proof (zlen_nonneg s). rewrite as_u32_small by (unfold is_u32; lia).
  change U32_HIGH_MASK with (2 ^ 31). rewrite lor_high by lia. unfold is_u32. lia.
Qed.

Lemma req_head_ok cid t msg :
  is_u64 cid -> is_u64 (task_seq t) -> zlen msg <= U32_MAX ->
  blob_size (get_req_blob t) <= I32_MAX ->
  match get_action t with ANum n => is_i32 n | AStr s => zlen s < 2 ^ 31 end ->
  ReqHead_ok (req_head cid t msg).
Proof.
  intros Hc Hs Hm Hb Ha%action_flag_u32. pose proof (zlen_nonneg msg).
  pose proof (blob_size_nonneg (get_req_blob t)). unfold U32_MAX, I32_MAX, is_u32 in *.
  unfold ReqHead_ok, is_u8, is_u32 in *; simpl; unfold RPC_MAGIC, RPC_VERSION_1.
  repeat split; try apply Hc; try apply Hs; try tauto; lia.
Qed.

Lemma action_sendable_fits a :
  action_sendable a -> match a with ANum n => is_i32 n | AStr s => zlen s < 2 ^ 31 end.
Proof. destruct a; simpl; unfold is_i32; [tauto|lia]. Qed.

End encode_lemmas.

(** The receiving side reads the action back from the header field. *)
Lemma get_action_flag h a :
  action_sendable a -> rq_action h = action_flag a ->
  ReqHead_get_action h = match a with ANum n => Ok n | AStr s => Err (zlen s) end.
Proof.
  intros Ha Hh. unfold ReqHead_get_action. rewrite Hh. change U32_HIGH_MASK with (2 ^ 31).
  destruct a as [s|n]; simpl in *.
  - change U32_HIGH_MASK with (2 ^ 31). pose proof (zlen_nonneg s).
    rewrite as_u32_small by (unfold is_u32; lia).
    rewrite lor_high, land_high_set by lia.
    change (2 ^ 31 =? 0) with false. cbv iota.
    rewrite lxor_high_set, as_i32_small by (unfold is_i32; lia). done.
  - rewrite as_u32_small by (unfold is_u32; lia). rewrite land_high by lia.
    rewrite as_i32_small by (unfold is_i32; lia). done.
Qed.

(** ** Responses *)

(** The header and the body that announce an error, when nothing else is in
    the buffer. *)
Definition err_head (seq : Z) (e : EncodedErr) : RespHead :=
  let mk flag ml bl := {| rs_magic := RPC_MAGIC; rs_ver := RPC_VERSION_1; rs_flag := flag;
                          rs_msg_len := ml; rs_seq := seq; rs_blob_len := bl |} in
  match e with
  | ENum n => mk RESP_FLAG_HAS_ERRNO n 0
  | ERpc s => mk RESP_FLAG_HAS_ERR_STRING 0 (as_i32 (zlen (RpcIntErr_as_bytes s)))
  | EBuf s => mk RESP_FLAG_HAS_ERR_STRING 0 (as_i32 (zlen s))
  | EStatic s => mk RESP_FLAG_HAS_ERR_STRING 0 (as_i32 (zlen s))
  end.

Definition err_body (e : EncodedErr) : bytes :=
  match e with
  | ENum _ => []
  | ERpc s => RpcIntErr_as_bytes s
  | EBuf s => s
  | EStatic s => s
  end.

Definition ok_head (seq : Z) (msg : bytes) (blob : option bytes) : RespHead := {|
  rs_magic := RPC_MAGIC;
  rs_ver := RPC_VERSION_1;
  rs_flag := 0;
  rs_msg_len := zlen msg;
  rs_seq := seq;
  rs_blob_len := blob_size blob;
|}.

(** An error that fits the header's fields. *)
Definition err_sendable (e : EncodedErr) : Prop :=
  match e with
  | ENum n => is_u32 n
  | _ => zlen (err_body e) <= I32_MAX
  end.

Lemma RespHead_encode_error_eq pre out seq e :
  zlen pre = RPC_RESP_HEADER_LEN ->
  RespHead_encode_error (pre ++ out) seq e =
  Ret (RespHead_to_bytes (err_head seq e) ++ out ++ err_body e).
Proof.
  intros Hp. unfold RespHead_encode_error, RespHead_write_err.
  destruct e; rewrite RespHead_write_head_app by done; simpl; rewrite <-?app_assoc, ?app_nil_r; done.
Qed.

Lemma err_head_ok seq e : is_u64 seq -> err_sendable e -> RespHead_ok (err_head seq e).
Proof.
  intros Hs He. unfold RespHead_ok, is_u8, is_u32.
  destruct e; simpl in *; unfold RPC_MAGIC, RPC_VERSION_1, RESP_FLAG_HAS_ERRNO,
    RESP_FLAG_HAS_ERR_STRING, is_i32;
    repeat split; try apply Hs; try apply He; try apply as_i32_range; lia.
Qed.

Lemma ok_head_ok seq msg blob :
  is_u64 seq -> zlen msg <= U32_MAX -> blob_size blob <= I32_MAX ->
  RespHead_ok (ok_head seq msg blob).
Proof.
  intros Hs Hm Hb. pose proof (zlen_nonneg msg). pose proof (blob_size_nonneg blob).
  unfold RespHead_ok, is_u8, is_u32, is_i32, U32_MAX, I32_MAX in *; simpl;
    unfold RPC_MAGIC, RPC_VERSION_1.
  repeat split; try apply Hs; lia.
Qed.

Section encode_resp_lemmas.
Context {R : Type} `{!ServerTaskEncode R}.

Lemma RespHead_encode_ok_eq buf (r : R) msg seq blob :
  resp_yields r msg seq (Ok (zlen msg, blob)) ->
  zlen msg <= U32_MAX -> blob_size blob <= I32_MAX ->
  RespHead_encode buf r = Ret (RespHead_to_bytes (ok_head seq msg blob) ++ msg, (seq, blob)).
Proof.
  intros Hr Hm Hb. unfold RespHead_encode. rewrite Hr. cbn [may_bind].
  pose proof (zlen_set_len RPC_RESP_HEADER_LEN buf ltac:(done)) as Hl.
  pose proof (zlen_nonneg msg). pose proof (blob_size_nonneg blob). unfold U32_MAX, I32_MAX in *.
  unfold ok_head.
  destruct blob as [b|]; simpl in *; repeat rew_cmp; rewrite RespHead_write_head_app by done;
    simpl; rewrite as_u32_small by (unfold is_u32; lia);
    rewrite ?as_i32_small by (unfold is_i32; lia); done.
Qed.

Lemma RespHead_encode_err_eq buf (r : R) out seq e :
  resp_yields r out seq (Err e) ->
  RespHead_encode buf r =
  Ret (RespHead_to_bytes (err_head seq e) ++ out ++ err_body e, (seq, None)).
Proof.
  intros Hr. unfold RespHead_encode. rewrite Hr. cbn [may_bind].
  rewrite RespHead_encode_error_eq by (by apply zlen_set_len). done.
Qed.

(** A response over a size limit is replaced by an encode error, behind the
    message already in the buffer. *)
Lemma RespHead_encode_oversize_eq buf (r : R) msg seq n blob :
  resp_yields r msg seq (Ok (n, blob)) ->
  U32_MAX < n \/ I32_MAX < blob_size blob ->
  RespHead_encode buf r =
  Ret (RespHead_to_bytes (err_head seq (ERpc Encode)) ++ msg ++ err_body (ERpc Encode), (seq, None)).
Proof.
  intros Hr Hbig. unfold RespHead_encode. rewrite Hr. cbn [may_bind].
  pose proof (RespHead_encode_error_eq (set_len RPC_RESP_HEADER_LEN buf) msg seq (ERpc Encode)
    ltac:(by apply zlen_set_len)) as He.
  destruct blob as [b|]; simpl in Hbig.
  - destruct (Z.ltb_spec U32_MAX n); [rewrite He; done|].
    destruct (Z.ltb_spec I32_MAX (zlen b)); [rewrite He; done|]. lia.
  - destruct (Z.ltb_spec U32_MAX n); [rewrite He; done|].
    unfold I32_MAX in *. lia.
Qed.

End encode_resp_lemmas.

Lemma RespHead_encode_internal_eq buf seq err :
  RespHead_encode_internal buf seq err =
  match err with
  | Some e => Ret (RespHead_to_bytes (err_head seq (ERpc e)) ++ RpcIntErr_as_bytes e, seq)
  | None => Ret (RespHead_to_bytes (ok_head seq [] None), seq)
  end.
Proof.
  unfold RespHead_encode_internal.
  pose proof (zlen_set_len RPC_RESP_HEADER_LEN buf ltac:(done)) as Hl.
  rewrite <-(app_nil_r (set_len _ buf)).
  destruct err as [e|].
  - rewrite RespHead_encode_error_eq by done. done.
  - rewrite RespHead_write_head_app by done. cbn [may_bind]. rewrite app_nil_r. done.
Qed.

(** The decoders accept exactly the headers with the right magic and version. *)
Lemma RespHead_decode_to_bytes h :
  RespHead_ok h -> rs_magic h = RPC_MAGIC -> rs_ver h = RPC_VERSION_1 ->
  RespHead_decode_head (RespHead_to_bytes h) = Ret (Ok h).
Proof.
  intros Hok Hm Hv. unfold RespHead_decode_head. rewrite RespHead_from_to_bytes by done.
  simpl. rewrite Hm, Hv. done.
Qed.

Lemma ReqHead_decode_to_bytes h :
  ReqHead_ok h -> rq_magic h = RPC_MAGIC -> rq_ver h = RPC_VERSION_1 ->
  ReqHead_decode_head (ReqHead_to_bytes h) = Ret (Ok h).
Proof.
  intros Hok Hm Hv. unfold ReqHead_decode_head. rewrite ReqHead_from_to_bytes by done.
  simpl. rewrite Hm, Hv. done.
Qed.

Lemma err_head_decode seq e :
  is_u64 seq -> err_sendable e ->
  RespHead_decode_head (RespHead_to_bytes (err_head seq e)) = Ret (Ok (err_head seq e)).
Proof.
  intros. apply RespHead_decode_to_bytes; [by apply err_head_ok|by destruct e|by destruct e].
Qed.

Lemma ok_head_decode seq msg blob :
  is_u64 seq -> zlen msg <= U32_MAX -> blob_size blob <= I32_MAX ->
  RespHead_decode_head (RespHead_to_bytes (ok_head seq msg blob)) = Ret (Ok (ok_head seq msg blob)).
Proof. intros. apply RespHead_decode_to_bytes; [by apply ok_head_ok|done|done]. Qed.

(** ** Properties *)

(** The 32-byte request header is a bijection between byte strings of
    that length and headers whose fields are in range, and [decode_head] on
    such a string never panics: it returns the header when magic and version
    match, [IO] on a foreign magic and [Version] on an unknown version. *)
Theorem req_head_codec_total b :
  zlen b = RPC_REQ_HEADER_LEN ->
  exists h, ReqHead_ok h /\ ReqHead_to_bytes h = b /\ ReqHead_ref_from_bytes b = Some h /\
    ReqHead_decode_head b =
      Ret (if negb (rq_magic h =? RPC_MAGIC) then Err IO
           else if negb (rq_ver h =? RPC_VERSION_1) then Err Version else Ok h).
Proof.
  intros Hb. destruct (ReqHead_ref_from_bytes b) as [h|] eqn:E.
  - exists h. pose proof (ReqHead_to_from_bytes b h E) as [? ?].
    do 3 (split; [done|]). unfold ReqHead_decode_head. rewrite E. simpl. by repeat case_match.
  - unfold ReqHead_ref_from_bytes in E. rewrite Hb in E. done.
Qed.

Lemma req_head_codec_total_witness :
  exists h, ReqHead_to_bytes h = replicate 32 Byte.x00 /\
    ReqHead_decode_head (replicate 32 Byte.x00) = Ret (Err IO).
Proof.
  destruct (req_head_codec_total (replicate 32 Byte.x00)) as (h & _ & Hb & _ & _); [reflexivity|].
  exists h. split; [exact Hb|vm_compute; reflexivity].
Defined.

(** The same for the 20-byte response header. *)
Theorem resp_head_codec_total b :
  zlen b = RPC_RESP_HEADER_LEN ->
  exists h, RespHead_ok h /\ RespHead_to_bytes h = b /\ RespHead_ref_from_bytes b = Some h /\
    RespHead_decode_head b =
      Ret (if negb (rs_magic h =? RPC_MAGIC) then Err IO
           else if negb (rs_ver h =? RPC_VERSION_1) then Err Version else Ok h).
Proof.
  intros Hb. destruct (RespHead_ref_from_bytes b) as [h|] eqn:E.
  - exists h. pose proof (RespHead_to_from_bytes b h E) as [? ?].
    do 3 (split; [done|]). unfold RespHead_decode_head. rewrite E. simpl. by repeat case_match.
  - unfold RespHead_ref_from_bytes in E. rewrite Hb in E. done.
Qed.

Lemma resp_head_codec_total_witness :
  exists h, RespHead_to_bytes h = replicate 20 Byte.x00 /\
    RespHead_decode_head (replicate 20 Byte.x00) = Ret (Err IO).
Proof.
  destruct (resp_head_codec_total (replicate 20 Byte.x00)) as (h & _ & Hb & _ & _); [reflexivity|].
  exists h. split; [exact Hb|vm_compute; reflexivity].
Defined.

(** A negative number comes back as a string action. *)
Lemma get_action_negative h n :
  is_i32 n -> n < 0 -> rq_action h = action_flag (ANum n) ->
  ReqHead_get_action h = Err (n + 2 ^ 31).
Proof.
  unfold is_i32. intros Hn H Hh.
  unfold ReqHead_get_action. rewrite Hh; simpl. change U32_HIGH_MASK with (2 ^ 31).
  assert (as_u32 n = (n + 2 ^ 31) + 2 ^ 31) as ->
    by (unfold as_u32; symmetry; apply Z.mod_unique_pos with (q := -1); lia).
  rewrite land_high_set by lia. change (2 ^ 31 =? 0) with false. cbv iota.
  rewrite lxor_high_set, as_i32_small by (unfold is_i32; lia). done.
Qed.

(** C38. A numeric action, put into the header by [ReqHead::encode] and read
    back from the first 32 bytes by [decode_head] and [get_action], is that
    number exactly when it is not negative. A negative one, which the encoder
    accepts, is read as a string action whose length is the number without its
    sign bit. *)
Theorem num_action_roundtrip_iff {T} `{!ClientTask T} buf cid (t : T) msg n :
  is_u64 cid -> is_u64 (task_seq t) -> get_action t = ANum n -> is_i32 n ->
  encodes_to t msg -> zlen msg <= U32_MAX -> blob_size (get_req_blob t) <= I32_MAX ->
  exists out head,
    ReqHead_encode buf cid t = Ret (out, Ok (get_req_blob t)) /\
    ReqHead_decode_head (take (Z.to_nat RPC_REQ_HEADER_LEN) out) = Ret (Ok head) /\
    (ReqHead_get_action head = Ok n <-> 0 <= n) /\
    (n < 0 -> ReqHead_get_action head = Err (n + 2 ^ 31)).
Proof.
  intros Hc Hs Ha Hn He Hm Hb.
  exists (ReqHead_to_bytes (req_head cid t msg) ++ action_body (get_action t) ++ msg), (req_head cid t msg).
  assert (Hact : rq_action (req_head cid t msg) = action_flag (ANum n)) by (simpl; by rewrite Ha).
  split; [by apply ReqHead_encode_eq|split]; [|split; [split|]].
  - rewrite <-(zlen_ReqHead_to_bytes (req_head cid t msg)), take_zlen_app.
    apply ReqHead_decode_to_bytes; [|done|done]. by apply req_head_ok; [..|rewrite Ha].
  - intros H. destruct (decide (0 <= n)); [done|].
    rewrite (get_action_negative _ n) in H by (done || lia). done.
  - intros H. unfold is_i32 in Hn. by apply (get_action_flag _ (ANum n)); [simpl; lia|].
  - intros H. by apply get_action_negative.
Qed.

(** A task whose request is empty and whose action is a number. *)
Definition num_task : Type := Z.

#[local] Instance num_task_client : ClientTask num_task := {
  task_seq _ := 1;
  set_seq t _ := t;
  get_action t := ANum t;
  encode_req _ buf := (buf ++ [], Ok 0);
  get_req_blob _ := None;
  decode_resp t _ := Ok t;
  reserve_resp_blob t _ := (t, None);
  fill_resp_blob t _ := t;
  set_custom_error t _ _ _ := t;
  set_rpc_error t _ := t;
  set_ok t := t;
}.

Lemma num_action_roundtrip_iff_witness :
  (exists out head, ReqHead_encode [] 0 (7 : num_task) = Ret (out, Ok None) /\
     ReqHead_decode_head (take 32 out) = Ret (Ok head) /\ ReqHead_get_action head = Ok 7) /\
  (exists out head, ReqHead_encode [] 0 (-1 : num_task) = Ret (out, Ok None) /\
     ReqHead_decode_head (take 32 out) = Ret (Ok head) /\ ReqHead_get_action head = Err 2147483647).
Proof.
  assert (Hu : forall n, n = 0 \/ n = 1 -> is_u64 n) by (unfold is_u64; lia).
  split.
  - destruct (num_action_roundtrip_iff [] 0 (7 : num_task) [] 7) as (out & head & He & Hd & [_ Hok] & _);
      [apply Hu; lia|apply Hu; simpl; lia|reflexivity|unfold is_i32; lia|intros buf; reflexivity
      |vm_compute; discriminate|vm_compute; discriminate|].
    exists out, head. split; [exact He|split; [exact Hd|]]. apply Hok. lia.
  - destruct (num_action_roundtrip_iff [] 0 (-1 : num_task) [] (-1)) as (out & head & He & Hd & _ & Hneg);
      [apply Hu; lia|apply Hu; simpl; lia|reflexivity|unfold is_i32; lia|intros buf; reflexivity
      |vm_compute; discriminate|vm_compute; discriminate|].
    exists out, head. split; [exact He|split; [exact Hd|]]. apply Hneg. lia.
Defined.
