(* ===== verification/Buffer.v ===== *)
(** * Response buffers (stream/src/buffer.rs)

    The four [AllocateBuf::reserve] implementations. A [Vec<u8>] is its
    initialised content with its capacity; [set_len] beyond the capacity is
    undefined behaviour and is an outcome of its own. The [io_buffer] crate's
    allocator is a parameter. *)
From Stdlib Require Import ZArith Lia.
From stdpp Require Import base list.
From S2P Require Import Prelude.
Local Open Scope Z_scope.

(** ** Outcomes of code with [unsafe] blocks *)

Inductive mem (A : Type) : Type :=
| MOk (a : A)
| MPanic
| MUB.
Arguments MOk {A} a.
Arguments MPanic {A}.
Arguments MUB {A}.

Definition mem_bind {A B} (m : mem A) (k : A -> mem B) : mem B :=
  match m with MOk a => k a | MPanic => MPanic | MUB => MUB end.

(** ** Vec<u8> *)

Record rvec : Type := RVec { vdata : bytes; vcap : Z }.

Definition vec_len (v : rvec) : Z := zlen (vdata v).

(** The invariant of [Vec]: the length is at most the capacity, which is at
    most [isize::MAX]. *)
Definition vec_ok (v : rvec) : Prop := vec_len v <= vcap v <= ISIZE_MAX.

Definition with_capacity (n : Z) : mem rvec :=
  if ISIZE_MAX <? n then MPanic else MOk (RVec [] n).

(** [Vec::reserve]: nothing when the spare capacity suffices, else amortised
    growth to at least [len + additional] (and at least 8 for bytes). *)
Definition vec_reserve (additional : Z) (v : rvec) : mem rvec :=
  if additional <=? vcap v - vec_len v then MOk v
  else
    let required := vec_len v + additional in
    let cap := Z.max 8 (Z.max (2 * vcap v) required) in
    if ISIZE_MAX <? cap then MPanic else MOk (RVec (vdata v) cap).

(** [unsafe { v.set_len(n) }] requires [n <= capacity]. *)
Definition vec_set_len (n : Z) (v : rvec) : mem rvec :=
  if n <=? vcap v then MOk (RVec (resize n (vdata v)) (vcap v)) else MUB.

(** [impl AllocateBuf for Vec<u8>]; the slice lent is the whole vector. *)
Definition Vec_reserve (v : rvec) (blob_len : Z) : mem rvec :=
  let blob_len := as_usize blob_len in
  if negb (vec_len v =? blob_len) then
    mem_bind (if vcap v <? blob_len then vec_reserve (blob_len - vcap v) v else MOk v)
      (vec_set_len blob_len)
  else MOk v.

(** [impl AllocateBuf for Option<Vec<u8>>]. *)
Definition OptVec_reserve (o : option rvec) (blob_len : Z) : mem (option rvec) :=
  let blob_len := as_usize blob_len in
  match o with
  | Some buf =>
    if negb (vec_len buf =? blob_len) then
      mem_bind
        (mem_bind (if vcap buf <? blob_len then vec_reserve (blob_len - vcap buf) buf else MOk buf)
           (vec_set_len blob_len))
        (fun b => MOk (Some b))
    else MOk (Some buf)
  | None =>
    mem_bind (mem_bind (with_capacity blob_len) (vec_set_len blob_len)) (fun v => MOk (Some v))
  end.

(** ** io_buffer::Buffer *)

Record iobuf : Type := IoBuf { bdata : bytes; bcap : Z }.

Definition iobuf_len (b : iobuf) : Z := zlen (bdata b).

Definition iobuf_ok (b : iobuf) : Prop := iobuf_len b <= bcap b.

Definition iobuf_set_len (n : Z) (b : iobuf) : iobuf := IoBuf (resize n (bdata b)) (bcap b).

(** [impl AllocateBuf for io_buffer::Buffer]: [None] when it does not fit. *)
Definition Buffer_reserve (b : iobuf) (blob_len : Z) : option iobuf :=
  let blob_len := as_usize blob_len in
  if negb (iobuf_len b =? blob_len) then
    if bcap b <? blob_len then None else Some (iobuf_set_len blob_len b)
  else Some b.

Section opt_buffer.
(** [io_buffer::Buffer::alloc], [None] when it fails. *)
Context (alloc : Z -> option iobuf).

(** [impl AllocateBuf for Option<io_buffer::Buffer>]: the new content of the
    option, and whether a slice is lent. *)
Definition OptBuffer_reserve (o : option iobuf) (blob_len : Z) : option iobuf * bool :=
  match o with
  | Some b =>
    let blob_len := as_usize blob_len in
    if negb (iobuf_len b =? blob_len) then
      if bcap b <? blob_len then (Some b, false) else (Some (iobuf_set_len blob_len b), true)
    else (Some b, true)
  | None =>
    match alloc blob_len with
    | Some v => (Some v, true)
    | None => (None, false)
    end
  end.

End opt_buffer.

(** ** Lemmas *)

(** When growing is enough: the spare capacity is used up and the new capacity
    covers the request. *)
Definition vec_grow_covers (v : rvec) (n : Z) : Prop :=
  n <= vcap v \/
  (vcap v < vec_len v + (n - vcap v) /\ (vec_len v = vcap v \/ n <= 2 * vcap v \/ n <= 8)).

Lemma vec_grow_cases v n :
  vec_ok v -> 0 <= n <= I32_MAX -> vcap v <= 2 ^ 62 -> vcap v < n ->
  (vec_grow_covers v n /\
   exists cap, vec_reserve (n - vcap v) v = MOk (RVec (vdata v) cap) /\ n <= cap <= ISIZE_MAX) \/
  (~ vec_grow_covers v n /\
   exists cap, vec_reserve (n - vcap v) v = MOk (RVec (vdata v) cap) /\ cap < n).
Proof.
  unfold vec_ok, vec_grow_covers, vec_reserve, I32_MAX, ISIZE_MAX. intros [? ?] ? ? ?.
  pose proof (zlen_nonneg (vdata v)) as Hl. fold (vec_len v) in Hl.
  destruct (Z.leb_spec (n - vcap v) (vcap v - vec_len v)).
  - right. split; [lia|]. exists (vcap v). destruct v; simpl in *. auto.
  - rew_cmp.
    destruct (decide (n <= Z.max 8 (Z.max (2 * vcap v) (vec_len v + (n - vcap v)))));
      [left|right]; (split; [lia|]); eexists; (split; [done|lia]).
Qed.

Lemma vec_set_len_ok n v :
  vec_ok v -> 0 <= n <= vcap v ->
  vec_set_len n v = MOk (RVec (resize n (vdata v)) (vcap v)).
Proof. unfold vec_set_len. intros. rew_cmp. done. Qed.

(** ** Properties *)

(** C39. [Vec<u8>::reserve] lends a slice of exactly the requested length, within
    the capacity, exactly when the vector already has the capacity or growing
    by [blob_len - capacity] more elements reaches it; otherwise its [set_len]
    runs past the allocation. It never panics for the lengths a response
    header carries. *)
Theorem Vec_reserve_safe_iff v n :
  vec_ok v -> vcap v <= 2 ^ 62 -> 0 < n <= I32_MAX ->
  (vec_grow_covers v n ->
   exists v', Vec_reserve v n = MOk v' /\ vec_len v' = n /\ vec_ok v') /\
  (~ vec_grow_covers v n -> Vec_reserve v n = MUB).
Proof.
  intros Hv Hc Hn. unfold Vec_reserve. unfold I32_MAX in Hn.
  rewrite as_usize_small by lia.
  destruct (Z.eqb_spec (vec_len v) n) as [Heq|Hne]; simpl.
  { split; [eauto|]. intros H. destruct H. left. unfold vec_ok in Hv. lia. }
  destruct (Z.ltb_spec (vcap v) n) as [Hlt|Hge].
  - destruct (vec_grow_cases v n) as [(Hg & cap & -> & Hcap)|(Hg & cap & -> & Hcap)];
      [done|unfold I32_MAX; lia|done|done|..]; (split; [intros Hg'|intros Hg']); try done; simpl.
    + rewrite vec_set_len_ok by (unfold vec_ok, vec_len in *; simpl; lia).
      eexists; split; [done|]. unfold vec_ok, vec_len; simpl. rewrite zlen_resize by lia. lia.
    + unfold vec_set_len; simpl. rew_cmp. done.
  - split; [|intros H; destruct H; left; lia]. intros _. simpl.
    rewrite vec_set_len_ok by (done || lia).
    eexists; split; [done|]. unfold vec_ok, vec_len in *; simpl. rewrite zlen_resize by lia. lia.
Qed.

(** An empty vector of capacity 10 asked for 15 bytes is lent out of bounds;
    the same vector with all ten bytes in use is grown. *)
Lemma Vec_reserve_safe_iff_witness :
  Vec_reserve (RVec [] 10) 15 = MUB /\
  exists v', Vec_reserve (RVec (replicate 10 Byte.x00) 10) 15 = MOk v' /\ vec_len v' = 15.
Proof.
  split.
  - apply (Vec_reserve_safe_iff (RVec [] 10) 15); unfold vec_ok, vec_grow_covers, vec_len; simpl;
      unfold zlen, ISIZE_MAX, I32_MAX; simpl; lia.
  - destruct (Vec_reserve_safe_iff (RVec (replicate 10 Byte.x00) 10) 15) as [H _];
      [unfold vec_ok, vec_len; simpl; unfold zlen, ISIZE_MAX, I32_MAX; simpl; lia..|].
    destruct H as (v' & ? & ? & _); [|eauto].
    unfold vec_grow_covers, vec_len, zlen; simpl; lia.
Defined.

(** A pre-allocated [Buffer] lends a slice of exactly the requested
    length within its capacity, or refuses when the request does not fit. *)
Theorem Buffer_reserve_spec b n :
  iobuf_ok b -> 0 <= n <= I32_MAX ->
  match Buffer_reserve b n with
  | Some b' => iobuf_len b' = n /\ iobuf_ok b' /\ bcap b' = bcap b
  | None => bcap b < n
  end.
Proof.
  unfold iobuf_ok, Buffer_reserve, I32_MAX. intros Hb Hn. rewrite as_usize_small by lia.
  destruct (Z.eqb_spec (iobuf_len b) n) as [Heq|Hne]; simpl; [lia|].
  destruct (Z.ltb_spec (bcap b) n); [done|].
  unfold iobuf_set_len, iobuf_len in *; simpl. rewrite zlen_resize by lia. lia.
Qed.

Lemma Buffer_reserve_spec_witness :
  exists b', Buffer_reserve (IoBuf [Byte.x01] 4) 3 = Some b' /\ iobuf_len b' = 3.
Proof.
  pose proof (Buffer_reserve_spec (IoBuf [Byte.x01] 4) 3) as H. simpl in H.
  eexists; split; [vm_compute; reflexivity|].
  apply H; vm_compute; try split; congruence.
Defined.
