(* ===== verification/BTree.v ===== *)
(** * Ordered maps: [BTreeMap<u64, V>]

    The standard library's ordered map as its list of entries in key order:
    insertion, removal, and iteration in ascending order are what the sources
    use of it. *)
From Stdlib Require Import ZArith Lia Sorted.
From stdpp Require Import base list sets.
From S2P Require Import Prelude.
Local Open Scope Z_scope.

(** Entries by ascending key. *)
Abbreviation btree V := (list (Z * V)).

Section btree.
Context {V : Type}.

Definition bt_keys (m : btree V) : list Z := map fst m.

(** The representation invariant: keys strictly ascending. *)
Definition bt_ok (m : btree V) : Prop := StronglySorted Z.lt (bt_keys m).

Fixpoint bt_lookup (k : Z) (m : btree V) : option V :=
  match m with
  | [] => None
  | (k', v) :: m' => if k =? k' then Some v else bt_lookup k m'
  end.

(** [BTreeMap::insert] (the previous value, if any, is dropped). *)
Fixpoint bt_insert (k : Z) (v : V) (m : btree V) : btree V :=
  match m with
  | [] => [(k, v)]
  | (k', v') :: m' =>
    if k <? k' then (k, v) :: m
    else if k =? k' then (k, v) :: m'
    else (k', v') :: bt_insert k v m'
  end.

(** [BTreeMap::remove]. *)
Fixpoint bt_remove (k : Z) (m : btree V) : option (V * btree V) :=
  match m with
  | [] => None
  | (k', v) :: m' =>
    if k =? k' then Some (v, m')
    else match bt_remove k m' with
         | Some (w, m'') => Some (w, (k', v) :: m'')
         | None => None
         end
  end.

(** The entries whose key is not [k]. *)
Definition bt_without (k : Z) (m : btree V) : btree V :=
  List.filter (fun p => negb (fst p =? k)) m.

(** ** Lemmas *)

Lemma bt_keys_app (m n : btree V) : bt_keys (m ++ n) = bt_keys m ++ bt_keys n.
Proof. apply map_app. Qed.

Lemma bt_insert_max k v m :
  Forall (fun k' => k' < k) (bt_keys m) -> bt_insert k v m = m ++ [(k, v)].
Proof.
  induction m as [|[k' v'] m IH]; [done|]. cbn [bt_keys map fst bt_insert]. intros H.
  apply Forall_cons in H as [? ?]. do 2 rew_cmp. rewrite IH by done. done.
Qed.

Lemma bt_ok_cons k v m :
  bt_ok ((k, v) :: m) <-> bt_ok m /\ Forall (fun k' => k < k') (bt_keys m).
Proof.
  unfold bt_ok; cbn [bt_keys map fst]. split.
  - intros H. apply StronglySorted_inv in H. done.
  - intros [? ?]. by constructor.
Qed.

Lemma bt_without_notin k m : k ∉ bt_keys m -> bt_without k m = m.
Proof.
  induction m as [|[k' v'] m IH]; [done|]. cbn [bt_keys map fst bt_without List.filter].
  rewrite not_elem_of_cons. intros [? ?]. rew_cmp. simpl. unfold bt_without in IH.
  rewrite IH by done. done.
Qed.

Lemma bt_without_app k m n : bt_without k (m ++ n) = bt_without k m ++ bt_without k n.
Proof. apply List.filter_app. Qed.

Lemma Forall_lt_notin k (l : list Z) : Forall (fun k' => k < k') l -> k ∉ l.
Proof. intros H Hin. rewrite Forall_forall in H. specialize (H k Hin). lia. Qed.

(** Removal finds exactly the bound keys and drops only that entry. *)
Lemma bt_remove_spec k m :
  bt_ok m ->
  bt_remove k m = match bt_lookup k m with
                  | Some v => Some (v, bt_without k m)
                  | None => None
                  end.
Proof.
  induction m as [|[k' v'] m IH]; [done|]. rewrite bt_ok_cons. intros [Hm Hk].
  cbn [bt_remove bt_lookup]. destruct (Z.eqb_spec k k') as [->|Hne].
  - cbn [bt_without List.filter fst]. rewrite Z.eqb_refl; simpl. fold (bt_without k' m).
    rewrite bt_without_notin by (by apply Forall_lt_notin). done.
  - rewrite IH by done. destruct (bt_lookup k m); [|done].
    cbn [bt_without List.filter fst]. rew_cmp. done.
Qed.

Lemma bt_lookup_in k v m : bt_lookup k m = Some v -> (k, v) ∈ m.
Proof.
  induction m as [|[k' v'] m IH]; [done|]. simpl. destruct (Z.eqb_spec k k') as [->|?].
  - intros [= ->]. left.
  - intros H. right. auto.
Qed.

Lemma bt_in_keys k v m : (k, v) ∈ m -> k ∈ bt_keys m.
Proof. intros H. apply list_elem_of_fmap. exists (k, v). done. Qed.

Lemma bt_lookup_None k m : bt_lookup k m = None <-> k ∉ bt_keys m.
Proof.
  induction m as [|[k' v'] m IH]; simpl; [set_solver|].
  rewrite not_elem_of_cons. destruct (Z.eqb_spec k k'); naive_solver.
Qed.

Lemma bt_lookup_Some k v m : bt_ok m -> bt_lookup k m = Some v <-> (k, v) ∈ m.
Proof.
  intros Hm. split; [apply bt_lookup_in|].
  induction m as [|[k' v'] m IH]; simpl; intros Hin; [set_solver|].
  apply bt_ok_cons in Hm as [Hm Hk]. apply elem_of_cons in Hin as [[= -> ->]|Hin].
  - rewrite Z.eqb_refl. done.
  - assert (k' < k) by (rewrite Forall_forall in Hk; eapply Hk, bt_in_keys; done).
    rew_cmp. auto.
Qed.

(** Pieces of a strictly ascending sequence. *)
Lemma ssorted_app (l k : list Z) :
  StronglySorted Z.lt (l ++ k) <->
  StronglySorted Z.lt l /\ StronglySorted Z.lt k /\ Forall (fun x => Forall (Z.lt x) k) l.
Proof.
  induction l as [|a l IH]; simpl.
  - split; [|tauto]. intros H. repeat split; [constructor|done|constructor].
  - split.
    + intros H. apply StronglySorted_inv in H as [H Ha]. apply IH in H as (?&?&?).
      apply Forall_app in Ha as [? ?]. repeat split; [by constructor|done|by constructor].
    + intros (Hl & Hk & Hx). apply StronglySorted_inv in Hl as [? ?].
      apply Forall_cons in Hx as [? ?]. constructor; [apply IH; done|]. by apply Forall_app.
Qed.

Lemma ssorted_without k (m : btree V) :
  bt_ok m -> bt_ok (bt_without k m).
Proof.
  induction m as [|[k' v'] m IH]; [done|]. rewrite bt_ok_cons. intros [Hm Hk].
  cbn [bt_without List.filter fst]. destruct (k' =? k); simpl; [auto|].
  apply bt_ok_cons. split; [auto|].
  unfold bt_keys in *. rewrite Forall_forall in Hk |- *. intros x Hx. apply Hk.
  apply list_elem_of_fmap in Hx as (p & -> & Hp). apply list_elem_of_fmap. exists p.
  split; [done|]. apply list_elem_of_In. apply list_elem_of_In in Hp. unfold bt_without in Hp.
  apply filter_In in Hp as [? ?]. done.
Qed.

End btree.
