(* ===== verification/Timer.v ===== *)
(** * The client task timer (stream/src/client/timer.rs)

    [ClientTaskTimer] holds the tasks of a connection that wait for a
    response: the bounded channel the sender registers them in, the tasks
    taken out of it during the current second, and one batch per past second.
    A [ClientTaskItem] is its task (its [task] field is [Some] from
    registration until the item is dropped); the throttler guard it owns is
    released with it. Asynchronous operations are modelled per poll. *)
From Stdlib Require Import ZArith Lia Sorted.
From stdpp Require Import base list sets.
From S2P Require Import Prelude Errors Task BTree.
Local Open Scope Z_scope.
Local Open Scope rpc_scope.

Record ClientTaskTimer (T : Type) : Type := Timer {
  pending_tasks : list T;               (** the channel, oldest first *)
  pending_cap : Z;                      (** its bound *)
  pending_task_count : Z;
  sent_tasks : btree T;                 (** of the current second *)
  delay_tasks_queue : list (btree T);   (** of past seconds, most recent first *)
  min_delay_seq : Z;
  task_timeout : Z;                     (** in seconds *)
  processed_seq : Z;
  reg_stopped_flag : bool;
}.
Arguments Timer {T}.
Arguments pending_tasks {T}.
Arguments pending_cap {T}.
Arguments pending_task_count {T}.
Arguments sent_tasks {T}.
Arguments delay_tasks_queue {T}.
Arguments min_delay_seq {T}.
Arguments task_timeout {T}.
Arguments processed_seq {T}.
Arguments reg_stopped_flag {T}.

Section timer.
Context {T : Type} `{!ClientTask T}.
Implicit Types st : ClientTaskTimer T.

Definition Timer_new (timeout thresholds : Z) : ClientTaskTimer T :=
  let thresholds := if thresholds =? 0 then 500 else thresholds in
  Timer [] (thresholds * 2) 0 [] [] 0 timeout 0 false.

(** Field updates. *)
Definition set_pending (ps : list T) st : ClientTaskTimer T :=
  Timer ps (pending_cap st) (pending_task_count st) (sent_tasks st) (delay_tasks_queue st)
    (min_delay_seq st) (task_timeout st) (processed_seq st) (reg_stopped_flag st).
Definition set_count (c : Z) st : ClientTaskTimer T :=
  Timer (pending_tasks st) (pending_cap st) c (sent_tasks st) (delay_tasks_queue st)
    (min_delay_seq st) (task_timeout st) (processed_seq st) (reg_stopped_flag st).
Definition set_sent (m : btree T) st : ClientTaskTimer T :=
  Timer (pending_tasks st) (pending_cap st) (pending_task_count st) m (delay_tasks_queue st)
    (min_delay_seq st) (task_timeout st) (processed_seq st) (reg_stopped_flag st).
Definition set_delay (q : list (btree T)) st : ClientTaskTimer T :=
  Timer (pending_tasks st) (pending_cap st) (pending_task_count st) (sent_tasks st) q
    (min_delay_seq st) (task_timeout st) (processed_seq st) (reg_stopped_flag st).
Definition set_min_delay (m : Z) st : ClientTaskTimer T :=
  Timer (pending_tasks st) (pending_cap st) (pending_task_count st) (sent_tasks st)
    (delay_tasks_queue st) m (task_timeout st) (processed_seq st) (reg_stopped_flag st).
Definition set_processed (p : Z) st : ClientTaskTimer T :=
  Timer (pending_tasks st) (pending_cap st) (pending_task_count st) (sent_tasks st)
    (delay_tasks_queue st) (min_delay_seq st) (task_timeout st) p (reg_stopped_flag st).

Definition stop_reg_task st : ClientTaskTimer T :=
  Timer (pending_tasks st) (pending_cap st) (pending_task_count st) (sent_tasks st)
    (delay_tasks_queue st) (min_delay_seq st) (task_timeout st) (processed_seq st) true.

(** [pending_task_count_ref().fetch_add(1)] / [fetch_sub(1)], by the sender. *)
Definition count_incr st : ClientTaskTimer T := set_count (u64_incr (pending_task_count st)) st.
Definition count_decr st : ClientTaskTimer T := set_count (u64_decr (pending_task_count st)) st.

Definition got_pending_task (task : T) st : ClientTaskTimer T :=
  let st := set_count (u64_decr (pending_task_count st)) st in
  let task_seq := task_seq task in
  let st := set_processed task_seq st in
  set_sent (bt_insert task_seq task (sent_tasks st)) st.

(** [while let Ok(task) = try_recv() { got_pending_task(task) }], on the content
    [ps] of the channel. *)
Fixpoint recv_all (ps : list T) st : ClientTaskTimer T :=
  match ps with
  | [] => set_pending [] st
  | task :: ps' => recv_all ps' (got_pending_task task st)
  end.

Definition recv_pending st : ClientTaskTimer T := recv_all (pending_tasks st) st.

(** [poll_sent_task]: the same loop over [poll_item]; tells whether it received. *)
Definition poll_sent_task st : ClientTaskTimer T * bool :=
  (recv_pending st, negb (bool_decide (pending_tasks st = []))).

(** [reg_task]: waits while the channel is full. *)
Definition reg_task (task : T) st : poll (ClientTaskTimer T) :=
  if zlen (pending_tasks st) <? pending_cap st
  then Ready (set_pending (pending_tasks st ++ [task]) st)
  else Pending.

(** [WaitRegTaskFuture::poll]. *)
Definition wait_reg_poll (target_seq : Z) st : ClientTaskTimer T * poll (result unit unit) :=
  if target_seq <=? processed_seq st then (st, Ready (Ok tt))
  else if reg_stopped_flag st then (st, Ready (Err tt))
  else
    let '(st', got) := poll_sent_task st in
    if got && (target_seq <=? processed_seq st') then (st', Ready (Ok tt)) else (st', Pending).

(** The search of [take_task] in the current second and then in the batches. *)
Fixpoint remove_delayed (seq : Z) (q : list (btree T)) : option (T * list (btree T)) :=
  match q with
  | [] => None
  | b :: q' =>
    match bt_remove seq b with
    | Some (t, b') => Some (t, b' :: q')
    | None =>
      match remove_delayed seq q' with
      | Some (t, q'') => Some (t, b :: q'')
      | None => None
      end
    end
  end.

Definition find_task (seq : Z) st : ClientTaskTimer T * option T :=
  match bt_remove seq (sent_tasks st) with
  | Some (t, m) => (set_sent m st, Some t)
  | None =>
    match remove_delayed seq (delay_tasks_queue st) with
    | Some (t, q) => (set_delay q st, Some t)
    | None => (st, None)
    end
  end.

(** [take_task] after its wait for the registration is over. *)
Definition take_task_resume (seq : Z) st : ClientTaskTimer T * poll (option T) :=
  match wait_reg_poll seq st with
  | (st', Pending) => (st', Pending)
  | (st', Ready (Err _)) => (st', Ready None)
  | (st', Ready (Ok _)) => let '(st'', r) := find_task seq st' in (st'', Ready r)
  end.

Definition take_task (seq : Z) st : ClientTaskTimer T * poll (option T) :=
  if seq <? min_delay_seq st then (st, Ready None)
  else if processed_seq st <? seq then take_task_resume seq st
  else let '(st', r) := find_task seq st in (st', Ready r).

Definition check_pending_tasks_empty st : ClientTaskTimer T * bool :=
  let st := recv_pending st in
  if negb (bool_decide (sent_tasks st = [])) then (st, false)
  else (st, forallb (fun b => bool_decide (b = [])) (delay_tasks_queue st)).

(** ** Operations that hand tasks to [ClientFacts::error_handle] *)
Section handled.
Context (error_handle : T -> event T).

(** The removal loop over the collected keys of one batch. *)
Fixpoint drain_keys (keys : list Z) (m : btree T) (evs : list (event T))
    : may (btree T * list (event T)) :=
  match keys with
  | [] => Ret (m, evs)
  | k :: keys' =>
    let? (t, m') := unwrap (bt_remove k m) in
    drain_keys keys' m' (evs ++ [error_handle (set_rpc_error t IO)])
  end.

Fixpoint drain_queue (q : list (btree T)) (evs : list (event T))
    : may (list (btree T) * list (event T)) :=
  match q with
  | [] => Ret ([], evs)
  | b :: q' =>
    let? (b', evs1) := drain_keys (bt_keys b) b evs in
    let? (q'', evs2) := drain_queue q' evs1 in
    Ret (b' :: q'', evs2)
  end.

Definition clean_pending_tasks st : may (ClientTaskTimer T * list (event T)) :=
  let st := recv_pending st in
  let? (m, evs) := drain_keys (bt_keys (sent_tasks st)) (sent_tasks st) [] in
  let st := set_sent m st in
  let? (q, evs') := drain_queue (delay_tasks_queue st) evs in
  Ret (set_delay q st, evs').

(** The loop over the batch that timed out: the least sequence number, with 0
    for none yet, and the calls of [error_handle]. *)
Fixpoint timeout_loop (tasks : btree T) (min_seq : Z) (evs : list (event T)) : Z * list (event T) :=
  match tasks with
  | [] => (min_seq, evs)
  | (_, task) :: tasks' =>
    let seq := task_seq task in
    let min_seq := if (min_seq =? 0) || (seq <? min_seq) then seq else min_seq in
    timeout_loop tasks' min_seq (evs ++ [error_handle (set_rpc_error task Timeout)])
  end.

Definition adjust_task_queue st : ClientTaskTimer T * list (event T) :=
  let batch := sent_tasks st in
  let st := set_sent [] st in
  let st := set_delay (batch :: delay_tasks_queue st) st in
  if task_timeout st <? zlen (delay_tasks_queue st) then
    let real_timeout := List.last (delay_tasks_queue st) [] in
    let st := set_delay (removelast (delay_tasks_queue st)) st in
    if negb (bool_decide (real_timeout = [])) then
      let '(min_seq, evs) := timeout_loop real_timeout 0 [] in
      (set_min_delay min_seq st, evs)
    else (st, [])
  else (st, []).

End handled.
End timer.
