(* ===== verification/TimerInv.v ===== *)
(** * Correctness of the client task timer

    The timer refines one ordered map: the live tasks, oldest first, whichever
    of its containers holds them. Operations are interleaved freely in the
    transition system [timer_step]; its invariant and the conservation of
    tasks are proved by induction on runs. *)
From Stdlib Require Import ZArith Lia Sorted.
From stdpp Require Import base list sets sorting.
From S2P Require Import Prelude Errors Task ApiClient BTree Timer.
Local Open Scope Z_scope.
Local Open Scope rpc_scope.

Section inv.
Context {T : Type} `{!ClientTask T}.
Implicit Types st : ClientTaskTimer T.

(** ** The abstraction *)

Definition keyed (ps : list T) : btree T := map (fun t => (task_seq t, t)) ps.

(** The tasks already received from the channel. *)
Definition received st : btree T := concat (rev (delay_tasks_queue st)) ++ sent_tasks st.

Definition live st : btree T := received st ++ keyed (pending_tasks st).

(** The sequence number of the task registered last. *)
Definition last_seq (p : Z) (ps : list T) : Z := List.last (map task_seq ps) p.
Definition newest st : Z := last_seq (processed_seq st) (pending_tasks st).

Record timer_inv st : Prop := TimerInv {
  inv_sorted : bt_ok (live st);
  inv_keys : Forall (fun p => fst p = task_seq (snd p)) (live st);
  inv_low : Forall (fun k => 0 < k /\ min_delay_seq st <= k) (bt_keys (live st));
  inv_received : Forall (fun k => k <= processed_seq st) (bt_keys (received st));
  inv_pending : Forall (fun t => processed_seq st < task_seq t) (pending_tasks st);
  inv_min : 0 <= min_delay_seq st <= processed_seq st;
  inv_delay : zlen (delay_tasks_queue st) <= task_timeout st;
  inv_count : zlen (pending_tasks st) <= pending_task_count st < 2 ^ 64;
}.

(** ** Lists of keyed tasks *)

Lemma keyed_app ps qs : keyed (ps ++ qs) = keyed ps ++ keyed qs.
Proof. apply map_app. Qed.

Lemma bt_keys_keyed ps : bt_keys (keyed ps) = map task_seq ps.
Proof. unfold bt_keys, keyed. rewrite map_map. done. Qed.

Lemma last_seq_app p ps t : last_seq p (ps ++ [t]) = task_seq t.
Proof. unfold last_seq. rewrite map_app. apply last_last. Qed.

Lemma last_cons_default {A} (a d : A) l : List.last (a :: l) d = List.last l a.
Proof. revert a. induction l as [|b l IH]; [done|]. intros a. simpl in *. destruct l; [done|]. apply IH. Qed.

Lemma sorted_last_max p ps :
  StronglySorted Z.lt (map task_seq ps) -> Forall (fun t => p < task_seq t) ps ->
  p <= last_seq p ps /\ Forall (fun t => task_seq t <= last_seq p ps) ps.
Proof.
  unfold last_seq. revert p. induction ps as [|t ps IH]; intros p Hs Hp.
  { simpl; split; [lia|constructor]. }
  cbn [map] in *. rewrite last_cons_default. apply StronglySorted_inv in Hs as [Hs Ht].
  apply Forall_cons in Hp as [? ?]. destruct (IH (task_seq t)) as [? ?]; [done| |].
  { rewrite Forall_map in Ht. done. }
  split; [lia|]. constructor; [lia|done].
Qed.

Lemma bt_ok_app {V} (m n : btree V) :
  bt_ok (m ++ n) <->
  bt_ok m /\ bt_ok n /\ Forall (fun x => Forall (Z.lt x) (bt_keys n)) (bt_keys m).
Proof. unfold bt_ok. rewrite bt_keys_app. apply ssorted_app. Qed.

(** ** Receiving from the channel *)

Lemma recv_all_eq ps st :
  bt_ok (sent_tasks st ++ keyed ps) -> zlen ps <= pending_task_count st < 2 ^ 64 ->
  recv_all ps st =
    Timer [] (pending_cap st) (pending_task_count st - zlen ps) (sent_tasks st ++ keyed ps)
      (delay_tasks_queue st) (min_delay_seq st) (task_timeout st)
      (last_seq (processed_seq st) ps) (reg_stopped_flag st).
Proof.
  revert st. induction ps as [|t ps IH]; intros st Hs Hc.
  { destruct st; unfold recv_all, set_pending; simpl. rewrite app_nil_r.
    f_equal. unfold zlen; simpl; lia. }
  cbn [recv_all]. unfold keyed in Hs; cbn [map] in Hs; fold (keyed ps) in Hs.
  rewrite zlen_cons in Hc.
  assert (Hi : bt_insert (task_seq t) t (sent_tasks st) = sent_tasks st ++ [(task_seq t, t)]).
  { apply bt_insert_max. apply bt_ok_app in Hs as (_ & _ & Hx).
    eapply Forall_impl; [exact Hx|]. intros k Hk. cbn in Hk. apply Forall_cons in Hk as [? _]. done. }
  assert (Hd : u64_decr (pending_task_count st) = pending_task_count st - 1).
  { unfold u64_decr, as_u64. apply Z.mod_small. pose proof (zlen_nonneg ps). lia. }
  unfold got_pending_task, set_count, set_processed, set_sent; cbn. rewrite Hi, Hd.
  rewrite IH; cbn.
  - rewrite <- app_assoc. cbn [app]. unfold keyed; cbn [map]. rewrite zlen_cons.
    f_equal; [lia|]. symmetry. apply (last_cons_default (task_seq t)).
  - rewrite <- app_assoc. done.
  - lia.
Qed.

Lemma recv_pending_eq st :
  timer_inv st ->
  recv_pending st =
    Timer [] (pending_cap st) (pending_task_count st - zlen (pending_tasks st))
      (sent_tasks st ++ keyed (pending_tasks st))
      (delay_tasks_queue st) (min_delay_seq st) (task_timeout st)
      (newest st) (reg_stopped_flag st).
Proof.
  intros [Hs _ _ _ _ _ _ Hc]. apply recv_all_eq; [|done].
  unfold live, received in Hs. rewrite <- app_assoc in Hs. apply bt_ok_app in Hs. tauto.
Qed.

Lemma recv_pending_live st : timer_inv st -> live (recv_pending st) = live st.
Proof.
  intros H. rewrite recv_pending_eq by done. unfold live, received; cbn.
  rewrite app_nil_r, app_assoc. done.
Qed.

Lemma newest_max st :
  timer_inv st ->
  processed_seq st <= newest st /\ Forall (fun k => k <= newest st) (bt_keys (live st)).
Proof.
  intros [Hs _ _ Hr Hp _ _ _]. unfold newest.
  destruct (sorted_last_max (processed_seq st) (pending_tasks st)) as [H1 H2]; [|done|].
  { unfold live in Hs. apply bt_ok_app in Hs as (_ & Hs & _). unfold bt_ok in Hs.
    rewrite bt_keys_keyed in Hs. done. }
  split; [done|]. unfold live. rewrite bt_keys_app, bt_keys_keyed. apply Forall_app. split.
  - eapply Forall_impl; [exact Hr|]. cbn; lia.
  - rewrite Forall_map. done.
Qed.

Lemma recv_pending_inv st : timer_inv st -> timer_inv (recv_pending st).
Proof.
  intros H. pose proof (recv_pending_live st H) as Hl. pose proof (newest_max st H) as [? Hn].
  destruct H as [Hs Hk Hlow Hr Hp Hm Hd Hc] eqn:E. clear E.
  assert (Hi : timer_inv st) by (by constructor).
  constructor; rewrite ?Hl; try done.
  - rewrite recv_pending_eq by done. done.
  - assert (Hr' : received (recv_pending st) = live st).
    { rewrite <- Hl. unfold live at 1. rewrite recv_pending_eq by done. cbn. by rewrite app_nil_r. }
    rewrite Hr'. rewrite recv_pending_eq by done. done.
  - rewrite recv_pending_eq by done. constructor.
  - rewrite recv_pending_eq by done. cbn. lia.
  - rewrite recv_pending_eq by done. done.
  - rewrite recv_pending_eq by done. cbn. unfold zlen at 1; cbn. pose proof (zlen_nonneg (pending_tasks st)). lia.
Qed.

(** ** Looking a task up *)

Lemma bt_lookup_app {V} k (m n : btree V) :
  bt_lookup k (m ++ n) = match bt_lookup k m with Some v => Some v | None => bt_lookup k n end.
Proof. induction m as [|[k' v'] m IH]; [done|]. simpl. destruct (k =? k'); [done|]. apply IH. Qed.

(** A key of one part of a strictly ascending map is in no other part. *)
Lemma bt_ok_disjoint {V} k (m n : btree V) :
  bt_ok (m ++ n) -> k ∈ bt_keys m -> k ∉ bt_keys n.
Proof.
  intros (_ & _ & H)%bt_ok_app Hm. apply Forall_lt_notin.
  rewrite Forall_forall in H. apply (H k Hm).
Qed.

Lemma bt_lookup_is_key {V} k v (m : btree V) : bt_lookup k m = Some v -> k ∈ bt_keys m.
Proof. intros H. eapply bt_in_keys, bt_lookup_in, H. Qed.

Lemma concat_rev_without {V} k (q : list (btree V)) :
  concat (rev (map (bt_without k) q)) = bt_without k (concat (rev q)).
Proof.
  induction q as [|b q IH]; [done|]. simpl. rewrite !concat_app, IH. cbn [concat].
  rewrite !app_nil_r, bt_without_app. done.
Qed.

Lemma map_without_notin {V} k (q : list (btree V)) :
  k ∉ bt_keys (concat (rev q)) -> map (bt_without k) q = q.
Proof.
  induction q as [|b q IH]; [done|]. cbn [rev map]. rewrite concat_app, bt_keys_app.
  cbn [concat]. rewrite app_nil_r, not_elem_of_app. intros [? ?].
  rewrite IH, bt_without_notin by done. done.
Qed.

Lemma remove_delayed_spec k (q : list (btree T)) :
  bt_ok (concat (rev q)) ->
  remove_delayed k q =
    match bt_lookup k (concat (rev q)) with
    | Some t => Some (t, map (bt_without k) q)
    | None => None
    end.
Proof.
  induction q as [|b q IH]; [done|]. cbn [rev remove_delayed map].
  rewrite concat_app. cbn [concat]. rewrite app_nil_r, bt_lookup_app. intros H.
  assert (Hdis := bt_ok_disjoint k _ _ H). apply bt_ok_app in H as (Hq & Hb & _).
  rewrite bt_remove_spec, IH by done.
  destruct (bt_lookup k (concat (rev q))) as [t|] eqn:El.
  - pose proof (Hdis (bt_lookup_is_key _ _ _ El)) as Hn.
    rewrite (proj2 (bt_lookup_None k b) Hn), bt_without_notin by done. done.
  - destruct (bt_lookup k b) as [v|]; [|done].
    rewrite map_without_notin by (by apply bt_lookup_None). done.
Qed.

Lemma find_task_eq k st :
  bt_ok (received st) ->
  find_task k st =
    match bt_lookup k (received st) with
    | Some t =>
      (set_delay (map (bt_without k) (delay_tasks_queue st))
         (set_sent (bt_without k (sent_tasks st)) st), Some t)
    | None => (st, None)
    end.
Proof.
  intros H. assert (Hdis := bt_ok_disjoint k _ _ H). unfold find_task, received in *.
  apply bt_ok_app in H as (Hq & Hs & _). rewrite bt_lookup_app, bt_remove_spec by done.
  destruct (bt_lookup k (concat (rev (delay_tasks_queue st)))) as [t|] eqn:Ed.
  - pose proof (Hdis (bt_lookup_is_key _ _ _ Ed)) as Hn.
    rewrite (proj2 (bt_lookup_None k _) Hn), remove_delayed_spec, Ed by done.
    rewrite (bt_without_notin k (sent_tasks st)) by done. by destruct st.
  - rewrite remove_delayed_spec, Ed by done. destruct (bt_lookup k (sent_tasks st)); [|done].
    rewrite map_without_notin by (by apply bt_lookup_None). by destruct st.
Qed.

Lemma received_without k st :
  received (set_delay (map (bt_without k) (delay_tasks_queue st))
         (set_sent (bt_without k (sent_tasks st)) st)) = bt_without k (received st).
Proof. unfold received; cbn. rewrite concat_rev_without, bt_without_app. done. Qed.

Lemma keys_without {V} (P : Z -> Prop) k (m : btree V) :
  Forall P (bt_keys m) -> Forall P (bt_keys (bt_without k m)).
Proof.
  unfold bt_keys. rewrite !Forall_map. unfold bt_without.
  rewrite !List.Forall_forall. setoid_rewrite filter_In. naive_solver.
Qed.

Lemma received_ok st : timer_inv st -> bt_ok (received st).
Proof. intros [H _ _ _ _ _ _ _]. unfold live in H. by apply bt_ok_app in H as (? & _ & _). Qed.

(** Removing a received task keeps the invariant and drops it from [live] only. *)
Lemma remove_live k st :
  timer_inv st -> k <= processed_seq st ->
  let st' := set_delay (map (bt_without k) (delay_tasks_queue st))
               (set_sent (bt_without k (sent_tasks st)) st) in
  live st' = bt_without k (live st) /\ timer_inv st'.
Proof.
  intros H Hk st'.
  assert (Hl : live st' = bt_without k (live st)).
  { unfold live at 1. unfold st' at 1. rewrite received_without. cbn.
    unfold live. rewrite bt_without_app, (bt_without_notin k (keyed _)); [done|].
    rewrite bt_keys_keyed. destruct H as [_ _ _ _ Hp _ _ _]. rewrite list_elem_of_fmap.
    intros (t & -> & Ht). rewrite Forall_forall in Hp. specialize (Hp t Ht). lia. }
  split; [done|]. destruct H as [Hs Hkeys Hlow Hr Hp Hm Hd Hc].
  constructor; rewrite ?Hl; unfold st'; rewrite ?received_without; cbn; try done.
  - by apply ssorted_without.
  - unfold bt_without. rewrite List.Forall_forall in Hkeys |- *. setoid_rewrite filter_In. naive_solver.
  - by apply keys_without.
  - by apply keys_without.
  - unfold zlen. rewrite length_map. apply Hd.
Qed.

Lemma find_task_spec k st :
  timer_inv st -> k <= processed_seq st ->
  timer_inv (find_task k st).1 /\ live (find_task k st).1 = bt_without k (live st) /\
  (find_task k st).2 = bt_lookup k (live st).
Proof.
  intros H Hk. destruct (remove_live k st H Hk) as [Hl Hi].
  rewrite find_task_eq by (by apply received_ok).
  assert (Hn : bt_lookup k (keyed (pending_tasks st)) = None).
  { apply bt_lookup_None. rewrite bt_keys_keyed, list_elem_of_fmap. intros (t & -> & Ht).
    pose proof (inv_pending _ H) as Hp. rewrite Forall_forall in Hp. specialize (Hp t Ht). lia. }
  assert (Hlk : bt_lookup k (live st) = bt_lookup k (received st)).
  { unfold live. rewrite bt_lookup_app, Hn. by destruct (bt_lookup k (received st)). }
  rewrite Hlk.
  destruct (bt_lookup k (received st)) as [t|] eqn:E; [done|]. cbn.
  split; [done|]. split; [|done]. symmetry. apply bt_without_notin, bt_lookup_None. by rewrite Hlk.
Qed.

Lemma lookup_live_low k st :
  timer_inv st -> k < min_delay_seq st \/ newest st < k -> bt_lookup k (live st) = None.
Proof.
  intros H Hk. apply bt_lookup_None. intros Hin.
  pose proof (newest_max st H) as [_ Hn]. pose proof (inv_low _ H) as Hl.
  rewrite Forall_forall in Hn, Hl. specialize (Hn k Hin). specialize (Hl k Hin). lia.
Qed.

Lemma without_live k st :
  bt_lookup k (live st) = None -> bt_without k (live st) = live st.
Proof. intros H. apply bt_without_notin. by apply bt_lookup_None. Qed.

(** The answer [take_task] gives for [k], by what is live. *)
Definition take_answer k st : poll (option T) :=
  match bt_lookup k (live st) with
  | Some t => Ready (Some t)
  | None => if newest st <? k then Pending else Ready None
  end.

Lemma take_task_stopped k st :
  timer_inv st -> reg_stopped_flag st = true -> processed_seq st < k ->
  take_task k st = (st, Ready None).
Proof.
  intros H Hs Hk. unfold take_task, take_task_resume, wait_reg_poll.
  pose proof (inv_min _ H). do 3 rew_cmp. by rewrite Hs.
Qed.

Lemma take_task_live k st :
  timer_inv st -> (reg_stopped_flag st = false \/ k <= processed_seq st) ->
  timer_inv (take_task k st).1 /\ live (take_task k st).1 = bt_without k (live st) /\
  (take_task k st).2 = take_answer k st.
Proof.
  intros H Hvis. pose proof (inv_min _ H). pose proof (newest_max st H) as [Hnew _].
  unfold take_task, take_answer. destruct (Z.ltb_spec k (min_delay_seq st)) as [Hlt|Hge].
  { cbn. rewrite without_live by (apply lookup_live_low; auto).
    rewrite lookup_live_low by auto. rew_cmp. done. }
  destruct (Z.ltb_spec (processed_seq st) k) as [Hwait|Hk].
  - destruct Hvis as [Hs|]; [|lia]. unfold take_task_resume, wait_reg_poll, poll_sent_task.
    rew_cmp. rewrite Hs. cbn zeta.
    assert (Hp : processed_seq (recv_pending st) = newest st) by (by rewrite recv_pending_eq).
    rewrite Hp. destruct (Z.ltb_spec (newest st) k).
    + assert (Hb : (k <=? newest st) = false) by (apply Z.leb_gt; done).
      rewrite Hb, andb_false_r. cbn. rewrite without_live by (apply lookup_live_low; auto).
      rewrite lookup_live_low by auto.
      split; [by apply recv_pending_inv|]. split; [by apply recv_pending_live|done].
    + assert (Hne : bool_decide (pending_tasks st = []) = false).
      { apply bool_decide_eq_false. intros He. unfold newest in *. rewrite He in *. cbn in *. lia. }
      assert (Hb : (k <=? newest st) = true) by (apply Z.leb_le; lia).
      rewrite Hne, Hb. cbn [negb andb].
      destruct (find_task_spec k (recv_pending st)) as (Hi & Hl & Hr);
        [by apply recv_pending_inv|by rewrite Hp|].
      rewrite recv_pending_live in Hl, Hr by done.
      destruct (find_task k (recv_pending st)) as [st' r]. cbn in *. subst r.
      by destruct (bt_lookup k (live st)).
  - destruct (find_task_spec k st H Hk) as (Hi & Hl & Hr).
    destruct (find_task k st) as [st' r]; cbn in *. subst r.
    destruct (bt_lookup k (live st)); [done|]. rew_cmp. done.
Qed.

Lemma take_task_split k st st' r :
  timer_inv st -> take_task k st = (st', r) ->
  (st' = st /\ r = Ready None) \/ (live st' = bt_without k (live st) /\ r = take_answer k st).
Proof.
  intros H E. destruct (decide (reg_stopped_flag st = true /\ processed_seq st < k)) as [[Hs Hk]|Hn].
  { left. rewrite take_task_stopped in E by done. by simplify_eq. }
  right. destruct (take_task_live k st H) as (_ & Hl & Hr); [|by rewrite E in Hl, Hr].
  destruct (reg_stopped_flag st); [right|by left]. destruct (Z.leb_spec k (processed_seq st)); [done|].
  exfalso; tauto.
Qed.

(** ** Handing tasks to [error_handle] *)
Section handled.
Context `{!ClientTaskOk T} (error_handle : T -> event T).

Definition fail_with (e : RpcIntErr) (m : btree T) : list (event T) :=
  map (fun p => error_handle (set_rpc_error (snd p) e)) m.

Lemma fail_with_app e m n : fail_with e (m ++ n) = fail_with e m ++ fail_with e n.
Proof. apply map_app. Qed.

Lemma drain_keys_eq m evs :
  drain_keys error_handle (bt_keys m) m evs = Ret ([], evs ++ fail_with IO m).
Proof.
  revert evs. induction m as [|[k t] m IH]; intros evs; [by rewrite app_nil_r|].
  cbn. rewrite Z.eqb_refl. cbn. rewrite IH, <- app_assoc. done.
Qed.

Lemma drain_queue_eq q evs :
  drain_queue error_handle q evs = Ret (map (fun _ => []) q, evs ++ fail_with IO (concat q)).
Proof.
  revert evs. induction q as [|b q IH]; intros evs; cbn [drain_queue map concat].
  { by rewrite app_nil_r. }
  rewrite drain_keys_eq. cbn [may_bind]. rewrite IH. cbn [may_bind].
  rewrite fail_with_app, app_assoc. done.
Qed.

(** The tasks in the order [clean_pending_tasks] visits them. *)
Definition clean_order st : btree T :=
  sent_tasks st ++ keyed (pending_tasks st) ++ concat (delay_tasks_queue st).

Lemma concat_rev_perm {A} (q : list (list A)) : concat (rev q) ≡ₚ concat q.
Proof.
  induction q as [|b q IH]; [done|]. cbn. rewrite concat_app. cbn.
  rewrite app_nil_r, IH. apply Permutation_app_comm.
Qed.

Lemma clean_order_live st : clean_order st ≡ₚ live st.
Proof.
  unfold clean_order, live, received. rewrite concat_rev_perm.
  rewrite <- !app_assoc. rewrite (Permutation_app_comm (concat _)). by rewrite <- !app_assoc.
Qed.

Lemma concat_nils {A B} (q : list A) : concat (rev (map (fun _ => @nil B) q)) = [].
Proof. induction q as [|b q IH]; [done|]. cbn. rewrite concat_app, IH. done. Qed.

Lemma clean_pending_tasks_eq st :
  timer_inv st ->
  exists st', clean_pending_tasks error_handle st = Ret (st', fail_with IO (clean_order st)) /\
    timer_inv st' /\ live st' = [] /\
    pending_task_count st' = pending_task_count st - zlen (pending_tasks st) /\
    newest st' = newest st /\ reg_stopped_flag st' = reg_stopped_flag st.
Proof.
  intros H. pose proof (recv_pending_inv st H) as Hi.
  unfold clean_pending_tasks. cbn zeta. rewrite drain_keys_eq. cbn [may_bind app].
  rewrite drain_queue_eq. cbn [may_bind]. eexists. split.
  { f_equal. f_equal. rewrite recv_pending_eq by done.
    cbn [sent_tasks delay_tasks_queue set_sent]. unfold clean_order. rewrite <- fail_with_app, <- app_assoc. reflexivity. }
  assert (Hp : pending_tasks (recv_pending st) = []) by (by rewrite recv_pending_eq).
  assert (Hl : live (set_delay (map (fun _ => []) (delay_tasks_queue (set_sent [] (recv_pending st))))
     (set_sent [] (recv_pending st))) = []).
  { unfold live, received; cbn. rewrite Hp. rewrite concat_nils. done. }
  split; [|split; [done|]].
  - destruct Hi as [? ? ? ? ? ? Hd Hc].
    constructor; rewrite ?Hl; cbn; try done; try (by constructor).
    + unfold received; cbn. rewrite concat_nils. constructor.
    + unfold zlen. rewrite length_map. apply Hd.
  - cbn. split; [by rewrite recv_pending_eq|]. split; [|by rewrite recv_pending_eq].
    unfold newest; cbn. by rewrite recv_pending_eq.
Qed.

(** ** The tick *)

(** The batch that times out at the next tick. *)
Definition expired st : btree T :=
  if zlen (delay_tasks_queue st) <? task_timeout st then []
  else List.last (sent_tasks st :: delay_tasks_queue st) [].

Lemma timeout_loop_events m k evs :
  (timeout_loop error_handle m k evs).2 = evs ++ fail_with Timeout m.
Proof.
  revert k evs. induction m as [|[k' t] m IH]; intros k evs; cbn; [by rewrite app_nil_r|].
  rewrite IH, <- app_assoc. done.
Qed.

Lemma timeout_loop_min m k evs :
  Forall (fun p => fst p = task_seq (snd p)) m -> 0 < k -> Forall (fun k' => k < k') (bt_keys m) ->
  (timeout_loop error_handle m k evs).1 = k.
Proof.
  revert evs. induction m as [|[k' t] m IH]; intros evs Hk H0 Hlt; cbn; [done|].
  cbn in Hlt. apply Forall_cons in Hk as [Hk ?], Hlt as [? ?]. cbn in Hk. subst k'.
  rewrite (proj2 (Z.eqb_neq k 0)) by lia. rewrite (proj2 (Z.ltb_ge (task_seq t) k)) by lia.
  cbn. auto.
Qed.

(** The loop leaves the least key of the batch. *)
Lemma timeout_loop_first k t m :
  bt_ok ((k, t) :: m) -> Forall (fun p => fst p = task_seq (snd p)) ((k, t) :: m) -> 0 < k ->
  timeout_loop error_handle ((k, t) :: m) 0 [] = (k, fail_with Timeout ((k, t) :: m)).
Proof.
  intros Hs Hk H0. apply Forall_cons in Hk as [Hk Hm]. cbn in Hk. subst k.
  apply bt_ok_cons in Hs as [_ Hlt].
  rewrite (surjective_pairing (timeout_loop _ _ _ _)). rewrite timeout_loop_events. f_equal.
  cbn. apply timeout_loop_min; done.
Qed.

Lemma live_adjust st :
  concat (rev (sent_tasks st :: delay_tasks_queue st)) ++ keyed (pending_tasks st) = live st.
Proof. cbn [rev]. rewrite concat_app. cbn. rewrite app_nil_r. done. Qed.

Lemma concat_rev_last {A} (q : list (list A)) :
  concat (rev q) = List.last q [] ++ concat (rev (removelast q)).
Proof.
  destruct q as [|b q]; [done|]. rewrite (app_removelast_last (l := b :: q) []) at 1 by done.
  rewrite rev_app_distr. done.
Qed.

(** The state after a tick. *)
Definition ticked st : ClientTaskTimer T :=
  Timer (pending_tasks st) (pending_cap st) (pending_task_count st) []
    (if zlen (delay_tasks_queue st) <? task_timeout st
     then sent_tasks st :: delay_tasks_queue st
     else removelast (sent_tasks st :: delay_tasks_queue st))
    (match expired st with [] => min_delay_seq st | (k, _) :: _ => k end)
    (task_timeout st) (processed_seq st) (reg_stopped_flag st).

Lemma live_ticked st : live st = expired st ++ live (ticked st).
Proof.
  rewrite <- live_adjust. unfold live, received, ticked, expired.
  cbn [delay_tasks_queue sent_tasks pending_tasks].
  destruct (zlen (delay_tasks_queue st) <? task_timeout st); [by rewrite app_nil_r|].
  rewrite concat_rev_last, app_nil_r. by rewrite <- app_assoc.
Qed.

Lemma expired_facts st :
  timer_inv st ->
  bt_ok (expired st) /\ Forall (fun p => fst p = task_seq (snd p)) (expired st) /\
  Forall (fun k => 0 < k /\ min_delay_seq st <= k) (bt_keys (expired st)) /\
  Forall (fun k => k <= processed_seq st) (bt_keys (expired st)).
Proof.
  intros [Hs Hk Hl Hr _ _ _ _]. rewrite live_ticked in Hs, Hk, Hl.
  rewrite bt_keys_app in Hl. apply Forall_app in Hk as [? _], Hl as [? _].
  apply bt_ok_app in Hs as (? & _ & _). repeat split; [done..|].
  unfold received in Hr. unfold expired.
  destruct (zlen (delay_tasks_queue st) <? task_timeout st); [constructor|].
  rewrite <- (app_nil_r (sent_tasks st)) in Hr.
  change (sent_tasks st ++ []) with (concat [sent_tasks st]) in Hr.
  rewrite <- concat_app in Hr. change (rev (delay_tasks_queue st) ++ [sent_tasks st])
    with (rev (sent_tasks st :: delay_tasks_queue st)) in Hr.
  rewrite concat_rev_last, bt_keys_app in Hr. apply Forall_app in Hr as [? _]. done.
Qed.

Lemma adjust_task_queue_eq st :
  timer_inv st ->
  adjust_task_queue error_handle st = (ticked st, fail_with Timeout (expired st)).
Proof.
  intros H. destruct (expired_facts st H) as (Hs & Hk & Hl & _).
  unfold adjust_task_queue, ticked. cbn zeta.
  cbn [delay_tasks_queue set_delay set_sent sent_tasks task_timeout]. rewrite zlen_cons.
  pose proof (inv_delay _ H) as Hd. unfold expired in *.
  destruct (Z.ltb_spec (zlen (delay_tasks_queue st)) (task_timeout st)) as [Hlt|Hge].
  { rewrite (proj2 (Z.ltb_ge (task_timeout st) (zlen (delay_tasks_queue st) + 1))) by lia. done. }
  rewrite (proj2 (Z.ltb_lt (task_timeout st) (zlen (delay_tasks_queue st) + 1))) by lia.
  destruct (List.last (sent_tasks st :: delay_tasks_queue st) []) as [|[k t] m] eqn:E; [done|].
  rewrite bool_decide_eq_false_2 by done. cbn [negb].
  rewrite timeout_loop_first; [done..|].
  cbn in Hl. apply Forall_cons in Hl as [? _]. lia.
Qed.

Lemma ticked_inv st : timer_inv st -> timer_inv (ticked st).
Proof.
  intros H. destruct (expired_facts st H) as (_ & _ & Hlo & Hhi).
  pose proof (live_ticked st) as Hlt. destruct H as [Hs Hk Hl Hr Hp Hm Hd Hc].
  rewrite Hlt in Hs, Hk, Hl. apply bt_ok_app in Hs as (_ & Hs & Hx).
  rewrite bt_keys_app in Hl. apply Forall_app in Hk as [_ Hk], Hl as [_ Hl].
  assert (Hmin : 0 <= min_delay_seq (ticked st) <= processed_seq st).
  { unfold ticked; cbn. destruct (expired st) as [|[k t] m]; [done|].
    cbn in *. apply Forall_cons in Hlo as [? _], Hhi as [? _]. lia. }
  constructor; try done.
  - unfold ticked at 1; cbn. destruct (expired st) as [|[k t] m]; [done|].
    cbn in Hx. apply Forall_cons in Hx as [Hx _]. rewrite Forall_forall in Hx, Hl |- *.
    intros k' Hin. specialize (Hx k' Hin). specialize (Hl k' Hin). lia.
  - assert (Hsub : received st = expired st ++ received (ticked st)).
    { unfold live in Hlt. rewrite app_assoc in Hlt. by apply app_inv_tail in Hlt. }
    rewrite Hsub, bt_keys_app in Hr. apply Forall_app in Hr as [_ Hr]. done.
  - unfold ticked; cbn [delay_tasks_queue task_timeout].
    destruct (Z.ltb_spec (zlen (delay_tasks_queue st)) (task_timeout st)).
    + rewrite zlen_cons. lia.
    + rewrite removelast_firstn_len. unfold zlen. rewrite length_firstn. cbn. unfold zlen in *. lia.
Qed.

(** ** Interleavings of the timer's operations *)

Inductive timer_op : Type :=
| OpCount             (** the sender announces a task *)
| OpUncount           (** and takes the announcement back *)
| OpReg (t : T)
| OpPoll
| OpTake (seq : Z)
| OpTick
| OpClean
| OpCheck
| OpStop.

(** How a task leaves the timer. *)
Inductive timer_out : Type :=
| OTaken (t : T)
| OEvent (e : event T).

Definition out_seq (o : timer_out) : Z :=
  match o with OTaken t => task_seq t | OEvent e => task_seq (ev_task e) end.

Definition taken (r : poll (option T)) : list timer_out :=
  match r with Ready (Some t) => [OTaken t] | _ => [] end.

Inductive timer_step : timer_op -> ClientTaskTimer T -> ClientTaskTimer T -> list timer_out -> Prop :=
| step_count st :
    pending_task_count st + 1 < 2 ^ 64 -> timer_step OpCount st (count_incr st) []
| step_uncount st :
    zlen (pending_tasks st) < pending_task_count st -> timer_step OpUncount st (count_decr st) []
| step_reg t st st' :
    zlen (pending_tasks st) < pending_task_count st -> newest st < task_seq t ->
    reg_task t st = Ready st' -> timer_step (OpReg t) st st' []
| step_poll st : timer_step OpPoll st (poll_sent_task st).1 []
| step_take k st st' r : take_task k st = (st', r) -> timer_step (OpTake k) st st' (taken r)
| step_tick st st' evs :
    adjust_task_queue error_handle st = (st', evs) -> timer_step OpTick st st' (map OEvent evs)
| step_clean st st' evs :
    clean_pending_tasks error_handle st = Ret (st', evs) ->
    timer_step OpClean st st' (map OEvent evs)
| step_check st : timer_step OpCheck st (check_pending_tasks_empty st).1 []
| step_stop st : timer_step OpStop st (stop_reg_task st) [].

Inductive timer_run : list timer_op -> ClientTaskTimer T -> ClientTaskTimer T -> list timer_out -> Prop :=
| run_nil st : timer_run [] st st []
| run_snoc ops op st st' st'' outs outs' :
    timer_run ops st st' outs -> timer_step op st' st'' outs' ->
    timer_run (ops ++ [op]) st st'' (outs ++ outs').

Definition op_reg (op : timer_op) : list Z := match op with OpReg t => [task_seq t] | _ => [] end.

Lemma timer_inv_ext st st' :
  live st' = live st -> received st' = received st -> pending_tasks st' = pending_tasks st ->
  min_delay_seq st' = min_delay_seq st -> processed_seq st' = processed_seq st ->
  delay_tasks_queue st' = delay_tasks_queue st -> task_timeout st' = task_timeout st ->
  zlen (pending_tasks st) <= pending_task_count st' < 2 ^ 64 ->
  timer_inv st -> timer_inv st'.
Proof.
  intros El Er Ep Em Epr Ed Et Hc [? ? ? ? ? ? ? ?].
  constructor; rewrite ?El, ?Er, ?Ep, ?Em, ?Epr, ?Ed, ?Et; done.
Qed.

Lemma reg_task_inv t st st' :
  timer_inv st -> zlen (pending_tasks st) < pending_task_count st -> newest st < task_seq t ->
  reg_task t st = Ready st' ->
  timer_inv st' /\ live st' = live st ++ [(task_seq t, t)].
Proof.
  intros H Hc Hn Hr. pose proof (newest_max st H) as [Hpn Hmax]. unfold reg_task in Hr.
  destruct (_ <? _); simplify_eq.
  assert (Hl : live (set_pending (pending_tasks st ++ [t]) st) = live st ++ [(task_seq t, t)]).
  { unfold live, received; cbn. rewrite keyed_app, app_assoc. done. }
  split; [|done]. destruct H as [Hs Hk Hlo Hre Hp Hm Hd Hc'].
  constructor; rewrite ?Hl; try done.
  - apply bt_ok_app. split; [done|]. split; [repeat constructor|].
    eapply Forall_impl; [exact Hmax|]. cbn. intros k Hk'. repeat constructor. lia.
  - apply Forall_app. split; [done|]. by repeat constructor.
  - rewrite bt_keys_app. apply Forall_app. split; [done|]. cbn. repeat constructor; lia.
  - cbn. apply Forall_app. split; [done|]. repeat constructor. lia.
  - cbn. rewrite zlen_app, zlen_cons. cbn. unfold zlen at 2; cbn. lia.
Qed.

Lemma check_pending_state st :
  (check_pending_tasks_empty st).1 = recv_pending st.
Proof. unfold check_pending_tasks_empty. by destruct (negb _). Qed.

(** What the user's [error_handle] keeps: the task it is given. *)
Context (error_handle_task : forall t, ev_task (error_handle t) = t).

Lemma fail_with_seqs e m :
  Forall (fun p => fst p = task_seq (snd p)) m ->
  map out_seq (map OEvent (fail_with e m)) = bt_keys m.
Proof.
  intros H. unfold fail_with, bt_keys. rewrite !map_map. apply map_ext_Forall.
  eapply Forall_impl; [exact H|]. intros [k t]; cbn. intros ->.
  rewrite error_handle_task. apply task_seq_set_rpc_error.
Qed.

Lemma without_split {V} k v (m : btree V) :
  bt_ok m -> bt_lookup k m = Some v -> m ≡ₚ (k, v) :: bt_without k m.
Proof.
  induction m as [|[k' v'] m IH]; [done|]. rewrite bt_ok_cons. intros [Hm Hk]. cbn.
  destruct (Z.eqb_spec k k') as [->|Hne].
  - intros [= ->]. rewrite Z.eqb_refl. cbn [negb]. fold (bt_without k' m).
    by rewrite bt_without_notin by (by apply Forall_lt_notin).
  - intros Hl. rewrite (proj2 (Z.eqb_neq k' k)) by done. cbn. fold (bt_without k m).
    rewrite (IH Hm Hl) at 1. apply Permutation_swap.
Qed.

Lemma without_perm {V} k v (m : btree V) :
  bt_ok m -> bt_lookup k m = Some v -> bt_keys m ≡ₚ k :: bt_keys (bt_without k m).
Proof. intros Hm Hl. exact (Permutation_map fst (without_split k v m Hm Hl)). Qed.

Lemma find_task_timeout k st : task_timeout (find_task k st).1 = task_timeout st.
Proof. unfold find_task. split_cases. Qed.

Lemma recv_all_timeout ps st : task_timeout (recv_all ps st) = task_timeout st.
Proof. revert st. induction ps as [|t ps IH]; [done|]. intros st. cbn. by rewrite IH. Qed.

Lemma take_task_timeout k st : task_timeout (take_task k st).1 = task_timeout st.
Proof.
  pose proof (find_task_timeout k st) as H1. pose proof (find_task_timeout k (recv_pending st)) as H2.
  pose proof (recv_all_timeout (pending_tasks st) st) as H3. fold (recv_pending st) in H3.
  unfold take_task, take_task_resume, wait_reg_poll, poll_sent_task.
  destruct (k <? _); [done|]. destruct (processed_seq st <? k).
  - destruct (k <=? processed_seq st); [by destruct (find_task k st)|].
    destruct (reg_stopped_flag st); [done|]. destruct (_ && _); [|done].
    destruct (find_task k (recv_pending st)). cbn in *. congruence.
  - by destruct (find_task k st).
Qed.

Lemma take_task_flag k st : reg_stopped_flag (take_task k st).1 = reg_stopped_flag st.
Proof.
  assert (Hf : forall s : ClientTaskTimer T, reg_stopped_flag (find_task k s).1 = reg_stopped_flag s).
  { intros s. unfold find_task. split_cases. }
  assert (Hr : forall ps (s : ClientTaskTimer T), reg_stopped_flag (recv_all ps s) = reg_stopped_flag s).
  { intros ps. induction ps as [|p ps IH]; intros s; [done|]. cbn. by rewrite IH. }
  pose proof (Hf st) as H1.
  assert (H2 : reg_stopped_flag (find_task k (recv_pending st)).1 = reg_stopped_flag st)
    by (etransitivity; [apply Hf|apply Hr]).
  unfold take_task, take_task_resume, wait_reg_poll, poll_sent_task.
  destruct (k <? _); [done|]. destruct (processed_seq st <? k); [|by destruct (find_task k st)].
  destruct (k <=? processed_seq st); [by destruct (find_task k st)|].
  destruct (reg_stopped_flag st) eqn:E; [done|]. destruct (_ && _); [|etransitivity; [apply Hr|exact E]].
  rewrite <- H2. by destruct (find_task k (recv_pending st)).
Qed.

Definition step_ok (op : timer_op) st st' (outs : list timer_out) : Prop :=
  timer_inv st' /\ task_timeout st' = task_timeout st /\
  bt_keys (live st) ++ op_reg op ≡ₚ map out_seq outs ++ bt_keys (live st').

Lemma step_take_ok k st st' r :
  timer_inv st -> take_task k st = (st', r) -> step_ok (OpTake k) st st' (taken r).
Proof.
  intros H E. destruct (decide (reg_stopped_flag st = true /\ processed_seq st < k)) as [[? ?]|Hn].
  { rewrite take_task_stopped in E by done. simplify_eq. unfold step_ok; cbn. by rewrite app_nil_r. }
  destruct (take_task_live k st H) as (Hi & Hl & Hr).
  { destruct (reg_stopped_flag st); [right|by left]. destruct (Z.leb_spec k (processed_seq st)); [done|].
    exfalso; tauto. }
  rewrite E in *. cbn in *. subst r. split; [done|]. split.
  { pose proof (take_task_timeout k st) as Ht. by rewrite E in Ht. }
  rewrite Hl, app_nil_r. unfold take_answer. destruct (bt_lookup k (live st)) as [t|] eqn:El.
  - cbn. rewrite (without_perm k t) by (done || apply inv_sorted, H). 
    assert (k = task_seq t) as <-; [|done].
    pose proof (inv_keys _ H) as Hk. rewrite Forall_forall in Hk.
    apply (Hk (k, t)), bt_lookup_in, El.
  - rewrite without_live by done. by destruct (newest st <? k).
Qed.

Lemma timer_step_ok op st st' outs :
  timer_inv st -> timer_step op st st' outs -> step_ok op st st' outs.
Proof.
  intros H. destruct 1 as [st Hc|st Hc|t st st' Hc Hn Hr|st|k st st' r Ht|st st' evs Ha
    |st st' evs Hcl|st|st].
  1-2: unfold step_ok; cbn; rewrite app_nil_r; split; [|done];
    apply (timer_inv_ext st); try done; cbn; unfold u64_incr, u64_decr, as_u64;
    pose proof (inv_count _ H); pose proof (zlen_nonneg (pending_tasks st));
    rewrite Z.mod_small; lia.
  - destruct (reg_task_inv t st st') as [Hi Hl]; [done..|]. split; [done|]. split.
    { unfold reg_task in Hr. destruct (_ <? _); by simplify_eq. }
    rewrite Hl, bt_keys_app. done.
  - cbn. split; [by apply recv_pending_inv|]. split; [by rewrite recv_pending_eq|].
    cbn. by rewrite recv_pending_live, app_nil_r.
  - by apply step_take_ok.
  - rewrite adjust_task_queue_eq in Ha by done. simplify_eq. split; [by apply ticked_inv|].
    split; [done|]. rewrite fail_with_seqs by (by apply expired_facts).
    cbn. rewrite app_nil_r, live_ticked, bt_keys_app. done.
  - destruct (clean_pending_tasks_eq st H) as (st1 & E & Hi & Hl & _). rewrite E in Hcl. simplify_eq.
    split; [done|]. split.
    { pose proof E as E'. unfold clean_pending_tasks in E'. cbn zeta in E'.
      rewrite drain_keys_eq in E'. cbn [may_bind] in E'. rewrite drain_queue_eq in E'.
      cbn [may_bind] in E'. injection E' as <- _. cbn. by rewrite recv_pending_eq. }
    rewrite fail_with_seqs.
    + rewrite Hl. cbn. rewrite !app_nil_r. unfold bt_keys. by rewrite clean_order_live.
    + rewrite clean_order_live. apply H.
  - rewrite check_pending_state. split; [by apply recv_pending_inv|].
    split; [by rewrite recv_pending_eq|]. cbn. by rewrite recv_pending_live, app_nil_r.
  - split; [|by cbn; rewrite app_nil_r]. apply (timer_inv_ext st); try done. apply H.
Qed.

Lemma timer_run_ok ops st st' outs :
  timer_inv st -> timer_run ops st st' outs ->
  timer_inv st' /\ task_timeout st' = task_timeout st /\
  bt_keys (live st) ++ concat (map op_reg ops) ≡ₚ map out_seq outs ++ bt_keys (live st').
Proof.
  intros H. induction 1 as [st|ops op st st1 st2 outs outs' Hrun IH Hstep]; [by rewrite app_nil_r|].
  destruct (IH H) as (Hi & Ht & Hp). destruct (timer_step_ok op st1 st2 outs' Hi Hstep) as (Hi' & Ht' & Hp').
  split; [done|]. split; [congruence|].
  rewrite map_app, map_app. rewrite concat_app. cbn. rewrite app_nil_r, app_assoc, Hp.
  rewrite <- app_assoc, Hp', app_assoc. done.
Qed.

Lemma Timer_new_inv timeout thresholds : 0 <= timeout -> timer_inv (Timer_new timeout thresholds).
Proof. intros ?. constructor; try (by constructor); cbn; rewrite ?zlen_nil; try done; lia. Qed.

(** Sequence numbers are registered in ascending order. *)
Lemma newest_find_task k st : newest (find_task k st).1 = newest st.
Proof. unfold find_task. split_cases. Qed.

Lemma newest_recv st : timer_inv st -> newest (recv_pending st) = newest st.
Proof. intros H. unfold newest at 1. by rewrite recv_pending_eq. Qed.

Lemma newest_take_task k st : timer_inv st -> newest (take_task k st).1 = newest st.
Proof.
  intros H. pose proof (newest_find_task k st) as H1.
  pose proof (newest_find_task k (recv_pending st)) as H2. pose proof (newest_recv st H) as H3.
  unfold take_task, take_task_resume, wait_reg_poll, poll_sent_task.
  destruct (k <? _); [done|]. destruct (processed_seq st <? k).
  - destruct (k <=? processed_seq st); [by destruct (find_task k st)|].
    destruct (reg_stopped_flag st); [done|]. destruct (_ && _); [|done].
    destruct (find_task k (recv_pending st)). cbn in *. congruence.
  - by destruct (find_task k st).
Qed.

Lemma step_newest op st st' outs :
  timer_inv st -> timer_step op st st' outs ->
  match op with
  | OpReg t => newest st < newest st' /\ newest st' = task_seq t
  | _ => newest st' = newest st
  end.
Proof.
  intros H. destruct 1 as [st Hc|st Hc|t st st' Hc Hn Hr|st|k st st' r Ht|st st' evs Ha
    |st st' evs Hcl|st|st]; [done|done|..|done].
  - unfold reg_task in Hr. destruct (_ <? _); simplify_eq.
    assert (E : newest (set_pending (pending_tasks st ++ [t]) st) = task_seq t) by apply last_seq_app.
    by rewrite E.
  - by apply newest_recv.
  - pose proof (newest_take_task k st H) as E. by rewrite Ht in E.
  - rewrite adjust_task_queue_eq in Ha by done. by simplify_eq.
  - destruct (clean_pending_tasks_eq st H) as (st1 & E & _ & _ & _ & En & _).
    rewrite E in Hcl. by simplify_eq.
  - rewrite check_pending_state. by apply newest_recv.
Qed.

Lemma run_regs_sorted ops st st' outs :
  timer_inv st -> timer_run ops st st' outs ->
  newest st <= newest st' /\ StronglySorted Z.lt (concat (map op_reg ops)) /\
  Forall (fun k => newest st < k <= newest st') (concat (map op_reg ops)).
Proof.
  intros H. induction 1 as [st|ops op st st1 st2 outs outs' Hrun IH Hstep].
  { cbn. repeat split; [lia|constructor|constructor]. }
  destruct (IH H) as (Hle & Hs & Hf). destruct (timer_run_ok _ _ _ _ H Hrun) as (Hi & _ & _).
  pose proof (step_newest _ _ _ _ Hi Hstep) as Hn.
  rewrite map_app, concat_app. cbn. rewrite app_nil_r.
  destruct op; cbn [op_reg]; rewrite ?app_nil_r; try (rewrite Hn; done).
  destruct Hn as [Hlt Heq]. split; [lia|]. split.
  - apply ssorted_app. split; [done|]. split; [repeat constructor|].
    eapply Forall_impl; [exact Hf|]. cbn. intros k ?. repeat constructor. lia.
  - apply Forall_app. split; [|repeat constructor; lia].
    eapply Forall_impl; [exact Hf|]. cbn. lia.
Qed.

Lemma ssorted_NoDup (l : list Z) : StronglySorted Z.lt l -> NoDup l.
Proof. induction 1; constructor; [by apply Forall_lt_notin|done]. Qed.

(** No sequence number leaves twice, or leaves and stays. *)
Lemma run_NoDup ops st st' outs :
  timer_inv st -> timer_run ops st st' outs -> NoDup (map out_seq outs ++ bt_keys (live st')).
Proof.
  intros H Hr. destruct (timer_run_ok _ _ _ _ H Hr) as (_ & _ & Hp). rewrite <- Hp.
  destruct (run_regs_sorted _ _ _ _ H Hr) as (_ & Hs & Hf). destruct (newest_max st H) as [_ Hn].
  apply NoDup_app. split; [apply ssorted_NoDup, H|]. split; [|by apply ssorted_NoDup].
  intros k Hk Hk'. rewrite Forall_forall in Hf, Hn. specialize (Hf k Hk'). specialize (Hn k Hk). lia.
Qed.

(** ** Ageing *)

(** [k]'s task [t] is in the batch of [n] ticks ago. *)
Definition held k (t : T) (n : nat) st : Prop :=
  exists b, (sent_tasks st :: delay_tasks_queue st) !! n = Some b /\ (k, t) ∈ b.

Definition is_tick (op : timer_op) : bool := match op with OpTick => true | _ => false end.
Definition ticks (ops : list timer_op) : Z := zlen (List.filter is_tick ops).
Definition spares k (op : timer_op) : Prop :=
  match op with OpTake k' => k' <> k | OpClean => False | _ => True end.

Lemma held_recv k t n st : timer_inv st -> held k t n st -> held k t n (recv_pending st).
Proof.
  intros H (b & Hb & Hin). rewrite recv_pending_eq by done. unfold held; cbn.
  destruct n; cbn in *; [|by exists b]. simplify_eq. eexists; split; [done|].
  apply elem_of_app. by left.
Qed.

Lemma held_without k k' t n st :
  k <> k' -> held k t n st ->
  held k t n (set_delay (map (bt_without k') (delay_tasks_queue st))
                (set_sent (bt_without k' (sent_tasks st)) st)).
Proof.
  intros Hne (b & Hb & Hin). exists (bt_without k' b). split.
  - cbn. change (?x :: map ?f ?l) with (map f (sent_tasks st :: l)).
    rewrite list_lookup_fmap, Hb. done.
  - unfold bt_without. apply list_elem_of_In, filter_In. split; [by apply list_elem_of_In|].
    cbn. by rewrite (proj2 (Z.eqb_neq k k')).
Qed.

Lemma held_find k k' t n st :
  bt_ok (received st) -> k <> k' -> held k t n st -> held k t n (find_task k' st).1.
Proof.
  intros Hs Hne Hh. rewrite find_task_eq by done.
  destruct (bt_lookup k' (received st)); cbn; [by apply held_without|done].
Qed.

Lemma held_take k k' t n st :
  timer_inv st -> k <> k' -> held k t n st -> held k t n (take_task k' st).1.
Proof.
  intros H Hne Hh. pose proof (recv_pending_inv st H) as Hi.
  pose proof (held_find k k' t n st (received_ok _ H) Hne Hh) as H1.
  pose proof (held_recv k t n st H Hh) as Hr.
  pose proof (held_find k k' t n _ (received_ok _ Hi) Hne Hr) as H2.
  unfold take_task, take_task_resume, wait_reg_poll, poll_sent_task.
  destruct (k' <? _); [done|]. destruct (processed_seq st <? k').
  - destruct (k' <=? processed_seq st); [by destruct (find_task k' st)|].
    destruct (reg_stopped_flag st); [done|]. destruct (_ && _); [|done].
    by destruct (find_task k' (recv_pending st)).
  - by destruct (find_task k' st).
Qed.

Lemma last_lookup_len {A} (l : list A) n b d :
  l !! n = Some b -> length l = S n -> List.last l d = b.
Proof.
  intros Hb Hl. destruct l as [|a l]; [done|].
  rewrite (app_removelast_last (l := a :: l) d) in Hb by done.
  rewrite lookup_app_r in Hb by (rewrite removelast_firstn_len, length_firstn; cbn in *; lia).
  apply list_lookup_singleton_Some in Hb. tauto.
Qed.

Lemma held_tick k t n st :
  timer_inv st -> held k t n st ->
  if Z.of_nat n <? task_timeout st then held k t (S n) (ticked st) else (k, t) ∈ expired st.
Proof.
  intros H (b & Hb & Hin). pose proof (inv_delay _ H) as Hd.
  pose proof (lookup_lt_Some _ _ _ Hb) as Hlt. cbn in Hlt. unfold zlen in *.
  destruct (Z.ltb_spec (Z.of_nat n) (task_timeout st)) as [Hn|Hn].
  - exists b. split; [|done]. unfold ticked; cbn [sent_tasks delay_tasks_queue].
    change ((?x :: ?l) !! S n) with (l !! n). unfold zlen.
    destruct (Z.ltb_spec (Z.of_nat (length (delay_tasks_queue st))) (task_timeout st)); [done|].
    rewrite removelast_firstn_len, lookup_take_lt; [done|]. cbn. lia.
  - unfold expired. rewrite (proj2 (Z.ltb_ge _ _)) by (unfold zlen; lia).
    erewrite last_lookup_len; [done|done|]. cbn. lia.
Qed.

Lemma fail_with_in e k t m :
  (k, t) ∈ m -> OEvent (error_handle (set_rpc_error t e)) ∈ map OEvent (fail_with e m).
Proof.
  intros H. apply list_elem_of_fmap. eexists; split; [done|].
  apply list_elem_of_fmap. by exists (k, t).
Qed.

Lemma held_step k t n op st st' outs :
  timer_inv st -> spares k op -> timer_step op st st' outs -> held k t n st ->
  if is_tick op
  then if Z.of_nat n <? task_timeout st then held k t (S n) st'
       else OEvent (error_handle (set_rpc_error t Timeout)) ∈ outs
  else held k t n st'.
Proof.
  intros H Hsp. destruct 1 as [st Hc|st Hc|t' st st' Hc Hn Hr|st|k' st st' r Ht|st st' evs Ha
    |st st' evs Hcl|st|st]; cbn; intros Hh; try done.
  - unfold reg_task in Hr. destruct (_ <? _); by simplify_eq.
  - by apply held_recv.
  - pose proof (held_take k k' t n st H) as E. rewrite Ht in E. cbn in *. auto.
  - rewrite adjust_task_queue_eq in Ha by done. simplify_eq.
    pose proof (held_tick k t n st H Hh) as E. destruct (_ <? _); [done|]. by eapply fail_with_in.
  - rewrite check_pending_state. by apply held_recv.
Qed.

Lemma held_live k t n st : held k t n st -> (k, t) ∈ live st.
Proof.
  intros (b & Hb & Hin). unfold live, received. rewrite !elem_of_app. left.
  destruct n as [|n]; cbn in Hb; simplify_eq; [by right|]. left.
  rewrite concat_rev_perm. apply list_elem_of_In, in_concat. exists b.
  split; apply list_elem_of_In; [|done]. by apply list_elem_of_lookup_2 in Hb.
Qed.

Lemma ticks_snoc ops op : ticks (ops ++ [op]) = ticks ops + (if is_tick op then 1 else 0).
Proof.
  unfold ticks. rewrite List.filter_app, zlen_app. cbn. destruct (is_tick op); done.
Qed.

(** A task that nobody takes stays until it has seen [task_timeout] ticks and
    is failed at the next one. *)
Lemma held_run k t ops st st' outs :
  timer_inv st -> timer_run ops st st' outs -> Forall (spares k) ops -> held k t 0 st ->
  if ticks ops <=? task_timeout st then held k t (Z.to_nat (ticks ops)) st'
  else OEvent (error_handle (set_rpc_error t Timeout)) ∈ outs.
Proof.
  intros H. induction 1 as [st|ops op st st1 st2 outs outs' Hrun IH Hstep]; intros Hsp Hh.
  { pose proof (inv_delay _ H). pose proof (zlen_nonneg (delay_tasks_queue st)).
    unfold ticks; cbn. rewrite zlen_nil. rewrite (proj2 (Z.leb_le _ _)) by lia. done. }
  apply Forall_app in Hsp as [Hsp Hop]. apply Forall_cons in Hop as [Hop _].
  specialize (IH H Hsp Hh). destruct (timer_run_ok _ _ _ _ H Hrun) as (Hi & Ht & _).
  pose proof (held_step k t (Z.to_nat (ticks ops)) op st1 st2 outs' Hi Hop Hstep) as Hs.
  rewrite ticks_snoc. assert (0 <= ticks ops) by apply zlen_nonneg.
  rewrite Ht, Z2Nat.id in Hs by done.
  destruct (Z.leb_spec (ticks ops) (task_timeout st)) as [Hle|Hgt].
  - specialize (Hs IH). destruct (is_tick op).
    + destruct (Z.ltb_spec (ticks ops) (task_timeout st)).
      * rewrite (proj2 (Z.leb_le _ _)) by lia. by rewrite Z2Nat.inj_add, Nat.add_1_r.
      * rewrite (proj2 (Z.leb_gt _ _)) by lia. apply elem_of_app. by right.
    + rewrite Z.add_0_r, (proj2 (Z.leb_le _ _)) by lia. done.
  - rewrite (proj2 (Z.leb_gt _ _)) by (destruct (is_tick op); lia). apply elem_of_app. by left.
Qed.

Lemma check_pending_empty_iff st :
  timer_inv st -> (check_pending_tasks_empty st).2 = true <-> live st = [].
Proof.
  intros H. rewrite <- recv_pending_live by done. unfold check_pending_tasks_empty, live, received.
  assert (Hp : pending_tasks (recv_pending st) = []) by (by rewrite recv_pending_eq).
  rewrite Hp. cbn. rewrite app_nil_r. generalize (recv_pending st); clear; intros st.
  assert (Hq : forallb (fun b => bool_decide (b = [])) (delay_tasks_queue st) = true <->
               concat (rev (delay_tasks_queue st)) = []).
  { induction (delay_tasks_queue st) as [|b q IH]; cbn; [done|].
    rewrite concat_app, app_nil, andb_true_iff, bool_decide_eq_true, IH. cbn. rewrite app_nil_r. tauto. }
  case_bool_decide as Hs; cbn.
  - rewrite Hs, app_nil_r. done.
  - split; [done|]. rewrite app_nil. tauto.
Qed.

(** ** Properties *)

(** C15. Whatever the interleaving of registrations, polls, look-ups, ticks
    and clean-ups since a timer was created, it keeps its invariant, and every
    task registered is either still live or has left exactly once: taken for
    its response, or handed to [error_handle]; none is lost or duplicated. *)
Theorem timer_conservation timeout thresholds ops st outs :
  0 <= timeout ->
  timer_run ops (Timer_new timeout thresholds) st outs ->
  timer_inv st /\
  concat (map op_reg ops) ≡ₚ map out_seq outs ++ bt_keys (live st) /\
  NoDup (map out_seq outs ++ bt_keys (live st)).
Proof using ClientTaskOk0 error_handle_task.
  intros Ht Hr. pose proof (Timer_new_inv timeout thresholds Ht) as H0.
  destruct (timer_run_ok _ _ _ _ H0 Hr) as (Hi & _ & Hp).
  split; [done|]. split; [exact Hp|]. exact (run_NoDup _ _ _ _ H0 Hr).
Qed.

(** C27. A task in the current second that is neither taken nor cleaned
    up survives exactly [task_timeout] ticks, whatever else happens to the
    timer: until then it stays live and nothing is reported for it, and from
    the next tick on it is no longer live and has been handed to
    [error_handle] with the [Timeout] error. *)
Theorem timeout_exact k t ops st st' outs :
  timer_inv st -> timer_run ops st st' outs -> Forall (spares k) ops -> held k t 0 st ->
  if ticks ops <=? task_timeout st
  then (k, t) ∈ live st' /\ k ∉ map out_seq outs
  else OEvent (error_handle (set_rpc_error t Timeout)) ∈ outs /\ k ∉ bt_keys (live st').
Proof using ClientTaskOk0 error_handle_task.
  intros H Hr Hsp Hh. pose proof (held_run k t ops st st' outs H Hr Hsp Hh) as E.
  pose proof (run_NoDup _ _ _ _ H Hr) as (_ & Hd & _)%NoDup_app.
  assert (Hk : k = task_seq t).
  { pose proof (inv_keys _ H) as Hk. rewrite Forall_forall in Hk. apply (Hk (k, t)).
    by eapply held_live. }
  destruct (ticks ops <=? task_timeout st).
  - apply held_live in E. split; [done|]. intros Hin. apply (Hd k Hin). by eapply bt_in_keys.
  - split; [done|]. intros Hin. eapply Hd; [|exact Hin].
    apply list_elem_of_fmap. eexists; split; [|exact E]. cbn.
    by rewrite error_handle_task, task_seq_set_rpc_error.
Qed.

(** [clean_pending_tasks] never reaches one of its [unwrap]s with
    nothing: it returns, hands every live task, wherever it is held, to
    [error_handle] exactly once with the [IO] error, and leaves the timer empty
    and its pending counter without the tasks it received. *)
Theorem clean_pending_tasks_total st :
  timer_inv st ->
  exists st', clean_pending_tasks error_handle st = Ret (st', fail_with IO (clean_order st)) /\
    clean_order st ≡ₚ live st /\ live st' = [] /\ timer_inv st' /\
    pending_task_count st' = pending_task_count st - zlen (pending_tasks st).
Proof using ClientTaskOk0.
  intros H. destruct (clean_pending_tasks_eq st H) as (st' & E & Hi & Hl & Hc & _).
  exists st'. split; [done|]. split; [apply clean_order_live|done].
Qed.

End handled.

(** C28. [take_task] answers with the task of that sequence number exactly
    when it is live, wherever it is held, and removes that one only; a number
    already settled gives [None], one not registered yet waits. Once
    registration has stopped it no longer looks into the channel and gives
    [None] for what it has not received. *)
Theorem take_task_spec k st :
  timer_inv st ->
  let '(st', r) := take_task k st in
  timer_inv st' /\
  (if reg_stopped_flag st && (processed_seq st <? k)
   then st' = st /\ r = Ready None
   else live st' = bt_without k (live st) /\ r = take_answer k st).
Proof.
  intros H. destruct (reg_stopped_flag st && (processed_seq st <? k)) eqn:E.
  - apply andb_true_iff in E as [? E]. apply Z.ltb_lt in E. by rewrite take_task_stopped.
  - destruct (take_task_live k st H) as (? & ? & ?).
    { apply andb_false_iff in E as [?|E]; [by left|]. apply Z.ltb_ge in E. by right. }
    by destruct (take_task k st).
Qed.

End inv.

(** ** Concrete instances *)

Module TimerWitness.

Definition t1 : APIClientReq := sample_task 1.
Definition t2 : APIClientReq := sample_task 2.
Definition s0 : ClientTaskTimer APIClientReq := Timer_new 1 4.
(** Two tasks registered, the first of them received. *)
Definition s2 : ClientTaskTimer APIClientReq := Timer [t2] 8 1 [(1, t1)] [] 0 1 1 false.

Lemma s2_run :
  timer_run error_handle_default [OpCount; OpReg t1; OpPoll; OpCount; OpReg t2] s0 s2 [].
Proof.
  change [OpCount; OpReg t1; OpPoll; OpCount; OpReg t2] with
    (((((([] ++ [OpCount]) ++ [OpReg t1]) ++ [OpPoll]) ++ [OpCount]) ++ [OpReg t2])).
  change (@nil timer_out) with ((((([] ++ []) ++ []) ++ []) ++ []) ++ @nil (@timer_out APIClientReq)).
  repeat (eapply run_snoc; [|]); [apply run_nil|..].
  - by apply step_count.
  - by apply step_reg.
  - apply step_poll.
  - by apply step_count.
  - by apply step_reg.
Qed.

Lemma keep_task (t : APIClientReq) : ev_task (error_handle_default t) = t.
Proof. done. Qed.

Lemma s2_inv : timer_inv s2.
Proof. eapply timer_run_ok; [exact keep_task|by apply (Timer_new_inv 1 4)|apply s2_run]. Qed.

Lemma tick3_run :
  exists st outs, timer_run error_handle_default [OpTick; OpPoll; OpTick] s2 st outs.
Proof.
  do 2 eexists. change [OpTick; OpPoll; OpTick] with ((([] ++ [OpTick]) ++ [OpPoll]) ++ [@OpTick APIClientReq]).
  eapply run_snoc; [eapply run_snoc; [eapply run_snoc; [apply run_nil|]|]|].
  - by apply step_tick.
  - apply step_poll.
  - by apply step_tick.
Qed.

Lemma timer_conservation_witness :
  map op_reg [OpCount; OpReg t1; OpPoll; OpCount; OpReg t2] = [[]; [1]; []; []; [2]] /\
  concat (map op_reg [OpCount; OpReg t1; OpPoll; OpCount; OpReg t2]) ≡ₚ
    map out_seq [] ++ bt_keys (live s2).
Proof.
  split; [reflexivity|].
  apply (timer_conservation error_handle_default keep_task 1 4 _ s2 []); [lia|apply s2_run].
Defined.

Lemma timeout_exact_witness :
  exists st outs, timer_run error_handle_default [OpTick; OpPoll; OpTick] s2 st outs /\
    OEvent (EvDone (api_set_rpc_error t1 Timeout)) ∈ outs /\ 1 ∉ bt_keys (live st).
Proof.
  destruct tick3_run as (st & outs & Hr). exists st, outs. split; [exact Hr|].
  apply (timeout_exact error_handle_default keep_task 1 t1 _ s2 st outs s2_inv Hr).
  - repeat constructor.
  - exists [(1, t1)]. split; [reflexivity|]. left.
Defined.

Lemma clean_pending_tasks_total_witness :
  exists st', clean_pending_tasks error_handle_default s2 =
      Ret (st', [EvDone (api_set_rpc_error t1 IO); EvDone (api_set_rpc_error t2 IO)]) /\
    live st' = [].
Proof.
  destruct (clean_pending_tasks_total error_handle_default s2 s2_inv) as (st' & E & _ & Hl & _).
  exists st'. split; [exact E|exact Hl].
Defined.

Lemma take_task_spec_witness :
  timer_inv (take_task 2 s2).1 /\ (take_task 2 s2).2 = Ready (Some t2).
Proof. destruct (take_task_spec 2 s2 s2_inv) as (Hi & _ & Hr). split; [exact Hi|exact Hr]. Defined.

End TimerWitness.
