(* ===== verification/Net.v ===== *)
(** * The byte stream under the TCP transport

    The buffered socket ([AsyncBufStream] of the orb crate) as the transport
    sees it through [io_with_timeout!] (transport/tcp/src/lib.rs): every
    operation returns in time with a result or fails. [AsyncStreamOk] is its
    documented behaviour: reads deliver the incoming bytes in order, all or
    error, and leave the writing half alone; writes append to the bytes accepted
    for sending. *)
From Stdlib Require Import ZArith Lia.
From stdpp Require Import base list.
From S2P Require Import Prelude.
Local Open Scope Z_scope.

Class AsyncStream (S : Type) : Type := {
  read_exact : S -> Z -> S * result bytes unit;
  write_all : S -> bytes -> S * result unit unit;
  stream_flush : S -> S * result unit unit;
  shutdown_write : S -> S;
}.

(** [incoming]: the bytes that will arrive, before an error or a timeout;
    [written]: the bytes accepted by successful writes; [writable]: writes and
    flushes succeed. *)
Class AsyncStreamOk (S : Type) `{!AsyncStream S} : Type := {
  incoming : S -> bytes;
  written : S -> bytes;
  writable : S -> Prop;
  read_exact_avail s n :
    0 <= n <= zlen (incoming s) ->
    exists s', read_exact s n = (s', Ok (take (Z.to_nat n) (incoming s))) /\
      incoming s' = drop (Z.to_nat n) (incoming s) /\ written s' = written s /\
      (writable s -> writable s');
  read_exact_short s n :
    zlen (incoming s) < n -> exists s', read_exact s n = (s', Err tt) /\ written s' = written s /\
    (writable s -> writable s');
  write_all_ok s b :
    writable s -> exists s', write_all s b = (s', Ok tt) /\
      written s' = written s ++ b /\ incoming s' = incoming s /\ writable s';
  flush_ok s :
    writable s -> exists s', stream_flush s = (s', Ok tt) /\
      written s' = written s /\ incoming s' = incoming s /\ writable s';
  shutdown_written s : written (shutdown_write s) = written s;
}.

Section laws.
Context {S : Type} `{!AsyncStream S} `{!AsyncStreamOk S}.

(** Reading a field that is next in the incoming bytes. *)
Lemma read_exact_app s n b rest :
  incoming s = b ++ rest -> zlen b = n ->
  exists s', read_exact s n = (s', Ok b) /\ incoming s' = rest /\ written s' = written s /\
    (writable s -> writable s').
Proof.
  intros Hi <-. destruct (read_exact_avail s (zlen b)) as (s' & E & Hi' & Hw & Hwr).
  { rewrite Hi, zlen_app. pose proof (zlen_nonneg b). pose proof (zlen_nonneg rest). lia. }
  exists s'. rewrite E, Hi', Hi. rewrite zlen_to_nat, take_app_length, drop_app_length. done.
Qed.

(** Reading never touches what is written. *)
Lemma read_exact_frame s n s' r :
  0 <= n -> read_exact s n = (s', r) -> written s' = written s /\ (writable s -> writable s').
Proof.
  intros Hn E. destruct (Z.le_gt_cases n (zlen (incoming s))) as [Hl|Hl].
  - destruct (read_exact_avail s n) as (s1 & E1 & _ & Hw); [lia|]. congruence.
  - destruct (read_exact_short s n) as (s1 & E1 & Hw); [lia|]. congruence.
Qed.

End laws.

(** ** A stream in memory

    Incoming bytes, bytes written, and whether the peer still accepts data. *)
Record mem_stream : Type := MemStream {
  ms_in : bytes;
  ms_out : bytes;
  ms_open : bool;
}.

#[global] Instance mem_stream_ops : AsyncStream mem_stream := {|
  read_exact s n :=
    if n <=? zlen (ms_in s)
    then (MemStream (drop (Z.to_nat n) (ms_in s)) (ms_out s) (ms_open s),
          Ok (take (Z.to_nat n) (ms_in s)))
    else (MemStream [] (ms_out s) (ms_open s), Err tt);
  write_all s b :=
    if ms_open s then (MemStream (ms_in s) (ms_out s ++ b) true, Ok tt) else (s, Err tt);
  stream_flush s := if ms_open s then (s, Ok tt) else (s, Err tt);
  shutdown_write s := MemStream (ms_in s) (ms_out s) false;
|}.

#[global] Program Instance mem_stream_laws : AsyncStreamOk mem_stream := {|
  incoming := ms_in;
  written := ms_out;
  writable s := ms_open s = true;
|}.
Next Obligation. intros s n H. simpl. rewrite (proj2 (Z.leb_le _ _)) by lia. eauto 10. Qed.
Next Obligation. intros s n H. simpl. rewrite (proj2 (Z.leb_gt _ _)) by lia. eauto. Qed.
Next Obligation. intros s b H. simpl in *. rewrite H. eauto 10. Qed.
Next Obligation. intros s H. simpl in *. rewrite H. eauto 10. Qed.
Next Obligation. done. Qed.
