(* ===== verification/TcpClient.v ===== *)
(** * The client side of the TCP transport (transport/tcp/src/client.rs)

    [TcpClient] over an arbitrary byte stream ([Net.AsyncStream]). Reading a
    response is modelled with its suspension points: [take_task] may have to
    wait for the sender to register the task ([RWait]), and each [read_exact]
    of the body is one ([RBody]), at which the task that has been taken out of
    the timer belongs to the reading future alone. [read_resp_all] carries a
    read through all of them. [Buffer::alloc] of the io_buffer crate is the
    parameter [buffer_alloc]. *)
From Stdlib Require Import ZArith Lia Strings.String.
From stdpp Require Import base list sets.
From S2P Require Import Prelude Errors Task ApiClient Proto BTree Timer Net.
Local Open Scope Z_scope.
Local Open Scope rpc_scope.

Record TcpClient (S : Type) : Type := TcpC {
  tc_stream : S;
  tc_resp_buf : bytes;
}.
Arguments TcpC {S}.
Arguments tc_stream {S}.
Arguments tc_resp_buf {S}.

(** The [read_exact] at which the reading of a body is suspended, with the task
    that the future owns. *)
Inductive body_pc (T : Type) : Type :=
| BMsg (t : T)                     (** of the message, into [read_buf] *)
| BBlob (t : T) (n : Z)            (** of the blob, into the [n] bytes the task lends *)
| BErr (t : T)                     (** of the error string *)
| BDump (guarded : bool) (l : Z)   (** in [_recv_and_dump]; [guarded]: [task_item] is still there *).
Arguments BMsg {T}.
Arguments BBlob {T}.
Arguments BErr {T}.
Arguments BDump {T}.

(** The result of a read: finished, suspended in [take_task] for the response
    announced by [head], or suspended in the body. *)
Inductive read_state (T : Type) : Type :=
| RDone (r : result bool RpcIntErr)
| RWait (head : RespHead)
| RBody (head : RespHead) (pc : body_pc T).
Arguments RDone {T}.
Arguments RWait {T}.
Arguments RBody {T}.

(** The same of [_recv_resp_body] once [take_task] has answered. *)
Inductive body_state (T : Type) : Type :=
| BDone (r : result unit unit)
| BRead (pc : body_pc T).
Arguments BDone {T}.
Arguments BRead {T}.

(** The task in the future, and the guard of the throttler in its [task_item]. *)
Definition body_task {T} (pc : body_pc T) : list T :=
  match pc with BMsg t | BBlob t _ | BErr t => [t] | BDump _ _ => [] end.
Definition body_guard {T} (pc : body_pc T) : Z :=
  match pc with BDump false _ => 0 | _ => 1 end.

Section client.
Context {S : Type} `{!AsyncStream S} {T : Type} `{!ClientTask T}.
Implicit Types (c : TcpClient S) (timer : ClientTaskTimer T).

(** [Buffer::alloc]: whether a buffer of that size (an [i32]) is available. *)
Context (buffer_alloc : Z -> bool).
Context (error_handle : T -> event T).

Definition tc_set_stream (s : S) c : TcpClient S := TcpC s (tc_resp_buf c).

(** [get_resp_buf]: [Vec::resize] panics when the length exceeds [isize::MAX]. *)
Definition get_resp_buf (len : Z) c : may (TcpClient S) :=
  if ISIZE_MAX <? len then Panic else Ret (TcpC (tc_stream c) (resize len (tc_resp_buf c))).

(** [reader.read_exact(buf)] into the response buffer. *)
Definition read_resp_buf c : TcpClient S * result unit unit :=
  match read_exact (tc_stream c) (zlen (tc_resp_buf c)) with
  | (s, Ok b) => (TcpC s b, Ok tt)
  | (s, Err _) => (tc_set_stream s c, Err tt)
  end.

(** [_recv_and_dump] up to its [read_exact]. *)
Definition recv_and_dump (guarded : bool) (l : Z) : body_state T :=
  if buffer_alloc (as_i32 l) then BRead (BDump guarded l) else BDone (Err tt).

(** What a part of the read gives: the connection, the tasks handed back, and
    where the read stands. *)
Abbreviation body_step := (TcpClient S * list (event T) * body_state T)%type.

(** [_recv_error], up to the [read_exact] of the string. *)
Definition recv_error (resp_head : RespHead) (task : T) c : may body_step :=
  if rs_flag resp_head =? 1 then
    let task := set_custom_error task (ENum (rs_msg_len resp_head)) 0 0 in
    Ret (c, [error_handle task], BDone (Ok tt))
  else if rs_flag resp_head =? 2 then
    let? c := get_resp_buf (as_usize (rs_blob_len resp_head)) c in
    Ret (c, [], BRead (BErr task))
  else Panic.

(** ... and from it. *)
Definition recv_error_string (task : T) c : body_step :=
  match read_resp_buf c with
  | (c, Err _) => (c, [error_handle (set_rpc_error task IO)], BDone (Err tt))
  | (c, Ok _) =>
    let buf := tc_resp_buf c in
    match (if starts_with buf RPC_ERR_PREFIX
           then match from_utf8 buf with Some s => RpcIntErr_from_str s | None => None end
           else None) with
    | Some e => (c, [error_handle (set_rpc_error task e)], BDone (Ok tt))
    | None => (c, [error_handle (set_custom_error task (EBuf buf) 0 0)], BDone (Ok tt))
    end
  end.

(** The end of [_recv_resp_body] for a task: decode, then [done]. *)
Definition finish_task (resp_head : RespHead) (task : T) c : body_step :=
  if 0 <? rs_msg_len resp_head then
    match decode_resp task (tc_resp_buf c) with
    | Err _ => (c, [error_handle (set_rpc_error task Decode)], BDone (Ok tt))
    | Ok task => (c, [EvDone (set_ok task)], BDone (Ok tt))
    end
  else (c, [EvDone (set_ok task)], BDone (Ok tt)).

(** From the message on: reserve the blob. *)
Definition recv_resp_blob (resp_head : RespHead) (task : T) c : body_step :=
  let blob_len := rs_blob_len resp_head in
  if 0 <? blob_len then
    match reserve_resp_blob task blob_len with
    | (task, None) =>
      (c, [error_handle (set_rpc_error task Decode)], recv_and_dump true (as_usize blob_len))
    | (task, Some n) => (c, [], BRead (BBlob task n))
    end
  else finish_task resp_head task c.

(** [_recv_resp_body] after [take_task] has answered, up to the first
    [read_exact]. *)
Definition recv_resp_taken (resp_head : RespHead) (o : option T) c : may body_step :=
  match o with
  | Some task =>
    if 0 <? rs_flag resp_head then recv_error resp_head task c
    else if 0 <? rs_msg_len resp_head then Ret (c, [], BRead (BMsg task))
    else Ret (recv_resp_blob resp_head task c)
  | None =>
    let data_len :=
      if rs_flag resp_head =? 0
      then as_u32 (rs_msg_len resp_head + as_u32 (rs_blob_len resp_head))
      else if rs_flag resp_head =? RESP_FLAG_HAS_ERR_STRING
      then as_u32 (rs_blob_len resp_head)
      else 0 in
    if 0 <? data_len then Ret (c, [], recv_and_dump false data_len) else Ret (c, [], BDone (Ok tt))
  end.

(** The [read_exact] at [pc] completes or fails, and the read goes on to the
    next one. *)
Definition recv_resp_poll (resp_head : RespHead) (pc : body_pc T) c : body_step :=
  match pc with
  | BMsg task =>
    match read_resp_buf c with
    | (c, Err _) => (c, [error_handle (set_rpc_error task IO)], BDone (Err tt))
    | (c, Ok _) => recv_resp_blob resp_head task c
    end
  | BBlob task n =>
    match read_exact (tc_stream c) n with
    | (s, Err _) => (tc_set_stream s c, [error_handle (set_rpc_error task IO)], BDone (Err tt))
    | (s, Ok b) => finish_task resp_head (fill_resp_blob task b) (tc_set_stream s c)
    end
  | BErr task => recv_error_string task c
  | BDump _ l =>
    match read_exact (tc_stream c) (as_i32 l) with
    | (s, Ok _) => (tc_set_stream s c, [], BDone (Ok tt))
    | (s, Err _) => (tc_set_stream s c, [], BDone (Err tt))
    end
  end.

(** The answer of [read_resp] from that of [_recv_resp_body]. *)
Definition read_resp_finish (resp_head : RespHead) (x : body_step) timer
    : TcpClient S * ClientTaskTimer T * list (event T) * read_state T :=
  let '(c, evs, s) := x in
  match s with
  | BDone (Err e) => (c, timer, evs, RDone (Err (RpcIntErr_from_io e)))
  | BDone (Ok _) => (c, timer, evs, RDone (Ok true))
  | BRead pc => (c, timer, evs, RBody resp_head pc)
  end.

Definition recv_resp_body (resp_head : RespHead) c timer
    : may (TcpClient S * ClientTaskTimer T * list (event T) * read_state T) :=
  let? c := get_resp_buf (rs_msg_len resp_head) c in
  match take_task (rs_seq resp_head) timer with
  | (timer, Pending) => Ret (c, timer, [], RWait resp_head)
  | (timer, Ready o) => let? x := recv_resp_taken resp_head o c in Ret (read_resp_finish resp_head x timer)
  end.

(** [read_resp]. [cancel]: the close channel has fired while the header was
    being read, and [Cancellable] dropped that future with the [k] bytes that
    had been read ([None]: it has not fired, or there is none). *)
Definition read_resp (cancel : option Z) c timer
    : may (TcpClient S * ClientTaskTimer T * list (event T) * read_state T) :=
  match cancel with
  | Some k => Ret (tc_set_stream (read_exact (tc_stream c) k).1 c, timer, [], RDone (Ok false))
  | None =>
    match read_exact (tc_stream c) RPC_RESP_HEADER_LEN with
    | (s, Err e) => Ret (tc_set_stream s c, timer, [], RDone (Err (RpcIntErr_from_io e)))
    | (s, Ok resp_head_buf) =>
      let c := tc_set_stream s c in
      let? r := RespHead_decode_head resp_head_buf in
      match r with
      | Err e => Ret (c, timer, [], RDone (Err e))
      | Ok head => recv_resp_body head c timer
      end
    end
  end.

(** The read, polled again while it is suspended in [take_task], ... *)
Definition read_resp_resume (head : RespHead) c timer
    : may (TcpClient S * ClientTaskTimer T * list (event T) * read_state T) :=
  match take_task_resume (rs_seq head) timer with
  | (timer, Pending) => Ret (c, timer, [], RWait head)
  | (timer, Ready o) => let? x := recv_resp_taken head o c in Ret (read_resp_finish head x timer)
  end.

(** ... and while it is suspended in the body. *)
Definition read_resp_body (head : RespHead) (pc : body_pc T) c timer
    : TcpClient S * ClientTaskTimer T * list (event T) * read_state T :=
  read_resp_finish head (recv_resp_poll head pc c) timer.

(** *** A read carried through *)

(** The body: two more [read_exact]s at most. *)
Fixpoint body_run (fuel : nat) (head : RespHead) (x : body_step)
    : may (TcpClient S * list (event T) * result unit unit) :=
  let '(c, evs, s) := x in
  match s, fuel with
  | BDone r, _ => Ret (c, evs, r)
  | BRead _, O => Panic
  | BRead pc, Datatypes.S fuel' =>
    let? (c', evs', r) := body_run fuel' head (recv_resp_poll head pc c) in Ret (c', evs ++ evs', r)
  end.

Definition read_rest (m : may (TcpClient S * ClientTaskTimer T * list (event T) * read_state T))
    : may (TcpClient S * ClientTaskTimer T * list (event T) * read_state T) :=
  let? (c, timer, evs, r) := m in
  match r with
  | RBody head pc =>
    let? (c', evs', q) := body_run 2 head (c, evs, BRead pc) in
    Ret (read_resp_finish head (c', evs', BDone q) timer)
  | _ => Ret (c, timer, evs, r)
  end.

Definition read_resp_all c timer := read_rest (read_resp None c timer).
Definition read_resp_resume_all (head : RespHead) c timer := read_rest (read_resp_resume head c timer).

(** ** Sending *)

Definition flush_req c : TcpClient S * result unit unit :=
  match stream_flush (tc_stream c) with
  | (s, Err e) => (tc_set_stream s c, Err e)
  | (s, Ok _) => (tc_set_stream s c, Ok tt)
  end.

Definition write_req (buf : bytes) (blob : option bytes) (need_flush : bool) c
    : TcpClient S * result unit unit :=
  match write_all (tc_stream c) buf with
  | (s, Err e) => (tc_set_stream s c, Err e)
  | (s, Ok _) =>
    let c := tc_set_stream s c in
    let '(c, r) :=
      match blob with
      | Some blob_buf =>
        let '(s, r) := write_all (tc_stream c) blob_buf in (tc_set_stream s c, r)
      | None => (c, Ok tt)
      end in
    match r with
    | Err e => (c, Err e)
    | Ok _ => if need_flush then flush_req c else (c, Ok tt)
    end
  end.

Definition close_conn c : TcpClient S :=
  let '(c, r) := flush_req c in
  if is_ok r then tc_set_stream (shutdown_write (tc_stream c)) c else c.

(** ** Specification: one response frame *)

(** How an error reaches the task. *)
Definition deliver_err (task : T) (x : EncodedErr) : T :=
  match x with
  | ERpc e => set_rpc_error task e
  | _ => set_custom_error task x 0 0
  end.

(** The bytes that follow a header. *)
Definition body_len (h : RespHead) : Z :=
  if rs_flag h =? 0 then rs_msg_len h + rs_blob_len h
  else if rs_flag h =? RESP_FLAG_HAS_ERR_STRING then rs_blob_len h
  else 0.

(** A header a peer that follows the protocol sends, with a body the client
    can skip (an [i32] length) when the task is gone. *)
Definition RespHead_sane (h : RespHead) : Prop :=
  RespHead_ok h /\ rs_magic h = RPC_MAGIC /\ rs_ver h = RPC_VERSION_1 /\
  rs_flag h <= 2 /\ 0 <= rs_blob_len h /\ body_len h <= I32_MAX.

Definition finish_event (msg : bytes) (task : T) : event T :=
  if bool_decide (msg = []) then EvDone (set_ok task)
  else match decode_resp task msg with
       | Err _ => error_handle (set_rpc_error task Decode)
       | Ok task => EvDone (set_ok task)
       end.

(** What the task [t] gets for the frame [h], [body]. *)
Definition resp_event (h : RespHead) (body : bytes) (t : T) : event T :=
  if rs_flag h =? 0 then
    let msg := take (Z.to_nat (rs_msg_len h)) body in
    let blob := drop (Z.to_nat (rs_msg_len h)) body in
    if 0 <? rs_blob_len h then
      match reserve_resp_blob t (rs_blob_len h) with
      | (t, None) => error_handle (set_rpc_error t Decode)
      | (t, Some _) => finish_event msg (fill_resp_blob t blob)
      end
    else finish_event msg t
  else if rs_flag h =? 1 then error_handle (set_custom_error t (ENum (rs_msg_len h)) 0 0)
  else error_handle (deliver_err t (classify_buf body)).

Definition events_for (h : RespHead) (body : bytes) (o : option T) : list (event T) :=
  match o with Some t => [resp_event h body t] | None => [] end.

(** ** Lemmas *)
Section frames.
Context `{!AsyncStreamOk S}.

(** The documented contract of [reserve_resp_blob]: the slice it lends has the
    size asked for. *)
Context (reserve_exact : forall (t t' : T) n m,
  0 < n -> reserve_resp_blob t n = (t', Some m) -> m = n).
Context (alloc_i32 : forall n, 0 < n <= I32_MAX -> buffer_alloc n = true).

Lemma get_resp_buf_ok n c :
  0 <= n <= I32_MAX \/ is_u32 n ->
  get_resp_buf n c = Ret (TcpC (tc_stream c) (resize n (tc_resp_buf c))).
Proof.
  intros H. unfold get_resp_buf. unfold I32_MAX, ISIZE_MAX, is_u32 in *. rew_cmp. done.
Qed.

(** Reading the whole buffer takes as many bytes as it holds. *)
Lemma read_resp_buf_app s buf b rest :
  incoming s = b ++ rest -> zlen b = zlen buf ->
  exists s', read_resp_buf (TcpC s buf) = (TcpC s' b, Ok tt) /\ incoming s' = rest /\
    written s' = written s /\ (writable s -> writable s').
Proof.
  intros Hi Hl. destruct (read_exact_app s (zlen buf) b rest Hi Hl) as (s' & E & H).
  exists s'. unfold read_resp_buf; cbn. rewrite E. done.
Qed.

(** One more [read_exact]. *)
Lemma body_run_read fuel h pc c evs :
  body_run (Datatypes.S fuel) h (c, evs, BRead pc) =
  (let? (c', evs', r) := body_run fuel h (recv_resp_poll h pc c) in Ret (c', evs ++ evs', r)).
Proof. done. Qed.

Lemma body_run_done fuel h c evs r : body_run fuel h (c, evs, BDone r) = Ret (c, evs, r).
Proof. by destruct fuel. Qed.

(** The body has been skipped. *)
Definition run_ok fuel h (x : TcpClient S * list (event T) * body_state T) evs rest : Prop :=
  exists c', body_run fuel h x = Ret (c', evs, Ok tt) /\ incoming (tc_stream c') = rest.

Lemma run_ok_read fuel h pc c evs evs' rest :
  run_ok fuel h (recv_resp_poll h pc c) evs' rest -> run_ok (Datatypes.S fuel) h (c, evs, BRead pc) (evs ++ evs') rest.
Proof. intros (c' & E & Hi). exists c'. by rewrite body_run_read, E. Qed.

Lemma run_ok_done fuel h c evs rest :
  incoming (tc_stream c) = rest -> run_ok fuel h (c, evs, BDone (Ok tt)) evs rest.
Proof. intros Hi. exists c. by rewrite body_run_done. Qed.

(** More fuel than needed. *)
Lemma run_ok_more fuel h x evs rest : run_ok fuel h x evs rest -> run_ok (Datatypes.S fuel) h x evs rest.
Proof.
  revert x evs. induction fuel as [|fuel IH]; intros [[c e] [r|pc]] evs (c' & E & Hi); cbn in E; try done.
  - by exists c'.
  - by exists c'.
  - destruct (body_run fuel h (recv_resp_poll h pc c)) as [[[c1 e1] r1]|] eqn:E1; cbn in E; [|done].
    injection E as -> <- ->. apply run_ok_read, IH. by exists c'.
Qed.

Lemma dump_ok g l c evs body rest h :
  incoming (tc_stream c) = body ++ rest -> zlen body = l -> 0 < l <= I32_MAX ->
  run_ok 1 h (c, evs, recv_and_dump g l) evs rest.
Proof using alloc_i32.
  intros Hi Hl Hr. unfold recv_and_dump.
  rewrite as_i32_small by (unfold is_i32, I32_MAX in *; lia). rewrite alloc_i32 by done.
  rewrite <- (app_nil_r evs) at 2. apply run_ok_read. cbn [recv_resp_poll].
  rewrite as_i32_small by (unfold is_i32, I32_MAX in *; lia).
  destruct (read_exact_app (tc_stream c) l body rest Hi Hl) as (s' & -> & Hi' & _). by apply run_ok_done.
Qed.

Lemma classify_match buf :
  (if starts_with buf RPC_ERR_PREFIX
   then match from_utf8 buf with Some s => RpcIntErr_from_str s | None => None end
   else None) = match classify_buf buf with ERpc e => Some e | _ => None end /\
  (classify_buf buf = EBuf buf \/ exists e, classify_buf buf = ERpc e).
Proof. unfold classify_buf. split_cases; eauto. Qed.

Lemma recv_error_ok h t c body rest :
  rs_flag h = 2 -> 0 <= rs_blob_len h <= I32_MAX ->
  incoming (tc_stream c) = body ++ rest -> zlen body = rs_blob_len h ->
  exists x, recv_error h t c = Ret x /\ run_ok 1 h x [error_handle (deliver_err t (classify_buf body))] rest.
Proof.
  intros Hf Hb Hi Hl. unfold recv_error. rewrite Hf. cbn [Z.eqb Pos.eqb].
  rewrite as_usize_small by (unfold is_usize, I32_MAX in *; lia).
  rewrite get_resp_buf_ok by auto. cbn [may_bind]. eexists. split; [reflexivity|].
  apply (run_ok_read 0 h (BErr t) _ []). cbn [recv_resp_poll]. unfold recv_error_string.
  destruct (read_resp_buf_app (tc_stream c) (resize (rs_blob_len h) (tc_resp_buf c)) body rest)
    as (s' & E & Hi' & _); [done|rewrite zlen_resize by lia; done|].
  rewrite E. cbn zeta. cbn [tc_resp_buf]. destruct (classify_match body) as [-> Hc].
  destruct Hc as [->|[e ->]]; by apply run_ok_done.
Qed.

Lemma take_msg_app (msg blob : bytes) n :
  zlen msg = n -> take (Z.to_nat n) (msg ++ blob) = msg /\ drop (Z.to_nat n) (msg ++ blob) = blob.
Proof. intros <-. rewrite zlen_to_nat. split; [apply take_app_length|apply drop_app_length]. Qed.

Lemma finish_task_eq h t c :
  zlen (tc_resp_buf c) = rs_msg_len h ->
  finish_task h t c = (c, [finish_event (tc_resp_buf c) t], BDone (Ok tt)).
Proof.
  intros Hl. unfold finish_task, finish_event. case_bool_decide as E.
  - rewrite <- Hl, E. done.
  - assert (0 < rs_msg_len h).
    { rewrite <- Hl. destruct (tc_resp_buf c); [done|]. rewrite zlen_cons. pose proof (zlen_nonneg l). lia. }
    rew_cmp. by destruct (decode_resp t (tc_resp_buf c)).
Qed.

Lemma recv_resp_blob_ok h t c msg blob rest :
  rs_flag h = 0 -> tc_resp_buf c = msg -> zlen msg = rs_msg_len h -> zlen blob = rs_blob_len h ->
  zlen blob <= I32_MAX ->
  incoming (tc_stream c) = blob ++ rest ->
  run_ok 1 h (recv_resp_blob h t c) [resp_event h (msg ++ blob) t] rest.
Proof using reserve_exact alloc_i32.
  intros Hf <- Hm Hb Hmax Hi. unfold recv_resp_blob, resp_event. rewrite Hf. cbn [Z.eqb]. cbn zeta.
  destruct (take_msg_app (tc_resp_buf c) blob (rs_msg_len h) Hm) as [-> ->].
  destruct (Z.ltb_spec 0 (rs_blob_len h)) as [Hpos|Hz].
  - destruct (reserve_resp_blob t (rs_blob_len h)) as [t' [n|]] eqn:Er.
    + rewrite (reserve_exact _ _ _ _ Hpos Er). apply (run_ok_read 0 h _ c []). cbn [recv_resp_poll].
      destruct (read_exact_app (tc_stream c) (rs_blob_len h) blob rest Hi Hb) as (s' & E & Hi' & _).
      rewrite E. rewrite finish_task_eq by done. by apply run_ok_done.
    + rewrite as_usize_small by (unfold is_usize, I32_MAX in *; lia). apply dump_ok with blob; done || lia.
  - rewrite finish_task_eq by done. apply run_ok_done. rewrite Hi.
    destruct blob; [done|]. rewrite zlen_cons in Hb. pose proof (zlen_nonneg blob). lia.
Qed.

(** Skipping the body of a frame whose task is gone. *)
Lemma skip_body_ok l c body rest (h : RespHead) :
  incoming (tc_stream c) = body ++ rest -> zlen body = l -> l <= I32_MAX ->
  exists x : body_step,
    (if 0 <? l then Ret (c, [], recv_and_dump false l) else Ret (c, [], BDone (Ok tt)) : may body_step) = Ret x /\
    run_ok 1 h x [] rest.
Proof using alloc_i32.
  intros Hi Hl Hm. destruct (Z.ltb_spec 0 l); (eexists; split; [reflexivity|]).
  - apply dump_ok with body; done || lia.
  - apply run_ok_done. rewrite Hi.
    assert (body = []) as -> by (apply zlen_nil_iff; pose proof (zlen_nonneg body); lia). done.
Qed.

(** A successful response for a waiting task. *)
Lemma recv_msg_blob_ok h t c body rest :
  rs_flag h = 0 -> 0 <= rs_msg_len h -> 0 <= rs_blob_len h -> rs_blob_len h <= I32_MAX ->
  zlen (tc_resp_buf c) = rs_msg_len h ->
  incoming (tc_stream c) = body ++ rest -> zlen body = rs_msg_len h + rs_blob_len h ->
  exists x, recv_resp_taken h (Some t) c = Ret x /\ run_ok 2 h x [resp_event h body t] rest.
Proof using reserve_exact alloc_i32.
  intros Hz Hm0 Hb0 Hmax Hl Hi Hbody. unfold recv_resp_taken. rewrite Hz. cbn [Z.ltb Z.compare].
  assert (Hs : exists msg blob, body = msg ++ blob /\ zlen msg = rs_msg_len h).
  { exists (take (Z.to_nat (rs_msg_len h)) body), (drop (Z.to_nat (rs_msg_len h)) body).
    rewrite take_drop. split; [done|]. unfold zlen in *. rewrite length_take. lia. }
  destruct Hs as (msg & blob & -> & Hm). rewrite zlen_app in Hbody. rewrite <- app_assoc in Hi.
  destruct (Z.ltb_spec 0 (rs_msg_len h)) as [Hp|Hp]; (eexists; split; [reflexivity|]).
  - apply (run_ok_read 1 h (BMsg t) c []). cbn [recv_resp_poll]. destruct c as [s buf]; cbn in *.
    destruct (read_resp_buf_app s buf msg (blob ++ rest)) as (s' & E & Hi' & _);
      [done|lia|]. rewrite E. apply recv_resp_blob_ok; cbn; done || lia.
  - assert (msg = []) as -> by (apply zlen_nil_iff; pose proof (zlen_nonneg msg); lia).
    apply run_ok_more, recv_resp_blob_ok; try done; [|lia|lia]. apply zlen_nil_iff. lia.
Qed.

Lemma recv_resp_taken_ok h o c body rest :
  RespHead_sane h -> zlen (tc_resp_buf c) = rs_msg_len h ->
  incoming (tc_stream c) = body ++ rest -> zlen body = body_len h ->
  exists x, recv_resp_taken h o c = Ret x /\ run_ok 2 h x (events_for h body o) rest.
Proof using reserve_exact alloc_i32.
  intros ((_ & _ & Hfl & Hml & _ & Hbl) & _ & _ & Hf & Hb0 & Hmax) Hl Hi Hbody.
  unfold body_len, RESP_FLAG_HAS_ERR_STRING, is_u8, is_u32 in *.
  assert (Hmore : forall m evs, (exists x, m = Ret x /\ run_ok 1 h x evs rest) ->
    exists x, m = Ret x /\ run_ok 2 h x evs rest).
  { intros m evs (x & E & Hx). exists x. split; [done|]. by apply run_ok_more. }
  assert (Hc : rs_flag h = 0 \/ rs_flag h = 1 \/ rs_flag h = 2) by lia.
  destruct Hc as [Hc|[Hc|Hc]]; rewrite Hc in *; cbn [Z.eqb Pos.eqb] in *; destruct o as [t|];
    cbn [events_for].
  - apply recv_msg_blob_ok; done || lia.
  - unfold recv_resp_taken. rewrite Hc. cbn [Z.eqb].
    rewrite (as_u32_small (rs_blob_len h)), as_u32_small by (unfold is_u32, I32_MAX in *; lia).
    by apply Hmore, (skip_body_ok _ c body).
  - assert (body = []) as -> by (by apply zlen_nil_iff).
    unfold recv_resp_taken, recv_error, resp_event. rewrite Hc. eexists. split; [reflexivity|]. by apply run_ok_done.
  - assert (body = []) as -> by (by apply zlen_nil_iff).
    unfold recv_resp_taken. rewrite Hc. eexists. split; [reflexivity|]. by apply run_ok_done.
  - unfold recv_resp_taken, resp_event. rewrite Hc. apply Hmore, recv_error_ok; done || lia.
  - unfold recv_resp_taken, RESP_FLAG_HAS_ERR_STRING. rewrite Hc. cbn [Z.eqb Pos.eqb].
    rewrite as_u32_small by (unfold is_u32, I32_MAX in *; lia). by apply Hmore, (skip_body_ok _ c body).
Qed.

(** The outcome of reading the frame [h], [body] when [take_task] gives [o]. *)
Definition frame_read h body rest timer' (o : poll (option T))
    (m : may (TcpClient S * ClientTaskTimer T * list (event T) * read_state T)) : Prop :=
  match o with
  | Ready o =>
    exists c', m = Ret (c', timer', events_for h body o, RDone (Ok true)) /\
      incoming (tc_stream c') = rest
  | Pending =>
    exists c', m = Ret (c', timer', [], RWait h) /\ zlen (tc_resp_buf c') = rs_msg_len h /\
      incoming (tc_stream c') = body ++ rest
  end.

(** A body carried through, from where the read stands. *)
Lemma read_rest_run h x timer evs rest :
  run_ok 2 h x evs rest ->
  exists c', read_rest (Ret (read_resp_finish h x timer)) = Ret (c', timer, evs, RDone (Ok true)) /\
    incoming (tc_stream c') = rest.
Proof.
  intros (c' & E & Hi). exists c'. destruct x as [[c e] [[u|u]|pc]].
  - injection E as -> -> _. done.
  - done.
  - unfold read_resp_finish, read_rest. cbn [may_bind]. rewrite E. done.
Qed.

Lemma read_resp_resume_frame h c timer body rest :
  RespHead_sane h -> zlen (tc_resp_buf c) = rs_msg_len h ->
  incoming (tc_stream c) = body ++ rest -> zlen body = body_len h ->
  frame_read h body rest (take_task_resume (rs_seq h) timer).1
    (take_task_resume (rs_seq h) timer).2 (read_resp_resume_all h c timer).
Proof using reserve_exact alloc_i32.
  intros Hh Hl Hi Hb. unfold read_resp_resume_all, read_resp_resume.
  destruct (take_task_resume (rs_seq h) timer) as [timer' [o|]]; cbn [fst snd]; [|cbn; eauto].
  destruct (recv_resp_taken_ok h o c body rest) as (x & -> & Hx); [done..|]. cbn [may_bind].
  by apply read_rest_run.
Qed.

(** The header is read and [take_task] asked. *)
Lemma read_resp_head h c timer more :
  RespHead_sane h -> incoming (tc_stream c) = RespHead_to_bytes h ++ more ->
  exists c', read_resp None c timer =
      (match take_task (rs_seq h) timer with
       | (timer, Pending) => Ret (c', timer, [], RWait h)
       | (timer, Ready o) => let? x := recv_resp_taken h o c' in Ret (read_resp_finish h x timer)
       end) /\ zlen (tc_resp_buf c') = rs_msg_len h /\ incoming (tc_stream c') = more.
Proof.
  intros Hh Hi. unfold read_resp.
  destruct (read_exact_app (tc_stream c) RPC_RESP_HEADER_LEN (RespHead_to_bytes h) more)
    as (s' & E & Hi' & _); [done|apply zlen_RespHead_to_bytes|].
  rewrite E. destruct Hh as (Hok & Hmg & Hv & Hrest).
  rewrite RespHead_decode_to_bytes by done. cbn [may_bind]. cbn zeta.
  pose proof Hok as (_ & _ & _ & Hml & _).
  unfold recv_resp_body. rewrite get_resp_buf_ok by auto. cbn [may_bind tc_stream tc_resp_buf tc_set_stream].
  eexists. split; [reflexivity|]. split; [apply zlen_resize, Hml|done].
Qed.

Lemma read_resp_frame h c timer body rest :
  RespHead_sane h ->
  incoming (tc_stream c) = RespHead_to_bytes h ++ body ++ rest -> zlen body = body_len h ->
  frame_read h body rest (take_task (rs_seq h) timer).1
    (take_task (rs_seq h) timer).2 (read_resp_all c timer).
Proof using reserve_exact alloc_i32.
  intros Hh Hi Hb. unfold read_resp_all. destruct (read_resp_head h c timer _ Hh Hi) as (c1 & -> & Hl & Hi1).
  destruct (take_task (rs_seq h) timer) as [timer' [o|]]; cbn [fst snd]; [|cbn; eauto].
  destruct (recv_resp_taken_ok h o c1 body rest) as (x & -> & Hx); [done..|]. cbn [may_bind].
  by apply read_rest_run.
Qed.

(** ** Properties *)

(** C21. A response frame the protocol allows is consumed exactly: after
    [read_resp], carried through, the next byte to be read is the one after the
    frame, whether its task is waiting (it then gets exactly one event, the one
    of [resp_event]), was settled before (the body is skipped) or is not
    registered yet (the body is still to be read). *)
Theorem read_resp_in_sync h c timer body rest :
  RespHead_sane h ->
  incoming (tc_stream c) = RespHead_to_bytes h ++ body ++ rest -> zlen body = body_len h ->
  frame_read h body rest (take_task (rs_seq h) timer).1
    (take_task (rs_seq h) timer).2 (read_resp_all c timer).
Proof using reserve_exact alloc_i32. apply read_resp_frame. Qed.

End frames.

(** After the start of the body nothing panics. *)
Definition reads_left (s : body_state T) : nat :=
  match s with BDone _ => 0 | BRead (BMsg _) => 2 | BRead _ => 1 end.

Lemma body_poll_left h pc c : (reads_left (recv_resp_poll h pc c).2 < reads_left (BRead pc))%nat.
Proof.
  unfold recv_resp_poll, recv_resp_blob, recv_error_string, finish_task, recv_and_dump.
  destruct pc; repeat case_match; simplify_eq/=; lia.
Qed.

Lemma body_run_total fuel h x : (reads_left x.2 <= fuel)%nat -> exists y, body_run fuel h x = Ret y.
Proof.
  revert x. induction fuel as [|fuel IH]; intros [[c e] [r|pc]] Hl; try (by eexists).
  - by destruct pc; cbn in Hl; lia.
  - cbn [body_run]. destruct (IH (recv_resp_poll h pc c)) as [[[c' e'] r] ->].
    + pose proof (body_poll_left h pc c) as H. eapply Nat.lt_succ_r, Nat.lt_le_trans; [exact H|exact Hl].
    + by eexists.
Qed.

Lemma read_rest_panic m : read_rest m = Panic <-> m = Panic.
Proof.
  split; [|by intros ->]. destruct m as [[[[c tm] evs] [r|h|h pc]]|]; try done. unfold read_rest. cbn [may_bind].
  destruct (body_run_total 2 h (c, evs, BRead pc)) as [[[c' e'] r] ->]; [|done]. by destruct pc; cbn; lia.
Qed.

(** C37. For a response header with a waiting task, the client panics
    exactly when the flag is none of the three the protocol defines, or when
    an error string is announced with a negative length. *)
Theorem read_resp_panic_iff c timer s hb h timer' t :
  read_exact (tc_stream c) RPC_RESP_HEADER_LEN = (s, Ok hb) ->
  RespHead_decode_head hb = Ret (Ok h) -> RespHead_ok h ->
  take_task (rs_seq h) timer = (timer', Ready (Some t)) ->
  read_resp_all c timer = Panic <-> 2 < rs_flag h \/ (rs_flag h = 2 /\ rs_blob_len h < 0).
Proof.
  intros Er Ed (_ & _ & Hf & Hm & _ & Hb) Et. unfold read_resp_all. rewrite read_rest_panic.
  unfold read_resp. rewrite Er, Ed.
  cbn [may_bind]. cbn zeta. unfold recv_resp_body.
  rewrite get_resp_buf_ok by auto. cbn [may_bind]. rewrite Et.
  unfold recv_resp_taken, recv_error, get_resp_buf, is_u8, is_i32 in *.
  destruct (Z.ltb_spec 0 (rs_flag h)) as [H0|H0].
  - destruct (Z.eqb_spec (rs_flag h) 1); [cbn; split; [done|lia]|].
    destruct (Z.eqb_spec (rs_flag h) 2) as [H2|]; [|cbn; split; [lia|done]].
    destruct (Z.ltb_spec ISIZE_MAX (as_usize (rs_blob_len h))) as [Hbig|Hsmall]; cbn [may_bind].
    + split; [|done]. intros _. right. split; [done|].
      destruct (Z.ltb_spec (rs_blob_len h) 0) as [|Hge]; [done|].
      rewrite as_usize_small in Hbig by (unfold is_usize; lia). unfold ISIZE_MAX in Hbig. lia.
    + assert (0 <= rs_blob_len h).
      { destruct (Z.ltb_spec (rs_blob_len h) 0) as [Hlt|]; [|done]. exfalso.
        unfold as_usize in Hsmall. rewrite <- (Z_mod_plus_full _ 1), Z.mod_small in Hsmall by lia.
        unfold ISIZE_MAX in Hsmall. lia. }
      split; [done|lia].
  - split; [destruct (0 <? rs_msg_len h); done|lia].
Qed.

End client.

#[global] Arguments read_resp : simpl never.
#[global] Arguments read_resp_body : simpl never.

(** ** Concrete instances *)

Module TcpClientWitness.

Definition pong : bytes := str_bytes "pong"%string.
Definition live7 : ClientTaskTimer APIClientReq := Timer [] 8 0 [(7, sample_task 7)] [] 0 3 7 false.
Definition pong_head : RespHead := ok_head 7 pong None.
Definition conn : TcpClient mem_stream :=
  TcpC (MemStream (RespHead_to_bytes pong_head ++ pong ++ str_bytes "next"%string) [] true) [].

Lemma pong_sane : RespHead_sane pong_head.
Proof. repeat split; vm_compute; congruence. Qed.

Lemma read_resp_in_sync_witness :
  exists c', read_resp_all (fun _ => true) error_handle_default conn live7 =
    Ret (c', (take_task 7 live7).1,
         [EvDone (APIReq (Common 7) (Some (str_bytes "ping"%string)) (str_bytes "Echo.repeat"%string)
            (Some pong) (Some (Ok tt)) true 0 0)], RDone (Ok true)) /\
    ms_in (tc_stream c') = str_bytes "next"%string.
Proof.
  apply (read_resp_in_sync (fun _ => true) error_handle_default api_no_blob
    ltac:(reflexivity) pong_head conn live7 pong (str_bytes "next"%string) pong_sane);
    vm_compute; reflexivity.
Defined.

(** A header with the undefined flag 3. *)
Definition bad_head : RespHead :=
  {| rs_magic := RPC_MAGIC; rs_ver := RPC_VERSION_1; rs_flag := 3; rs_msg_len := 0;
     rs_seq := 7; rs_blob_len := 0 |}.
Definition bad_conn : TcpClient mem_stream :=
  TcpC (MemStream (RespHead_to_bytes bad_head) [] true) [].

Lemma read_resp_panic_iff_witness :
  read_resp_all (fun _ => true) error_handle_default bad_conn live7 = Panic.
Proof.
  apply (read_resp_panic_iff (fun _ => true) error_handle_default bad_conn live7
    (MemStream [] [] true) (RespHead_to_bytes bad_head) bad_head (take_task 7 live7).1 (sample_task 7)).
  - vm_compute. reflexivity.
  - vm_compute. reflexivity.
  - repeat split; vm_compute; congruence.
  - vm_compute. reflexivity.
  - left. reflexivity.
Defined.

End TcpClientWitness.
