(* ===== verification/ServerTask.v ===== *)
(** * Server tasks (stream/src/server/task.rs, stream/src/server/mod.rs)

    Requests as the transport hands them to a dispatcher, the predefined task
    containers, the pre-encoded response, and the messages of the response
    channel [RespNoti]. A task owns its end of that channel or not: its [noti]
    field is a boolean, and sending is returning the message. *)
From Stdlib Require Import ZArith Lia.
From stdpp Require Import base list.
From S2P Require Import Prelude Errors Codec Task.
Local Open Scope Z_scope.
Local Open Scope rpc_scope.

Record RpcSvrReq : Type := SvrReq {
  sq_seq : Z;
  sq_action : RpcAction;
  sq_msg : bytes;
  sq_blob : option bytes;
}.

(** What travels on the response channel: a task, or a sequence number with
    an optional internal error ([None] for the answer to a ping). *)
Definition noti_msg (R : Type) : Type := result R (Z * option RpcIntErr).

(** [RespNoti::done] and [RespNoti::send_err], on the queue of the channel
    ([open]: its receiver, the connection's writer, is there). *)
Definition noti_done {R} (open : bool) (task : R) (q : list (noti_msg R)) : list (noti_msg R) :=
  if open then q ++ [Ok task] else q.

Definition noti_send_err {R} (open : bool) (seq : Z) (err : option RpcIntErr)
    (q : list (noti_msg R)) : list (noti_msg R) * result unit unit :=
  if open then (q ++ [Err (seq, err)], Ok tt) else (q, Err tt).

(** ** RpcSvrResp: a response encoded beforehand *)

Record RpcSvrResp : Type := SvrResp {
  sp_seq : Z;
  sp_msg : option bytes;
  sp_blob : option bytes;
  sp_res : option (result unit EncodedErr);
}.

Definition RpcSvrResp_encode_resp (t : RpcSvrResp) (buf : bytes)
    : may (bytes * (Z * result (Z * option bytes) EncodedErr)) :=
  let? res := unwrap (sp_res t) in
  match res with
  | Ok _ =>
    match sp_msg t with
    | Some msg => Ret (buf ++ msg, (sp_seq t, Ok (zlen msg, sp_blob t)))
    | None => Ret (buf, (sp_seq t, Ok (0, sp_blob t)))
    end
  | Err e => Ret (buf, (sp_seq t, Err e))
  end.

#[global] Instance RpcSvrResp_task : ServerTaskEncode RpcSvrResp := {|
  encode_resp := RpcSvrResp_encode_resp;
|}.

(** ** ServerTaskVariant: one message type each way *)

Record ServerTaskVariant (M E : Type) : Type := SvrVariant {
  sv_seq : Z;
  sv_action : RpcActionOwned;
  sv_msg : M;
  sv_blob : option bytes;
  sv_res : option (result unit E);
  sv_noti : bool;
}.
Arguments SvrVariant {M E}.
Arguments sv_seq {M E}.
Arguments sv_action {M E}.
Arguments sv_msg {M E}.
Arguments sv_blob {M E}.
Arguments sv_res {M E}.
Arguments sv_noti {M E}.

Section variant.
Context {M E : Type} `{!Codec M} `{!RpcErrCodec E}.
Implicit Types t : ServerTaskVariant M E.

Definition Variant_decode_req (action : RpcAction) (seq : Z) (msg : bytes) (blob : option bytes)
    : result (ServerTaskVariant M E) unit :=
  match codec_decode msg with
  | Ok req => Ok (SvrVariant seq (RpcActionOwned_from action) req blob None true)
  | Err e => Err e
  end.

(** [_set_result]: records the result and gives up [noti]. *)
Definition Variant_set_result_raw (res : result unit E) t : may (ServerTaskVariant M E) :=
  if sv_noti t
  then Ret (SvrVariant (sv_seq t) (sv_action t) (sv_msg t) (sv_blob t) (Some res) false)
  else Panic.

(** [ServerTaskDone::set_result] sends the task back through [noti], as its
    parent type ([into]). *)
Definition Variant_set_result {P} (into : ServerTaskVariant M E -> P) (res : result unit E) t
    : may (noti_msg P) :=
  let? t := Variant_set_result_raw res t in Ret (Ok (into t)).

Definition Variant_get_action t : RpcAction := to_action (sv_action t).

Definition Variant_encode_resp t (buf : bytes)
    : may (bytes * (Z * result (Z * option bytes) EncodedErr)) :=
  match sv_res t with
  | Some (Ok _) =>
    match codec_encode_into (sv_msg t) buf with
    | (buf, Err _) => Ret (buf, (sv_seq t, Err (EncodedErr_from Encode)))
    | (buf, Ok msg_len) => Ret (buf, (sv_seq t, Ok (msg_len, sv_blob t)))
    end
  | Some (Err e) => Ret (buf, (sv_seq t, Err (err_encode e)))
  | None => Panic
  end.

#[global] Instance ServerTaskVariant_task : ServerTaskEncode (ServerTaskVariant M E) := {|
  encode_resp := Variant_encode_resp;
|}.

End variant.

(** ** ServerTaskVariantFull: separate request and response messages *)

Record ServerTaskVariantFull (Q P E : Type) : Type := SvrFull {
  sf_seq : Z;
  sf_action : RpcActionOwned;
  sf_req : Q;
  sf_req_blob : option bytes;
  sf_resp : option P;
  sf_resp_blob : option bytes;
  sf_res : option (result unit E);
  sf_noti : bool;
}.
Arguments SvrFull {Q P E}.
Arguments sf_seq {Q P E}.
Arguments sf_action {Q P E}.
Arguments sf_req {Q P E}.
Arguments sf_req_blob {Q P E}.
Arguments sf_resp {Q P E}.
Arguments sf_resp_blob {Q P E}.
Arguments sf_res {Q P E}.
Arguments sf_noti {Q P E}.

Section full.
Context {Q P E : Type} `{!Codec Q} `{!Codec P} `{!RpcErrCodec E}.
Implicit Types t : ServerTaskVariantFull Q P E.

Definition Full_decode_req (action : RpcAction) (seq : Z) (msg : bytes) (blob : option bytes)
    : result (ServerTaskVariantFull Q P E) unit :=
  match codec_decode msg with
  | Ok req => Ok (SvrFull seq (RpcActionOwned_from action) req blob None None None true)
  | Err e => Err e
  end.

Definition Full_set_result_raw (res : result unit E) t : may (ServerTaskVariantFull Q P E) :=
  if sf_noti t
  then Ret (SvrFull (sf_seq t) (sf_action t) (sf_req t) (sf_req_blob t) (sf_resp t)
              (sf_resp_blob t) (Some res) false)
  else Panic.

Definition Full_get_action t : RpcAction := to_action (sf_action t).

Definition Full_encode_resp t (buf : bytes)
    : may (bytes * (Z * result (Z * option bytes) EncodedErr)) :=
  match sf_res t with
  | Some (Ok _) =>
    match sf_resp t with
    | Some resp =>
      match codec_encode_into resp buf with
      | (buf, Err _) => Ret (buf, (sf_seq t, Err (EncodedErr_from Encode)))
      | (buf, Ok msg_len) => Ret (buf, (sf_seq t, Ok (msg_len, sf_resp_blob t)))
      end
    | None => Ret (buf, (sf_seq t, Ok (0, sf_resp_blob t)))
    end
  | Some (Err e) => Ret (buf, (sf_seq t, Err (err_encode e)))
  | None => Panic
  end.

#[global] Instance ServerTaskVariantFull_task : ServerTaskEncode (ServerTaskVariantFull Q P E) := {|
  encode_resp := Full_encode_resp;
|}.

End full.

(** ** DispatchClosure (stream/src/server/dispatch.rs)

    Decode the request, then run the user's handler; either may fail, and the
    handler may panic. It gives the messages it sends while it runs, and its
    result. *)
Definition dispatch_closure {Tk R} (decode_req : RpcAction -> Z -> bytes -> option bytes -> result Tk unit)
    (task_handle : Tk -> may (list R * result unit unit)) (req : RpcSvrReq)
    : may (list R * result unit unit) :=
  match decode_req (sq_action req) (sq_seq req) (sq_msg req) (sq_blob req) with
  | Err _ => Ret ([], Err tt)
  | Ok task =>
    let? (sent, r) := task_handle task in
    match r with
    | Err _ => Ret (sent, Err tt)
    | Ok _ => Ret (sent, Ok tt)
    end
  end.

(** ** What the responses carry *)

(** [seq] is the number the response [r] answers, and [o] what it says. *)
Definition resp_outcome {R} `{!ServerTaskEncode R} (r : R) (seq : Z)
    (o : result (bytes * option bytes) EncodedErr) : Prop :=
  match o with
  | Ok (msg, blob) => resp_yields r msg seq (Ok (zlen msg, blob))
  | Err e => resp_yields r [] seq (Err e)
  end.

Lemma RpcSvrResp_outcome t res :
  sp_res t = Some res ->
  resp_outcome t (sp_seq t)
    (match res with Ok _ => Ok (default [] (sp_msg t), sp_blob t) | Err e => Err e end).
Proof.
  intros H. unfold resp_outcome, resp_yields. destruct res as [u|e]; intros buf; cbn;
    unfold RpcSvrResp_encode_resp; rewrite H; cbn; [destruct (sp_msg t)|]; cbn;
    rewrite ?app_nil_r; done.
Qed.

Section outcomes.
Context {M E : Type} `{!Codec M} `{!CodecOk M} `{!RpcErrCodec E}.

Lemma Variant_outcome_ok (t : ServerTaskVariant M E) msg :
  sv_res t = Some (Ok tt) -> codec_encode (sv_msg t) = Ok msg ->
  resp_outcome t (sv_seq t) (Ok (msg, sv_blob t)).
Proof.
  intros Hr He buf. cbn. unfold Variant_encode_resp. rewrite Hr.
  rewrite (codec_encode_into_ok _ _ buf He). done.
Qed.

Lemma Variant_outcome_err (t : ServerTaskVariant M E) e :
  sv_res t = Some (Err e) -> resp_outcome t (sv_seq t) (Err (err_encode e)).
Proof. intros Hr buf. cbn. unfold Variant_encode_resp. rewrite Hr, app_nil_r. done. Qed.

(** A failing codec leaves what it wrote in front of the error. *)
Lemma Variant_outcome_junk (t : ServerTaskVariant M E) buf :
  sv_res t = Some (Ok tt) -> codec_encode (sv_msg t) = Err tt ->
  exists junk, encode_resp t buf = Ret (buf ++ junk, (sv_seq t, Err (ERpc Encode))).
Proof.
  intros Hr He. cbn. unfold Variant_encode_resp. rewrite Hr.
  destruct (codec_encode_into_err _ buf He) as [junk ->]. by exists junk.
Qed.

Context {Q : Type} `{!Codec Q}.

Lemma Full_outcome_ok (t : ServerTaskVariantFull Q M E) p msg :
  sf_res t = Some (Ok tt) -> sf_resp t = Some p -> codec_encode p = Ok msg ->
  resp_outcome t (sf_seq t) (Ok (msg, sf_resp_blob t)).
Proof.
  intros Hr Hp He buf. cbn. unfold Full_encode_resp. rewrite Hr, Hp.
  rewrite (codec_encode_into_ok _ _ buf He). done.
Qed.

Lemma Full_outcome_empty (t : ServerTaskVariantFull Q M E) :
  sf_res t = Some (Ok tt) -> sf_resp t = None ->
  resp_outcome t (sf_seq t) (Ok ([], sf_resp_blob t)).
Proof. intros Hr Hp buf. cbn. unfold Full_encode_resp. rewrite Hr, Hp, app_nil_r. done. Qed.

Lemma Full_outcome_err (t : ServerTaskVariantFull Q M E) e :
  sf_res t = Some (Err e) -> resp_outcome t (sf_seq t) (Err (err_encode e)).
Proof. intros Hr buf. cbn. unfold Full_encode_resp. rewrite Hr, app_nil_r. done. Qed.

(** Decoding a request and setting its result: the reply carries the request's
    number, and a result can be given once only. *)
Lemma Variant_reply action seq b blob (m : M) res :
  codec_encode m = Ok b ->
  exists t, Variant_decode_req (M := M) (E := E) action seq b blob = Ok t /\
    sv_msg t = m /\ sv_blob t = blob /\ Variant_get_action t = action /\
    exists t', Variant_set_result_raw res t = Ret t' /\ sv_seq t' = seq /\
      sv_res t' = Some res /\ forall res', Variant_set_result_raw res' t' = Panic.
Proof.
  intros He. unfold Variant_decode_req. rewrite (codec_decode_encode _ _ He).
  eexists; split; [done|]. cbn. split; [done|]. split; [done|].
  split; [apply to_action_from|]. eexists; split; [done|]. done.
Qed.

End outcomes.
