(* ===== verification/TcpServer.v ===== *)
(** * The server side of the TCP transport (transport/tcp/src/server.rs)

    [TcpServer] over an arbitrary byte stream. The buffers for the action and
    the message are kept between requests; a request is returned by value (the
    source lends slices of the buffers until the next read). *)
From Stdlib Require Import ZArith Lia Strings.String.
From stdpp Require Import base list.
From S2P Require Import Prelude Errors Task ApiClient Proto Net ServerTask.
Local Open Scope Z_scope.
Local Open Scope rpc_scope.

Record TcpServer (S : Type) : Type := TcpS {
  ts_stream : S;
  ts_action_buf : bytes;
  ts_msg_buf : bytes;
  ts_encode_buf : bytes;
}.
Arguments TcpS {S}.
Arguments ts_stream {S}.
Arguments ts_action_buf {S}.
Arguments ts_msg_buf {S}.
Arguments ts_encode_buf {S}.

Section server.
Context {S : Type} `{!AsyncStream S}.
Implicit Types c : TcpServer S.

(** [Buffer::alloc] of the io_buffer crate. *)
Context (buffer_alloc : Z -> bool).

Definition new_conn (stream : S) : TcpServer S := TcpS stream [] [] [].

Definition ts_set_stream (s : S) c : TcpServer S :=
  TcpS s (ts_action_buf c) (ts_msg_buf c) (ts_encode_buf c).
Definition ts_set_action (b : bytes) c : TcpServer S :=
  TcpS (ts_stream c) b (ts_msg_buf c) (ts_encode_buf c).
Definition ts_set_msg (b : bytes) c : TcpServer S :=
  TcpS (ts_stream c) (ts_action_buf c) b (ts_encode_buf c).
Definition ts_set_encode (b : bytes) c : TcpServer S :=
  TcpS (ts_stream c) (ts_action_buf c) (ts_msg_buf c) b.

(** The action of a request: its number, or the string that follows the head. *)
Definition read_action (rpc_head : ReqHead) c : TcpServer S * result RpcAction RpcIntErr :=
  match ReqHead_get_action rpc_head with
  | Ok num => (c, Ok (ANum num))
  | Err action_len =>
    let c := ts_set_action (resize (as_usize action_len) (ts_action_buf c)) c in
    match read_exact (ts_stream c) (zlen (ts_action_buf c)) with
    | (s, Err _) => (ts_set_stream s c, Err IO)
    | (s, Ok b) =>
      let c := ts_set_action b (ts_set_stream s c) in
      match from_utf8 b with
      | Some s => (c, Ok (AStr s))
      | None => (c, Err Decode)
      end
    end
  end.

Definition read_msg (rpc_head : ReqHead) c : TcpServer S * result unit RpcIntErr :=
  let c := ts_set_msg (resize (rq_msg_len rpc_head) (ts_msg_buf c)) c in
  if 0 <? rq_msg_len rpc_head then
    match read_exact (ts_stream c) (zlen (ts_msg_buf c)) with
    | (s, Err _) => (ts_set_stream s c, Err IO)
    | (s, Ok b) => (ts_set_msg b (ts_set_stream s c), Ok tt)
    end
  else (c, Ok tt).

Definition read_blob (rpc_head : ReqHead) c : TcpServer S * result (option bytes) RpcIntErr :=
  let blob_len := as_i32 (rq_blob_len rpc_head) in
  if 0 <? blob_len then
    if buffer_alloc blob_len then
      match read_exact (ts_stream c) blob_len with
      | (s, Err _) => (ts_set_stream s c, Err IO)
      | (s, Ok b) => (ts_set_stream s c, Ok (Some b))
      end
    else (c, Err Decode)
  else (c, Ok None).

(** [read_req]; [cancelled]: the server closed or the connection was idle for
    too long before a header was read. *)
Definition read_req (cancelled : bool) c : may (TcpServer S * result RpcSvrReq RpcIntErr) :=
  if cancelled then Ret (c, Err Timeout)
  else
    match read_exact (ts_stream c) RPC_REQ_HEADER_LEN with
    | (s, Err _) => Ret (ts_set_stream s c, Err IO)
    | (s, Ok req_header_buf) =>
      let c := ts_set_stream s c in
      let? r := ReqHead_decode_head req_header_buf in
      match r with
      | Err _ => Ret (c, Err Decode)
      | Ok rpc_head =>
        match read_action rpc_head c with
        | (c, Err e) => Ret (c, Err e)
        | (c, Ok action) =>
          match read_msg rpc_head c with
          | (c, Err e) => Ret (c, Err e)
          | (c, Ok _) =>
            match read_blob rpc_head c with
            | (c, Err e) => Ret (c, Err e)
            | (c, Ok blob) => Ret (c, Ok (SvrReq (rq_seq rpc_head) action (ts_msg_buf c) blob))
            end
          end
        end
      end
    end.

Definition write_resp {R} `{!ServerTaskEncode R} (task : R) c
    : may (TcpServer S * result unit unit) :=
  let? (buf, (_, blob_buf)) := RespHead_encode (ts_encode_buf c) task in
  let c := ts_set_encode buf c in
  match write_all (ts_stream c) buf with
  | (s, Err e) => Ret (ts_set_stream s c, Err e)
  | (s, Ok _) =>
    let c := ts_set_stream s c in
    match blob_buf with
    | Some blob =>
      let '(s, r) := write_all (ts_stream c) blob in Ret (ts_set_stream s c, r)
    | None => Ret (c, Ok tt)
    end
  end.

Definition write_resp_internal (seq : Z) (err : option RpcIntErr) c
    : may (TcpServer S * result unit unit) :=
  let? (buf, _) := RespHead_encode_internal (ts_encode_buf c) seq err in
  let c := ts_set_encode buf c in
  let '(s, r) := write_all (ts_stream c) buf in
  Ret (ts_set_stream s c, r).

Definition flush_resp c : TcpServer S * result unit unit :=
  let '(s, r) := stream_flush (ts_stream c) in (ts_set_stream s c, r).

Definition svr_close_conn c : TcpServer S :=
  let '(c, r) := flush_resp c in
  if is_ok r then ts_set_stream (shutdown_write (ts_stream c)) c else c.

(** ** Lemmas *)
Section frames.
Context `{!AsyncStreamOk S}.

(** Everything that can be said about a step that only consumes input. *)
Definition consumed c c' rest : Prop :=
  incoming (ts_stream c') = rest /\ written (ts_stream c') = written (ts_stream c) /\
  (writable (ts_stream c) -> writable (ts_stream c')).

Lemma read_action_ok h a c rest :
  action_sendable a -> rq_action h = action_flag a ->
  incoming (ts_stream c) = action_body a ++ rest ->
  exists c', read_action h c = (c', Ok a) /\ consumed c c' rest.
Proof.
  intros Ha Hh Hi. unfold read_action. rewrite (get_action_flag h a Ha Hh).
  destruct a as [s|n]; [|by exists c].
  destruct Ha as [Hu Hl]. pose proof (zlen_nonneg s).
  rewrite as_usize_small by (unfold is_usize; lia). cbn [ts_set_action ts_action_buf ts_stream].
  rewrite zlen_resize by done.
  destruct (read_exact_app (ts_stream c) (zlen s) s rest Hi eq_refl) as (s' & E & Hc).
  rewrite E, from_utf8_valid by done. eexists; split; [done|]. done.
Qed.

Lemma read_msg_ok h c msg rest :
  rq_msg_len h = zlen msg -> incoming (ts_stream c) = msg ++ rest ->
  exists c', read_msg h c = (c', Ok tt) /\ ts_msg_buf c' = msg /\ consumed c c' rest.
Proof.
  intros Hl Hi. unfold read_msg. rewrite Hl. pose proof (zlen_nonneg msg).
  cbn [ts_set_msg ts_msg_buf ts_stream]. rewrite zlen_resize by done.
  destruct (Z.ltb_spec 0 (zlen msg)) as [Hp|Hz].
  - destruct (read_exact_app (ts_stream c) (zlen msg) msg rest Hi eq_refl) as (s' & E & Hc).
    rewrite E. eexists; split; [done|]. done.
  - assert (msg = []) as -> by (apply zlen_nil_iff; lia).
    eexists; split; [done|]. cbn. rewrite resize_0. done.
Qed.

Lemma read_blob_ok h c blob rest :
  rq_blob_len h = blob_size blob -> blob_size blob <= I32_MAX ->
  (0 < blob_size blob -> buffer_alloc (blob_size blob) = true) ->
  incoming (ts_stream c) = default [] blob ++ rest ->
  exists c', read_blob h c = (c', Ok (if 0 <? blob_size blob then blob else None)) /\
    ts_msg_buf c' = ts_msg_buf c /\ consumed c c' rest.
Proof.
  intros Hl Hm Ha Hi. unfold read_blob. pose proof (blob_size_nonneg blob).
  rewrite Hl, as_i32_small by (unfold is_i32, I32_MAX in *; lia).
  destruct (Z.ltb_spec 0 (blob_size blob)) as [Hp|Hz].
  - rewrite Ha by done. destruct blob as [b|]; cbn in *; [|lia].
    destruct (read_exact_app (ts_stream c) (zlen b) b rest Hi eq_refl) as (s' & E & Hc).
    rewrite E. eexists; split; [done|]. done.
  - eexists; split; [done|]. split; [done|]. destruct blob as [b|]; cbn in *; [|done].
    assert (b = []) as -> by (apply zlen_nil_iff; pose proof (zlen_nonneg b); lia). done.
Qed.

(** The request the server sees for the task [t] and its encoded message. *)
Definition svr_view {T} `{!ClientTask T} (t : T) (msg : bytes) : RpcSvrReq :=
  SvrReq (task_seq t) (get_action t) msg
    (if 0 <? blob_size (get_req_blob t) then get_req_blob t else None).

(** The bytes of a request on the wire. *)
Definition req_frame {T} `{!ClientTask T} (cid : Z) (t : T) (msg : bytes) : bytes :=
  ReqHead_to_bytes (req_head cid t msg) ++ action_body (get_action t) ++ msg ++
  default [] (get_req_blob t).

Definition req_sendable {T} `{!ClientTask T} (cid : Z) (t : T) (msg : bytes) : Prop :=
  is_u64 cid /\ is_u64 (task_seq t) /\ zlen msg <= U32_MAX /\
  blob_size (get_req_blob t) <= I32_MAX /\ action_sendable (get_action t).

Lemma read_req_frame {T} `{!ClientTask T} cid (t : T) msg c rest :
  req_sendable cid t msg ->
  (0 < blob_size (get_req_blob t) -> buffer_alloc (blob_size (get_req_blob t)) = true) ->
  incoming (ts_stream c) = req_frame cid t msg ++ rest ->
  exists c', read_req false c = Ret (c', Ok (svr_view t msg)) /\ consumed c c' rest.
Proof.
  intros (Hc & Hs & Hm & Hb & Ha) Halloc Hi. unfold read_req, req_frame in *.
  rewrite <- !app_assoc in Hi.
  destruct (read_exact_app (ts_stream c) RPC_REQ_HEADER_LEN _ _ Hi (zlen_ReqHead_to_bytes _))
    as (s1 & E & Hi1 & Hw1 & Hwr1).
  rewrite E, ReqHead_decode_to_bytes by (try done; by apply req_head_ok, action_sendable_fits). cbn [may_bind].
  cbn zeta.
  destruct (read_action_ok (req_head cid t msg) (get_action t) (ts_set_stream s1 c) _ Ha eq_refl Hi1)
    as (c2 & -> & Hi2 & Hw2 & Hwr2).
  destruct (read_msg_ok (req_head cid t msg) c2 msg _ eq_refl Hi2) as (c3 & -> & Hmsg & Hi3 & Hw3 & Hwr3).
  destruct (read_blob_ok (req_head cid t msg) c3 (get_req_blob t) rest eq_refl Hb Halloc Hi3)
    as (c4 & -> & Hmsg4 & Hi4 & Hw4 & Hwr4).
  exists c4. rewrite Hmsg4, Hmsg. split; [done|]. split; [done|].
  cbn in *. split; [congruence|auto].
Qed.

(** Writing a response appends its frame. *)
Definition resp_frame_ok (seq : Z) (msg : bytes) (blob : option bytes) : bytes :=
  RespHead_to_bytes (ok_head seq msg blob) ++ msg ++ default [] blob.

Definition resp_frame_err (seq : Z) (e : EncodedErr) : bytes :=
  RespHead_to_bytes (err_head seq e) ++ err_body e.

(** The frame of a response: an answer over the size limits is not covered. *)
Definition outcome_frame (seq : Z) (o : result (bytes * option bytes) EncodedErr) : bytes :=
  match o with
  | Ok (msg, blob) => resp_frame_ok seq msg blob
  | Err e => resp_frame_err seq e
  end.

Definition outcome_sendable (o : result (bytes * option bytes) EncodedErr) : Prop :=
  match o with
  | Ok (msg, blob) => zlen msg <= U32_MAX /\ blob_size blob <= I32_MAX
  | Err e => err_sendable e
  end.

(** A step that only writes [b]. *)
Definition sent c c' b : Prop :=
  incoming (ts_stream c') = incoming (ts_stream c) /\
  written (ts_stream c') = written (ts_stream c) ++ b /\ writable (ts_stream c').

Lemma write_resp_frame {R} `{!ServerTaskEncode R} (r : R) seq o c :
  resp_outcome r seq o -> outcome_sendable o -> writable (ts_stream c) ->
  exists c', write_resp r c = Ret (c', Ok tt) /\ sent c c' (outcome_frame seq o).
Proof.
  intros Hr Ho Hw. unfold write_resp. destruct o as [[msg blob]|e]; cbn in Hr, Ho.
  - destruct Ho as [Hm Hb]. rewrite (RespHead_encode_ok_eq _ _ _ _ _ Hr Hm Hb). cbn [may_bind].
    cbn [ts_stream ts_set_encode].
    destruct (write_all_ok (ts_stream c) (RespHead_to_bytes (ok_head seq msg blob) ++ msg) Hw)
      as (s1 & -> & Hw1 & Hi1 & Hwr1).
    destruct blob as [b|]; cbn [ts_stream ts_set_stream].
    + destruct (write_all_ok s1 b Hwr1) as (s2 & -> & Hw2 & Hi2 & Hwr2).
      eexists; split; [done|]. unfold sent, outcome_frame, resp_frame_ok; cbn.
      rewrite Hi2, Hi1, Hw2, Hw1, <- !app_assoc. done.
    + eexists; split; [done|]. unfold sent, outcome_frame, resp_frame_ok; cbn.
      rewrite Hi1, Hw1, app_nil_r. done.
  - rewrite (RespHead_encode_err_eq _ _ _ _ _ Hr). cbn [may_bind app].
    cbn [ts_stream ts_set_encode].
    destruct (write_all_ok (ts_stream c) (RespHead_to_bytes (err_head seq e) ++ err_body e) Hw)
      as (s1 & -> & Hw1 & Hi1 & Hwr1).
    eexists; split; [done|]. done.
Qed.

(** The frames of the answers the framework writes itself. *)
Definition internal_frame (seq : Z) (err : option RpcIntErr) : bytes :=
  match err with
  | Some e => resp_frame_err seq (ERpc e)
  | None => resp_frame_ok seq [] None
  end.

Lemma write_resp_internal_frame seq err c :
  writable (ts_stream c) ->
  exists c', write_resp_internal seq err c = Ret (c', Ok tt) /\ sent c c' (internal_frame seq err).
Proof.
  intros Hw. unfold write_resp_internal. rewrite RespHead_encode_internal_eq.
  destruct err as [e|]; cbn [may_bind]; cbn [ts_stream ts_set_encode];
    match goal with |- context [write_all _ ?b] =>
      destruct (write_all_ok (ts_stream c) b Hw) as (s1 & -> & Hw1 & Hi1 & Hwr1) end;
    (eexists; split; [done|]); [done|].
  unfold sent, internal_frame, resp_frame_ok; cbn; done.
Qed.

End frames.
End server.
