(* ===== verification/ApiServer.v ===== *)
(** * The API server (src/server, and the code generated by macros/src)

    Requests and responses of the API layer, the handlers and dispatch tables
    the [service] and [service_mux_struct] macros generate, the dynamic
    [ServiceMuxDyn], and [APIDispatch]. A service is a function from a request
    to the one response its handler sends; the user's methods are parameters. *)
From Stdlib Require Import ZArith Lia Strings.String.
From stdpp Require Import base list gmap countable.
From S2P Require Import Prelude Errors Codec Task ServerTask.
Local Open Scope Z_scope.
Local Open Scope rpc_scope.

Record APIServerReq : Type := ApiSReq {
  aq_seq : Z;
  aq_service : bytes;
  aq_method : bytes;
  aq_req : option bytes;
}.

Record APIServerResp : Type := ApiSResp {
  ap_seq : Z;
  ap_msg : option bytes;
  ap_res : option (result unit EncodedErr);
}.

(** ** src/server/task.rs: each [set_*] sends one response *)

Definition ApiSReq_decode {Rq} `{!Codec Rq} (buf : bytes) : result Rq unit := codec_decode buf.

Definition ApiSReq_set_result {Rp} `{!Codec Rp} (q : APIServerReq) (resp : Rp) : APIServerResp :=
  match codec_encode resp with
  | Err _ => ApiSResp (aq_seq q) None (Some (Err (EncodedErr_from Encode)))
  | Ok msg => ApiSResp (aq_seq q) (Some msg) (Some (Ok tt))
  end.

Definition ApiSReq_set_rpc_error (q : APIServerReq) (e : RpcIntErr) : APIServerResp :=
  ApiSResp (aq_seq q) None (Some (Err (EncodedErr_from e))).

Definition ApiSReq_set_error {E} `{!RpcErrCodec E} (q : APIServerReq) (e : RpcError E)
    : APIServerResp :=
  let encoded_err := match e with Rpc e => EncodedErr_from e | User e => err_encode e end in
  ApiSResp (aq_seq q) None (Some (Err encoded_err)).

Definition ApiSResp_encode_resp (t : APIServerResp) (buf : bytes)
    : may (bytes * (Z * result (Z * option bytes) EncodedErr)) :=
  let? res := unwrap (ap_res t) in
  match res with
  | Ok _ =>
    match ap_msg t with
    | Some msg => Ret (buf ++ msg, (ap_seq t, Ok (zlen msg, None)))
    | None => Ret (buf, (ap_seq t, Ok (0, None)))
    end
  | Err e => Ret (buf, (ap_seq t, Err e))
  end.

#[global] Instance APIServerResp_task : ServerTaskEncode APIServerResp := {|
  encode_resp := ApiSResp_encode_resp;
|}.

(** ** Generated code *)

(** What a handler or a service does with a request; it may panic. *)
Definition handler : Type := APIServerReq -> may APIServerResp.

(** [__handle_<method>] of the [service] macro, for the user's method [f]. *)
Definition service_handler {Rq Rp E} `{!Codec Rq} `{!Codec Rp} `{!RpcErrCodec E}
    (f : Rq -> result Rp (RpcError E)) : handler := fun req =>
  match aq_req req with
  | None => Panic
  | Some buf =>
    match ApiSReq_decode buf with
    | Err _ => Ret (ApiSReq_set_rpc_error req Decode)
    | Ok arg =>
      match f arg with
      | Ok resp => Ret (ApiSReq_set_result req resp)
      | Err e => Ret (ApiSReq_set_error req e)
      end
    end
  end.

(** The arms of a generated [match] on strings: the first that fits. *)
Fixpoint match_arms (arms : list (bytes * handler)) (key : bytes) : option handler :=
  match arms with
  | [] => None
  | (name, h) :: arms' => if decide (key = name) then Some h else match_arms arms' key
  end.

(** [serve] of the [service] macro. *)
Definition service_serve (arms : list (bytes * handler)) : handler := fun req =>
  match match_arms arms (aq_method req) with
  | Some h => h req
  | None => Ret (ApiSReq_set_rpc_error req Method)
  end.

(** [serve] of the [service_mux_struct] macro: one arm per field, on the
    [SERVICE_NAME] of its type. *)
Definition mux_struct_serve (fields : list (bytes * handler)) : handler := fun req =>
  match match_arms fields (aq_service req) with
  | Some serve => serve req
  | None => Ret (ApiSReq_set_rpc_error req Service)
  end.

(** The name the [endpoint_async] macro builds: ["Trait.method"]. *)
Definition service_method (trait_name method_name : bytes) : bytes :=
  trait_name ++ [Byte.x2e] ++ method_name.

(** ** ServiceMuxDyn (src/server/service.rs) *)

#[global] Instance byte_countable : Countable Byte.byte :=
  inj_countable Byte.to_N Byte.of_N Byte.of_to_N.

Definition ServiceMuxDyn : Type := gmap bytes handler.

Definition MuxDyn_new : ServiceMuxDyn := ∅.

Definition MuxDyn_add (service_name : bytes) (service : handler) (m : ServiceMuxDyn)
    : ServiceMuxDyn := <[service_name := service]> m.

Definition MuxDyn_serve (m : ServiceMuxDyn) : handler := fun req =>
  match m !! aq_service req with
  | Some service => service req
  | None => Ret (ApiSReq_set_rpc_error req Service)
  end.

(** ** Dispatch (src/server/dispatch.rs) *)

(** [Inline::dispatch]. *)
Definition inline_dispatch (serve : handler) (req : APIServerReq)
    : may (list APIServerResp * result unit unit) :=
  let? resp := serve req in Ret ([resp], Ok tt).

(** [APIDispatch::dispatch_req], over an [APIDispatchTrait]. *)
Definition api_dispatch_req (dispatch : APIServerReq -> may (list APIServerResp * result unit unit))
    (req : RpcSvrReq) : may (list APIServerResp * result unit unit) :=
  match sq_action req with
  | AStr action =>
    match split_once Byte.x2e action with
    | Some (service, method) =>
      dispatch (ApiSReq (sq_seq req) service method (Some (sq_msg req)))
    | None => Ret ([], Err tt)
    end
  | ANum _ => Ret ([], Err tt)
  end.

(** ** Lemmas *)

(** A handler that answers every request carrying a body once, under its
    number. *)
Definition handler_ok (h : handler) : Prop :=
  forall req, is_Some (aq_req req) -> exists resp, h req = Ret resp /\ ap_seq resp = aq_seq req.

Lemma set_result_seq {Rp} `{!Codec Rp} q (r : Rp) : ap_seq (ApiSReq_set_result q r) = aq_seq q.
Proof. unfold ApiSReq_set_result. by destruct (codec_encode r). Qed.

Lemma service_handler_ok {Rq Rp E} `{!Codec Rq} `{!Codec Rp} `{!RpcErrCodec E}
    (f : Rq -> result Rp (RpcError E)) : handler_ok (service_handler f).
Proof.
  intros req [b Hb]. unfold service_handler. rewrite Hb.
  destruct (ApiSReq_decode b) as [a|]; [|eauto]. destruct (f a); [|eauto].
  eexists; split; [done|]. apply set_result_seq.
Qed.

Lemma match_arms_in arms key h : match_arms arms key = Some h -> (key, h) ∈ arms.
Proof.
  induction arms as [|[n h'] arms IH]; [done|]. simpl. case_decide as Hd.
  - intros [= ->]. subst. left.
  - intros H. right. auto.
Qed.

Lemma service_serve_ok arms :
  Forall (fun a => handler_ok (snd a)) arms -> handler_ok (service_serve arms).
Proof.
  intros H req Hb. unfold service_serve. destruct (match_arms arms (aq_method req)) eqn:E; [|eauto].
  apply match_arms_in, list_elem_of_In in E. rewrite List.Forall_forall in H. by apply (H _ E).
Qed.

Lemma mux_struct_serve_ok fields :
  Forall (fun a => handler_ok (snd a)) fields -> handler_ok (mux_struct_serve fields).
Proof.
  intros H req Hb. unfold mux_struct_serve.
  destruct (match_arms fields (aq_service req)) eqn:E; [|eauto].
  apply match_arms_in, list_elem_of_In in E. rewrite List.Forall_forall in H. by apply (H _ E).
Qed.

Lemma dispatch_split req s m :
  sq_action req = AStr (service_method s m) -> Byte.x2e ∉ s ->
  forall serve, api_dispatch_req (inline_dispatch serve) req =
    inline_dispatch serve (ApiSReq (sq_seq req) s m (Some (sq_msg req))).
Proof.
  intros Ha Hs serve. unfold api_dispatch_req. rewrite Ha. unfold service_method. cbn [app].
  rewrite split_once_app by done. done.
Qed.

Lemma ApiSResp_outcome t res :
  ap_res t = Some res ->
  resp_outcome t (ap_seq t)
    (match res with Ok _ => Ok (default [] (ap_msg t), None) | Err e => Err e end).
Proof.
  intros H. unfold resp_outcome, resp_yields. destruct res as [u|e]; intros buf; cbn;
    unfold ApiSResp_encode_resp; rewrite H; cbn; [destruct (ap_msg t)|]; cbn;
    rewrite ?app_nil_r; done.
Qed.

(** The services of a [ServiceMuxDyn], added one by one. *)
Definition mux_of (l : list (bytes * handler)) : ServiceMuxDyn :=
  foldl (fun m p => MuxDyn_add (fst p) (snd p) m) MuxDyn_new l.

Lemma match_arms_app a b k :
  match_arms (a ++ b) k = match match_arms a k with Some h => Some h | None => match_arms b k end.
Proof. induction a as [|[n h] a IH]; [done|]. simpl. by case_decide. Qed.

Lemma foldl_mux_lookup l m k :
  foldl (fun m p => MuxDyn_add (fst p) (snd p) m) m l !! k =
    match match_arms (rev l) k with Some h => Some h | None => (m : ServiceMuxDyn) !! k end.
Proof.
  revert m. induction l as [|[n h] l IH]; [done|]. intros m. cbn [foldl rev fst snd].
  rewrite IH, match_arms_app. destruct (match_arms (rev l) k); [done|]. cbn.
  unfold MuxDyn_add. case_decide as Hd.
  - subst. apply (lookup_insert_eq (M := gmap bytes) m n h).
  - apply (lookup_insert_ne (M := gmap bytes) m n k h). done.
Qed.

(** ** Properties *)

(** A request for ["S.m"], [S] without a dot, always gets exactly
    one response, under its own sequence number, from a server whose handlers
    are the generated ones: the dispatcher never panics and never refuses it,
    an unknown service or method included. *)
Theorem dispatch_one_response fields arms req s m :
  Forall (fun a => handler_ok (snd a)) fields -> Forall (fun a => handler_ok (snd a)) arms ->
  sq_action req = AStr (service_method s m) -> Byte.x2e ∉ s ->
  exists resp, api_dispatch_req (inline_dispatch (mux_struct_serve ((s, service_serve arms) :: fields))) req
      = Ret ([resp], Ok tt) /\
    ap_seq resp = sq_seq req /\
    (match_arms arms m = None -> ap_res resp = Some (Err (ERpc Method))).
Proof.
  intros Hf Ha Hreq Hs. rewrite (dispatch_split _ s m) by done.
  unfold inline_dispatch, mux_struct_serve. cbn [match_arms aq_service].
  rewrite decide_True by done.
  destruct (service_serve_ok arms Ha (ApiSReq (sq_seq req) s m (Some (sq_msg req)))) as (resp & E & Hseq);
    [done|].
  rewrite E. exists resp. split; [done|]. split; [done|].
  intros Hn. unfold service_serve in E. cbn [aq_method] in E. rewrite Hn in E. by injection E as <-.
Qed.

(** The two multiplexers agree: a [ServiceMuxDyn] filled by successive
    [add]s serves like the [match] generated by [service_mux_struct] on the
    same services with the last added first, so that a name added twice is
    served by the later service. *)
Theorem mux_dyn_struct_equiv l req :
  MuxDyn_serve (mux_of l) req = mux_struct_serve (rev l) req.
Proof.
  unfold MuxDyn_serve, mux_struct_serve, mux_of. rewrite foldl_mux_lookup.
  by destruct (match_arms (rev l) (aq_service req)).
Qed.

(** ** Concrete instances *)

Module ApiServerWitness.

(** A service with one method that answers a string with itself. *)
Definition echo : handler :=
  @service_handler bytes bytes unit raw_codec raw_codec _ (fun b => Ok b).
Definition echo_arms : list (bytes * handler) := [(str_bytes "repeat"%string, echo)].
Definition echo_req (m : string) : RpcSvrReq :=
  SvrReq 5 (AStr (service_method (str_bytes "Echo"%string) (str_bytes m))) (str_bytes "hi"%string) None.

Lemma dispatch_one_response_witness :
  exists resp, api_dispatch_req (inline_dispatch (mux_struct_serve
      [(str_bytes "Echo"%string, service_serve echo_arms)])) (echo_req "nope"%string) = Ret ([resp], Ok tt) /\
    ap_seq resp = 5 /\ ap_res resp = Some (Err (ERpc Method)).
Proof.
  destruct (dispatch_one_response [] echo_arms (echo_req "nope"%string) (str_bytes "Echo"%string)
    (str_bytes "nope"%string)) as (resp & E & Hs & Hn).
  - constructor.
  - constructor; [apply service_handler_ok|constructor].
  - reflexivity.
  - vm_compute. intros H. repeat (apply elem_of_cons in H as [H|H]; [discriminate|]).
    by apply elem_of_nil in H.
  - exists resp. split; [exact E|]. split; [exact Hs|]. apply Hn. vm_compute. reflexivity.
Defined.

End ApiServerWitness.
