(* ===== verification/EndToEnd.v ===== *)
(** * Client to server and back

    The two ends of the TCP transport composed: what one side writes, the
    other reads. Each end has its own byte stream; that the bytes written at
    one end arrive at the other is the hypothesis of every statement. *)
From Stdlib Require Import ZArith Lia Strings.String.
From stdpp Require Import base list.
From S2P Require Import Prelude Errors Codec Task ApiClient Proto BTree Timer Net.
From S2P Require Import TcpClient ServerTask TcpServer ApiServer.
Local Open Scope Z_scope.
Local Open Scope rpc_scope.

(** ** What a response says to the task waiting for it *)
Section outcome.
Context {T : Type} `{!ClientTask T} (error_handle : T -> event T).

Definition outcome_event (o : result (bytes * option bytes) EncodedErr) (t : T) : event T :=
  match o with
  | Ok (msg, blob) =>
    if 0 <? blob_size blob then
      match reserve_resp_blob t (blob_size blob) with
      | (t, None) => error_handle (set_rpc_error t Decode)
      | (t, Some _) => finish_event error_handle msg (fill_resp_blob t (default [] blob))
      end
    else finish_event error_handle msg t
  | Err e => error_handle (deliver_err t (wire_err e))
  end.

Definition outcome_head (seq : Z) (o : result (bytes * option bytes) EncodedErr) : RespHead :=
  match o with Ok (msg, blob) => ok_head seq msg blob | Err e => err_head seq e end.

Definition outcome_body (o : result (bytes * option bytes) EncodedErr) : bytes :=
  match o with Ok (msg, blob) => msg ++ default [] blob | Err e => err_body e end.

(** An outcome whose frame can also be skipped by a client that no longer
    waits for it. *)
Definition outcome_fits (o : result (bytes * option bytes) EncodedErr) : Prop :=
  match o with
  | Ok (msg, blob) => zlen msg + blob_size blob <= I32_MAX
  | Err e => err_sendable e
  end.

Lemma outcome_fits_sendable o : outcome_fits o -> outcome_sendable o.
Proof.
  destruct o as [[msg blob]|e]; [|done]. cbn. pose proof (zlen_nonneg msg).
  pose proof (blob_size_nonneg blob). unfold I32_MAX, U32_MAX. lia.
Qed.

Lemma outcome_frame_split seq o :
  outcome_frame seq o = RespHead_to_bytes (outcome_head seq o) ++ outcome_body o.
Proof. by destruct o as [[msg blob]|e]. Qed.

Lemma blob_size_default blob : blob_size blob = zlen (default [] blob).
Proof. by destruct blob. Qed.

Lemma outcome_head_sane seq o :
  is_u64 seq -> outcome_fits o ->
  RespHead_sane (outcome_head seq o) /\ zlen (outcome_body o) = body_len (outcome_head seq o).
Proof.
  intros Hs Hf. destruct o as [[msg blob]|e]; cbn [outcome_head outcome_body outcome_fits] in *.
  - pose proof (zlen_nonneg msg). pose proof (blob_size_nonneg blob).
    unfold RespHead_sane, body_len. cbn. rewrite zlen_app, <- blob_size_default.
    split; [|done]. split; [|done].
    apply ok_head_ok; [done|unfold I32_MAX, U32_MAX in *; lia..].
  - pose proof (err_head_ok seq e Hs Hf) as Hok. unfold RespHead_sane, body_len, RESP_FLAG_HAS_ERR_STRING.
    assert (Hx : forall x : bytes, zlen x <= I32_MAX -> as_i32 (zlen x) = zlen x).
    { intros x Hx. pose proof (zlen_nonneg x). apply as_i32_small. unfold is_i32, I32_MAX in *. lia. }
    pose proof (zlen_nonneg (err_body e)) as Hn.
    destruct e as [e|n|s|s]; cbn in *; rewrite ?Hx in * by done; try done.
Qed.

Lemma resp_event_outcome seq o t :
  outcome_fits o ->
  resp_event error_handle (outcome_head seq o) (outcome_body o) t = outcome_event o t.
Proof.
  intros Hf. destruct o as [[msg blob]|e]; cbn [outcome_head outcome_body outcome_event].
  - unfold resp_event. cbn [ok_head rs_flag rs_msg_len rs_blob_len Z.eqb].
    destruct (take_msg_app msg (default [] blob) (zlen msg) eq_refl) as [-> ->]. done.
  - unfold resp_event, wire_err. destruct e as [e|n|s|s]; done.
Qed.

End outcome.

Section roundtrip.
Context {S S' : Type} `{!AsyncStream S} `{!AsyncStreamOk S} `{!AsyncStream S'} `{!AsyncStreamOk S'}.
Context (buffer_alloc : Z -> bool).
Context (alloc_i32 : forall n, 0 < n <= I32_MAX -> buffer_alloc n = true).

(** Sending a request writes its frame. *)
Lemma send_frame {T} `{!ClientTask T} cid (t : T) msg buf0 nf (c : TcpClient S) :
  encodes_to t msg -> req_sendable cid t msg -> writable (tc_stream c) ->
  exists buf blob c', ReqHead_encode buf0 cid t = Ret (buf, Ok blob) /\
    write_req buf blob nf c = (c', Ok tt) /\
    written (tc_stream c') = written (tc_stream c) ++ req_frame cid t msg /\
    incoming (tc_stream c') = incoming (tc_stream c) /\ writable (tc_stream c').
Proof.
  intros He (_ & _ & Hm & Hb & _) Hw.
  rewrite (ReqHead_encode_eq buf0 cid t msg He Hm Hb).
  match goal with |- exists buf blob c', Ret (?b, Ok ?bl) = _ /\ _ =>
    enough (Hx : exists c', write_req b bl nf c = (c', Ok tt) /\
      written (tc_stream c') = written (tc_stream c) ++ req_frame cid t msg /\
      incoming (tc_stream c') = incoming (tc_stream c) /\ writable (tc_stream c'))
    by (destruct Hx as [c' Hx]; by exists b, bl, c') end.
  unfold write_req, req_frame.
  destruct (write_all_ok (tc_stream c)
    (ReqHead_to_bytes (req_head cid t msg) ++ action_body (get_action t) ++ msg) Hw)
    as (s1 & -> & Hw1 & Hi1 & Hwr1). cbn zeta.
  assert (Hs2 : exists s2, (match get_req_blob t with
      | Some blob_buf => let '(s, r) := write_all (tc_stream (tc_set_stream s1 c)) blob_buf in
                         (tc_set_stream s (tc_set_stream s1 c), r)
      | None => (tc_set_stream s1 c, Ok tt) end) = (tc_set_stream s2 c, Ok tt) /\
      written s2 = written s1 ++ default [] (get_req_blob t) /\ incoming s2 = incoming s1 /\ writable s2).
  { destruct (get_req_blob t) as [b|]; cbn.
    - destruct (write_all_ok s1 b Hwr1) as (s2 & -> & H). by exists s2.
    - exists s1. by rewrite app_nil_r. }
  destruct Hs2 as (s2 & -> & Hw2 & Hi2 & Hwr2).
  assert (Hall : written s2 = written (tc_stream c) ++ ReqHead_to_bytes (req_head cid t msg) ++
    action_body (get_action t) ++ msg ++ default [] (get_req_blob t)).
  { rewrite Hw2, Hw1, <- !app_assoc. done. }
  destruct nf.
  - unfold flush_req. cbn. destruct (flush_ok s2 Hwr2) as (s3 & -> & Hw3 & Hi3 & Hwr3).
    eexists; split; [done|]. cbn. rewrite Hw3, Hi3, Hi2. done.
  - eexists; split; [done|]. cbn. by rewrite Hi2.
Qed.

(** Whatever a client sends, the server receives: the bytes written
    for a task are read back by [read_req] as a request with the task's
    sequence number, action, message and blob, and reading stops exactly at the
    end of what was written. *)
Theorem request_roundtrip {T} `{!ClientTask T} cid (t : T) msg buf0 nf (c : TcpClient S) :
  encodes_to t msg -> req_sendable cid t msg -> writable (tc_stream c) ->
  exists buf blob c' frame, ReqHead_encode buf0 cid t = Ret (buf, Ok blob) /\
    write_req buf blob nf c = (c', Ok tt) /\
    written (tc_stream c') = written (tc_stream c) ++ frame /\
    forall (srv : TcpServer S') rest, incoming (ts_stream srv) = frame ++ rest ->
      exists srv', read_req buffer_alloc false srv = Ret (srv', Ok (svr_view t msg)) /\
        incoming (ts_stream srv') = rest.
Proof using alloc_i32.
  intros He Hs Hw. destruct (send_frame cid t msg buf0 nf c He Hs Hw) as (buf & blob & c' & E & W & Hwr & _).
  exists buf, blob, c', (req_frame cid t msg). repeat split; [done..|].
  intros srv rest Hi.
  destruct (read_req_frame buffer_alloc cid t msg srv rest Hs) as (srv' & Er & Hc & _); [|done|].
  { intros Hp. apply alloc_i32. split; [done|]. apply Hs. }
  by exists srv'.
Qed.

(** A client reads the frame of an outcome. *)
Lemma read_outcome {T} `{!ClientTask T} (error_handle : T -> event T) seq o t
    (c : TcpClient S) timer timer' rest :
  (forall (t t' : T) n m, 0 < n -> reserve_resp_blob t n = (t', Some m) -> m = n) ->
  is_u64 seq -> outcome_fits o ->
  incoming (tc_stream c) = outcome_frame seq o ++ rest ->
  take_task seq timer = (timer', Ready (Some t)) ->
  exists c', read_resp_all buffer_alloc error_handle c timer =
      Ret (c', timer', [outcome_event error_handle o t], RDone (Ok true)) /\
    incoming (tc_stream c') = rest.
Proof using alloc_i32.
  intros Hr Hs Hf Hi Ht. destruct (outcome_head_sane seq o Hs Hf) as [Hsane Hlen].
  rewrite outcome_frame_split, <- app_assoc in Hi.
  pose proof (read_resp_frame buffer_alloc error_handle Hr alloc_i32 (outcome_head seq o) c timer
    (outcome_body o) rest Hsane Hi Hlen) as H.
  assert (Hseq : rs_seq (outcome_head seq o) = seq) by (by destruct o as [[msg blob]|[]]).
  rewrite Hseq, Ht in H. cbn in H. by rewrite resp_event_outcome in H.
Qed.

(** Whatever the server answers, the task receives: for a response
    task with outcome [o] the bytes written by [write_resp], read by a client
    whose task [t] waits under that number, give that task one event: its
    message and blob decoded for a success, and the error as the wire
    classifies it for a failure. *)
Theorem response_roundtrip {R} `{!ServerTaskEncode R} (r : R) seq o (srv : TcpServer S') :
  resp_outcome r seq o -> is_u64 seq -> outcome_fits o -> writable (ts_stream srv) ->
  exists srv' frame, write_resp r srv = Ret (srv', Ok tt) /\
    written (ts_stream srv') = written (ts_stream srv) ++ frame /\
    forall T (H : ClientTask T) (error_handle : T -> event T) t (c : TcpClient S) timer timer' rest,
      (forall (t t' : T) n m, 0 < n -> reserve_resp_blob t n = (t', Some m) -> m = n) ->
      incoming (tc_stream c) = frame ++ rest ->
      take_task seq timer = (timer', Ready (Some t)) ->
      exists c', read_resp_all buffer_alloc error_handle c timer =
          Ret (c', timer', [outcome_event error_handle o t], RDone (Ok true)) /\
        incoming (tc_stream c') = rest.
Proof using alloc_i32.
  intros Hr Hs Hf Hw.
  destruct (write_resp_frame r seq o srv Hr (outcome_fits_sendable o Hf) Hw) as (srv' & E & _ & Hwr & _).
  exists srv', (outcome_frame seq o). repeat split; [done..|].
  intros T HT eh t c timer timer' rest Hres Hi Ht. by apply (read_outcome eh seq o t c timer timer' rest).
Qed.

End roundtrip.

(** ** A whole call of the API layer *)
Section call.
Context {S S' : Type} `{!AsyncStream S} `{!AsyncStreamOk S} `{!AsyncStream S'} `{!AsyncStreamOk S'}.
Context (buffer_alloc : Z -> bool).
Context (alloc_i32 : forall n, 0 < n <= I32_MAX -> buffer_alloc n = true).
Context {Rq Rp E : Type} `{!Codec Rq} `{!CodecOk Rq} `{!Codec Rp} `{!CodecOk Rp} `{!RpcErrCodec E}.

(** A result that can travel: a value that encodes to a message, not empty,
    within the limits; any internal error; a user error whose encoding the wire
    keeps apart from the internal ones. *)
Definition result_sendable (r : result Rp (RpcError E)) : Prop :=
  match r with
  | Ok v => exists b, codec_encode v = Ok b /\ b <> [] /\ zlen b <= I32_MAX
  | Err (Rpc _) => True
  | Err (User e) => err_transportable e /\ err_sendable (err_encode e)
  end.

(** The outcome of the response for a method's result. *)
Definition result_outcome (r : result Rp (RpcError E)) : result (bytes * option bytes) EncodedErr :=
  match r with
  | Ok v => match codec_encode v with Ok b => Ok (b, None) | Err _ => Err (ERpc Encode) end
  | Err (Rpc e) => Err (ERpc e)
  | Err (User e) => Err (err_encode e)
  end.

Lemma result_outcome_fits r : result_sendable r -> outcome_fits (result_outcome r).
Proof.
  destruct r as [v|[e|e]]; cbn.
  - intros (b & -> & _ & Hl). cbn. pose proof (zlen_nonneg b). lia.
  - tauto.
  - intros _. pose proof (RpcIntErr_as_bytes_len e). unfold I32_MAX. lia.
Qed.

(** The response a handler sends for a request that decodes. *)
Lemma handler_decoded (f : Rq -> result Rp (RpcError E)) req arg b :
  aq_req req = Some b -> ApiSReq_decode b = Ok arg ->
  exists resp, service_handler f req = Ret resp /\ resp_outcome resp (aq_seq req) (result_outcome (f arg)).
Proof.
  intros Hb Hd. unfold service_handler. rewrite Hb, Hd.
  destruct (f arg) as [v|e]; cbn.
  - unfold ApiSReq_set_result. destruct (codec_encode v) as [bv|[]]; eexists; (split; [done|]).
    + apply (ApiSResp_outcome (ApiSResp (aq_seq req) (Some bv) (Some (Ok tt))) (Ok tt)). done.
    + apply (ApiSResp_outcome (ApiSResp (aq_seq req) None (Some (Err (ERpc Encode)))) (Err (ERpc Encode))). done.
  - eexists; split; [done|]. unfold ApiSReq_set_error.
    destruct e as [e|e];
      match goal with |- resp_outcome (ApiSResp ?s ?m (Some (Err ?x))) _ _ =>
        apply (ApiSResp_outcome (ApiSResp s m (Some (Err x))) (Err x)); done end.
Qed.

Lemma handler_outcome (f : Rq -> result Rp (RpcError E)) req arg b :
  codec_encode arg = Ok b -> aq_req req = Some b ->
  exists resp, service_handler f req = Ret resp /\ resp_outcome resp (aq_seq req) (result_outcome (f arg)).
Proof. intros He Hb. apply (handler_decoded f req arg b Hb). unfold ApiSReq_decode. by rewrite (codec_decode_encode _ _ He). Qed.

(** What the caller's task makes of the outcome. *)
Lemma process_outcome (r : result Rp (RpcError E)) (t : APIClientReq) :
  result_sendable r ->
  exists t', outcome_event error_handle_default (result_outcome r) t = EvDone t' /\
    forall dflt, exists t'', process_res dflt t' = Ret (t'', r).
Proof.
  destruct r as [v|[e|e]]; cbn.
  - intros (b & He & Hne & _). rewrite He. unfold outcome_event, finish_event. cbn [blob_size Z.ltb Z.compare].
    rewrite bool_decide_eq_false_2 by done. cbn. unfold api_decode_resp.
    rewrite bool_decide_eq_false_2 by done. cbn. eexists; split; [done|].
    intros dflt. eexists. unfold process_res. cbn. rewrite (codec_decode_encode _ _ He). done.
  - unfold err_transportable, outcome_event, error_handle_default. intros [Ht _].
    destruct (wire_err (err_encode e)) as [x|n|s|b]; try done; cbn [deliver_err];
      (eexists; split; [done|]); intros dflt; eexists; unfold process_res; cbn.
    + destruct Ht as [_ ->]. done.
    + rewrite Ht. done.
  - intros _. rewrite classify_int. eexists; split; [done|]. intros dflt. eexists. unfold process_res. done.
Qed.

(** C2. A remote call returns what the method returns. The client encodes
    the argument, sends it over the wire, the server decodes it, routes it to
    the method, encodes and writes back the result, and [process_res] gives the
    caller exactly the method's result: its value, its own error, or the
    internal error it raised; both connections stay in step. *)
Theorem call_roundtrip (f : Rq -> result Rp (RpcError E)) arg b svc m fields arms cid seq
    (c : TcpClient S) :
  codec_encode arg = Ok b -> zlen b <= U32_MAX -> is_u64 cid -> is_u64 seq ->
  action_sendable (AStr (service_method svc m)) -> Byte.x2e ∉ svc ->
  match_arms fields svc = Some (service_serve arms) -> match_arms arms m = Some (service_handler f) ->
  result_sendable (f arg) -> writable (tc_stream c) ->
  exists t0, APIClientReq_new (service_method svc m) arg = Ret t0 /\
  let t := set_seq (api_set_noti t0) seq in
  exists buf blob c1 reqf, ReqHead_encode [] cid t = Ret (buf, Ok blob) /\
    write_req buf blob true c = (c1, Ok tt) /\
    written (tc_stream c1) = written (tc_stream c) ++ reqf /\
  forall (srv : TcpServer S') rest, incoming (ts_stream srv) = reqf ++ rest -> writable (ts_stream srv) ->
  exists srv1 q resp srv2 respf, read_req buffer_alloc false srv = Ret (srv1, Ok q) /\
    api_dispatch_req (inline_dispatch (mux_struct_serve fields)) q = Ret ([resp], Ok tt) /\
    write_resp resp srv1 = Ret (srv2, Ok tt) /\ incoming (ts_stream srv2) = rest /\
    written (ts_stream srv2) = written (ts_stream srv) ++ respf /\
  forall (c2 : TcpClient S) timer timer' rest', incoming (tc_stream c2) = respf ++ rest' ->
    take_task seq timer = (timer', Ready (Some t)) ->
  exists c3 t1, read_resp_all buffer_alloc error_handle_default c2 timer =
      Ret (c3, timer', [EvDone t1], RDone (Ok true)) /\
    incoming (tc_stream c3) = rest' /\
    forall dflt, exists t2, process_res dflt t1 = Ret (t2, f arg).
Proof using CodecOk0 CodecOk1 alloc_i32.
  intros He Hb Hcid Hseq Hact Hdot Hf Ha Hres Hw.
  unfold APIClientReq_new. rewrite He. eexists; split; [done|]. cbn zeta.
  set (t := set_seq _ seq).
  assert (Henc : encodes_to t b) by (by apply api_encodes_to).
  assert (Hsend : req_sendable cid t b) by (repeat split; done || apply Hcid || apply Hseq || apply Hact).
  destruct (send_frame cid t b [] true c Henc Hsend Hw) as (buf & blob & c1 & E1 & W1 & Hw1 & _).
  exists buf, blob, c1, (req_frame cid t b). repeat split; [done..|].
  intros srv rest Hi Hws.
  destruct (read_req_frame buffer_alloc cid t b srv rest Hsend) as (srv1 & E2 & Hi1 & Hw1' & Hwr1);
    [done|done|].
  assert (Hdisp := dispatch_split (svr_view t b) svc m eq_refl Hdot (mux_struct_serve fields)).
  destruct (handler_outcome f (ApiSReq seq svc m (Some b)) arg b He eq_refl) as (resp & Eh & Ho).
  assert (Hfit := result_outcome_fits _ Hres).
  destruct (write_resp_frame resp seq _ srv1 Ho (outcome_fits_sendable _ Hfit) (Hwr1 Hws))
    as (srv2 & E3 & Hi2 & Hw2 & _).
  exists srv1, (svr_view t b), resp, srv2, (outcome_frame seq (result_outcome (f arg))).
  split; [done|]. split.
  { rewrite Hdisp. unfold inline_dispatch, mux_struct_serve. cbn [aq_service]. rewrite Hf.
    unfold service_serve. cbn [aq_method]. rewrite Ha.
    change (ApiSReq (sq_seq (svr_view t b)) svc m (Some (sq_msg (svr_view t b))))
      with (ApiSReq seq svc m (Some b)). by rewrite Eh. }
  split; [done|]. split; [congruence|]. split; [by rewrite Hw2, Hw1'|].
  intros c2 timer timer' rest' Hi' Ht.
  destruct (read_outcome buffer_alloc alloc_i32 error_handle_default seq _ t c2 timer timer' rest'
    api_no_blob Hseq Hfit Hi' Ht) as (c3 & E4 & Hi3).
  destruct (process_outcome (f arg) t Hres) as (t1 & Ev & Hp).
  exists c3, t1. by rewrite E4, Ev.
Qed.

End call.

(** ** Concrete instances *)

Module EndToEndWitness.

Definition out : TcpClient mem_stream := TcpC (MemStream [] [] true) [].
Definition srv (i : bytes) : TcpServer mem_stream := TcpS (MemStream i [] true) [] [] [].
Definition always (_ : Z) : bool := true.
Definition hello : bytes := str_bytes "hello"%string.
Definition live7 : ClientTaskTimer APIClientReq := Timer [] 8 0 [(7, sample_task 7)] [] 0 3 7 false.

Lemma sample_sendable : req_sendable 1 (sample_task 7) (str_bytes "ping"%string).
Proof. repeat split; vm_compute; congruence. Qed.

Lemma request_roundtrip_witness :
  exists frame, forall rest, exists srv',
    read_req always false (srv (frame ++ rest)) =
      Ret (srv', Ok (SvrReq 7 (AStr (str_bytes "Echo.repeat"%string)) (str_bytes "ping"%string) None)) /\
    ms_in (ts_stream srv') = rest.
Proof.
  destruct (request_roundtrip (S' := mem_stream) always ltac:(reflexivity) 1 (sample_task 7)
    (str_bytes "ping"%string) [] true out) as (buf & blob & c' & frame & _ & _ & _ & Hr).
  - exact (api_encodes_to (sample_task 7) _ eq_refl).
  - exact sample_sendable.
  - reflexivity.
  - exists frame. intros rest. exact (Hr (srv (frame ++ rest)) rest eq_refl).
Defined.

Definition reply : APIServerResp := ApiSResp 7 None (Some (Err (EBuf hello))).

Lemma response_roundtrip_witness :
  exists srv' frame, write_resp reply (srv []) = Ret (srv', Ok tt) /\
    forall rest, exists c',
      read_resp_all always error_handle_default (TcpC (MemStream (frame ++ rest) [] true) []) live7 =
        Ret (c', (take_task 7 live7).1,
             [EvDone (api_set_custom_error (sample_task 7) (EBuf hello) 0 0)], RDone (Ok true)).
Proof.
  destruct (response_roundtrip (S := mem_stream) always ltac:(reflexivity) reply 7 (Err (EBuf hello)) (srv []))
    as (srv' & frame & E & _ & Hr).
  - exact (ApiSResp_outcome reply (Err (EBuf hello)) eq_refl).
  - split; vm_compute; congruence.
  - vm_compute. congruence.
  - reflexivity.
  - exists srv', frame. split; [exact E|]. intros rest.
    destruct (Hr APIClientReq _ error_handle_default (sample_task 7)
      (TcpC (MemStream (frame ++ rest) [] true) []) live7 (take_task 7 live7).1 rest
      api_no_blob eq_refl ltac:(vm_compute; reflexivity)) as (c' & Ec & _).
    exists c'. exact Ec.
Defined.

Definition svc : bytes := str_bytes "Echo"%string.
Definition meth : bytes := str_bytes "repeat"%string.
(** A method that refuses the empty string with the error code 3. *)
Definition echo (b : bytes) : result bytes (RpcError (rint U8)) :=
  if bool_decide (b = []) then Err (User (RInt 3)) else Ok b.
Definition arms : list (bytes * handler) :=
  [(meth, @service_handler _ _ _ raw_codec raw_codec _ echo)].
Definition fields : list (bytes * handler) := [(svc, service_serve arms)].

Lemma call_roundtrip_witness :
  exists t0, @APIClientReq_new _ raw_codec (service_method svc meth) hello = Ret t0 /\
  exists buf blob c1, ReqHead_encode [] 1 (set_seq (api_set_noti t0) 7) = Ret (buf, Ok blob) /\
    write_req buf blob true out = (c1, Ok tt).
Proof.
  destruct (call_roundtrip (Codec0 := raw_codec) (Codec1 := raw_codec) (S' := mem_stream) always ltac:(reflexivity) echo hello hello
    svc meth fields arms 1 7 out) as (t0 & E & buf & blob & c1 & reqf & E1 & E2 & _).
  - reflexivity.
  - vm_compute. congruence.
  - split; vm_compute; congruence.
  - split; vm_compute; congruence.
  - split; vm_compute; congruence.
  - vm_compute. intros H. repeat (apply elem_of_cons in H as [H|H]; [discriminate|]).
    by apply elem_of_nil in H.
  - reflexivity.
  - reflexivity.
  - exists hello. split; [reflexivity|]. split; [discriminate|]. vm_compute. congruence.
  - reflexivity.
  - exists t0. split; [exact E|]. exists buf, blob, c1. split; [exact E1|exact E2].
Defined.

End EndToEndWitness.
