(* ===== verification/Server.v ===== *)
(** * The coroutines of a server connection (stream/src/server/server.rs)

    [RpcServer::server_conn] gives every accepted connection a reader and a
    writer, joined by the response channel whose senders ([RespNoti]) are the
    reader and the tasks being worked on. A state holds the connection, the
    channel and both program counters; a step is one turn of a loop. The
    dispatcher is a parameter: what it sends before it returns, what its
    workers send later in any order, and its result. *)
From Stdlib Require Import ZArith Lia Strings.String.
From stdpp Require Import base list sets.
From S2P Require Import Prelude Errors Task ApiClient Proto Net ServerTask TcpServer ApiServer.
Local Open Scope Z_scope.
Local Open Scope rpc_scope.

(** What [dispatch_req] does with a request. *)
Record dispatched (R : Type) : Type := Dispatched {
  dp_now : list R;              (** responses sent before it returns *)
  dp_later : list R;            (** responses of the workers it started *)
  dp_res : result unit unit;
}.
Arguments Dispatched {R}.
Arguments dp_now {R}.
Arguments dp_later {R}.
Arguments dp_res {R}.

(** Where the writer is in [Writer::run]. *)
Inductive writer_pc : Type :=
| WRecv                          (** in [recv] *)
| WDrain                         (** in the loop over [try_recv] *)
| WExit (r : result unit unit).

Record ServerConn (S R : Type) : Type := SConn {
  sc_conn : TcpServer S;
  sc_queue : list (noti_msg R);  (** the response channel *)
  sc_jobs : list R;              (** worked on, each with a sender of the channel *)
  sc_reading : bool;             (** the reader is there *)
  sc_writer : writer_pc;
}.
Arguments SConn {S R}.
Arguments sc_conn {S R}.
Arguments sc_queue {S R}.
Arguments sc_jobs {S R}.
Arguments sc_reading {S R}.
Arguments sc_writer {S R}.

Section server.
Context {S : Type} `{!AsyncStream S} {R : Type} `{!ServerTaskEncode R}.
Context (buffer_alloc : Z -> bool).
Context (dispatch : RpcSvrReq -> may (dispatched R)).
Implicit Types st : ServerConn S R.

(** [server_conn]: both coroutines start on a fresh connection. *)
Definition server_conn (stream : S) : ServerConn S R := SConn (new_conn stream) [] [] true WRecv.

Definition upd_srv_conn (c : TcpServer S) st : ServerConn S R :=
  SConn c (sc_queue st) (sc_jobs st) (sc_reading st) (sc_writer st).
Definition upd_queue (q : list (noti_msg R)) st : ServerConn S R :=
  SConn (sc_conn st) q (sc_jobs st) (sc_reading st) (sc_writer st).
Definition upd_jobs (js : list R) st : ServerConn S R :=
  SConn (sc_conn st) (sc_queue st) js (sc_reading st) (sc_writer st).
Definition stop_reading st : ServerConn S R :=
  SConn (sc_conn st) (sc_queue st) (sc_jobs st) false (sc_writer st).
Definition upd_writer (p : writer_pc) st : ServerConn S R :=
  SConn (sc_conn st) (sc_queue st) (sc_jobs st) (sc_reading st) p.

(** The writer owns the receiving end of the channel. *)
Definition writer_open st : bool := match sc_writer st with WExit _ => false | _ => true end.
(** Senders of the channel that are left. *)
Definition has_senders st : bool := sc_reading st || negb (bool_decide (sc_jobs st = [])).

(** ** The reader *)

Definition send_quick_resp (seq : Z) (err : option RpcIntErr) st : ServerConn S R :=
  let '(q, r) := noti_send_err (writer_open st) seq err (sc_queue st) in
  match r with
  | Err _ => stop_reading (upd_queue q st)
  | Ok _ => upd_queue q st
  end.

(** The responses a dispatcher sends while it runs. *)
Definition send_now (rs : list R) st : ServerConn S R :=
  upd_queue (foldl (fun q r => noti_done (writer_open st) r q) (sc_queue st) rs) st.

Definition is_ping (req : RpcSvrReq) : bool :=
  match sq_action req with ANum n => (n =? 0) && bool_decide (sq_msg req = []) | AStr _ => false end.

(** One turn of [Reader::run], with the request it read. *)
Definition reader_step (cancelled : bool) st : may (ServerConn S R * option RpcSvrReq) :=
  let? (c, r) := read_req buffer_alloc cancelled (sc_conn st) in
  let st := upd_srv_conn c st in
  match r with
  | Err _ => Ret (stop_reading st, None)
  | Ok req =>
    if is_ping req then Ret (send_quick_resp (sq_seq req) None st, Some req)
    else
      let? d := dispatch req in
      let st := send_now (dp_now d) st in
      let st := upd_jobs (sc_jobs st ++ dp_later d) st in
      match dp_res d with
      | Err _ => Ret (send_quick_resp (sq_seq req) (Some Decode) st, Some req)
      | Ok _ => Ret (st, Some req)
      end
  end.

(** A worker is done with the task at place [i]. *)
Definition job_step (i : nat) st : option (ServerConn S R) :=
  match sc_jobs st !! i with
  | Some r =>
    Some (upd_jobs (delete i (sc_jobs st))
            (upd_queue (noti_done (writer_open st) r (sc_queue st)) st))
  | None => None
  end.

(** ** The writer *)

(** [process!]. *)
Definition process (msg : noti_msg R) (c : TcpServer S) : may (TcpServer S * result unit unit) :=
  match msg with
  | Ok task => write_resp task c
  | Err (seq, err) => write_resp_internal seq err c
  end.

(** [process!(task)] for the message taken from the channel. *)
Definition writer_process (msg : noti_msg R) (q : list (noti_msg R)) st
    : may (ServerConn S R * option (noti_msg R)) :=
  let? (c, r) := process msg (sc_conn st) in
  let st := upd_srv_conn c (upd_queue q st) in
  match r with
  | Err e => Ret (upd_writer (WExit (Err e)) st, None)
  | Ok _ => Ret (upd_writer WDrain st, Some msg)
  end.

(** One turn of [Writer::run], with the message it wrote. *)
Definition writer_step st : may (poll (ServerConn S R * option (noti_msg R))) :=
  match sc_writer st with
  | WExit _ => Ret Pending
  | WRecv =>
    match sc_queue st with
    | msg :: q => let? r := writer_process msg q st in Ret (Ready r)
    | [] =>
      if has_senders st then Ret Pending
      else Ret (Ready (upd_writer (WExit (Ok tt)) (upd_srv_conn (svr_close_conn (sc_conn st)) st), None))
    end
  | WDrain =>
    match sc_queue st with
    | msg :: q => let? r := writer_process msg q st in Ret (Ready r)
    | [] =>
      match flush_resp (sc_conn st) with
      | (c, Err e) => Ret (Ready (upd_writer (WExit (Err e)) (upd_srv_conn c st), None))
      | (c, Ok _) => Ret (Ready (upd_writer WRecv (upd_srv_conn c st), None))
      end
    end
  end.

(** ** Interleavings: the requests read and the messages written by a step *)

Inductive server_step : ServerConn S R -> ServerConn S R -> list RpcSvrReq -> list (noti_msg R) -> Prop :=
| sv_read st cancelled st' o :
    sc_reading st = true -> reader_step cancelled st = Ret (st', o) ->
    server_step st st' (option_list o) []
| sv_job st i st' : job_step i st = Some st' -> server_step st st' [] []
| sv_write st st' o :
    writer_step st = Ret (Ready (st', o)) -> server_step st st' [] (option_list o).

Inductive server_run (st0 : ServerConn S R)
    : ServerConn S R -> list RpcSvrReq -> list (noti_msg R) -> Prop :=
| sr_nil : server_run st0 st0 [] []
| sr_snoc st st' reqs outs reqs' outs' :
    server_run st0 st reqs outs -> server_step st st' reqs' outs' ->
    server_run st0 st' (reqs ++ reqs') (outs ++ outs').

(** ** Closing the server: [close] after the listeners are gone *)

(** The loop that waits for the connections: [alive k] connections are left and
    [elapsed k] seconds have gone by after [k] sleeps; [n] is the fuel. *)
Fixpoint close_wait (alive elapsed : nat -> Z) (server_close_wait : Z) (k n : nat) : option Z :=
  match n with
  | O => None
  | Datatypes.S n' =>
    if 0 <? alive k then
      if server_close_wait <? elapsed (Datatypes.S k) then Some (alive (Datatypes.S k))
      else close_wait alive elapsed server_close_wait (Datatypes.S k) n'
    else Some (alive k)
  end.

End server.

(** ** Every request is answered *)
Section answers.
Context {S : Type} `{!AsyncStream S} {R : Type} `{!ServerTaskEncode R}.
Context (buffer_alloc : Z -> bool) (dispatch : RpcSvrReq -> may (dispatched R)).
Implicit Types st : ServerConn S R.
Abbreviation step := (server_step buffer_alloc dispatch).
Abbreviation run := (server_run buffer_alloc dispatch).

(** The messages a request gives rise to. *)
Definition answers (req : RpcSvrReq) : list (noti_msg R) :=
  if is_ping req then [Err (sq_seq req, None)]
  else
    match dispatch req with
    | Ret d => map Ok (dp_now d ++ dp_later d) ++
        match dp_res d with Err _ => [Err (sq_seq req, Some Decode)] | Ok _ => [] end
    | Panic => []
    end.

(** Messages on their way to the writer. *)
Definition outstanding st : list (noti_msg R) := sc_queue st ++ map Ok (sc_jobs st).

(** The writer gave up on an IO error. *)
Definition writer_failed st : bool := match sc_writer st with WExit (Err _) => true | _ => false end.
(** The writer closed the connection. *)
Definition writer_closed st : bool := match sc_writer st with WExit (Ok _) => true | _ => false end.

(** A writer that closed the connection had nothing left to wait for. *)
Definition close_inv st : Prop :=
  writer_closed st = true -> sc_reading st = false /\ outstanding st = [].

Lemma writer_open_cases st : writer_open st = negb (writer_failed st || writer_closed st).
Proof. unfold writer_open, writer_failed, writer_closed. by destruct (sc_writer st) as [| |[]]. Qed.

Lemma send_now_eq rs st :
  send_now rs st = if writer_open st then upd_queue (sc_queue st ++ map Ok rs) st else st.
Proof.
  unfold send_now. destruct (writer_open st); [f_equal|].
  - generalize (sc_queue st). induction rs as [|r rs IH]; intros q; cbn; [by rewrite app_nil_r|].
    rewrite IH. unfold noti_done. by rewrite <- app_assoc.
  - replace (foldl (fun q r => noti_done false r q) (sc_queue st) rs) with (sc_queue st);
      [by destruct st|]. generalize (sc_queue st). induction rs; intros q; cbn; auto.
Qed.

Lemma send_quick_open seq err st :
  writer_open st = true -> send_quick_resp seq err st = upd_queue (sc_queue st ++ [Err (seq, err)]) st.
Proof. intros H. unfold send_quick_resp, noti_send_err. by rewrite H. Qed.

(** Appending to the queue and to the jobs of a connection. *)
Lemma perm_queue_jobs {A} (q j x y z : list A) : ((q ++ x) ++ z) ++ j ++ y ≡ₚ (q ++ j) ++ (x ++ y) ++ z.
Proof.
  rewrite <- !app_assoc. apply Permutation_app_head.
  rewrite (Permutation_app_comm z), !app_assoc, (Permutation_app_comm x j). done.
Qed.

Lemma outstanding_extend st q j x y z :
  sc_queue st = (q ++ map Ok x) ++ z -> sc_jobs st = j ++ y ->
  outstanding st ≡ₚ (q ++ map Ok j) ++ map Ok (x ++ y) ++ z.
Proof. intros Eq Ej. unfold outstanding. rewrite Eq, Ej, !map_app. apply perm_queue_jobs. Qed.

(** The reader hands on exactly the answers of the request it read. *)
Lemma reader_step_answers cancelled st st' o :
  writer_open st = true -> reader_step buffer_alloc dispatch cancelled st = Ret (st', o) ->
  sc_writer st' = sc_writer st /\
  outstanding st' ≡ₚ outstanding st ++ concat (map answers (option_list o)).
Proof.
  intros Ho. unfold reader_step. destruct (read_req buffer_alloc cancelled (sc_conn st)) as [[c r]|];
    cbn [may_bind]; [|done].
  destruct r as [req|e]; [|intros [= <- <-]; cbn; by rewrite app_nil_r].
  assert (Hone : concat (map answers (option_list (Some req))) = answers req)
    by (cbn; by rewrite app_nil_r).
  unfold answers in Hone. cbn zeta. destruct (is_ping req) eqn:Ep.
  { rewrite send_quick_open by done. intros [= <- <-]. split; [done|]. unfold answers; rewrite Hone.
    apply (outstanding_extend _ (sc_queue st) (sc_jobs st) [] [] [_]); cbn; by rewrite !app_nil_r. }
  destruct (dispatch req) as [d|] eqn:Ed; cbn [may_bind]; [|done].
  rewrite send_now_eq. change (writer_open (upd_srv_conn c st)) with (writer_open st). rewrite Ho.
  destruct (dp_res d) as [[]|[]] eqn:Er; [|rewrite send_quick_open by done];
    intros [= <- <-]; (split; [done|]); unfold answers; rewrite Hone;
    apply outstanding_extend; cbn; by rewrite ?app_nil_r.
Qed.

Lemma job_step_keeps i st st' :
  writer_open st = true -> job_step i st = Some st' ->
  sc_writer st' = sc_writer st /\ outstanding st' ≡ₚ outstanding st.
Proof.
  intros Ho. unfold job_step. destruct (sc_jobs st !! i) as [r|] eqn:Ei; [|done].
  intros [= <-]. split; [done|]. unfold outstanding, noti_done. rewrite Ho. cbn.
  rewrite <- app_assoc. apply Permutation_app_head. symmetry.
  apply (Permutation_map Ok (delete_Permutation (sc_jobs st) i r Ei)).
Qed.

Lemma writer_step_keeps st st' o :
  writer_step st = Ret (Ready (st', o)) ->
  writer_failed st' = true \/
  (option_list o ++ outstanding st' = outstanding st /\ sc_reading st' = sc_reading st /\
   (writer_closed st' = true -> sc_reading st' = false /\ outstanding st' = [])).
Proof.
  assert (Hp : forall msg q st st' o, writer_process msg q st = Ret (st', o) ->
    writer_failed st' = true \/ (o = Some msg /\ sc_queue st' = q /\ sc_jobs st' = sc_jobs st /\
      sc_reading st' = sc_reading st /\ writer_closed st' = false)).
  { clear. intros msg q st st' o. unfold writer_process.
    destruct (process msg (sc_conn st)) as [[c [[]|[]]]|]; cbn; intros; simplify_eq; auto 10. }
  assert (Hq : forall msg q, sc_queue st = msg :: q ->
    (let? r := writer_process msg q st in Ret (Ready r)) = Ret (Ready (st', o)) ->
    writer_failed st' = true \/ (option_list o ++ outstanding st' = outstanding st /\
      sc_reading st' = sc_reading st /\
      (writer_closed st' = true -> sc_reading st' = false /\ outstanding st' = []))).
  { intros msg q Eq. destruct (writer_process msg q st) as [[s1 o1]|] eqn:E; cbn [may_bind]; [|done].
    intros [= -> ->]. destruct (Hp _ _ _ _ _ E) as [Hf|(-> & E1 & E2 & E3 & E4)]; [by left|right].
    unfold outstanding. rewrite E1, E2, Eq, E3, E4. done. }
  unfold writer_step. destruct (sc_writer st) as [| |x] eqn:Ew; [| |done];
    (destruct (sc_queue st) as [|msg q] eqn:Eq; [|by apply Hq]).
  - destruct (has_senders st) eqn:Es; [done|]. intros [= <- <-]. right.
    unfold has_senders in Es. apply orb_false_iff in Es as [Er Ej].
    apply negb_false_iff, bool_decide_eq_true in Ej.
    unfold outstanding; cbn. rewrite Eq, Ej. done.
  - destruct (flush_resp (sc_conn st)) as [c [[]|[]]]; intros [= <- <-]; [right|by left].
    unfold outstanding; cbn. rewrite Eq. done.
Qed.

Lemma send_quick_writer seq err st : sc_writer (send_quick_resp seq err st) = sc_writer st.
Proof. unfold send_quick_resp, noti_send_err. by destruct (writer_open st). Qed.

(** Once the writer is gone nothing brings it back. *)
Lemma step_after_exit r st st' reqs outs :
  step st st' reqs outs -> sc_writer st = WExit r -> sc_writer st' = WExit r.
Proof.
  intros [st1 c st1' o _ Hs|st1 i st1' Hs|st1 st1' o Hs] Ew.
  - unfold reader_step in Hs.
    destruct (read_req buffer_alloc c (sc_conn st1)) as [[c1 [req|e]]|]; cbn [may_bind] in Hs;
      [|by simplify_eq|done].
    cbn zeta in Hs. destruct (is_ping req); [simplify_eq; by rewrite send_quick_writer|].
    destruct (dispatch req) as [d|]; cbn [may_bind] in Hs; [|done].
    destruct (dp_res d); simplify_eq; by rewrite ?send_quick_writer.
  - unfold job_step in Hs. by destruct (sc_jobs st1 !! i); simplify_eq.
  - unfold writer_step in Hs. by rewrite Ew in Hs.
Qed.

Lemma failed_not_closed st : writer_failed st = true -> close_inv st.
Proof. unfold writer_failed, close_inv, writer_closed. by destruct (sc_writer st) as [| |[]]. Qed.

Lemma step_failed st st' reqs outs :
  step st st' reqs outs -> writer_failed st = true -> writer_failed st' = true.
Proof.
  unfold writer_failed. intros Hs Hf. destruct (sc_writer st) as [| |r] eqn:Ew; [done..|].
  by rewrite (step_after_exit _ _ _ _ _ Hs Ew).
Qed.

(** A closed connection has come to rest. *)
Lemma step_closed st st' reqs outs :
  close_inv st -> writer_closed st = true -> step st st' reqs outs -> False.
Proof.
  intros Hi Hc Hs. destruct (Hi Hc) as [Hr Ho]. apply app_eq_nil in Ho as [Hq Hj].
  apply map_eq_nil in Hj. destruct Hs as [st c st' o Hr' Hs|st i st' Hs|st st' o Hs].
  - congruence.
  - unfold job_step in Hs. by rewrite Hj in Hs.
  - unfold writer_step, writer_closed in *. by destruct (sc_writer st) as [| |[]].
Qed.

Lemma step_answers st st' reqs outs :
  close_inv st -> step st st' reqs outs ->
  close_inv st' /\ (writer_failed st' = true \/
   outs ++ outstanding st' ≡ₚ outstanding st ++ concat (map answers reqs)).
Proof.
  intros Hi Hs. destruct (writer_failed st) eqn:Hf.
  { pose proof (step_failed _ _ _ _ Hs Hf). split; [by apply failed_not_closed|by left]. }
  destruct (writer_closed st) eqn:Hc; [by destruct (step_closed _ _ _ _ Hi Hc Hs)|].
  assert (Ho : writer_open st = true) by (by rewrite writer_open_cases, Hf, Hc).
  assert (Hsame : forall s1, sc_writer s1 = sc_writer st -> close_inv s1).
  { intros s1 E H1. unfold writer_closed in *. rewrite E in H1. congruence. }
  destruct Hs as [st c st' o Hr Hs|st i st' Hs|st st' o Hs].
  - destruct (reader_step_answers c st st' o Ho Hs) as [Ew Hp]. split; [by apply Hsame|]. by right.
  - destruct (job_step_keeps i st st' Ho Hs) as [Ew Hp].
    split; [by apply Hsame|]. right. cbn. by rewrite app_nil_r.
  - destruct (writer_step_keeps st st' o Hs) as [H|(Hq & Hr & Hcl)].
    + split; [by apply failed_not_closed|by left].
    + split; [done|]. right. cbn. rewrite app_nil_r. by rewrite Hq.
Qed.

Lemma run_answers st0 st reqs outs :
  close_inv st0 -> run st0 st reqs outs ->
  close_inv st /\ (writer_failed st = true \/
   outs ++ outstanding st ≡ₚ outstanding st0 ++ concat (map answers reqs)).
Proof.
  intros Hi. induction 1 as [|st st' reqs outs reqs' outs' _ IH Hs].
  - split; [done|]. right. cbn. by rewrite app_nil_r.
  - destruct IH as [Hc Hp]. destruct (step_answers _ _ _ _ Hc Hs) as (Hc' & Hp').
    split; [done|]. destruct Hp as [H|Hp]; [left; by apply (step_failed _ _ _ _ Hs)|].
    destruct Hp' as [H|Hp']; [by left|right].
    rewrite <- app_assoc, Hp', map_app, concat_app, !app_assoc, Hp. done.
Qed.

Lemma server_conn_inv (s : S) : close_inv (server_conn s).
Proof. done. Qed.

End answers.

(** ** What reaches the wire *)
Section wire.
Context {S : Type} `{!AsyncStream S} `{!AsyncStreamOk S} {R : Type} `{!ServerTaskEncode R}.
Context (buffer_alloc : Z -> bool) (dispatch : RpcSvrReq -> may (dispatched R)).
Implicit Types st : ServerConn S R.

(** [b] is the frame of the message [m], within the size limits. *)
Definition msg_frame (m : noti_msg R) (b : bytes) : Prop :=
  match m with
  | Ok r => exists seq o, resp_outcome r seq o /\ outcome_sendable o /\ b = outcome_frame seq o
  | Err (seq, err) => b = internal_frame seq err
  end.

Lemma process_frame m b (c : TcpServer S) :
  msg_frame m b -> writable (ts_stream c) ->
  exists c', process m c = Ret (c', Ok tt) /\ sent c c' b.
Proof.
  destruct m as [r|[seq err]]; cbn [msg_frame process].
  - intros (seq & o & Hr & Ho & ->) Hw. by apply write_resp_frame.
  - intros -> Hw. by apply write_resp_internal_frame.
Qed.

Definition stream_of st : S := ts_stream (sc_conn st).

(** The writer on its own, until it waits, exits or the fuel is used up. *)
Fixpoint writer_run (n : nat) st : may (ServerConn S R) :=
  match n with
  | O => Ret st
  | Datatypes.S n' =>
    let? r := writer_step st in
    match r with
    | Pending => Ret st
    | Ready (st', _) => writer_run n' st'
    end
  end.

Definition writer_running st : Prop := sc_writer st = WRecv \/ sc_writer st = WDrain.

Lemma writer_step_msg st m b q :
  writer_running st -> sc_queue st = m :: q -> msg_frame m b -> writable (stream_of st) ->
  exists st', writer_step st = Ret (Ready (st', Some m)) /\ sc_writer st' = WDrain /\
    sc_queue st' = q /\ sc_jobs st' = sc_jobs st /\ sc_reading st' = sc_reading st /\
    written (stream_of st') = written (stream_of st) ++ b /\ writable (stream_of st').
Proof.
  intros Hr Hq Hm Hw. destruct (process_frame m b (sc_conn st) Hm Hw) as (c & E & _ & Hwr & Hw').
  exists (upd_writer WDrain (upd_srv_conn c (upd_queue q st))).
  unfold writer_step, writer_process. rewrite Hq, E. cbn [may_bind].
  by destruct Hr as [-> | ->].
Qed.

Lemma writer_run_close n st :
  writer_running st -> sc_queue st = [] -> has_senders st = false -> writable (stream_of st) ->
  exists st', writer_run (2 + n) st = Ret st' /\ sc_writer st' = WExit (Ok tt) /\
    written (stream_of st') = written (stream_of st).
Proof.
  intros Hr Hq Hs Hw.
  assert (Hrecv : forall n st, sc_writer st = WRecv -> sc_queue st = [] -> has_senders st = false ->
    writable (stream_of st) -> exists st', writer_run (1 + n) st = Ret st' /\
      sc_writer st' = WExit (Ok tt) /\ written (stream_of st') = written (stream_of st)).
  { clear. intros n st Ew Eq Es Hw. cbn [Nat.add writer_run]. unfold writer_step.
    rewrite Ew, Eq, Es. cbn [may_bind].
    exists (upd_writer (WExit (Ok tt)) (upd_srv_conn (svr_close_conn (sc_conn st)) st)).
    split; [by destruct n|]. split; [done|]. unfold stream_of, svr_close_conn, flush_resp; cbn.
    destruct (flush_ok (ts_stream (sc_conn st)) Hw) as (s & -> & Hwr & _). cbn.
    by rewrite shutdown_written. }
  destruct Hr as [Ew|Ew]; [by apply (Hrecv (1 + n)%nat)|].
  change (writer_run (2 + n) st) with
    (let? r := writer_step st in
     match r with Pending => Ret st | Ready (st', _) => writer_run (1 + n) st' end).
  unfold writer_step. rewrite Ew, Hq. unfold flush_resp.
  destruct (flush_ok (ts_stream (sc_conn st)) Hw) as (s & -> & Hwr & _ & Hw'). cbn [may_bind].
  destruct (Hrecv n (upd_writer WRecv (upd_srv_conn (ts_set_stream s (sc_conn st)) st)))
    as (st' & E & Ew' & Hw2); [done..|].
  exists st'. split; [done|]. split; [done|]. rewrite Hw2. done.
Qed.

(** The reader, without a cancellation, for [n] turns or until it stops; with
    the requests it read. *)
Fixpoint reader_run (n : nat) st : may (ServerConn S R * list RpcSvrReq) :=
  match n with
  | O => Ret (st, [])
  | Datatypes.S n' =>
    if sc_reading st then
      let? (st', o) := reader_step buffer_alloc dispatch false st in
      let? (st'', reqs) := reader_run n' st' in
      Ret (st'', option_list o ++ reqs)
    else Ret (st, [])
  end.

(** *** The connection along a run *)

(** A read, whatever it gives, leaves the writing half as it was. *)
Definition same_out (c c' : TcpServer S) : Prop :=
  written (ts_stream c') = written (ts_stream c) /\ (writable (ts_stream c) -> writable (ts_stream c')).

Lemma same_out_trans c1 c2 c3 : same_out c1 c2 -> same_out c2 c3 -> same_out c1 c3.
Proof. intros [H1 H2] [H3 H4]. split; [congruence|auto]. Qed.

Lemma same_out_read c n s r :
  0 <= n -> read_exact (ts_stream c) n = (s, r) -> same_out c (ts_set_stream s c).
Proof. intros Hn E. apply (read_exact_frame _ _ _ _ Hn E). Qed.

Lemma read_action_out h c c' r : read_action h c = (c', r) -> same_out c c'.
Proof.
  unfold read_action. destruct (ReqHead_get_action h) as [n|n]; [by intros [= <- <-]|]. cbn zeta.
  match goal with |- context [read_exact ?s ?l] => destruct (read_exact s l) as [s1 [b|e]] eqn:E end;
    apply (read_exact_frame _ _ _ _ (zlen_nonneg _)) in E; [|by intros [= <- <-]].
  by destruct (from_utf8 b); intros [= <- <-].
Qed.

Lemma read_msg_out h c c' r : read_msg h c = (c', r) -> same_out c c'.
Proof.
  unfold read_msg. cbn zeta. destruct (0 <? rq_msg_len h); [|by intros [= <- <-]].
  match goal with |- context [read_exact ?s ?l] => destruct (read_exact s l) as [s1 [b|e]] eqn:E end;
    apply (read_exact_frame _ _ _ _ (zlen_nonneg _)) in E; by intros [= <- <-].
Qed.

Lemma read_blob_out h c c' r : read_blob buffer_alloc h c = (c', r) -> same_out c c'.
Proof.
  unfold read_blob. destruct (Z.ltb_spec 0 (as_i32 (rq_blob_len h))); [|by intros [= <- <-]].
  destruct (buffer_alloc _); [|by intros [= <- <-]].
  match goal with |- context [read_exact ?s ?l] => destruct (read_exact s l) as [s1 [b|e]] eqn:E end;
    apply read_exact_frame in E; try lia; by intros [= <- <-].
Qed.

Lemma read_req_out cancelled c c' r : read_req buffer_alloc cancelled c = Ret (c', r) -> same_out c c'.
Proof.
  unfold read_req. destruct cancelled; [by intros [= <- <-]|].
  destruct (read_exact (ts_stream c) RPC_REQ_HEADER_LEN) as [s1 [b|e]] eqn:E;
    apply read_exact_frame in E; try done; [|by intros [= <- <-]].
  destruct (ReqHead_decode_head b) as [[h|x]|]; cbn [may_bind]; [|by intros [= <- <-]|done].
  change (same_out c (ts_set_stream s1 c)) in E.
  destruct (read_action h _) as [c2 [x|x]] eqn:Ea; apply read_action_out in Ea;
    pose proof (same_out_trans _ _ _ E Ea) as E2; [|by intros [= <- <-]].
  destruct (read_msg h c2) as [c3 [y|y]] eqn:Em; apply read_msg_out in Em;
    pose proof (same_out_trans _ _ _ E2 Em) as E3; [|by intros [= <- <-]].
  destruct (read_blob buffer_alloc h c3) as [c4 [z|z]] eqn:Eb; apply read_blob_out in Eb;
    pose proof (same_out_trans _ _ _ E3 Eb) as E4; by intros [= <- <-].
Qed.

Lemma send_quick_conn seq err st : sc_conn (send_quick_resp seq err st) = sc_conn st.
Proof. unfold send_quick_resp, noti_send_err. by destruct (writer_open st). Qed.

Lemma reader_step_out cancelled st st' o :
  reader_step buffer_alloc dispatch cancelled st = Ret (st', o) -> same_out (sc_conn st) (sc_conn st').
Proof.
  unfold reader_step. destruct (read_req buffer_alloc cancelled (sc_conn st)) as [[c r]|] eqn:E;
    cbn [may_bind]; [|done]. apply read_req_out in E.
  destruct r as [req|e]; [|by intros [= <- <-]]. cbn zeta.
  destruct (is_ping req); [intros [= <- <-]; by rewrite send_quick_conn|].
  destruct (dispatch req) as [d|]; cbn [may_bind]; [|done].
  destruct (dp_res d); intros [= <- <-]; by rewrite ?send_quick_conn.
Qed.

(** What holds of the wire during a run: [outs] written as [frames], and the
    rest of the messages can be. *)
Record wire_inv (s0 : S) st (outs : list (noti_msg R)) : Prop := WireInv {
  wi_ok : writer_failed st = false;
  wi_out : exists frames, Forall2 msg_frame outs frames /\
    written (stream_of st) = written s0 ++ concat frames;
  wi_live : writer_closed st = false -> writable (stream_of st);
  wi_todo : Forall (fun m => exists b, msg_frame m b) (outstanding st);
}.

Context (frameable : forall req, Forall (fun m => exists b, msg_frame m b) (answers dispatch req)).

Lemma wire_step_write s0 st st' o outs :
  wire_inv s0 st outs -> writer_step st = Ret (Ready (st', o)) -> wire_inv s0 st' (outs ++ option_list o).
Proof.
  intros [Hok [fs [Hf Hwr]] Hl Ht] Hs.
  assert (Hrun : writer_running st).
  { unfold writer_running, writer_step in *. destruct (sc_writer st); auto. done. }
  assert (Hw : writable (stream_of st)).
  { apply Hl. unfold writer_closed. by destruct Hrun as [-> | ->]. }
  destruct (sc_queue st) as [|m q] eqn:Eq.
  - assert (Ho : o = None /\ outstanding st' = outstanding st /\
      written (stream_of st') = written (stream_of st) /\ writer_failed st' = false /\
      (writer_closed st' = false -> writable (stream_of st'))).
    { unfold writer_step, flush_resp in Hs. rewrite Eq in Hs. unfold stream_of in *.
      destruct (flush_ok _ Hw) as (s1 & E1 & Hw1 & _ & Hx).
      destruct Hrun as [Ew|Ew]; rewrite Ew in Hs.
      - destruct (has_senders st); [done|]. injection Hs as <- <-.
        unfold outstanding, svr_close_conn, flush_resp; cbn. rewrite E1; cbn.
        by rewrite shutdown_written.
      - rewrite E1 in Hs. injection Hs as <- <-. done. }
    destruct Ho as (-> & Eo & Ew & Hf' & Hl'). rewrite app_nil_r.
    split; [done|exists fs; by rewrite Ew|done|by rewrite Eo].
  - assert (Hm : exists b, msg_frame m b).
    { unfold outstanding in Ht. rewrite Eq in Ht. by inversion Ht. }
    destruct Hm as [b Hb].
    destruct (writer_step_msg st m b q Hrun Eq Hb Hw) as (st1 & E & Ew & Eq1 & Ej & Er & Hwr1 & Hw1).
    rewrite E in Hs. injection Hs as <- <-.
    split; [by unfold writer_failed; rewrite Ew| |done|].
    + exists (fs ++ [b]). split; [apply Forall2_app; [done|by constructor]|].
      rewrite Hwr1, Hwr, concat_app, <- app_assoc. cbn. by rewrite app_nil_r.
    + unfold outstanding in *. rewrite Eq1, Ej. rewrite Eq in Ht. by inversion Ht.
Qed.

Lemma wire_step s0 st st' reqs outs outs' :
  close_inv st -> wire_inv s0 st outs -> server_step buffer_alloc dispatch st st' reqs outs' ->
  wire_inv s0 st' (outs ++ outs').
Proof using frameable.
  intros Hc Hi Hs. destruct (writer_closed st) eqn:Ecl.
  { by destruct (step_closed buffer_alloc dispatch _ _ _ _ Hc Ecl Hs). }
  pose proof Hi as [Hok [fs [Hf Hwr]] Hl Ht]. specialize (Hl Ecl).
  assert (Ho : writer_open st = true) by (by rewrite writer_open_cases, Hok, Ecl).
  destruct Hs as [st c st' o _ Hs|st i st' Hs|st st' o Hs]; [| |by apply (wire_step_write s0 st)];
    rewrite app_nil_r.
  - destruct (reader_step_answers buffer_alloc dispatch c st st' o Ho Hs) as [Ew Hp].
    destruct (reader_step_out c st st' o Hs) as [Hw1 Hw2]. unfold stream_of in *.
    split; [by unfold writer_failed in *; rewrite Ew|exists fs; unfold stream_of; by rewrite Hw1|unfold stream_of; auto|].
    rewrite Hp. apply Forall_app. split; [done|]. destruct o as [req|]; [|constructor].
    cbn. rewrite app_nil_r. apply frameable.
  - destruct (job_step_keeps i st st' Ho Hs) as [Ew Hp].
    assert (Hc' : sc_conn st' = sc_conn st).
    { unfold job_step in Hs. by destruct (sc_jobs st !! i); simplify_eq. }
    unfold stream_of in *.
    split; [by unfold writer_failed in *; rewrite Ew|exists fs; unfold stream_of; by rewrite Hc'|unfold stream_of; by rewrite Hc'|by rewrite Hp].
Qed.

(** ** Properties *)

(** Nothing that was answered is lost when a connection ends: once the
    reader has stopped and no worker is left, the writer writes every message
    still in the channel, in order, closes the connection and ends, within one
    turn per message and two more. *)
Theorem writer_drains st frames n :
  writer_running st -> has_senders st = false -> writable (stream_of st) ->
  Forall2 msg_frame (sc_queue st) frames -> (length frames + 2 <= n)%nat ->
  exists st', writer_run n st = Ret st' /\ sc_writer st' = WExit (Ok tt) /\
    written (stream_of st') = written (stream_of st) ++ concat frames.
Proof.
  intros Hr Hs Hw Hf. revert n st Hr Hs Hw Hf.
  induction frames as [|b frames IH]; intros n st Hr Hs Hw Hf Hn.
  - inversion Hf as [E|]; subst. destruct n as [|[|n]]; [cbn in Hn; lia..|].
    cbn [concat]. rewrite app_nil_r. by apply (writer_run_close n st).
  - inversion Hf as [|m b' q frames' Hm Hq E1 E2]; subst.
    destruct n as [|n]; [cbn in Hn; lia|].
    destruct (writer_step_msg st m b q Hr (eq_sym E1) Hm Hw) as (st1 & E & Ew & Eq & Ej & Er & Hwr & Hw1).
    destruct (IH n st1) as (st' & E' & Hx & Hwr').
    + by right.
    + unfold has_senders. by rewrite Ej, Er.
    + done.
    + by rewrite Eq.
    + cbn in Hn. lia.
    + exists st'. cbn [writer_run]. rewrite E. cbn [may_bind]. split; [done|]. split; [done|].
      rewrite Hwr', Hwr. cbn [concat]. by rewrite <- app_assoc.
Qed.

(** C17. The server's side of the wire is made of answers: in every
    interleaving of reader, workers and writer the writer never fails, the bytes
    it has written are the frames of the messages it took, in that order, and
    those with the ones still on their way are exactly the answers to the
    requests read. When it has closed the connection, all of them are written. *)
Theorem server_wire s st reqs outs :
  writable s -> server_run buffer_alloc dispatch (server_conn s) st reqs outs ->
  writer_failed st = false /\
  (exists frames, Forall2 msg_frame outs frames /\
    written (stream_of st) = written s ++ concat frames) /\
  outs ++ outstanding st ≡ₚ concat (map (answers dispatch) reqs) /\
  (writer_closed st = true -> outs ≡ₚ concat (map (answers dispatch) reqs)).
Proof using frameable.
  intros Hw Hrun.
  destruct (run_answers buffer_alloc dispatch _ _ _ _ (server_conn_inv s) Hrun) as [Hc Hp].
  assert (Hi : close_inv st /\ wire_inv s st outs).
  { clear Hp Hc. induction Hrun as [|st st' reqs outs reqs' outs' _ IH Hs].
    - split; [done|]. split; [done|exists []; by rewrite app_nil_r|done|constructor].
    - destruct IH as [Hc Hi]. split; [|by apply (wire_step s st st' reqs')].
      by apply (step_answers buffer_alloc dispatch st st' reqs' outs'). }
  destruct Hi as [_ [Hok Hf _ _]]. split; [done|]. split; [done|].
  destruct Hp as [Hp|Hp]; [congruence|]. split; [done|]. intros Hcl.
  destruct (Hc Hcl) as [_ Ho]. by rewrite Ho, app_nil_r in Hp.
Qed.

End wire.

(** ** Pipelined requests *)
Section pipeline.
Context {S : Type} `{!AsyncStream S} `{!AsyncStreamOk S} {R : Type} `{!ServerTaskEncode R}.
Context (buffer_alloc : Z -> bool) (dispatch : RpcSvrReq -> may (dispatched R)).
Context {T : Type} `{!ClientTask T}.
Implicit Types st : ServerConn S R.

(** A request on the wire: the client, its task and the encoded message. *)
Definition wire_req : Type := (Z * T * bytes)%type.
Definition wire_frame (w : wire_req) : bytes := req_frame w.1.1 w.1.2 w.2.
Definition wire_view (w : wire_req) : RpcSvrReq := svr_view w.1.2 w.2.
Definition wire_ok (w : wire_req) : Prop :=
  req_sendable w.1.1 w.1.2 w.2 /\
  (0 < blob_size (get_req_blob w.1.2) -> buffer_alloc (blob_size (get_req_blob w.1.2)) = true).

Lemma reader_step_reads w rest st :
  wire_ok w -> (forall q, exists d, dispatch q = Ret d) -> writer_open st = true ->
  incoming (stream_of st) = wire_frame w ++ rest ->
  exists st', reader_step buffer_alloc dispatch false st = Ret (st', Some (wire_view w)) /\
    incoming (stream_of st') = rest /\ sc_writer st' = sc_writer st /\
    sc_reading st' = sc_reading st.
Proof.
  intros [Hs Ha] Hd Ho Hi. destruct w as [[cid t] msg].
  destruct (read_req_frame buffer_alloc cid t msg (sc_conn st) rest Hs Ha Hi) as (c & E & Hc & _).
  unfold reader_step. rewrite E. cbn [may_bind]. cbn zeta.
  change (writer_open st) with (writer_open (upd_srv_conn c st)) in Ho.
  unfold wire_view. cbn [fst snd]. destruct (is_ping (svr_view t msg)).
  { rewrite send_quick_open by done. by eexists. }
  destruct (Hd (svr_view t msg)) as [d ->]. cbn [may_bind]. rewrite send_now_eq, Ho.
  destruct (dp_res d); [|rewrite send_quick_open by done]; by eexists.
Qed.

(** The reader takes a stream of requests apart again: from the frames
    of any requests in a row it reads exactly those requests, in order, hands
    every one to the dispatcher, and stops at the end of the stream. *)
Theorem reader_reads_all (ws : list wire_req) st n :
  Forall wire_ok ws -> (forall q, exists d, dispatch q = Ret d) ->
  writer_open st = true -> sc_reading st = true ->
  incoming (stream_of st) = concat (map wire_frame ws) -> (length ws < n)%nat ->
  exists st', reader_run buffer_alloc dispatch n st = Ret (st', map wire_view ws) /\
    sc_reading st' = false /\
    outstanding st' ≡ₚ outstanding st ++ concat (map (answers dispatch) (map wire_view ws)).
Proof.
  intros Hf Hd. revert st n. induction Hf as [|w ws Hw Hf IH]; intros st n Ho Hr Hi Hn;
    (destruct n as [|n]; [cbn in Hn; lia|]); cbn [reader_run]; rewrite Hr.
  - destruct (read_exact_short (stream_of st) RPC_REQ_HEADER_LEN) as (s1 & E & _); [by rewrite Hi|].
    unfold reader_step, read_req. unfold stream_of in E. rewrite E. cbn [may_bind].
    exists (stop_reading (upd_srv_conn (ts_set_stream s1 (sc_conn st)) st)).
    split; [by destruct n|]. split; [done|]. cbn. by rewrite app_nil_r.
  - destruct (reader_step_reads w _ st Hw Hd Ho Hi) as (st1 & E & Hi1 & Ew & Er).
    destruct (reader_step_answers buffer_alloc dispatch false st st1 _ Ho E) as [_ Hp].
    destruct (IH st1 n) as (st' & E' & Hr' & Hp'); [|congruence|done|cbn in Hn; lia|].
    { unfold writer_open in *. by rewrite Ew. }
    exists st'. rewrite E. cbn [may_bind]. rewrite E'. cbn [may_bind]. split; [done|].
    split; [done|]. rewrite Hp', Hp. cbn. by rewrite app_nil_r, <- app_assoc.
Qed.

End pipeline.

(** ** The API server on a connection *)
Section api.
Context {S : Type} `{!AsyncStream S} (buffer_alloc : Z -> bool).

(** [APIDispatch] with [Inline]: the response is sent before it returns. *)
Definition api_dispatch (serve : handler) (req : RpcSvrReq) : may (dispatched APIServerResp) :=
  let? (sent, r) := api_dispatch_req (inline_dispatch serve) req in Ret (Dispatched sent [] r).

(** The request a message answers. *)
Definition answer_seq (m : noti_msg APIServerResp) : Z :=
  match m with Ok r => ap_seq r | Err (seq, _) => seq end.

Lemma api_answers serve req :
  handler_ok serve -> map answer_seq (answers (api_dispatch serve) req) = [sq_seq req].
Proof.
  intros Hs. unfold answers. destruct (is_ping req); [done|].
  unfold api_dispatch, api_dispatch_req. destruct (sq_action req) as [a|n]; [|done].
  destruct (split_once Byte.x2e a) as [[svc m]|]; [|done].
  destruct (Hs (ApiSReq (sq_seq req) svc m (Some (sq_msg req)))) as (resp & E & Hseq); [done|].
  unfold inline_dispatch. rewrite E. cbn. by rewrite Hseq.
Qed.

(** C16. An API server answers every request once, under its number: pings,
    requests for services, methods or formats it does not know included. At any
    moment the messages written and on their way are one for each request read;
    when the writer has closed the connection, cancelled or at its end, all
    have been written. *)
Theorem api_server_answers serve (s : S) st reqs outs :
  handler_ok serve -> server_run buffer_alloc (api_dispatch serve) (server_conn s) st reqs outs ->
  writer_failed st = false ->
  map answer_seq (outs ++ outstanding st) ≡ₚ map sq_seq reqs /\
  (writer_closed st = true -> map answer_seq outs ≡ₚ map sq_seq reqs).
Proof.
  intros Hs Hrun Hf.
  destruct (run_answers buffer_alloc _ _ _ _ _ (server_conn_inv s) Hrun) as [Hc [Hp|Hp]]; [congruence|].
  assert (Hm : map answer_seq (outs ++ outstanding st) ≡ₚ map sq_seq reqs).
  { rewrite Hp. cbn. clear - Hs. induction reqs as [|req reqs IH]; [done|].
    cbn. rewrite map_app, api_answers, IH by done. done. }
  split; [done|]. intros Hcl. destruct (Hc Hcl) as [_ Ho]. by rewrite Ho, app_nil_r in Hm.
Qed.

End api.

(** ** Closing *)

(** [close] ends: as every turn of its loop sleeps for a second, it
    returns within the configured wait and two more turns, with no connection
    left or after more than the wait. *)
Theorem close_wait_ends alive elapsed wait :
  (forall k, Z.of_nat k <= elapsed k) -> 0 <= wait ->
  exists left, close_wait alive elapsed wait 0 (Z.to_nat wait + 2) = Some left /\
    (left <= 0 \/ exists k, left = alive k /\ wait < elapsed k).
Proof.
  intros He Hw.
  assert (H : forall n k, wait + 2 <= Z.of_nat (k + n) -> (0 < n)%nat ->
    exists left, close_wait alive elapsed wait k n = Some left /\
      (left <= 0 \/ exists k, left = alive k /\ wait < elapsed k)).
  { induction n as [|n IH]; intros k Hn Hp; [lia|]. cbn [close_wait].
    destruct (Z.ltb_spec 0 (alive k)); [|eexists; eauto].
    destruct (Z.ltb_spec wait (elapsed (Datatypes.S k))); [eexists; eauto|].
    pose proof (He (Datatypes.S k)). apply IH; lia. }
  apply H; lia.
Qed.

(** ** Concrete instances *)

Module ServerWitness.

Definition alloc : Z -> bool := fun n => n <=? 4096.

(** A dispatcher whose workers answer every request with the same word. *)
Definition pong (seq : Z) : RpcSvrResp :=
  SvrResp seq (Some (str_bytes "pong"%string)) None (Some (Ok tt)).
Definition pong_dispatch (req : RpcSvrReq) : may (dispatched RpcSvrResp) :=
  Ret (Dispatched [] [pong (sq_seq req)] (Ok tt)).

Definition ping_msg : bytes := str_bytes "ping"%string.
Definition two_reqs : list (wire_req (T := APIClientReq)) :=
  [(1, sample_task 7, ping_msg); (1, sample_task 8, ping_msg)].
Definition two_frames : bytes := concat (map wire_frame two_reqs).
Definition stream0 : mem_stream := MemStream two_frames [] true.
Definition conn0 : ServerConn mem_stream RpcSvrResp := server_conn stream0.

(** Reader to the end, workers out of order, writer to the end. *)
Definition read_once {R} `{!ServerTaskEncode R} (d : RpcSvrReq -> may (dispatched R))
    (st : ServerConn mem_stream R) : ServerConn mem_stream R :=
  match reader_step alloc d false st with Ret (st', _) => st' | Panic => st end.
Definition work (i : nat) (st : ServerConn mem_stream RpcSvrResp) : ServerConn mem_stream RpcSvrResp :=
  default st (job_step i st).
Definition write_once {R} `{!ServerTaskEncode R} (st : ServerConn mem_stream R)
    : ServerConn mem_stream R :=
  match writer_step st with Ret (Ready (st', _)) => st' | _ => st end.

Definition conn1 := read_once pong_dispatch conn0.
Definition conn2 := read_once pong_dispatch conn1.
Definition conn3 := work 1 conn2.
Definition conn4 := read_once pong_dispatch conn3.
Definition conn5 := work 0 conn4.
Definition conn6 := write_once conn5.
Definition conn7 := write_once conn6.
Definition conn8 := write_once conn7.
Definition conn9 := write_once conn8.

Section turns.
Context {R : Type} `{!ServerTaskEncode R} (d : RpcSvrReq -> may (dispatched R)).
Context (st0 st : ServerConn mem_stream R) (reqs : list RpcSvrReq) (outs : list (noti_msg R)).
Context (H : server_run alloc d st0 st reqs outs).

Lemma turn_read st' o :
  sc_reading st = true -> reader_step alloc d false st = Ret (st', o) ->
  server_run alloc d st0 st' (reqs ++ option_list o) outs.
Proof using H. intros. rewrite <- (app_nil_r outs). by apply (sr_snoc _ _ _ st), (sv_read _ _ _ false). Qed.

Lemma turn_work i st' : job_step i st = Some st' -> server_run alloc d st0 st' reqs outs.
Proof using H.
  intros. rewrite <- (app_nil_r reqs), <- (app_nil_r outs). by apply (sr_snoc _ _ _ st), (sv_job _ _ _ i).
Qed.

Lemma turn_write st' o :
  writer_step st = Ret (Ready (st', o)) -> server_run alloc d st0 st' reqs (outs ++ option_list o).
Proof using H. intros. rewrite <- (app_nil_r reqs). by apply (sr_snoc _ _ _ st), sv_write. Qed.

End turns.

Lemma conn9_run :
  server_run alloc pong_dispatch conn0 conn9 (map wire_view two_reqs) [Ok (pong 8); Ok (pong 7)].
Proof.
  pose proof (sr_nil alloc pong_dispatch conn0) as H.
  apply turn_read with (st' := conn1) (o := Some (wire_view (1, sample_task 7, ping_msg))) in H;
    [|by vm_compute..].
  apply turn_read with (st' := conn2) (o := Some (wire_view (1, sample_task 8, ping_msg))) in H;
    [|by vm_compute..].
  apply turn_work with (i := 1%nat) (st' := conn3) in H; [|by vm_compute].
  apply turn_read with (st' := conn4) (o := None) in H; [|by vm_compute..].
  apply turn_work with (i := 0%nat) (st' := conn5) in H; [|by vm_compute].
  apply turn_write with (st' := conn6) (o := Some (Ok (pong 8))) in H; [|by vm_compute].
  apply turn_write with (st' := conn7) (o := Some (Ok (pong 7))) in H; [|by vm_compute].
  apply turn_write with (st' := conn8) (o := None) in H; [|by vm_compute].
  apply turn_write with (st' := conn9) (o := None) in H; [|by vm_compute].
  exact H.
Qed.

Lemma pong_frame seq : msg_frame (Ok (pong seq)) (resp_frame_ok seq (str_bytes "pong"%string) None).
Proof.
  exists seq, (Ok (str_bytes "pong"%string, None)). split; [|split; [|done]].
  - apply (RpcSvrResp_outcome (pong seq) (Ok tt)). done.
  - split; vm_compute; discriminate.
Qed.

Lemma pong_frameable req : Forall (fun m => exists b, msg_frame m b) (answers pong_dispatch req).
Proof.
  unfold answers. destruct (is_ping req); (constructor; [|constructor]); [by eexists|].
  eexists. apply pong_frame.
Qed.

Lemma server_wire_witness :
  writer_closed conn9 = true /\
  (exists frames, Forall2 msg_frame [Ok (pong 8); Ok (pong 7)] frames /\
    ms_out (stream_of conn9) = [] ++ concat frames) /\
  [Ok (pong 8); Ok (pong 7)] ≡ₚ concat (map (answers pong_dispatch) (map wire_view two_reqs)).
Proof.
  split; [by vm_compute|].
  assert (Hw : writable stream0) by reflexivity.
  destruct (server_wire alloc pong_dispatch pong_frameable stream0 conn9 (map wire_view two_reqs)
    [Ok (pong 8); Ok (pong 7)] Hw conn9_run) as (_ & Hf & _ & Hc).
  split; [exact Hf|]. apply Hc. vm_compute. reflexivity.
Defined.

Lemma two_reqs_ok : Forall (wire_ok alloc) two_reqs.
Proof.
  repeat constructor; try (vm_compute; done); try (intros H; by vm_compute in H).
Qed.

Lemma reader_reads_all_witness :
  exists st', reader_run alloc pong_dispatch 3 conn0 = Ret (st', map wire_view two_reqs) /\
    sc_reading st' = false /\
    outstanding st' ≡ₚ outstanding conn0 ++ concat (map (answers pong_dispatch) (map wire_view two_reqs)).
Proof.
  apply (reader_reads_all alloc pong_dispatch two_reqs conn0 3 two_reqs_ok).
  - intros q. eexists. reflexivity.
  - reflexivity.
  - reflexivity.
  - reflexivity.
  - cbn. lia.
Defined.

Lemma writer_drains_witness :
  exists st', writer_run 4 conn5 = Ret st' /\ sc_writer st' = WExit (Ok tt) /\
    ms_out (stream_of st') = ms_out (stream_of conn5) ++ concat
      [resp_frame_ok 8 (str_bytes "pong"%string) None; resp_frame_ok 7 (str_bytes "pong"%string) None].
Proof.
  destruct (writer_drains conn5 [resp_frame_ok 8 (str_bytes "pong"%string) None;
    resp_frame_ok 7 (str_bytes "pong"%string) None] 4) as (st' & E & Ew & Hwr);
    [..|exists st'; split; [exact E|split; [exact Ew|exact Hwr]]].
  - left. vm_compute. reflexivity.
  - vm_compute. reflexivity.
  - vm_compute. reflexivity.
  - change (sc_queue conn5) with [Ok (pong 8) : noti_msg RpcSvrResp; Ok (pong 7)].
    constructor; [apply pong_frame|]. constructor; [apply pong_frame|constructor].
  - cbn. lia.
Defined.

(** An API server without any service on the same stream. *)
Definition no_service : handler := mux_struct_serve [].
Definition api0 : ServerConn mem_stream APIServerResp := server_conn stream0.
Definition api1 := read_once (api_dispatch no_service) api0.
Definition api2 := write_once api1.

Lemma no_service_ok : handler_ok no_service.
Proof. apply mux_struct_serve_ok. constructor. Qed.

Definition no_service_resp (seq : Z) : APIServerResp := ApiSResp seq None (Some (Err (ERpc Service))).

Lemma api2_run :
  server_run alloc (api_dispatch no_service) api0 api2
    [wire_view (1, sample_task 7, ping_msg)] [Ok (no_service_resp 7)].
Proof.
  pose proof (sr_nil alloc (api_dispatch no_service) api0) as H.
  apply turn_read with (st' := api1) (o := Some (wire_view (1, sample_task 7, ping_msg))) in H;
    [|by vm_compute..].
  apply turn_write with (st' := api2) (o := Some (Ok (no_service_resp 7))) in H; [|by vm_compute].
  exact H.
Qed.

Lemma api_server_answers_witness :
  map answer_seq ([Ok (no_service_resp 7)] ++ outstanding api2) ≡ₚ [7].
Proof.
  destruct (api_server_answers alloc no_service stream0 api2
    [wire_view (1, sample_task 7, ping_msg)] [Ok (no_service_resp 7)] no_service_ok api2_run) as [H _].
  - vm_compute. reflexivity.
  - exact H.
Defined.

Lemma close_wait_ends_witness :
  exists left, close_wait (fun _ => 1) (fun k => Z.of_nat k) 3 0 5 = Some left /\
    (left <= 0 \/ exists k, left = 1 /\ 3 < Z.of_nat k).
Proof.
  destruct (close_wait_ends (fun _ => 1) (fun k => Z.of_nat k) 3) as (left & E & H).
  - intros k. lia.
  - lia.
  - exists left. split; [exact E|]. destruct H as [H|(k & Hl & Hk)]; [by left|right; by exists k].
Defined.

End ServerWitness.
