(* ===== verification/RpcServer.v ===== *)
(** * The server as a whole (stream/src/server/server.rs)

    [RpcServer] owns the listener tasks; each accepts connections, and each
    connection is a reader and a writer ([Server]). [close] aborts the
    listeners, drops the close channel and waits until nobody holds a clone of
    [conn_ref_count] any more: the listener tasks and the connections do. A
    connection carries what it has read and written so far, so that what a
    closed server has done can be stated. *)
From Stdlib Require Import ZArith Lia.
From stdpp Require Import base list sets.
From S2P Require Import Prelude Errors Task ApiClient Proto Net ServerTask TcpServer ApiServer Server.
Local Open Scope Z_scope.
Local Open Scope rpc_scope.

(** A listener task. *)
Inductive listener_pc : Type :=
| LAccept          (** in its loop over [accept] *)
| LAborted         (** told to stop, not dropped by the runtime yet *)
| LGone.           (** returned or dropped *)

(** Where [close] is. *)
Inductive close_pc : Type :=
| NotClosing
| Aborting                      (** in the loop over the handles *)
| Notified                      (** the close channel is dropped *)
| Waiting (count elapsed : Z)   (** at the head of the last loop *)
| Closed (count : Z).

#[global] Instance close_pc_eq_dec : EqDecision close_pc.
Proof. solve_decision. Defined.

Record served (S R : Type) : Type := Served {
  sd_listener : nat;                 (** the listener that accepted it *)
  sd_conn : ServerConn S R;
  sd_reqs : list RpcSvrReq;          (** read so far *)
  sd_outs : list (noti_msg R);       (** written so far *)
}.
Arguments Served {S R}.
Arguments sd_listener {S R}.
Arguments sd_conn {S R}.
Arguments sd_reqs {S R}.
Arguments sd_outs {S R}.

Record RpcServer (S R : Type) : Type := MkServer {
  rv_listeners : list listener_pc;
  rv_handles : list nat;             (** [listeners_abort] *)
  rv_close_open : bool;              (** [server_close_tx] *)
  rv_conns : list (served S R);
  rv_close : close_pc;
}.
Arguments MkServer {S R}.
Arguments rv_listeners {S R}.
Arguments rv_handles {S R}.
Arguments rv_close_open {S R}.
Arguments rv_conns {S R}.
Arguments rv_close {S R}.

Section rpc_server.
Context {S : Type} `{!AsyncStream S} {R : Type} `{!ServerTaskEncode R}.
Context (buffer_alloc : Z -> bool).
(** The dispatcher given to each [listen], and [ServerConfig::server_close_wait]. *)
Context (dispatch : nat -> RpcSvrReq -> may (dispatched R)) (server_close_wait : Z).
Implicit Types v : RpcServer S R.

Definition RpcServer_new : RpcServer S R := MkServer [] [] true [] NotClosing.

Definition set_listeners (ls : list listener_pc) v : RpcServer S R :=
  MkServer ls (rv_handles v) (rv_close_open v) (rv_conns v) (rv_close v).
Definition set_conns (cs : list (served S R)) v : RpcServer S R :=
  MkServer (rv_listeners v) (rv_handles v) (rv_close_open v) cs (rv_close v).
Definition set_close (c : close_pc) v : RpcServer S R :=
  MkServer (rv_listeners v) (rv_handles v) (rv_close_open v) (rv_conns v) c.

(** [listen]; [bound]: whether [bind] and [local_addr] succeed. *)
Definition listen (bound : bool) v : RpcServer S R * result unit unit :=
  if bound then
    (MkServer (rv_listeners v ++ [LAccept]) (rv_handles v ++ [length (rv_listeners v)])
       (rv_close_open v) (rv_conns v) (rv_close v), Ok tt)
  else (v, Err tt).

(** A turn of the listener task [i]: [None] is an error of [accept]. *)
Definition accept (i : nat) (stream : option S) v : RpcServer S R :=
  match stream with
  | None => set_listeners (<[i := LGone]> (rv_listeners v)) v
  | Some s => set_conns (rv_conns v ++ [Served i (server_conn s) [] []]) v
  end.

(** A clone of [conn_ref_count] is in every listener task and in every
    connection, which its two coroutines share. *)
Definition conn_alive (c : ServerConn S R) : bool := sc_reading c || writer_open c.
Definition listener_alive (l : listener_pc) : bool := match l with LGone => false | _ => true end.
Definition get_alive_conn v : Z :=
  zsum (fun l => if listener_alive l then 1 else 0) (rv_listeners v) +
  zsum (fun d => if conn_alive (sd_conn d) then 1 else 0) (rv_conns v).

(** [abort_boxed]. *)
Definition abort (l : listener_pc) : listener_pc := match l with LAccept => LAborted | _ => l end.

(** [close], one turn: [elapsed'] is the time since its start after the sleep
    of the last loop. *)
Definition close_turn (elapsed' : Z) v : RpcServer S R :=
  match rv_close v with
  | NotClosing => set_close Aborting v
  | Aborting =>
    match last (rv_handles v) with
    | Some i =>
      MkServer (alter abort i (rv_listeners v)) (removelast (rv_handles v)) (rv_close_open v) (rv_conns v) Aborting
    | None => MkServer (rv_listeners v) (rv_handles v) false (rv_conns v) Notified
    end
  | Notified => set_close (Waiting (get_alive_conn v) 0) v
  | Waiting count _ =>
    if 0 <? count then
      let count := get_alive_conn v in
      set_close (if server_close_wait <? elapsed' then Closed count else Waiting count elapsed') v
    else set_close (Closed count) v
  | Closed _ => v
  end.

(** The time the clock may show: the last loop sleeps for a second. *)
Definition sleeps (elapsed' : Z) v : Prop :=
  match rv_close v with Waiting count elapsed => 0 < count -> elapsed + 1 <= elapsed' | _ => True end.

Definition conn_step (d : served S R) (c' : ServerConn S R) (reqs : list RpcSvrReq) (outs : list (noti_msg R))
    : served S R :=
  Served (sd_listener d) c' (sd_reqs d ++ reqs) (sd_outs d ++ outs).

(** [listen] and [close] take the server by [&mut]: it does not listen any more
    once it is being closed. *)
Inductive rpc_step : RpcServer S R -> RpcServer S R -> Prop :=
| rv_listen v bound v' r : rv_close v = NotClosing -> listen bound v = (v', r) -> rpc_step v v'
| rv_accept v i l stream :
    rv_listeners v !! i = Some l -> listener_alive l = true -> rpc_step v (accept i stream v)
| rv_dropped v i :
    rv_listeners v !! i = Some LAborted -> rpc_step v (set_listeners (<[i := LGone]> (rv_listeners v)) v)
| rv_serve v j d c' reqs outs :
    rv_conns v !! j = Some d ->
    server_step buffer_alloc (dispatch (sd_listener d)) (sd_conn d) c' reqs outs ->
    rpc_step v (set_conns (<[j := conn_step d c' reqs outs]> (rv_conns v)) v)
| rv_closing v elapsed' : sleeps elapsed' v -> rpc_step v (close_turn elapsed' v).

Inductive rpc_run (v0 : RpcServer S R) : RpcServer S R -> Prop :=
| rpc_nil : rpc_run v0 v0
| rpc_snoc v v' : rpc_run v0 v -> rpc_step v v' -> rpc_run v0 v'.

(** ** What holds of a server *)

(** Each connection has run as [Server] says from a fresh one. *)
Definition served_ok (d : served S R) : Prop :=
  exists s, server_run buffer_alloc (dispatch (sd_listener d)) (server_conn s) (sd_conn d) (sd_reqs d) (sd_outs d).

(** The listeners that nobody has told to stop have a handle. *)
Definition handles_ok v : Prop :=
  forall i, rv_listeners v !! i = Some LAccept -> i ∈ rv_handles v.

Definition closing_ok v : Prop :=
  match rv_close v with
  | NotClosing => rv_close_open v = true
  | Aborting => rv_close_open v = true
  | Notified => rv_handles v = [] /\ rv_close_open v = false
  | Waiting count elapsed => rv_handles v = [] /\ rv_close_open v = false /\
      0 <= elapsed /\ (elapsed <= server_close_wait \/ elapsed = 0) /\ (count <= 0 -> get_alive_conn v = 0)
  | Closed count => rv_handles v = [] /\ rv_close_open v = false /\ (count <= 0 -> get_alive_conn v = 0)
  end.

Record rpc_inv v : Prop := RpcInv {
  ri_served : Forall served_ok (rv_conns v);
  ri_handles : handles_ok v;
  ri_closing : closing_ok v;
}.

Definition listener_count (l : listener_pc) : Z := if listener_alive l then 1 else 0.
Definition conn_count (d : served S R) : Z := if conn_alive (sd_conn d) then 1 else 0.

Lemma listener_count_nonneg l : 0 <= listener_count l.
Proof. unfold listener_count. by destruct (listener_alive l). Qed.

Lemma conn_count_nonneg d : 0 <= conn_count d.
Proof. unfold conn_count. by destruct (conn_alive (sd_conn d)). Qed.

Lemma alive_eq v : get_alive_conn v = zsum listener_count (rv_listeners v) + zsum conn_count (rv_conns v).
Proof. done. Qed.

Lemma alive_nonneg v : 0 <= get_alive_conn v.
Proof.
  rewrite alive_eq. pose proof (zsum_nonneg _ (rv_listeners v) listener_count_nonneg).
  pose proof (zsum_nonneg _ (rv_conns v) conn_count_nonneg). lia.
Qed.

(** Nobody is left. *)
Lemma alive_zero v :
  get_alive_conn v = 0 ->
  Forall (fun l => l = LGone) (rv_listeners v) /\ Forall (fun d => conn_alive (sd_conn d) = false) (rv_conns v).
Proof.
  rewrite alive_eq. intros H. pose proof (zsum_nonneg _ (rv_listeners v) listener_count_nonneg).
  pose proof (zsum_nonneg _ (rv_conns v) conn_count_nonneg).
  split; apply Forall_lookup; intros i x Hi.
  - pose proof (zsum_ge listener_count _ i x listener_count_nonneg Hi) as Hx.
    unfold listener_count in Hx at 1. destruct x; cbn in Hx; [lia..|done].
  - pose proof (zsum_ge conn_count _ i x conn_count_nonneg Hi) as Hx.
    unfold conn_count in Hx at 1. destruct (conn_alive (sd_conn x)); [lia|done].
Qed.

(** A connection that has ended stays so. *)
Lemma ended_stays d (c' : ServerConn S R) reqs outs k :
  conn_alive (sd_conn d) = false ->
  server_step buffer_alloc (dispatch k) (sd_conn d) c' reqs outs -> conn_alive c' = false.
Proof.
  unfold conn_alive. intros [Hr Ho]%orb_false_iff Hs.
  destruct Hs as [st cancelled st' o Hrd Hs|st i st' Hs|st st' o Hs].
  - congruence.
  - unfold job_step in Hs. case_match; simplify_eq. cbn. by rewrite Hr.
  - unfold writer_step, writer_open in *. by destruct (sc_writer st).
Qed.

(** Being told to stop is not being gone. *)
Lemma abort_count i ls : zsum listener_count (alter abort i ls) = zsum listener_count ls.
Proof.
  revert i. induction ls as [|l ls IH]; intros [|i]; cbn; [done..| |].
  - by destruct l.
  - by rewrite IH.
Qed.

(** Once nobody is left, nobody comes back. *)
Lemma alive_stays v v' :
  rv_close v <> NotClosing -> get_alive_conn v = 0 -> rpc_step v v' -> get_alive_conn v' = 0.
Proof.
  intros Hn H0 Hs. pose proof (alive_zero v H0) as [Hl Hc]. rewrite alive_eq in H0 |- *.
  destruct Hs as [v bound v' r Hcl|v i l stream Hi Hal|v i Hi|v j d c' reqs outs Hj Hst|v e Hsl].
  - done.
  - pose proof (Forall_lookup_1 _ _ _ _ Hl Hi) as E. cbn in E. by subst l.
  - pose proof (Forall_lookup_1 _ _ _ _ Hl Hi) as E. done.
  - cbn. rewrite (zsum_insert _ _ _ _ _ Hj).
    pose proof (Forall_lookup_1 _ _ _ _ Hc Hj) as E. cbn in E.
    unfold conn_count at 2 3. cbn. rewrite E, (ended_stays _ _ _ _ _ E Hst). lia.
  - unfold close_turn. destruct (rv_close v) as [| | |count el|count]; cbn; try done.
    + destruct (last (rv_handles v)) as [i|]; cbn; [|done]. by rewrite abort_count.
    + by destruct (0 <? count); cbn.
Qed.

Lemma served_step d c' reqs outs :
  served_ok d -> server_step buffer_alloc (dispatch (sd_listener d)) (sd_conn d) c' reqs outs ->
  served_ok (conn_step d c' reqs outs).
Proof. intros [s H] Hs. exists s. cbn. by eapply sr_snoc. Qed.

(** A listener that accepts is one that has a handle, or has been told to stop. *)
Lemma handles_step v v' : handles_ok v -> rpc_step v v' -> handles_ok v'.
Proof.
  intros H Hs. destruct Hs as [v bound v' r Hcl Hl|v i l stream Hi Hal|v i Hi|v j d c' reqs outs Hj Hst|v e Hsl].
  - unfold listen in Hl. destruct bound; simplify_eq; [|done]. intros i Hi. cbn in *.
    apply elem_of_app. apply lookup_app_Some in Hi as [Hi|[Hge Hi]]; [left; by apply H|right].
    apply list_lookup_singleton_Some in Hi as [Hi _]. apply list_elem_of_singleton. lia.
  - destruct stream as [s|]; [done|]. intros k Hk. cbn in *. apply H.
    apply list_lookup_insert_Some in Hk as [(_ & ? & _)|[_ Hk]]; [done|exact Hk].
  - intros k Hk. cbn in *. apply H. apply list_lookup_insert_Some in Hk as [(_ & ? & _)|[_ Hk]]; [done|exact Hk].
  - done.
  - unfold close_turn. destruct (rv_close v) as [| | |count el|count]; try done.
    + destruct (last (rv_handles v)) as [i|] eqn:El; [|done]. intros k Hk. cbn in *.
      apply last_Some in El as [hs E]. unfold handles_ok in H. rewrite E in *.
      rewrite removelast_last. rewrite list_lookup_alter in Hk. destruct (decide (i = k)) as [->|Hne].
      * destruct (rv_listeners v !! k) as [[]|]; done.
      * specialize (H k Hk). apply elem_of_app in H as [H|H]; [done|].
        apply list_elem_of_singleton in H. congruence.
    + by destruct (0 <? count).
Qed.

Lemma closing_turn v e : closing_ok v -> sleeps e v -> closing_ok (close_turn e v).
Proof.
  unfold closing_ok, sleeps, close_turn. pose proof (alive_nonneg v) as Ha.
  destruct (rv_close v) as [| | |count el|count] eqn:Ec; cbn.
  - done.
  - intros Ho _. destruct (last (rv_handles v)) as [i|] eqn:El; cbn; [done|].
    split; [|done]. by apply last_None.
  - intros [Hh Ho] _. change (get_alive_conn (set_close (Waiting (get_alive_conn v) 0) v)) with (get_alive_conn v).
    repeat (split; [first [done|lia|by right]|]). lia.
  - intros (Hh & Ho & He & Hw & Hz) Hs. destruct (Z.ltb_spec 0 count) as [Hc|Hc]; cbn; [|done].
    destruct (Z.ltb_spec server_close_wait e); cbn;
      (split; [done|]; split; [done|]); unfold get_alive_conn in *; cbn; [lia|].
    specialize (Hs Hc). split; [lia|]. split; [by left|lia].
  - intros H _. by rewrite Ec.
Qed.

Lemma closing_step v v' : closing_ok v -> rpc_step v v' -> closing_ok v'.
Proof.
  intros H Hs. destruct (decide (rv_close v = NotClosing)) as [E|Hn].
  { unfold closing_ok in *. rewrite E in H.
    destruct Hs as [v bound v' r Hcl Hl|v i l stream Hi Hal|v i Hi|v j d c' reqs outs Hj Hst|v e Hsl]; cbn; try by rewrite E.
    - unfold listen in Hl. destruct bound; simplify_eq; cbn; by rewrite E.
    - destruct stream; cbn; by rewrite E.
    - unfold close_turn. by rewrite E. }
  pose proof (fun H0 => alive_stays _ _ Hn H0 Hs) as Ha.
  destruct Hs as [v bound v' r Hcl Hl|v i l stream Hi Hal|v i Hi|v j d c' reqs outs Hj Hst|v e Hsl]; try done;
    [| | |by apply closing_turn].
  all: unfold closing_ok in *; try destruct stream; cbn in *; destruct (rv_close v); try done;
    repeat match goal with Hx : _ /\ _ |- _ => destruct Hx end; repeat (split; [done|]); intros; apply Ha; auto.
Qed.

Lemma inv_rpc_step v v' : rpc_inv v -> rpc_step v v' -> rpc_inv v'.
Proof.
  intros [Hsv Hh Hc] Hs. split; [|by eapply handles_step|by eapply closing_step].
  destruct Hs as [v bound v' r Hcl Hl|v i l stream Hi Hal|v i Hi|v j d c' reqs outs Hj Hst|v e Hsl]; cbn; try done.
  - unfold listen in Hl. by destruct bound; simplify_eq.
  - destruct stream as [s|]; cbn; [|done]. apply Forall_app. split; [done|]. constructor; [|done].
    exists s. apply sr_nil.
  - apply Forall_insert; [done|]. apply served_step; [|done]. exact (Forall_lookup_1 _ _ _ _ Hsv Hj).
  - unfold close_turn. destruct (rv_close v) as [| | |count el|count]; cbn; try done.
    + by destruct (last (rv_handles v)).
    + by destruct (0 <? count).
Qed.

Lemma rpc_run_inv v : rpc_run RpcServer_new v -> rpc_inv v.
Proof.
  induction 1 as [|v v' _ IH Hs]; [|by eapply inv_rpc_step].
  split; [constructor| |done]. intros i Hi. done.
Qed.

(** A run of one connection is a run of the server. *)
Lemma serve_run v0 v j d c' reqs outs :
  rpc_run v0 v -> rv_conns v !! j = Some d ->
  server_run buffer_alloc (dispatch (sd_listener d)) (sd_conn d) c' reqs outs ->
  rpc_run v0 (set_conns (<[j := conn_step d c' reqs outs]> (rv_conns v)) v).
Proof.
  intros Hv Hj. induction 1 as [|st st' reqs outs reqs' outs' _ IH Hs].
  - assert (E : conn_step d (sd_conn d) [] [] = d) by (destruct d; unfold conn_step; cbn; by rewrite !app_nil_r).
    rewrite E, list_insert_id by done. by destruct v.
  - set (d1 := conn_step d st reqs outs) in *.
    set (v1 := set_conns (<[j:=d1]> (rv_conns v)) v) in *.
    assert (Hj1 : rv_conns v1 !! j = Some d1).
    { apply list_lookup_insert_eq. by apply lookup_lt_Some in Hj. }
    pose proof (rpc_snoc _ _ _ IH (rv_serve _ _ _ _ _ _ Hj1 Hs)) as H.
    unfold v1, conn_step in H. cbn in H. rewrite list_insert_insert_eq in H.
    unfold conn_step. rewrite <- !app_assoc in H. exact H.
Qed.

(** ** The wait of [close] is bounded *)

Definition close_left v : Z :=
  match rv_close v with
  | NotClosing => zlen (rv_handles v) + server_close_wait + 6
  | Aborting => zlen (rv_handles v) + server_close_wait + 5
  | Notified => server_close_wait + 4
  | Waiting _ elapsed => server_close_wait + 2 - elapsed
  | Closed _ => 0
  end.

Definition is_closed v : bool := match rv_close v with Closed _ => true | _ => false end.

Lemma close_turn_decreases v e :
  0 <= server_close_wait -> closing_ok v -> sleeps e v -> is_closed v = false ->
  0 <= close_left (close_turn e v) < close_left v.
Proof.
  unfold closing_ok, sleeps, close_turn, is_closed, close_left. intros Hw.
  pose proof (zlen_nonneg (rv_handles v)).
  destruct (rv_close v) as [| | |count el|count] eqn:Ec; cbn; try done; try lia.
  - intros _ _ _. destruct (last (rv_handles v)) as [i|] eqn:El; cbn; [|lia].
    apply last_Some in El as [hs E]. rewrite E, removelast_last.
    assert (zlen (hs ++ [i]) = zlen hs + 1) by (by rewrite zlen_app).
    pose proof (zlen_nonneg hs). lia.
  - intros (_ & _ & He & Hle & _) Hs _. destruct (Z.ltb_spec 0 count) as [Hc|Hc]; cbn; [|lia].
    specialize (Hs Hc). destruct (Z.ltb_spec server_close_wait e); cbn; lia.
Qed.

(** The turns of [close] in a run from [v]. *)
Inductive close_run (v0 : RpcServer S R) : RpcServer S R -> Z -> Prop :=
| clr_nil : close_run v0 v0 0
| clr_turn v n e :
    close_run v0 v n -> is_closed v = false -> sleeps e v -> close_run v0 (close_turn e v) (n + 1)
| clr_other v v' n :
    close_run v0 v n -> rv_close v <> NotClosing -> rv_close v' = rv_close v -> rv_handles v' = rv_handles v ->
    rpc_step v v' -> close_run v0 v' n.

(** ** Properties *)

(** [close] ends: in whatever order the listeners, the connections and
    [close] itself take their turns, [close] takes at most one for each
    listener and one for each second of [server_close_wait], and six more. *)
Theorem close_ends v0 v n :
  0 <= server_close_wait -> rpc_run RpcServer_new v0 -> rv_close v0 = NotClosing -> close_run v0 v n ->
  n <= zlen (rv_handles v0) + server_close_wait + 6.
Proof.
  intros Hw Hr Hn Hc. pose proof (rpc_run_inv v0 Hr) as H0.
  assert (H : rpc_inv v /\ 0 <= close_left v /\ n + close_left v <= close_left v0).
  { induction Hc as [|v n e Hc IH Hcl Hsl|v v' n Hc IH Hne Ec Eh Hs].
    - split; [done|]. unfold close_left. rewrite Hn. pose proof (zlen_nonneg (rv_handles v0)). lia.
    - destruct IH as (Hi & Hp & Hle). split; [eapply inv_rpc_step; [done|by apply rv_closing]|].
      pose proof (close_turn_decreases v e Hw (ri_closing _ Hi) Hsl Hcl). lia.
    - destruct IH as (Hi & Hp & Hle). split; [by eapply inv_rpc_step|].
      unfold close_left in *. by rewrite Ec, Eh. }
  destruct H as (_ & Hp & Hle). unfold close_left in Hle at 2. rewrite Hn in Hle. lia.
Qed.

(** C18. A graceful close leaves nothing unanswered. When [close] returns
    with no connection left, then - however listeners, connections and [close]
    interleaved - no listener is running, every connection has ended, and on
    each one all answers to all requests that were read have been written, or
    its writer had failed. *)
Theorem close_answers_all v count :
  rpc_run RpcServer_new v -> rv_close v = Closed count -> count <= 0 ->
  Forall (fun l => l = LGone) (rv_listeners v) /\
  Forall (fun d => sc_reading (sd_conn d) = false /\
    (writer_failed (sd_conn d) = true \/
     writer_closed (sd_conn d) = true /\
     sd_outs d ≡ₚ concat (map (answers (dispatch (sd_listener d))) (sd_reqs d)))) (rv_conns v).
Proof.
  intros Hr Hc Hz. destruct (rpc_run_inv v Hr) as [Hsv _ Hcl]. unfold closing_ok in Hcl. rewrite Hc in Hcl.
  destruct Hcl as (_ & _ & Ha). destruct (alive_zero v (Ha Hz)) as [Hl Hd]. split; [done|].
  apply Forall_lookup. intros j d Hj. pose proof (Forall_lookup_1 _ _ _ _ Hsv Hj) as [s Hrun].
  pose proof (Forall_lookup_1 _ _ _ _ Hd Hj) as Hal. cbn in Hal.
  unfold conn_alive in Hal. apply orb_false_iff in Hal as [Hrd Hop]. split; [done|].
  destruct (run_answers buffer_alloc _ _ _ _ _ (server_conn_inv s) Hrun) as [Hci Hp].
  rewrite writer_open_cases in Hop. destruct (writer_failed (sd_conn d)) eqn:Hf; [by left|right].
  destruct (writer_closed (sd_conn d)) eqn:Hwc; [|done]. split; [done|].
  destruct Hp as [|Hp]; [done|]. destruct (Hci Hwc) as [_ Ho]. by rewrite Ho, app_nil_r in Hp.
Qed.

End rpc_server.

(** ** Concrete instances *)

Module RpcServerWitness.
Import ServerWitness.

Definition d (_ : nat) : RpcSvrReq -> may (dispatched RpcSvrResp) := pong_dispatch.
Abbreviation srun := (rpc_run alloc d 3 RpcServer_new).
Definition server := RpcServer mem_stream RpcSvrResp.

(** One listener, one connection with two requests, then [close]. *)
Definition v1 : server := (listen true RpcServer_new).1.
Definition v2 : server := accept 0 (Some stream0) v1.
Definition sd9 : served mem_stream RpcSvrResp :=
  Served 0 conn9 (map wire_view two_reqs) [Ok (pong 8); Ok (pong 7)].
Definition v3 : server := set_conns [sd9] v2.
Definition v4 : server := close_turn 3 0 (close_turn 3 0 (close_turn 3 0 v3)).
Definition v5 : server := set_listeners [LGone] v4.
Definition v6 : server := close_turn 3 0 (close_turn 3 0 v5).

Lemma srun3 : srun v3.
Proof.
  apply (serve_run alloc d 3 RpcServer_new v2 0 (Served 0 conn0 [] []) conn9 (map wire_view two_reqs)
    [Ok (pong 8); Ok (pong 7)]); [|done|exact conn9_run].
  apply (rpc_snoc _ _ _ _ v1); [|by eapply (rv_accept _ _ _ _ 0)].
  apply (rpc_snoc _ _ _ _ RpcServer_new); [apply rpc_nil|by eapply (rv_listen _ _ _ _ true)].
Qed.

Lemma then_close v : srun v -> sleeps 0 v -> srun (close_turn 3 0 v).
Proof. intros H Hs. exact (rpc_snoc alloc d 3 _ _ _ H (rv_closing alloc d 3 v 0 Hs)). Qed.

Lemma srun4 : srun v4.
Proof.
  unfold v4. apply then_close; [apply then_close; [apply then_close; [exact srun3|]|]|]; exact I.
Qed.

Lemma srun6 : srun v6.
Proof.
  assert (H5 : srun v5) by exact (rpc_snoc alloc d 3 _ _ _ srun4 (rv_dropped alloc d 3 v4 0 eq_refl)).
  unfold v6. apply then_close; [apply then_close; [exact H5|exact I]|].
  vm_compute. discriminate.
Qed.

Lemma close_answers_all_witness :
  rv_close v6 = Closed 0 /\ [Ok (pong 8); Ok (pong 7)] ≡ₚ
    concat (map (answers pong_dispatch) (map wire_view two_reqs)).
Proof.
  split; [vm_compute; reflexivity|].
  destruct (close_answers_all alloc d 3 v6 0 srun6) as [_ H]; [vm_compute; reflexivity|lia|].
  change (rv_conns v6) with [sd9] in H. apply Forall_cons in H as [[_ [Hf|[_ Hp]]] _].
  - vm_compute in Hf. discriminate.
  - exact Hp.
Defined.

End RpcServerWitness.
