(* ===== verification/Services.v ===== *)
(** * The interfaces of the API server (src/server/service.rs, dispatch.rs)

    The traits through which services, multiplexers and dispatchers are put
    together, as classes, with their instances: [ServiceStatic] for the code of
    the macros, for [Arc] and for [ServiceMuxDyn]; [ServiceDyn] for every
    [ServiceStatic]; [Dispatch] (stream/src/server/dispatch.rs) for a closure
    and for every [APIDispatchTrait]. *)
From Stdlib Require Import ZArith Lia Strings.String.
From stdpp Require Import base list gmap.
From S2P Require Import Prelude Errors Codec Task ApiClient Proto Net ServerTask TcpServer ApiServer Server.
Local Open Scope Z_scope.
Local Open Scope rpc_scope.

(** ** Services *)

Class ServiceStatic (S : Type) : Type := {
  SERVICE_NAME : bytes;
  serve : S -> handler;
}.
Arguments SERVICE_NAME S {_}.

(** [Arc<S>]: a shared [S]. *)
Record Arc (S : Type) : Type := MkArc { arc_ref : S }.
Arguments MkArc {S}.
Arguments arc_ref {S}.

#[global] Instance Arc_static {S} `{!ServiceStatic S} : ServiceStatic (Arc S) := {|
  SERVICE_NAME := SERVICE_NAME S;
  serve s := serve (arc_ref s);
|}.

(** [dyn ServiceDyn]: the two methods of the object. *)
Record ServiceDyn : Type := MkDyn {
  get_service_name : bytes;
  serve_dyn : handler;
}.

(** The impl of [ServiceDyn] for every [ServiceStatic]. *)
Definition dyn_of {S} `{!ServiceStatic S} (s : S) : ServiceDyn := MkDyn (SERVICE_NAME S) (serve s).

(** [ServiceMuxDyn::add], and its impl of [ServiceStatic]. *)
Definition mux_add (service : ServiceDyn) (m : ServiceMuxDyn) : ServiceMuxDyn :=
  MuxDyn_add (get_service_name service) (serve_dyn service) m.

#[global] Instance ServiceMuxDyn_static : ServiceStatic ServiceMuxDyn := {|
  SERVICE_NAME := [];
  serve := MuxDyn_serve;
|}.

(** ** Dispatchers *)

(** [APIDispatchTrait]: the responses sent while it runs, and its result. *)
Class APIDispatchTrait (D : Type) : Type := {
  api_trait_dispatch : D -> APIServerReq -> may (list APIServerResp * result unit unit);
}.

Record Inline (S : Type) : Type := MkInline { inline_service : S }.
Arguments MkInline {S}.
Arguments inline_service {S}.

#[global] Instance Inline_dispatch {S} `{!ServiceStatic S} : APIDispatchTrait (Inline S) := {|
  api_trait_dispatch d := inline_dispatch (serve (inline_service d));
|}.

(** [Dispatch], of the stream layer. *)
Class Dispatch (D R : Type) : Type := {
  dispatch_req : D -> RpcSvrReq -> may (dispatched R);
}.

Record APIDispatch (D : Type) : Type := MkAPIDispatch { api_dispatch_inner : D }.
Arguments MkAPIDispatch {D}.
Arguments api_dispatch_inner {D}.

#[global] Instance APIDispatch_dispatch {D} `{!APIDispatchTrait D} : Dispatch (APIDispatch D) APIServerResp := {|
  dispatch_req d req :=
    let? (sent, r) := api_dispatch_req (api_trait_dispatch (api_dispatch_inner d)) req in
    Ret (Dispatched sent [] r);
|}.

Definition Inline_new {S} (s : S) : APIDispatch (Inline S) := MkAPIDispatch (MkInline s).

(** [Clone]: a new container around a clone of the service. *)
Definition Inline_clone {S} (clone : S -> S) (d : Inline S) : Inline S := MkInline (clone (inline_service d)).

(** [DispatchClosure]: [H] is the closure's type, [call] runs it on a task. *)
Record DispatchClosure (H : Type) : Type := MkClosure { task_handle : H }.
Arguments MkClosure {H}.
Arguments task_handle {H}.

Definition DispatchClosure_new {H} (h : H) : DispatchClosure H := MkClosure h.
Definition DispatchClosure_clone {H} (clone : H -> H) (d : DispatchClosure H) : DispatchClosure H :=
  DispatchClosure_new (clone (task_handle d)).

Definition closure_dispatch {Tk R} (decode_req : RpcAction -> Z -> bytes -> option bytes -> result Tk unit) :
    Dispatch (DispatchClosure (Tk -> may (list R * result unit unit))) R := {|
  dispatch_req d req := let? (sent, r) := dispatch_closure decode_req (task_handle d) req in Ret (Dispatched sent [] r);
|}.

(** ** Services of different types together *)

Record any_service : Type := AnyService {
  as_type : Type;
  as_static : ServiceStatic as_type;
  as_service : as_type;
}.

Definition any_name (x : any_service) : bytes := @SERVICE_NAME (as_type x) (as_static x).
Definition any_dyn (x : any_service) : ServiceDyn := @dyn_of (as_type x) (as_static x) (as_service x).

(** The arms [service_mux_struct] generates: one per field, on the
    [SERVICE_NAME] of its type. *)
Definition mux_fields (l : list any_service) : list (bytes * handler) :=
  (fun x => (any_name x, @serve (as_type x) (as_static x) (as_service x))) <$> l.

(** A struct with these fields, annotated with [service_mux_struct]. *)
Record mux_struct : Type := MuxStruct { mux_services : list any_service }.
#[global] Instance mux_struct_static : ServiceStatic mux_struct := {|
  SERVICE_NAME := [];
  serve m := mux_struct_serve (mux_fields (mux_services m));
|}.

(** The same services added to a [ServiceMuxDyn]. *)
Definition dyn_mux (l : list any_service) : ServiceMuxDyn := foldl (fun m x => mux_add (any_dyn x) m) MuxDyn_new l.

(** ** Lemmas *)

Lemma dyn_mux_of l : dyn_mux l = mux_of (mux_fields l).
Proof.
  unfold dyn_mux, mux_of. generalize MuxDyn_new. induction l as [|x l IH]; intros m; [done|]. apply IH.
Qed.

Lemma mux_fields_names l : fst <$> mux_fields l = any_name <$> l.
Proof. unfold mux_fields. rewrite <- list_fmap_compose. done. Qed.

(** With names apart the order of the arms does not matter. *)
Lemma match_arms_elem arms k h : NoDup (fst <$> arms) -> match_arms arms k = Some h <-> (k, h) ∈ arms.
Proof.
  intros Hn. split; [apply match_arms_in|]. induction arms as [|[n g] arms IH]; [by intros ?%elem_of_nil|].
  cbn in *. apply NoDup_cons in Hn as [Hk Hn]. intros [[= -> ->]|Hin]%elem_of_cons; [by rewrite decide_True|].
  rewrite decide_False; [by apply IH|]. intros ->. apply Hk. by apply (list_elem_of_fmap_2 fst) in Hin.
Qed.

Lemma match_arms_rev arms k : NoDup (fst <$> arms) -> match_arms (rev arms) k = match_arms arms k.
Proof.
  intros Hn. pose proof (Permutation_rev arms) as Hp. apply option_eq. intros h.
  rewrite !match_arms_elem; [by rewrite <- Hp|done|by rewrite <- Hp].
Qed.

(** The struct and the table serve alike. *)
Lemma muxes_alike l req :
  NoDup (any_name <$> l) -> serve (dyn_mux l) req = serve (MuxStruct l) req.
Proof.
  intros Hn. cbn. rewrite dyn_mux_of, mux_dyn_struct_equiv. unfold mux_struct_serve.
  rewrite match_arms_rev; [done|by rewrite mux_fields_names].
Qed.

Lemma inline_dispatch_req {S} `{!ServiceStatic S} (s : S) req svc m :
  sq_action req = AStr (service_method svc m) -> Byte.x2e ∉ svc ->
  dispatch_req (Inline_new s) req =
    let? resp := serve s (ApiSReq (sq_seq req) svc m (Some (sq_msg req))) in Ret (Dispatched [resp] [] (Ok tt)).
Proof.
  intros Ha Hd. cbn. rewrite (dispatch_split req svc m Ha Hd). unfold inline_dispatch.
  by destruct (serve s _).
Qed.

(** ** Properties *)

(** C25. Services are reached by their names, through whatever they are put
    together with. For services of any types, with different names: a struct
    with [service_mux_struct], a [ServiceMuxDyn] they are added to, and either
    behind an [Arc], dispatch every request alike; a request for ["S.m"] runs
    the service named S with method m; and a name no service has is answered
    with the internal error Service, also when a multiplexer among the services
    has a service of that name inside: multiplexers do not nest. *)
Theorem muxes_dispatch l req :
  NoDup (any_name <$> l) ->
  dispatch_req (Inline_new (dyn_mux l)) req = dispatch_req (Inline_new (MuxStruct l)) req /\
  dispatch_req (Inline_new (MkArc (dyn_mux l))) req = dispatch_req (Inline_new (MuxStruct l)) req /\
  dispatch_req (Inline_new (MkArc (MuxStruct l))) req = dispatch_req (Inline_new (MuxStruct l)) req /\
  forall svc m, sq_action req = AStr (service_method svc m) -> Byte.x2e ∉ svc ->
    let q := ApiSReq (sq_seq req) svc m (Some (sq_msg req)) in
    (forall x, x ∈ l -> any_name x = svc ->
      dispatch_req (Inline_new (MuxStruct l)) req =
        let? resp := serve_dyn (any_dyn x) q in Ret (Dispatched [resp] [] (Ok tt))) /\
    (svc ∉ any_name <$> l ->
      dispatch_req (Inline_new (MuxStruct l)) req =
        Ret (Dispatched [ApiSReq_set_rpc_error q Service] [] (Ok tt))).
Proof.
  intros Hn.
  assert (E : dispatch_req (Inline_new (dyn_mux l)) req = dispatch_req (Inline_new (MuxStruct l)) req).
  { cbn -[serve]. unfold api_dispatch_req. destruct (sq_action req) as [a|]; [|done].
    destruct (split_once _ a) as [[svc m]|]; [|done]. unfold inline_dispatch. by rewrite muxes_alike. }
  split; [exact E|]. split; [exact E|]. split; [done|]. intros svc m Ha Hd q.
  rewrite (inline_dispatch_req (MuxStruct l) req svc m Ha Hd). fold q. cbn. unfold mux_struct_serve.
  rewrite <- mux_fields_names in *. cbn [aq_service q]. split.
  - intros x Hx <-. rewrite (proj2 (match_arms_elem _ _ (serve_dyn (any_dyn x)) Hn)); [done|].
    unfold mux_fields. apply list_elem_of_fmap. by exists x.
  - intros Hx. destruct (match_arms _ svc) eqn:Em; [|done]. destruct Hx.
    apply match_arms_in in Em. by apply (list_elem_of_fmap_2 fst) in Em.
Qed.

(** ** A concrete instance *)
Module ServicesWitness.

(** Two services of the [service] macro, and a multiplexer with a third. *)
Inductive echo : Type := Echo.
Inductive clock : Type := Clock.
Definition echo_name : bytes := str_bytes "Echo"%string.
#[global] Instance echo_static : ServiceStatic echo := {|
  SERVICE_NAME := echo_name;
  serve _ := service_serve ApiServerWitness.echo_arms;
|}.
#[global] Instance clock_static : ServiceStatic clock := {|
  SERVICE_NAME := str_bytes "Clock"%string;
  serve _ := service_serve [];
|}.
Definition inner : ServiceMuxDyn := MuxDyn_add (str_bytes "Inner"%string) (service_serve ApiServerWitness.echo_arms) MuxDyn_new.
Definition services : list any_service :=
  [AnyService echo _ Echo; AnyService clock _ Clock; AnyService (Arc ServiceMuxDyn) _ (MkArc inner)].
Definition req (svc : String.string) : RpcSvrReq :=
  SvrReq 5 (AStr (service_method (str_bytes svc) (str_bytes "repeat"%string))) (str_bytes "hi"%string) None.
Definition no_dot (svc : String.string) : bool := bool_decide (Byte.x2e ∉ str_bytes svc).

(** The echo answers; the service inside the inner multiplexer is not found,
    though that multiplexer would serve it. *)
Lemma muxes_dispatch_witness :
  dispatch_req (Inline_new (dyn_mux services)) (req "Echo") =
    Ret (Dispatched [ApiSResp 5 (Some (str_bytes "hi"%string)) (Some (Ok tt))] [] (Ok tt)) /\
  dispatch_req (Inline_new (MuxStruct services)) (req "Inner") =
    Ret (Dispatched [ApiSResp 5 None (Some (Err (ERpc Service)))] [] (Ok tt)) /\
  dispatch_req (Inline_new inner) (req "Inner") =
    Ret (Dispatched [ApiSResp 5 (Some (str_bytes "hi"%string)) (Some (Ok tt))] [] (Ok tt)).
Proof.
  assert (Hn : NoDup (any_name <$> services)) by (apply (bool_decide_unpack _); vm_compute; exact I).
  assert (Hd : forall svc, no_dot svc = true -> Byte.x2e ∉ str_bytes svc) by (intros svc; apply bool_decide_eq_true).
  split; [|split; [|vm_compute; reflexivity]].
  - destruct (muxes_dispatch services (req "Echo") Hn) as (E & _ & _ & H). rewrite E.
    destruct (H (str_bytes "Echo") (str_bytes "repeat") eq_refl (Hd "Echo"%string eq_refl)) as [Hx _].
    rewrite (Hx (AnyService echo _ Echo)); [vm_compute; reflexivity|left|reflexivity].
  - destruct (muxes_dispatch services (req "Inner") Hn) as (_ & _ & _ & H).
    destruct (H (str_bytes "Inner") (str_bytes "repeat") eq_refl (Hd "Inner"%string eq_refl)) as [_ Hx]. rewrite Hx.
    + vm_compute. reflexivity.
    + apply (bool_decide_unpack _). vm_compute. exact I.
Defined.

End ServicesWitness.
