(* ===== verification/Failover.v ===== *)
(** * The failover pool (stream/src/client/failover.rs)

    A cluster of connection pools, the routing of requests over it, the
    wrapper task that counts retries, and the retry worker. A connection pool
    is seen here through its address and its health; sending a task to it is
    the output [FoSend]. [id] stands for the identity of the pool object. *)
From Stdlib Require Import ZArith Lia Strings.String.
From stdpp Require Import base list sets.
From S2P Require Import Prelude Errors Task ApiClient.
Local Open Scope Z_scope.
Local Open Scope rpc_scope.

(** ** FailoverTask *)

Record FailoverTask (T : Type) : Type := FoTask {
  fo_last_index : Z;
  fo_config_ver : Z;
  fo_inner : T;
  fo_retry : Z;
  fo_should_retry : bool;
  fo_max_retries : Z;
}.
Arguments FoTask {T}.
Arguments fo_last_index {T}.
Arguments fo_config_ver {T}.
Arguments fo_inner {T}.
Arguments fo_retry {T}.
Arguments fo_should_retry {T}.
Arguments fo_max_retries {T}.

Section task.
Context {T : Type} `{!ClientTask T}.
Implicit Types t : FailoverTask T.

Definition fo_with_inner (inner : T) t : FailoverTask T :=
  FoTask (fo_last_index t) (fo_config_ver t) inner (fo_retry t) (fo_should_retry t)
    (fo_max_retries t).

Definition fo_set_custom_error t (e : EncodedErr) (_last_index _conf_ver : Z) : FailoverTask T :=
  let t := FoTask (fo_last_index t) (fo_config_ver t) (fo_inner t) (fo_retry t) false
             (fo_max_retries t) in
  fo_with_inner (set_custom_error (fo_inner t) e (fo_last_index t) (fo_config_ver t)) t.

Definition fo_set_rpc_error t (e : RpcIntErr) : FailoverTask T :=
  let t :=
    if RpcIntErr_ltb e Method
    then FoTask (fo_last_index t) (fo_config_ver t) (fo_inner t) (as_usize (fo_retry t + 1)) true
           (fo_max_retries t)
    else FoTask (fo_last_index t) (fo_config_ver t) (fo_inner t) (fo_retry t) false
           (fo_max_retries t) in
  fo_with_inner (set_rpc_error (fo_inner t) e) t.

Definition fo_set_ok t : FailoverTask T := fo_with_inner (set_ok (fo_inner t)) t.

#[global] Instance FailoverTask_task : ClientTask (FailoverTask T) := {|
  task_seq t := task_seq (fo_inner t);
  set_seq t s := fo_with_inner (set_seq (fo_inner t) s) t;
  get_action t := get_action (fo_inner t);
  encode_req t := encode_req (fo_inner t);
  get_req_blob t := get_req_blob (fo_inner t);
  decode_resp t b :=
    match decode_resp (fo_inner t) b with
    | Ok inner => Ok (fo_with_inner inner t)
    | Err e => Err e
    end;
  reserve_resp_blob t n :=
    let '(inner, r) := reserve_resp_blob (fo_inner t) n in (fo_with_inner inner t, r);
  fill_resp_blob t b := fo_with_inner (fill_resp_blob (fo_inner t) b) t;
  set_custom_error := fo_set_custom_error;
  set_rpc_error := fo_set_rpc_error;
  set_ok := fo_set_ok;
|}.

(** [FailoverFacts::error_handle]; [retry_open]: the retry worker is there. *)
Definition fo_error_handle (default_limit : Z) (retry_open : bool) t : event (FailoverTask T) :=
  let retry_limit := if 0 <? fo_max_retries t then fo_max_retries t else default_limit in
  if fo_should_retry t && (fo_retry t <=? retry_limit)
  then if retry_open then EvRetry t else EvDone t
  else EvDone t.

End task.

(** ** The cluster *)

Record conn_pool : Type := CPool {
  cp_id : Z;
  cp_addr : bytes;
  cp_healthy : bool;
}.

Record ClusterConfig : Type := Cluster {
  cl_pools : list conn_pool;
  cl_ver : Z;
}.

Record FailoverPool : Type := FoPool {
  fp_cluster : ClusterConfig;
  fp_stateless : bool;
  fp_next_node : Z;
  fp_retry_limit : Z;
  fp_fresh : Z;   (** identity of the next pool created *)
}.

Definition fp_set_cluster (c : ClusterConfig) (p : FailoverPool) : FailoverPool :=
  FoPool c (fp_stateless p) (fp_next_node p) (fp_retry_limit p) (fp_fresh p).
Definition fp_set_next (n : Z) (p : FailoverPool) : FailoverPool :=
  FoPool (fp_cluster p) (fp_stateless p) n (fp_retry_limit p) (fp_fresh p).

(** [ConnPool::new]: a pool starts healthy. *)
Definition fp_new_pool (addr : bytes) (p : FailoverPool) : conn_pool * FailoverPool :=
  (CPool (fp_fresh p) addr true,
   FoPool (fp_cluster p) (fp_stateless p) (fp_next_node p) (fp_retry_limit p) (fp_fresh p + 1)).

Fixpoint new_pools (addrs : list bytes) (p : FailoverPool) : list conn_pool * FailoverPool :=
  match addrs with
  | [] => ([], p)
  | addr :: addrs' =>
    let '(pool, p) := fp_new_pool addr p in
    let '(pools, p) := new_pools addrs' p in (pool :: pools, p)
  end.

Definition FailoverPool_new (addrs : list bytes) (stateless : bool) (retry_limit : Z) : FailoverPool :=
  let p := FoPool (Cluster [] 0) stateless 0 retry_limit 0 in
  let '(pools, p) := new_pools addrs p in
  fp_set_cluster (Cluster pools 0) p.

Definition get_retry_limit (p : FailoverPool) : Z := fp_retry_limit p.

(** ** Routing *)

(** [for i in seed..seed + l]: the first healthy pool from index [i] on, in
    [n] steps. *)
Fixpoint select_from (pools : list conn_pool) (i : Z) (n : nat) : option (conn_pool * Z) :=
  match n with
  | O => None
  | S n' =>
    match pools !! Z.to_nat (i mod zlen pools) with
    | Some pool => if cp_healthy pool then Some (pool, i) else select_from pools (i + 1) n'
    | None => None
    end
  end.

(** [ClusterConfig::select]. The route is the last index used, or the counter
    [next_node]; the counter after the call is returned. *)
Definition select (c : ClusterConfig) (stateless : bool) (next_node : Z) (route : result unit Z)
    : option (conn_pool * Z) * Z :=
  let l := zlen (cl_pools c) in
  if l =? 0 then (None, next_node)
  else
    let '(seed, next_node) :=
      match route with
      | Err index => (as_usize (index + 1), next_node)
      | Ok _ => if stateless then (next_node, as_usize (next_node + 1)) else (next_node, next_node)
      end in
    let hi := as_usize (seed + l) in
    if hi <=? seed then (None, next_node)
    else (select_from (cl_pools c) seed (Z.to_nat (hi - seed)), next_node).

(** [get_by_addr], from index [i]. *)
Fixpoint get_by_addr_from (pools : list conn_pool) (i : Z) (addr : bytes) : option (conn_pool * Z) :=
  match pools with
  | [] => None
  | pool :: pools' =>
    if decide (cp_addr pool = addr) then Some (pool, i) else get_by_addr_from pools' (i + 1) addr
  end.

Definition get_by_addr (c : ClusterConfig) (addr : bytes) : option (conn_pool * Z) :=
  get_by_addr_from (cl_pools c) 0 addr.

(** [get_or_add_addr]: pool, index and version, and the pool afterwards. *)
Definition get_or_add_addr (addr : bytes) (p : FailoverPool) : conn_pool * Z * Z * FailoverPool :=
  let old := fp_cluster p in
  match get_by_addr old addr with
  | Some (pool, idx) => (pool, idx, cl_ver old, p)
  | None =>
    let '(new_pool, p) := fp_new_pool addr p in
    let new_ver := as_u64 (cl_ver old + 1) in
    (new_pool, 0, new_ver, fp_set_cluster (Cluster (new_pool :: cl_pools old) new_ver) p)
  end.

(** [AHashMap::remove] on the map from address to old pool: a later pool with
    the same address has replaced an earlier one. *)
Fixpoint take_old (addr : bytes) (old : list conn_pool) : option conn_pool :=
  match old with
  | [] => None
  | pool :: old' =>
    match take_old addr old' with
    | Some q => Some q
    | None => if decide (cp_addr pool = addr) then Some pool else None
    end
  end.

Definition drop_old (addr : bytes) (old : list conn_pool) : list conn_pool :=
  List.filter (fun q => negb (bool_decide (cp_addr q = addr))) old.

Fixpoint update_loop (addrs : list bytes) (old : list conn_pool) (p : FailoverPool)
    : list conn_pool * FailoverPool :=
  match addrs with
  | [] => ([], p)
  | addr :: addrs' =>
    match take_old addr old with
    | Some reused =>
      let '(pools, p) := update_loop addrs' (drop_old addr old) p in (reused :: pools, p)
    | None =>
      let '(pool, p) := fp_new_pool addr p in
      let '(pools, p) := update_loop addrs' old p in (pool :: pools, p)
    end
  end.

Definition update_addrs (addrs : list bytes) (p : FailoverPool) : FailoverPool :=
  let old := fp_cluster p in
  let '(pools, p) := update_loop addrs (cl_pools old) p in
  fp_set_cluster (Cluster pools (as_u64 (cl_ver old + 1))) p.

(** ** Sending *)

Inductive fo_out (T : Type) : Type :=
| FoSend (pool : conn_pool) (t : FailoverTask T)
| FoDone (t : T).
Arguments FoSend {T}.
Arguments FoDone {T}.

Section sending.
Context {T : Type} `{!ClientTask T}.

(** [send_req] (and [send_req_blocking], which differs in how it waits). *)
Definition fo_send_req (task : T) (p : FailoverPool) : fo_out T * FailoverPool :=
  let cluster := fp_cluster p in
  match select cluster (fp_stateless p) (fp_next_node p) (Ok tt) with
  | (Some (pool, index), next) =>
    (FoSend pool (FoTask index (cl_ver cluster) task 0 false 0), fp_set_next next p)
  | (None, next) => (FoDone (set_rpc_error task Unreachable), fp_set_next next p)
  end.

Definition resubmit (task : T) (addr_or_retry : result bytes Z) (retry_count : Z)
    (max_retries : option Z) (p : FailoverPool) : fo_out T * FailoverPool :=
  match addr_or_retry with
  | Ok addr =>
    let '(pool, index, conf_ver, p) := get_or_add_addr addr p in
    let p := fp_set_next index p in
    (FoSend pool (FoTask index conf_ver task retry_count false (default 0 max_retries)), p)
  | Err last_index =>
    let cluster := fp_cluster p in
    match select cluster (fp_stateless p) (fp_next_node p) (Err last_index) with
    | (Some (pool, index), next) =>
      (FoSend pool (FoTask index (cl_ver cluster) task 0 false 0), fp_set_next next p)
    | (None, next) => (FoDone (set_rpc_error task Unreachable), fp_set_next next p)
    end
  end.

(** One round of [retry_worker]; [alive]: the pool has not been dropped. *)
Definition retry_worker_step (alive : bool) (task : FailoverTask T) (p : FailoverPool)
    : fo_out T * FailoverPool :=
  if alive then
    let cluster := fp_cluster p in
    let '(task, route) :=
      if cl_ver cluster =? fo_config_ver task then (task, Err (fo_last_index task))
      else (FoTask (fo_last_index task) (cl_ver cluster) (fo_inner task) (fo_retry task)
              (fo_should_retry task) (fo_max_retries task), Ok tt) in
    match select cluster (fp_stateless p) (fp_next_node p) route with
    | (Some (pool, index), next) =>
      (FoSend pool (FoTask index (fo_config_ver task) (fo_inner task) (fo_retry task)
                      (fo_should_retry task) (fo_max_retries task)), fp_set_next next p)
    | (None, next) => (FoDone (fo_inner task), fp_set_next next p)
    end
  else (FoDone (fo_inner task), p).

End sending.

(** ** Lemmas *)

Definition pool_down (pools : list conn_pool) (i : Z) : Prop :=
  exists q, pools !! Z.to_nat (i mod zlen pools) = Some q /\ cp_healthy q = false.

Lemma pool_at (pools : list conn_pool) i :
  pools <> [] -> exists q, pools !! Z.to_nat (i mod zlen pools) = Some q.
Proof.
  intros Hne. apply lookup_lt_is_Some_2.
  assert (0 < zlen pools) by (destruct pools; [done|]; rewrite zlen_cons; pose proof (zlen_nonneg pools); lia).
  pose proof (Z.mod_pos_bound i (zlen pools) ltac:(lia)). unfold zlen in *. lia.
Qed.

Lemma select_from_spec pools i n :
  pools <> [] ->
  match select_from pools i n with
  | Some (p, j) => i <= j < i + Z.of_nat n /\ pools !! Z.to_nat (j mod zlen pools) = Some p /\
      cp_healthy p = true /\ forall k, i <= k < j -> pool_down pools k
  | None => forall k, i <= k < i + Z.of_nat n -> pool_down pools k
  end.
Proof.
  intros Hne. revert i. induction n as [|n IH]; intros i; cbn [select_from]; [lia|].
  destruct (pool_at pools i Hne) as [q Hq]. rewrite Hq. destruct (cp_healthy q) eqn:Eh.
  - split; [lia|]. split; [done|]. split; [done|]. lia.
  - specialize (IH (i + 1)). destruct (select_from pools (i + 1) n) as [[p j]|].
    + destruct IH as (Hj & Hp & Hh & Hd). split; [lia|]. split; [done|]. split; [done|].
      intros k Hk. destruct (Z.eq_dec k i) as [->|]; [by exists q|]. apply Hd. lia.
    + intros k Hk. destruct (Z.eq_dec k i) as [->|]; [by exists q|]. apply IH. lia.
Qed.

(** The index the search starts from. *)
Definition route_seed (next_node : Z) (route : result unit Z) : Z :=
  match route with Err index => index + 1 | Ok _ => next_node end.

Definition route_next (stateless : bool) (next_node : Z) (route : result unit Z) : Z :=
  match route with
  | Ok _ => if stateless then as_usize (next_node + 1) else next_node
  | Err _ => next_node
  end.

Lemma select_eq c stateless next route :
  cl_pools c <> [] -> 0 <= route_seed next route -> route_seed next route + zlen (cl_pools c) < 2 ^ 64 ->
  select c stateless next route =
    (select_from (cl_pools c) (route_seed next route) (length (cl_pools c)), route_next stateless next route).
Proof.
  intros Hne H0 Hlt. unfold select.
  assert (Hl : 0 < zlen (cl_pools c)).
  { destruct (cl_pools c); [done|]. rewrite zlen_cons. pose proof (zlen_nonneg l). lia. }
  rewrite (proj2 (Z.eqb_neq _ 0)) by lia.
  assert (Hs : (match route with
      | Ok _ => if stateless then (next, as_usize (next + 1)) else (next, next)
      | Err index => (as_usize (index + 1), next)
      end) = (route_seed next route, route_next stateless next route)).
  { destruct route as [u|i]; cbn in *; [by destruct stateless|].
    rewrite as_usize_small by (unfold is_usize; lia). done. }
  rewrite Hs. cbn zeta. rewrite as_usize_small by (unfold is_usize; lia).
  rewrite (proj2 (Z.leb_gt _ _)) by lia. repeat f_equal. unfold zlen. lia.
Qed.

(** Every position is visited by [l] consecutive indices. *)
Lemma residue_reached s l m : 0 < l -> 0 <= m < l -> exists k, s <= k < s + l /\ k mod l = m.
Proof.
  intros Hl Hm. exists (s + (m - s) mod l).
  pose proof (Z.mod_pos_bound (m - s) l Hl). split; [lia|].
  rewrite Zplus_mod_idemp_r. replace (s + (m - s)) with m by lia. by apply Z.mod_small.
Qed.

Lemma all_down pools s :
  pools <> [] -> (forall k, s <= k < s + zlen pools -> pool_down pools k) ->
  Forall (fun q => cp_healthy q = false) pools.
Proof.
  intros Hne H. apply Forall_lookup. intros i q Hq. pose proof (lookup_lt_Some _ _ _ Hq) as Hi.
  destruct (residue_reached s (zlen pools) (Z.of_nat i)) as (k & Hk & Hm); [unfold zlen; lia..|].
  destruct (H k Hk) as (q' & Hq' & Hd). rewrite Hm, Nat2Z.id in Hq'. congruence.
Qed.

Lemma same_residue l a j : 0 < l -> a + 1 <= j < a + 1 + l -> j mod l = a mod l -> j = a + l.
Proof.
  intros Hl Hj Hm. pose proof (Z.div_mod j l ltac:(lia)) as E1.
  pose proof (Z.div_mod a l ltac:(lia)) as E2. rewrite Hm in E1.
  revert E1 E2. generalize (j / l) (a / l) (a mod l). intros x y r E1 E2.
  assert (j - a = l * (x - y)) by lia. assert (x - y = 1) by nia. nia.
Qed.

(** ** Properties of routing *)

(** Routing is complete and goes in order: it fails exactly when
    there is no healthy pool, and otherwise returns the healthy pool at the
    first index, from the seed on, whose pools before it are all unhealthy. *)
Theorem select_spec c stateless next route :
  0 <= route_seed next route -> route_seed next route + zlen (cl_pools c) < 2 ^ 64 ->
  let seed := route_seed next route in
  match (select c stateless next route).1 with
  | Some (p, j) => seed <= j < seed + zlen (cl_pools c) /\
      cl_pools c !! Z.to_nat (j mod zlen (cl_pools c)) = Some p /\
      cp_healthy p = true /\ forall k, seed <= k < j -> pool_down (cl_pools c) k
  | None => Forall (fun q => cp_healthy q = false) (cl_pools c)
  end.
Proof.
  intros H0 Hlt seed. destruct (decide (cl_pools c = [])) as [He|Hne].
  { unfold select. rewrite He. cbn. constructor. }
  rewrite select_eq by done. cbn [fst].
  pose proof (select_from_spec (cl_pools c) seed (length (cl_pools c)) Hne) as Hs. fold seed.
  destruct (select_from (cl_pools c) seed (length (cl_pools c))) as [[p j]|]; [done|].
  by apply (all_down _ seed).
Qed.

(** A retry moves on: when the pool selected after [last] stands at
    the same place of the cluster, every pool at another place is unhealthy. *)
Theorem retry_avoids_last c stateless next last p j next' :
  0 <= last -> last + 1 + zlen (cl_pools c) < 2 ^ 64 ->
  select c stateless next (Err last) = (Some (p, j), next') ->
  j mod zlen (cl_pools c) = last mod zlen (cl_pools c) ->
  forall i q, cl_pools c !! i = Some q -> Z.of_nat i <> last mod zlen (cl_pools c) -> cp_healthy q = false.
Proof.
  intros H0 Hlt Hs Hj i q Hq Hi.
  assert (Hne : cl_pools c <> []) by (intros He; by rewrite He in Hq).
  rewrite (select_eq c stateless next (Err last)) in Hs by (done || (cbn; lia)). injection Hs as Hs <-.
  pose proof (select_from_spec (cl_pools c) (last + 1) (length (cl_pools c)) Hne) as Hsp.
  cbn [route_seed] in Hs. rewrite Hs in Hsp. destruct Hsp as (Hr & _ & _ & Hd).
  pose proof (lookup_lt_Some _ _ _ Hq) as Hil.
  set (l := zlen (cl_pools c)) in *. assert (Hl : 0 < l) by (unfold l, zlen; lia).
  destruct (residue_reached (last + 1) l (Z.of_nat i) Hl) as (k & Hk & Hm); [unfold l, zlen; lia|].
  assert (Hjl : j = last + l).
  { change (Z.of_nat (length (cl_pools c))) with l in Hr.
    by apply (same_residue l last j). }
  destruct (Hd k) as (q' & Hq' & Hh).
  { split; [lia|]. destruct (Z.eq_dec k j) as [->|]; [|lia].
    exfalso. apply Hi. rewrite <- Hm, <- Hj. done. }
  fold l in Hq'. rewrite Hm, Nat2Z.id in Hq'. congruence.
Qed.

(** Round robin over a healthy cluster. *)
Definition node (pools : list conn_pool) (i : Z) : conn_pool :=
  nth (Z.to_nat (i mod zlen pools)) pools (CPool 0 [] false).

Section sends.
Context {T : Type} `{!ClientTask T}.

Fixpoint send_reqs (ts : list T) (p : FailoverPool) : list (fo_out T) * FailoverPool :=
  match ts with
  | [] => ([], p)
  | t :: ts' =>
    let '(o, p) := fo_send_req t p in
    let '(os, p) := send_reqs ts' p in (o :: os, p)
  end.

Lemma fo_send_req_healthy (t : T) p :
  cl_pools (fp_cluster p) <> [] -> Forall (fun q => cp_healthy q = true) (cl_pools (fp_cluster p)) ->
  fp_stateless p = true -> 0 <= fp_next_node p ->
  fp_next_node p + zlen (cl_pools (fp_cluster p)) < 2 ^ 64 ->
  fo_send_req t p =
    (FoSend (node (cl_pools (fp_cluster p)) (fp_next_node p))
       (FoTask (fp_next_node p) (cl_ver (fp_cluster p)) t 0 false 0),
     fp_set_next (fp_next_node p + 1) p).
Proof.
  intros Hne Hall Hst H0 Hlt. unfold fo_send_req. rewrite select_eq by done. cbn [route_seed route_next].
  rewrite Hst. destruct (pool_at (cl_pools (fp_cluster p)) (fp_next_node p) Hne) as [q Hq].
  assert (Hn : node (cl_pools (fp_cluster p)) (fp_next_node p) = q).
  { unfold node. by apply nth_lookup_Some. }
  rewrite Forall_lookup in Hall. pose proof (Hall _ _ Hq) as Hh.
  assert (Hl : 0 < zlen (cl_pools (fp_cluster p))).
  { destruct (cl_pools (fp_cluster p)); [done|]. rewrite zlen_cons. pose proof (zlen_nonneg l). lia. }
  destruct (length (cl_pools (fp_cluster p))) as [|n] eqn:El; [by apply nil_length_inv in El|].
  cbn [select_from]. rewrite Hq, Hh, Hn, as_usize_small by (unfold is_usize; lia). done.
Qed.

(** The places visited by [l] consecutive indices are those of the cluster. *)
Lemma nodes_perm pools s :
  0 <= s -> map (fun k => node pools (s + Z.of_nat k)) (seq 0 (length pools)) ≡ₚ pools.
Proof.
  intros Hs. destruct (decide (pools = [])) as [->|Hne]; [done|].
  set (l := length pools).
  assert (Hl : (0 < l)%nat) by (unfold l; destruct pools; [done|cbn; lia]).
  transitivity (map (fun i => nth i pools (CPool 0 [] false)) (seq 0 l)).
  - rewrite <- (map_map (fun k => Z.to_nat ((s + Z.of_nat k) mod zlen pools))
                  (fun i => nth i pools (CPool 0 [] false))).
    apply Permutation_map. apply NoDup_Permutation_bis.
    + apply NoDup_ListNoDup, NoDup_fmap_2_strong; [|apply NoDup_seq].
      intros x y Hx Hy E. apply elem_of_seq in Hx, Hy. unfold zlen in *. fold l in E.
      pose proof (Z.mod_pos_bound (s + Z.of_nat x) (Z.of_nat l) ltac:(lia)).
      pose proof (Z.mod_pos_bound (s + Z.of_nat y) (Z.of_nat l) ltac:(lia)).
      assert (Em : (s + Z.of_nat x) mod Z.of_nat l = (s + Z.of_nat y) mod Z.of_nat l) by lia.
      destruct (Z.lt_trichotomy (Z.of_nat x) (Z.of_nat y)) as [Hlt|[|Hgt]]; [|lia|].
      * pose proof (same_residue (Z.of_nat l) (s + Z.of_nat x) (s + Z.of_nat y)) as Hr. lia.
      * pose proof (same_residue (Z.of_nat l) (s + Z.of_nat y) (s + Z.of_nat x)) as Hr. lia.
    + rewrite length_map. done.
    + intros i Hi. apply in_map_iff in Hi as (k & <- & _). apply in_seq. unfold zlen. fold l.
      pose proof (Z.mod_pos_bound (s + Z.of_nat k) (Z.of_nat l) ltac:(lia)). lia.
  - unfold l. clear. induction pools as [|q pools IH]; [done|].
    cbn [length seq map nth]. rewrite <- seq_shift, map_map. cbn [nth]. by rewrite IH.
Qed.

(** The outputs of a round-robin run from index [i]. *)
Fixpoint rr_outs (p : FailoverPool) (i : Z) (ts : list T) : list (fo_out T) :=
  match ts with
  | [] => []
  | t :: ts' =>
    FoSend (node (cl_pools (fp_cluster p)) i) (FoTask i (cl_ver (fp_cluster p)) t 0 false 0)
      :: rr_outs p (i + 1) ts'
  end.

Lemma rr_outs_set_next n p i ts : rr_outs (fp_set_next n p) i ts = rr_outs p i ts.
Proof. revert i. induction ts as [|t ts IH]; [done|]. intros i. cbn. by rewrite IH. Qed.

Lemma send_reqs_healthy ts p :
  cl_pools (fp_cluster p) <> [] -> Forall (fun q => cp_healthy q = true) (cl_pools (fp_cluster p)) ->
  fp_stateless p = true -> 0 <= fp_next_node p ->
  fp_next_node p + zlen ts + zlen (cl_pools (fp_cluster p)) < 2 ^ 64 ->
  send_reqs ts p = (rr_outs p (fp_next_node p) ts, fp_set_next (fp_next_node p + zlen ts) p).
Proof.
  revert p. induction ts as [|t ts IH]; intros p Hne Hall Hst H0 Hlt; cbn [send_reqs rr_outs].
  { rewrite zlen_nil, Z.add_0_r. by destruct p. }
  rewrite zlen_cons in *. pose proof (zlen_nonneg ts).
  rewrite fo_send_req_healthy by (done || lia).
  rewrite IH; cbn [fp_set_next fp_cluster fp_next_node fp_stateless]; [|done|done|done|lia|lia].
  rewrite rr_outs_set_next. unfold fp_set_next; cbn. do 2 f_equal. lia.
Qed.

(** The pool a task went to. *)
Definition out_pool (o : fo_out T) : option conn_pool :=
  match o with FoSend q _ => Some q | FoDone _ => None end.

(** In the stateless mode, with every pool healthy, requests are spread
    evenly: any [l] consecutive requests over a cluster of [l] pools are sent
    to each of them exactly once. *)
Theorem round_robin_fair ts p :
  length ts = length (cl_pools (fp_cluster p)) ->
  Forall (fun q => cp_healthy q = true) (cl_pools (fp_cluster p)) ->
  fp_stateless p = true -> 0 <= fp_next_node p ->
  fp_next_node p + zlen ts + zlen (cl_pools (fp_cluster p)) < 2 ^ 64 ->
  omap out_pool (send_reqs ts p).1 ≡ₚ cl_pools (fp_cluster p).
Proof.
  intros Hlen Hall Hst H0 Hlt. destruct (decide (cl_pools (fp_cluster p) = [])) as [He|Hne].
  { rewrite He in *. by destruct ts. }
  rewrite send_reqs_healthy by done. cbn [fst].
  etransitivity; [|by apply (nodes_perm _ (fp_next_node p))].
  rewrite <- Hlen. match goal with |- ?l ≡ₚ ?r => assert (l = r) as ->; [|done] end.
  clear. generalize (fp_next_node p). induction ts as [|t ts IH]; intros i; [done|].
  cbn [rr_outs length seq map omap list_omap out_pool]. rewrite Z.add_0_r. f_equal.
  rewrite <- seq_shift, map_map. etransitivity; [apply (IH (i + 1))|].
  apply map_ext. intros k. f_equal. lia.
Qed.

End sends.

(** ** The life of a request *)
Section drive.
Context {T : Type} `{!ClientTask T}.

(** How an attempt ends, and the cluster the retry worker then finds. *)
Inductive attempt : Type :=
| AtOk
| AtCustom (e : EncodedErr)
| AtRpc (e : RpcIntErr) (cluster : ClusterConfig).

(** The pools a request is sent to, attempt after attempt, and the task as it
    is handed to the user ([None]: the last attempt is still running). *)
Fixpoint fo_drive (rs : list attempt) (o : fo_out T) (p : FailoverPool) : list conn_pool * option T :=
  match o with
  | FoDone t => ([], Some t)
  | FoSend pool t =>
    match rs with
    | [] => ([pool], None)
    | r :: rs' =>
      match r with
      | AtOk => ([pool], Some (fo_inner (set_ok t)))
      | AtCustom e =>
        ([pool], Some (fo_inner (ev_task (fo_error_handle (fp_retry_limit p) true
                                            (set_custom_error t e 0 0)))))
      | AtRpc e cluster =>
        match fo_error_handle (fp_retry_limit p) true (set_rpc_error t e) with
        | EvDone t => ([pool], Some (fo_inner t))
        | EvRetry t =>
          let '(o, p) := retry_worker_step true t (fp_set_cluster cluster p) in
          let '(sends, res) := fo_drive rs' o p in (pool :: sends, res)
        end
      end
    end
  end.

(** Whether an error leads to another attempt. *)
Definition retriable (e : RpcIntErr) : bool := RpcIntErr_ltb e Method.

Lemma fo_error_handle_rpc limit (t : FailoverTask T) e :
  fo_error_handle limit true (fo_set_rpc_error t e) =
    if retriable e &&
       (as_usize (fo_retry t + 1) <=? (if 0 <? fo_max_retries t then fo_max_retries t else limit))
    then EvRetry (fo_set_rpc_error t e) else EvDone (fo_set_rpc_error t e).
Proof. unfold fo_error_handle, fo_set_rpc_error, retriable. by destruct (RpcIntErr_ltb e Method). Qed.

Lemma retry_worker_keeps (t : FailoverTask T) p :
  fp_retry_limit (retry_worker_step true t p).2 = fp_retry_limit p /\
  match (retry_worker_step true t p).1 with
  | FoSend _ t' => fo_retry t' = fo_retry t /\ fo_max_retries t' = fo_max_retries t
  | FoDone t' => t' = fo_inner t
  end.
Proof.
  unfold retry_worker_step. destruct (cl_ver (fp_cluster p) =? fo_config_ver t); cbn;
    match goal with |- context [select ?c ?s ?n ?r] => destruct (select c s n r) as [[[q i]|] n'] end; done.
Qed.

Lemma fo_drive_bound rs o p k :
  0 <= fp_retry_limit p < 2 ^ 64 - 1 -> 0 <= k <= fp_retry_limit p ->
  match o with FoSend _ t => fo_retry t = k /\ fo_max_retries t = 0 | FoDone _ => True end ->
  zlen (fo_drive rs o p).1 <= fp_retry_limit p + 1 - k /\
  (fp_retry_limit p + 1 - k <= zlen rs -> is_Some (fo_drive rs o p).2).
Proof.
  revert o p k. induction rs as [|r rs IH]; intros o p k Hlim Hk Ho.
  { destruct o as [pool t|t]; cbn; unfold zlen; cbn; [|split; [lia|eauto]]. split; [lia|]. lia. }
  destruct o as [pool t|t]; [|cbn; unfold zlen; cbn; split; [lia|eauto]].
  destruct Ho as [Hr Hmax].
  destruct r as [|e|e cl]; [cbn; unfold zlen; cbn; split; [lia|eauto]..|].
  cbn [fo_drive]. change (set_rpc_error t e) with (fo_set_rpc_error t e).
  rewrite fo_error_handle_rpc, Hr, Hmax. cbn [Z.ltb Z.compare].
  rewrite as_usize_small by (unfold is_usize; lia).
  destruct (retriable e && (k + 1 <=? fp_retry_limit p)) eqn:Eb;
    [|cbn; unfold zlen; cbn; split; [lia|eauto]].
  apply andb_true_iff in Eb as [Ere Ek]. apply Z.leb_le in Ek.
  set (t' := fo_set_rpc_error t e). set (p' := fp_set_cluster cl p).
  pose proof (retry_worker_keeps t' p') as [Hl Ht].
  destruct (retry_worker_step true t' p') as [o' p''] eqn:Es. cbn in Hl, Ht.
  destruct (IH o' p'' (k + 1)) as [Hb Hs]; [lia|lia| |].
  { destruct o' as [q t''|]; [|done]. destruct Ht as [-> ->]. unfold t', fo_set_rpc_error.
    unfold retriable in Ere. rewrite Ere. cbn.
    rewrite as_usize_small by (unfold is_usize; lia). split; [lia|done]. }
  destruct (fo_drive rs o' p'') as [sends res]. cbn in *. rewrite Hl in *.
  rewrite !zlen_cons. split; [lia|]. intros ?. apply Hs. lia.
Qed.

(** C34. Retrying is bounded and always ends: a request is sent at most
    [retry_limit + 1] times, whatever the outcomes of the attempts and however
    the cluster changes between them, and once that many attempts have ended
    the user has the task back. *)
Theorem failover_attempts_bounded rs (t : T) p :
  0 <= fp_retry_limit p < 2 ^ 64 - 1 ->
  let '(o, p') := fo_send_req t p in
  zlen (fo_drive rs o p').1 <= fp_retry_limit p + 1 /\
  (fp_retry_limit p + 1 <= zlen rs -> is_Some (fo_drive rs o p').2).
Proof.
  intros Hlim. unfold fo_send_req.
  destruct (select _ _ _ _) as [[[pool i]|] next];
    match goal with |- context [fo_drive rs ?o ?q] =>
      destruct (fo_drive_bound rs o q 0) as [Hb Hs]; [done|cbn; lia|done|] end;
    cbn [fp_retry_limit fp_set_next] in *; (split; [lia|intros; apply Hs; lia]).
Qed.

(** Only connectivity errors are retried: after an attempt the task
    goes to the retry worker exactly when the error is [Unreachable], [IO] or
    [Timeout] and its retries, this one counted, are within its own limit or
    the pool's; a user error never is, and carries the pool index and cluster
    version it came from. *)
Theorem error_handle_decision limit (t : FailoverTask T) e x i v :
  0 <= fo_retry t < 2 ^ 64 - 1 ->
  (fo_error_handle limit true (fo_set_rpc_error t e) = EvRetry (fo_set_rpc_error t e) <->
     (e = Unreachable \/ e = IO \/ e = Timeout) /\
     fo_retry t + 1 <= (if 0 <? fo_max_retries t then fo_max_retries t else limit)) /\
  (exists t', fo_error_handle limit true (fo_set_custom_error t x i v) = EvDone t' /\
     fo_inner t' = set_custom_error (fo_inner t) x (fo_last_index t) (fo_config_ver t)).
Proof.
  intros Hr. split; [|eexists; split; [reflexivity|done]].
  rewrite fo_error_handle_rpc, as_usize_small by (unfold is_usize; lia).
  rewrite <- retriable_iff. unfold retriable.
  destruct (RpcIntErr_ltb e Method); cbn [andb]; [|split; [done|intros [? _]; done]].
  destruct (Z.leb_spec (fo_retry t + 1) (if 0 <? fo_max_retries t then fo_max_retries t else limit));
    (split; [intros Hx|intros [_ Hx]]); try done; lia.
Qed.

End drive.

(** ** Changing the cluster *)

(** Pools are distinct objects, created before now. *)
Definition pools_inv (p : FailoverPool) : Prop :=
  NoDup (map cp_id (cl_pools (fp_cluster p))) /\
  Forall (fun q => cp_id q < fp_fresh p) (cl_pools (fp_cluster p)).

Lemma get_by_addr_from_spec pools i addr :
  match get_by_addr_from pools i addr with
  | Some (q, j) => exists n, j = i + Z.of_nat n /\ pools !! n = Some q /\ cp_addr q = addr
  | None => Forall (fun q => cp_addr q <> addr) pools
  end.
Proof.
  revert i. induction pools as [|q pools IH]; intros i; cbn; [constructor|].
  case_decide as Hd; [exists 0%nat; rewrite Z.add_0_r; done|].
  specialize (IH (i + 1)). destruct (get_by_addr_from pools (i + 1) addr) as [[q' j]|].
  - destruct IH as (n & -> & Hl & Ha). exists (S n). split; [lia|done].
  - by constructor.
Qed.

(** [get_or_add_addr] gives a pool of that address that is in the
    cluster at the index returned, under the version returned. A known address
    changes nothing; a new one is put in front, keeps every other pool, and
    changes the version. *)
Theorem get_or_add_addr_spec addr p :
  let '(pool, idx, ver, p') := get_or_add_addr addr p in
  cp_addr pool = addr /\ 0 <= idx /\
  cl_pools (fp_cluster p') !! Z.to_nat idx = Some pool /\ cl_ver (fp_cluster p') = ver /\
  match get_by_addr (fp_cluster p) addr with
  | Some _ => p' = p
  | None => cl_pools (fp_cluster p') = pool :: cl_pools (fp_cluster p) /\ cp_healthy pool = true /\
      ver = as_u64 (cl_ver (fp_cluster p) + 1)
  end /\
  (pools_inv p -> pools_inv p').
Proof.
  unfold get_or_add_addr. pose proof (get_by_addr_from_spec (cl_pools (fp_cluster p)) 0 addr) as Hg.
  unfold get_by_addr in *.
  destruct (get_by_addr_from (cl_pools (fp_cluster p)) 0 addr) as [[q j]|].
  - destruct Hg as (n & -> & Hl & Ha). rewrite Z.add_0_l, Nat2Z.id. split; [done|]. split; [lia|done].
  - cbn. split; [done|]. split; [lia|]. do 3 (split; [done|]).
    intros [Hnd Hf]. split; cbn.
    + apply NoDup_cons. split; [|done]. intros Hin. apply list_elem_of_fmap in Hin as (q & Hq & Hin).
      rewrite Forall_forall in Hf. specialize (Hf q Hin). lia.
    + constructor; cbn; [lia|]. eapply Forall_impl; [exact Hf|]. cbn. lia.
Qed.

(** A redirect makes its target the leader: after [resubmit] to an
    address in the stateful mode, the request has gone to a pool of that
    address, and so does the next request, as long as that pool is healthy. *)
Theorem resubmit_sets_leader {T} `{!ClientTask T} (t t2 : T) addr retry mr p :
  fp_stateless p = false -> zlen (cl_pools (fp_cluster p)) < 2 ^ 62 ->
  let '(o, p') := resubmit t (Ok addr) retry mr p in
  match o with
  | FoSend pool _ => cp_addr pool = addr /\
      (cp_healthy pool = true ->
       match (fo_send_req t2 p').1 with FoSend q _ => q = pool | FoDone _ => False end)
  | FoDone _ => False
  end.
Proof.
  intros Hst Hlen. unfold resubmit. pose proof (get_or_add_addr_spec addr p) as H.
  destruct (get_or_add_addr addr p) as [[[pool idx] ver] p'] eqn:E.
  destruct H as (Ha & Hi & Hl & _). split; [done|]. intros Hh.
  assert (Hst' : fp_stateless p' = false /\ zlen (cl_pools (fp_cluster p')) < 2 ^ 62 + 1).
  { unfold get_or_add_addr in E. destruct (get_by_addr (fp_cluster p) addr) as [[q j]|]; cbn in E;
      simplify_eq; cbn; rewrite ?zlen_cons; split; done || lia. }
  destruct Hst' as [Hst' Hlen']. pose proof (lookup_lt_Some _ _ _ Hl) as Hlt.
  assert (Hidx : 0 <= idx < zlen (cl_pools (fp_cluster p'))) by (unfold zlen; lia).
  unfold fo_send_req. cbn [fp_cluster fp_stateless fp_next_node fp_set_next].
  rewrite select_eq; cbn [route_seed]; [|by intros He; rewrite He in Hl|lia|lia].
  destruct (length (cl_pools (fp_cluster p'))) as [|n] eqn:En; [lia|]. cbn [select_from].
  rewrite Z.mod_small by done. rewrite Hl, Hh. done.
Qed.

Lemma take_old_spec addr old :
  match take_old addr old with
  | Some q => q ∈ old /\ cp_addr q = addr
  | None => Forall (fun q => cp_addr q <> addr) old
  end.
Proof.
  induction old as [|q old IH]; [constructor|]. cbn [take_old].
  destruct (take_old addr old) as [q'|].
  - destruct IH. split; [by right|done].
  - case_decide; [split; [left|done]|by constructor].
Qed.

Lemma drop_old_in addr old q : q ∈ drop_old addr old <-> q ∈ old /\ cp_addr q <> addr.
Proof.
  unfold drop_old. rewrite !list_elem_of_In, filter_In, negb_true_iff, bool_decide_eq_false. done.
Qed.

Lemma NoDup_map_sublist {A B} (f : A -> B) (g : A -> bool) l :
  NoDup (map f l) -> NoDup (map f (List.filter g l)).
Proof.
  induction l as [|a l IH]; [done|]. cbn. intros [Ha Hl]%NoDup_cons. destruct (g a); [|auto].
  apply NoDup_cons. split; [|auto]. intros Hin. apply Ha.
  apply list_elem_of_fmap in Hin as (b & -> & Hb). apply list_elem_of_fmap. exists b.
  split; [done|]. apply list_elem_of_In, filter_In in Hb as [Hb _]. by apply list_elem_of_In.
Qed.

Lemma same_key_same_pool {B} (f : conn_pool -> B) (l : list conn_pool) q q' :
  NoDup (map f l) -> q ∈ l -> q' ∈ l -> f q = f q' -> q = q'.
Proof.
  intros Hnd (i & Hi)%list_elem_of_lookup_1 (j & Hj)%list_elem_of_lookup_1 He.
  assert (i = j); [|congruence]. apply (NoDup_lookup (map f l) i j (f q)); [done| |];
    rewrite list_lookup_fmap; [rewrite Hi|rewrite Hj]; cbn; congruence.
Qed.

(** What the loop of [update_addrs] makes of the old pools. *)
Record update_ok (addrs : list bytes) (old : list conn_pool) (p : FailoverPool)
    (pools : list conn_pool) (p' : FailoverPool) : Prop := UpdateOk {
  up_addrs : map cp_addr pools = addrs;
  up_fresh : fp_fresh p <= fp_fresh p' /\ fp_cluster p' = fp_cluster p;
  up_from : Forall (fun q => q ∈ old \/ fp_fresh p <= cp_id q < fp_fresh p') pools;
  up_nodup : NoDup (map cp_id old) -> Forall (fun q => cp_id q < fp_fresh p) old ->
    NoDup (map cp_id pools);
  up_reused : NoDup (map cp_addr old) -> Forall (fun q => cp_addr q ∈ addrs -> q ∈ pools) old;
}.

Lemma update_loop_ok addrs old p :
  update_ok addrs old p (update_loop addrs old p).1 (update_loop addrs old p).2.
Proof.
  revert old p. induction addrs as [|addr addrs IH]; intros old p; cbn [update_loop].
  { constructor; cbn; try done; try lia; try constructor. intros _.
    apply Forall_forall. intros q _ Hq. by apply elem_of_nil in Hq. }
  pose proof (take_old_spec addr old) as Ht. destruct (take_old addr old) as [reused|].
  - destruct Ht as [Hin Ha]. destruct (IH (drop_old addr old) p) as [Had Hfr Hfrom Hnd Hre].
    destruct (update_loop addrs (drop_old addr old) p) as [pools p']. cbn in *.
    rewrite Forall_forall in Hfrom. constructor; cbn; [by f_equal|done| | |].
    + apply Forall_forall. intros q [->|Hq]%elem_of_cons; [by left|].
      destruct (Hfrom q Hq) as [Hq'|]; [|by right]. apply drop_old_in in Hq' as [? _]. by left.
    + intros Hids Hlt. apply NoDup_cons. split.
      * intros (q & Hq & Hqin)%list_elem_of_fmap. rewrite Forall_forall in Hlt.
        destruct (Hfrom q Hqin) as [[Hq' Hne]%drop_old_in|]; [|specialize (Hlt _ Hin); lia].
        apply Hne. by rewrite <- (same_key_same_pool cp_id old reused q).
      * apply Hnd; [by apply NoDup_map_sublist|]. apply Forall_forall. intros q [Hq _]%drop_old_in.
        rewrite Forall_forall in Hlt. auto.
    + intros Hads. apply Forall_forall. intros q Hq Hqa. destruct (decide (cp_addr q = addr)) as [He|Hne].
      * assert (q = reused) as -> by (apply (same_key_same_pool cp_addr old); congruence). left.
      * right. assert (Hd := NoDup_map_sublist cp_addr (fun q => negb (bool_decide (cp_addr q = addr))) old Hads).
        specialize (Hre Hd). rewrite Forall_forall in Hre. apply Hre; [by apply drop_old_in|].
        by apply elem_of_cons in Hqa as [|].
  - destruct (IH old (fp_new_pool addr p).2) as [Had Hfr Hfrom Hnd Hre]. cbn [fp_new_pool snd] in *.
    destruct (update_loop addrs old (FoPool (fp_cluster p) (fp_stateless p) (fp_next_node p)
      (fp_retry_limit p) (fp_fresh p + 1))) as [pools p']. cbn in *.
    rewrite Forall_forall in Hfrom, Ht. constructor; cbn; [by f_equal|split; [lia|tauto]| | |].
    + apply Forall_forall. intros q [->|Hq]%elem_of_cons; cbn; [right; lia|].
      destruct (Hfrom q Hq); [by left|right; lia].
    + intros Hids Hlt. rewrite Forall_forall in Hlt. apply NoDup_cons. split.
      * intros (q & Hq & Hqin)%list_elem_of_fmap.
        destruct (Hfrom q Hqin) as [Hq'|]; [specialize (Hlt _ Hq')|]; lia.
      * apply Hnd; [done|]. apply Forall_forall. intros q Hq. specialize (Hlt _ Hq). lia.
    + intros Hads. specialize (Hre Hads). rewrite Forall_forall in Hre. apply Forall_forall.
      intros q Hq [He|Hin]%elem_of_cons; [by destruct (Ht q Hq)|]. right. auto.
Qed.

(** [update_addrs] makes the cluster serve exactly the given
    addresses, in the given order and under a new version: every pool is one of
    the old cluster or a new object, no object appears twice, and an old pool
    whose address is still wanted is kept, with its health and its
    connections. *)
Theorem update_addrs_spec addrs p :
  let p' := update_addrs addrs p in
  map cp_addr (cl_pools (fp_cluster p')) = addrs /\
  cl_ver (fp_cluster p') = as_u64 (cl_ver (fp_cluster p) + 1) /\
  Forall (fun q => q ∈ cl_pools (fp_cluster p) \/ fp_fresh p <= cp_id q) (cl_pools (fp_cluster p')) /\
  (pools_inv p -> NoDup (map cp_id (cl_pools (fp_cluster p')))) /\
  (NoDup (map cp_addr (cl_pools (fp_cluster p))) ->
   forall q, q ∈ cl_pools (fp_cluster p) -> cp_addr q ∈ addrs -> q ∈ cl_pools (fp_cluster p')).
Proof.
  cbn zeta. unfold update_addrs.
  destruct (update_loop_ok addrs (cl_pools (fp_cluster p)) p) as [Had _ Hfrom Hnd Hre].
  destruct (update_loop addrs (cl_pools (fp_cluster p)) p) as [pools p']. cbn in *.
  split; [done|]. split; [done|]. split.
  { eapply Forall_impl; [exact Hfrom|]. cbn. intros q [?|?]; [by left|right; lia]. }
  split; [intros [? ?]; auto|]. intros Hads q Hq Ha. specialize (Hre Hads).
  rewrite Forall_forall in Hre. auto.
Qed.

(** ** Concrete instances *)

Module FailoverWitness.

Definition a1 : bytes := str_bytes "10.0.0.1:80"%string.
Definition a2 : bytes := str_bytes "10.0.0.2:80"%string.
Definition a3 : bytes := str_bytes "10.0.0.3:80"%string.
(** Three nodes, the first one down. *)
Definition q1 : conn_pool := CPool 0 a1 false.
Definition q2 : conn_pool := CPool 1 a2 true.
Definition q3 : conn_pool := CPool 2 a3 true.
Definition cluster : ClusterConfig := Cluster [q1; q2; q3] 0.
Definition leader_pool : FailoverPool := FoPool cluster false 0 2 3.
(** All nodes up, round robin. *)
Definition rr_pool : FailoverPool := FoPool (Cluster [q2; q3] 0) true 5 2 3.

Lemma select_spec_witness :
  (select cluster false 0 (Ok tt)).1 = Some (q2, 1) /\ pool_down (cl_pools cluster) 0.
Proof.
  split; [reflexivity|].
  apply (select_spec cluster false 0 (Ok tt)); [vm_compute; congruence|vm_compute; reflexivity|vm_compute; split; congruence].
Defined.

Lemma retry_avoids_last_witness : cp_healthy q1 = false.
Proof.
  apply (retry_avoids_last (Cluster [q1; q2] 0) false 0 1 q2 3 0 ltac:(lia) ltac:(vm_compute; reflexivity)
    eq_refl eq_refl 0%nat q1 eq_refl).
  vm_compute. congruence.
Defined.

Lemma round_robin_fair_witness :
  omap out_pool (send_reqs [sample_task 1; sample_task 2] rr_pool).1 ≡ₚ [q2; q3].
Proof.
  apply (round_robin_fair [sample_task 1; sample_task 2] rr_pool).
  - reflexivity.
  - repeat constructor.
  - reflexivity.
  - vm_compute. congruence.
  - vm_compute. reflexivity.
Defined.

Definition io_err : attempt := AtRpc IO cluster.

Lemma failover_attempts_bounded_witness :
  is_Some (fo_drive [io_err; io_err; io_err] (fo_send_req (sample_task 1) leader_pool).1 leader_pool).2.
Proof.
  apply (failover_attempts_bounded [io_err; io_err; io_err] (sample_task 1) leader_pool);
    vm_compute; (split || idtac); congruence.
Defined.

Definition sent_task : FailoverTask APIClientReq := FoTask 1 0 (sample_task 1) 0 false 0.

Lemma error_handle_decision_witness :
  fo_error_handle 2 true (fo_set_rpc_error sent_task Timeout) = EvRetry (fo_set_rpc_error sent_task Timeout).
Proof.
  apply (error_handle_decision 2 sent_task Timeout (ENum 0) 0 0).
  - vm_compute. split; congruence.
  - split; [right; right; reflexivity|]. vm_compute. congruence.
Defined.

Lemma get_or_add_addr_spec_witness :
  let '(pool, idx, ver, p') := get_or_add_addr a1 rr_pool in
  cp_addr pool = a1 /\ idx = 0 /\ ver = 1 /\ pools_inv p'.
Proof.
  pose proof (get_or_add_addr_spec a1 rr_pool) as H. revert H. vm_compute get_or_add_addr.
  intros (Ha & _ & _ & _ & _ & Hi). split; [exact Ha|]. split; [reflexivity|]. split; [reflexivity|].
  apply Hi. split; [|repeat constructor].
  vm_compute. repeat constructor; intros H; repeat (apply elem_of_cons in H as [H|H]; [discriminate|]);
    by apply elem_of_nil in H.
Defined.

Lemma resubmit_sets_leader_witness :
  match (fo_send_req (sample_task 2) (resubmit (sample_task 1) (Ok a3) 1 None leader_pool).2).1 with
  | FoSend q _ => q = q3
  | FoDone _ => False
  end.
Proof.
  apply (resubmit_sets_leader (sample_task 1) (sample_task 2) a3 1 None leader_pool); reflexivity.
Defined.

Lemma update_addrs_spec_witness :
  map cp_addr (cl_pools (fp_cluster (update_addrs [a3; a1] rr_pool))) = [a3; a1] /\
  q3 ∈ cl_pools (fp_cluster (update_addrs [a3; a1] rr_pool)).
Proof.
  destruct (update_addrs_spec [a3; a1] rr_pool) as (Ha & _ & _ & _ & Hk). split; [exact Ha|].
  apply Hk; [|right; left|left].
  repeat constructor; intros H; repeat (apply elem_of_cons in H as [H|H]; [discriminate|]);
    by apply elem_of_nil in H.
Defined.

End FailoverWitness.
