(* ===== verification/ApiCall.v ===== *)
(** * Calls of the API client (src/client/mod.rs)

    [APIClientCaller::call] over a single pool and over a failover pool. What
    comes back for a task that was sent is the parameter [await]: the task with
    its result through the one-shot channel, or nothing when the task was
    dropped; the pool may change meanwhile. *)
From Stdlib Require Import ZArith Lia Strings.String.
From stdpp Require Import base list.
From S2P Require Import Prelude Errors Codec Task ApiClient Failover.
Local Open Scope Z_scope.
Local Open Scope rpc_scope.

Section call.
Context {Resp E : Type} `{!Codec Resp} `{!RpcErrCodec E} (default_resp : Resp).

Abbreviation call_result := (result Resp (RpcError E)).

(** [call] over a [ConnPool], after the wait. *)
Definition pool_call (reply : option APIClientReq) : may call_result :=
  match reply with
  | Some task => let? (_, r) := process_res default_resp task in Ret r
  | None => Ret (Err (Rpc Internal))
  end.

(** What the loop of [call] does with a task that came back. *)
Inductive call_next : Type :=
| CallReturn (r : call_result)
| CallResubmit (task : APIClientReq) (addr_or_retry : result bytes Z) (retry_count : Z).

Definition call_decide (max_retries retry_count : Z) (task : APIClientReq)
    : may (call_result * call_next) :=
  let? (task, r) := process_res default_resp task in
  match r with
  | Ok resp => Ret (r, CallReturn (Ok resp))
  | Err (Rpc e) => Ret (r, CallReturn (Err (Rpc e)))
  | Err (User e) =>
    let retry_count := retry_count + 1 in
    match should_failover e with
    | Ok (Some redirect_addr) =>
      if retry_count <? max_retries
      then Ret (r, CallResubmit (api_set_noti task) (Ok redirect_addr) retry_count)
      else Ret (r, CallReturn (Err (User e)))
    | Ok None =>
      if retry_count <? max_retries
      then Ret (r, CallResubmit (api_set_noti task) (Err (api_last_index task)) retry_count)
      else Ret (r, CallReturn (Err (User e)))
    | Err _ => Ret (r, CallReturn (Err (User e)))
    end
  end.

(** What was sent, and the result that came back for it. *)
Definition call_log : Type := list (fo_out APIClientReq * option call_result).

Context (await : nat -> fo_out APIClientReq -> FailoverPool -> option APIClientReq * FailoverPool).

(** The loop of [call] over a [FailoverPool]; [n] is the fuel, [k] counts the
    waits. [None]: out of fuel. *)
Fixpoint call_loop (n k : nat) (max_retries retry_count : Z) (out : fo_out APIClientReq)
    (p : FailoverPool) : may (option call_result * FailoverPool * call_log) :=
  match n with
  | O => Ret (None, p, [])
  | S n' =>
    match await k out p with
    | (None, p) => Ret (Some (Err (Rpc Internal)), p, [(out, None)])
    | (Some task, p) =>
      let? (r, next) := call_decide max_retries retry_count task in
      match next with
      | CallReturn r' => Ret (Some r', p, [(out, Some r)])
      | CallResubmit task addr_or_retry retry_count =>
        let '(out', p) := resubmit task addr_or_retry retry_count None p in
        let? (res, p, log) := call_loop n' (S k) max_retries retry_count out' p in
        Ret (res, p, (out, Some r) :: log)
      end
    end
  end.

Definition failover_call {Req} `{!Codec Req} (n : nat) (service_method : bytes) (req : Req)
    (p : FailoverPool) : may (option call_result * FailoverPool * call_log) :=
  let max_retries := get_retry_limit p in
  let? task := APIClientReq_new service_method req in
  let '(out, p) := fo_send_req (api_set_noti task) p in
  call_loop n 0 max_retries 0 out p.

(** ** Lemmas *)

(** A task with a result [process_res] accepts. *)
Definition has_result (t : APIClientReq) : Prop :=
  match api_res t with Some (Err (EStatic _)) | None => False | Some _ => True end.

Lemma process_res_total t : has_result t -> exists t' r, process_res default_resp t = Ret (t', r).
Proof.
  unfold has_result, process_res. destruct (api_res t) as [[u|[e|n|s|b]]|]; cbn [may_bind unwrap]; try done; intros _.
  - destruct (api_resp _); [destruct (codec_decode _)|]; eauto.
  - eauto.
  - destruct (err_decode _); eauto.
  - destruct (err_decode _); eauto.
Qed.

(** The result says the caller should try elsewhere. *)
Definition wants_failover (r : call_result) : bool :=
  match r with
  | Err (User e) => match should_failover e with Ok _ => true | Err _ => false end
  | _ => false
  end.

(** Every result but the last asked for another attempt, and a redirect was
    followed by sending to its address. *)
Fixpoint redirects_followed (log : call_log) : Prop :=
  match log with
  | (_, r) :: rest =>
    match rest with
    | [] => True
    | (out', _) :: _ =>
      match r with
      | Some (Err (User e)) =>
        match should_failover e with
        | Ok (Some addr) => exists pool t, out' = FoSend pool t /\ cp_addr pool = addr
        | Ok None => True
        | Err _ => False
        end
      | _ => False
      end /\ redirects_followed rest
    end
  | [] => True
  end.

Lemma resubmit_addr {T} `{!ClientTask T} (task : T) addr rc mr p :
  exists pool t, (resubmit task (Ok addr) rc mr p).1 = FoSend pool t /\ cp_addr pool = addr.
Proof.
  unfold resubmit, get_or_add_addr, get_by_addr.
  pose proof (get_by_addr_from_spec (cl_pools (fp_cluster p)) 0 addr) as H.
  destruct (get_by_addr_from (cl_pools (fp_cluster p)) 0 addr) as [[pool i]|]; cbn.
  - destruct H as (n & _ & _ & Ha). by eexists _, _.
  - by eexists _, _.
Qed.

(** What [call_decide] decides, case by case. *)
Lemma call_decide_cases max rc t :
  has_result t ->
  exists r, (call_decide max rc t = Ret (r, CallReturn r) /\
      (wants_failover r = true -> max <= rc + 1)) \/
    (rc + 1 < max /\ exists t' dest, call_decide max rc t = Ret (r, CallResubmit t' dest (rc + 1)) /\
      exists e, r = Err (User e) /\
      match dest with Ok addr => should_failover e = Ok (Some addr) | Err _ => should_failover e = Ok None end).
Proof.
  intros Ht. destruct (process_res_total t Ht) as (t' & r & Ep). exists r.
  unfold call_decide, wants_failover. rewrite Ep. cbn [may_bind].
  destruct r as [v|[e|e]]; [by left| |by left].
  destruct (should_failover e) as [[addr|]|[]] eqn:Ef; [| |by left].
  all: destruct (Z.ltb_spec (rc + 1) max); [right|by left].
  all: split; [done|]; eexists _, _; split; [done|]; by exists e.
Qed.

(** The answer the caller gets for the last result. *)
Definition call_answer (o : option call_result) : call_result := default (Err (Rpc Internal)) o.

Lemma call_loop_spec n k max rc out p :
  (forall k out p t, (await k out p).1 = Some t -> has_result t) ->
  0 <= rc -> max - rc <= Z.of_nat n -> (0 < n)%nat ->
  exists p' log last o,
    call_loop n k max rc out p = Ret (Some (call_answer last), p', log ++ [(o, last)]) /\
    (exists r0 rest, log ++ [(o, last)] = (out, r0) :: rest) /\
    redirects_followed (log ++ [(o, last)]) /\
    rc + zlen log < Z.max (rc + 1) max /\
    (wants_failover (call_answer last) = true -> max <= rc + zlen log + 1).
Proof.
  intros Hr. revert k rc out p. induction n as [|n IH]; intros k rc out p H0 Hn Hp; [lia|].
  cbn [call_loop]. pose proof (Hr k out p) as Ht. destruct (await k out p) as [[t|] p1]; cbn [fst] in Ht.
  - destruct (call_decide_cases max rc t (Ht t eq_refl)) as (r & [(Ec & Hw)|(Hlt & t' & dest & Ec & e & -> & Hd)]);
      rewrite Ec; cbn [may_bind].
    + exists p1, [], (Some r), out. cbn. split; [done|]. split; [by eexists _, _|]. split; [done|].
      rewrite zlen_nil. split; [lia|]. intros Hf. specialize (Hw Hf). lia.
    + assert (Ha : match dest with Ok addr => exists pool ft,
          (resubmit t' dest (rc + 1) None p1).1 = FoSend pool ft /\ cp_addr pool = addr | Err _ => True end)
        by (destruct dest; [apply resubmit_addr|done]).
      destruct (resubmit t' dest (rc + 1) None p1) as [out' p2]. cbn [fst] in Ha.
      destruct (IH (S k) (rc + 1) out' p2) as (p' & log & last & o & El & (r0 & rest & Eh) & Hf & Hb & Hw); [lia..|].
      rewrite El. cbn [may_bind]. exists p', ((out, Some (Err (User e))) :: log), last, o.
      split; [done|]. split; [by eexists _, _|]. cbn [app]. split; [|rewrite zlen_cons; split; [lia|]].
      * rewrite Eh in *. cbn [redirects_followed] in *. split; [|done].
        destruct dest; rewrite Hd; done.
      * intros Hx. specialize (Hw Hx). lia.
  - exists p1, [], None, out. cbn. split; [done|]. split; [by eexists _, _|]. split; [done|].
    rewrite zlen_nil. split; [lia|done].
Qed.

(** ** Property *)

(** C33. A call over a failover pool ends, and tries as often as it may:
    whatever comes back for the requests it sends, it returns after at most
    [max 1 retry_limit] of them with what the last one gave (an internal error
    when nothing came back); every one before was answered by a user error that
    asked for failover, a redirect was followed by sending to its address, and
    it returns such an error itself only when the attempts are used up. *)
Theorem failover_call_ends {Req} `{!Codec Req} service_method (req : Req) b p n :
  codec_encode req = Ok b -> (forall k out p t, (await k out p).1 = Some t -> has_result t) ->
  fp_retry_limit p <= Z.of_nat n -> (0 < n)%nat ->
  exists p' log last o,
    failover_call n service_method req p = Ret (Some (call_answer last), p', log ++ [(o, last)]) /\
    redirects_followed (log ++ [(o, last)]) /\
    zlen (log ++ [(o, last)]) <= Z.max 1 (fp_retry_limit p) /\
    (wants_failover (call_answer last) = true -> fp_retry_limit p <= zlen (log ++ [(o, last)])).
Proof.
  intros He Hr Hn Hp. unfold failover_call, get_retry_limit, APIClientReq_new. rewrite He. cbn [may_bind].
  destruct (fo_send_req _ p) as [out p1].
  destruct (call_loop_spec n 0 (fp_retry_limit p) 0 out p1 Hr) as (p' & log & last & o & Ec & _ & Hf & Hb & Hw);
    [lia..|].
  exists p', log, last, o. split; [exact Ec|]. split; [exact Hf|]. rewrite zlen_app, zlen_cons, zlen_nil.
  split; [lia|]. intros Hx. specialize (Hw Hx). lia.
Qed.

End call.

(** ** Concrete instance *)

Module ApiCallWitness.

(** An error that redirects to the address it holds. *)
Record moved : Type := Moved { moved_to : bytes }.

#[global] Instance moved_codec : RpcErrCodec moved := {|
  err_encode e := EBuf (moved_to e);
  err_decode b := match b with Err s => Ok (Moved s) | Ok _ => Err tt end;
  err_fmt := moved_to;
  should_failover e := Ok (Some (moved_to e));
|}.

#[global] Instance call_codec : Codec bytes := raw_codec.

Definition addr_a : bytes := str_bytes "a:1"%string.
Definition addr_b : bytes := str_bytes "b:1"%string.
Definition cluster2 : FailoverPool := FailoverPool_new [addr_a; addr_b] false 3.

(** The first server redirects to the second, which answers. *)
Definition await2 (k : nat) (out : fo_out APIClientReq) (p : FailoverPool)
    : option APIClientReq * FailoverPool :=
  let t := match out with FoSend _ ft => fo_inner ft | FoDone t => t end in
  let t := match out with
           | FoSend pool _ =>
             if decide (cp_addr pool = addr_b)
             then api_set_ok (match api_decode_resp t (str_bytes "yes"%string) with Ok t => t | Err _ => t end)
             else api_set_res t (Err (EBuf addr_b))
           | FoDone _ => t
           end in
  (match api_res t with Some (Err (EStatic _)) | None => None | _ => Some t end, p).

Lemma await2_result k out p t : (await2 k out p).1 = Some t -> has_result t.
Proof.
  unfold await2, has_result. cbn. intros H.
  match type of H with context [api_res ?x] => destruct (api_res x) as [[u|[e|m|s|b]]|] eqn:E end;
    simplify_eq; by rewrite E.
Qed.

Lemma failover_call_ends_witness :
  exists p' log last o,
    failover_call (Resp := bytes) (E := moved) [] await2 3 (str_bytes "S.m"%string) [Byte.x01] cluster2
      = Ret (Some (call_answer last), p', log ++ [(o, last)]) /\
    redirects_followed (log ++ [(o, last)]) /\
    zlen (log ++ [(o, last)]) <= Z.max 1 3 /\
    (wants_failover (call_answer last) = true -> 3 <= zlen (log ++ [(o, last)])).
Proof.
  apply (failover_call_ends [] await2 (str_bytes "S.m"%string) [Byte.x01] [Byte.x01] cluster2 3).
  - reflexivity.
  - exact await2_result.
  - vm_compute. discriminate.
  - lia.
Defined.

(** There it gets its answer at the second address. *)
Example redirected_call :
  match failover_call (Resp := bytes) (E := moved) [] await2 3 (str_bytes "S.m"%string) [Byte.x01] cluster2 with
  | Ret (Some (Ok v), _, log) => v = str_bytes "yes"%string /\ zlen log = 2
  | _ => False
  end.
Proof. vm_compute. done. Qed.

End ApiCallWitness.
