(* ===== verification/Pool.v ===== *)
(** * The connection pool of one address (stream/src/client/pool.rs)

    [ConnPoolInner] is shared by the handles of the pool, which submit tasks to
    its bounded channel, and by its worker coroutines, which take them out. A
    worker is an identity and a program counter; a turn takes it from one
    suspension point to the next. What the connection answers in a turn (the
    results of [connect], [ping], [send_task] and [flush_req], the number of
    tasks in flight, a timer that fires) is the [outcome] the turn is given:
    the connection itself is the subject of [Stream]. *)
From Stdlib Require Import ZArith Lia Strings.String.
From stdpp Require Import base list sets.
From S2P Require Import Prelude Errors Task ApiClient.
Local Open Scope Z_scope.
Local Open Scope rpc_scope.

(** Where a worker is in [run]. *)
Inductive worker_pc (T : Type) : Type :=
| WConnect                (** at the head of ['CONN_LOOP] *)
| WMonitor                (** at the head of ['MONITOR] *)
| WPing (alone : bool)    (** about to ping; [alone]: after the timer of [recv_with_timer] *)
| WRecvTimer              (** in [recv_with_timer] *)
| WSend (t : T)           (** in [send_task], as a monitor *)
| WIdle                   (** in [recv] of [_run_worker] *)
| WBatch                  (** at the loop over [try_recv] *)
| WRunSend (t : T)        (** in [send_task], in [_run_worker] *)
| WFlush                  (** in [flush_req] *)
| WFlushEnd               (** in the last [flush_req] *)
| WGone.
Arguments WConnect {T}.
Arguments WMonitor {T}.
Arguments WPing {T}.
Arguments WRecvTimer {T}.
Arguments WSend {T}.
Arguments WIdle {T}.
Arguments WBatch {T}.
Arguments WRunSend {T}.
Arguments WFlush {T}.
Arguments WFlushEnd {T}.
Arguments WGone {T}.

Record worker (T : Type) : Type := Worker { wk_id : Z; wk_pc : worker_pc T }.
Arguments Worker {T}.
Arguments wk_id {T}.
Arguments wk_pc {T}.

Record ConnPool (T : Type) : Type := Pool {
  pl_cap : Z;                     (** of the channel *)
  pl_queue : list T;              (** the channel *)
  pl_tx_open : bool;              (** a handle of the pool is left *)
  pl_is_ok : bool;
  pl_worker_count : Z;
  pl_connected : Z;               (** [connected_worker_count] *)
  pl_workers : list (worker T);   (** every worker ever spawned *)
}.
Arguments Pool {T}.
Arguments pl_cap {T}.
Arguments pl_queue {T}.
Arguments pl_tx_open {T}.
Arguments pl_is_ok {T}.
Arguments pl_worker_count {T}.
Arguments pl_connected {T}.
Arguments pl_workers {T}.

(** What becomes of a task: handed to the connection, or to [error_handle]. *)
Inductive pool_out (T : Type) : Type :=
| PoSend (t : T)
| PoFail (e : event T).
Arguments PoSend {T}.
Arguments PoFail {T}.

(** What the connection and the clock answer in a turn. *)
Record outcome : Type := Outcome {
  oc_ok : bool;        (** the call succeeds *)
  oc_timer : bool;     (** the timer of [recv_with_timer] fires first *)
  oc_inflight : Z;     (** [get_inflight_count] *)
}.

Section pool.
Context {T : Type} `{!ClientTask T} (error_handle : T -> event T).
Implicit Types p : ConnPool T.

Definition p_queue (q : list T) p : ConnPool T :=
  Pool (pl_cap p) q (pl_tx_open p) (pl_is_ok p) (pl_worker_count p) (pl_connected p) (pl_workers p).
Definition p_count (n : Z) p : ConnPool T :=
  Pool (pl_cap p) (pl_queue p) (pl_tx_open p) (pl_is_ok p) n (pl_connected p) (pl_workers p).
Definition p_connected (n : Z) p : ConnPool T :=
  Pool (pl_cap p) (pl_queue p) (pl_tx_open p) (pl_is_ok p) (pl_worker_count p) n (pl_workers p).
Definition p_workers (ws : list (worker T)) p : ConnPool T :=
  Pool (pl_cap p) (pl_queue p) (pl_tx_open p) (pl_is_ok p) (pl_worker_count p) (pl_connected p) ws.
Definition close_tx p : ConnPool T :=
  Pool (pl_cap p) (pl_queue p) false (pl_is_ok p) (pl_worker_count p) (pl_connected p) (pl_workers p).

Definition set_err p : ConnPool T :=
  Pool (pl_cap p) (pl_queue p) (pl_tx_open p) false (pl_worker_count p) (pl_connected p) (pl_workers p).

(** [spawn_worker]: a coroutine that starts with a connection attempt. *)
Definition spawn_worker (worker_id : Z) p : ConnPool T :=
  p_workers (pl_workers p ++ [Worker worker_id WConnect]) p.

(** [spawn]: the identity is the count before. *)
Definition pool_spawn p : ConnPool T :=
  spawn_worker (pl_worker_count p) (p_count (u64_incr (pl_worker_count p)) p).

(** The size of the channel, from [ClientConfig::thresholds]. *)
Definition pool_cap (thresholds channel_size : Z) : Z :=
  if 0 <? thresholds then if channel_size <? thresholds then thresholds else channel_size
  else if channel_size =? 0 then 128 else channel_size.

Definition ConnPool_new (thresholds channel_size : Z) : ConnPool T :=
  pool_spawn (Pool (pool_cap thresholds channel_size) [] true true 0 0 []).

(** [send_req]: waits while the channel is full. *)
Definition pool_send_req (task : T) p : poll (ConnPool T) :=
  if zlen (pl_queue p) <? pl_cap p then Ready (p_queue (pl_queue p ++ [task]) p) else Pending.

(** [cleanup]: every task in the channel fails. *)
Definition cleanup p : ConnPool T * list (pool_out T) :=
  (p_queue [] p, map (fun task => PoFail (error_handle (set_rpc_error task Unreachable))) (pl_queue p)).

Definition goto (i : nat) (w : worker T) p : ConnPool T := p_workers (<[i := w]> (pl_workers p)) p.

(** The end of the coroutine, in [spawn_worker]. *)
Definition worker_exit (i : nat) (id : Z) p : ConnPool T :=
  goto i (Worker id WGone) (p_count (u64_decr (pl_worker_count p)) p).

(** [run_worker] starts and ends: both ends add to [connected_worker_count]. *)
Definition run_worker_start (i : nat) (id : Z) p : ConnPool T :=
  goto i (Worker id WIdle) (p_connected (u64_incr (pl_connected p)) p).
Definition run_worker_end (i : nat) (id : Z) (ok : bool) p : ConnPool T :=
  let p := p_connected (u64_incr (pl_connected p)) p in
  worker_exit i id (if ok then p else set_err p).

(** One turn of worker [i]; [None] when it waits. *)
Definition worker_turn (oc : outcome) (i : nat) p : option (ConnPool T * list (pool_out T)) :=
  match pl_workers p !! i with
  | None => None
  | Some (Worker id pc) =>
    match pc with
    | WConnect =>
      if oc_ok oc then
        if id =? 0 then Some (goto i (Worker id WMonitor) p, [])
        else Some (run_worker_start i id p, [])
      else
        let '(p, outs) := cleanup (set_err p) in
        Some (goto i (Worker id WConnect) p, outs)
    | WMonitor =>
      if 1 <? pl_worker_count p then Some (goto i (Worker id (WPing false)) p, [])
      else Some (goto i (Worker id WRecvTimer) p, [])
    | WPing alone =>
      if oc_ok oc then Some (goto i (Worker id WMonitor) p, [])
      else
        let p := set_err p in
        let '(p, outs) := if alone then cleanup p else (p, []) in
        Some (goto i (Worker id WConnect) p, outs)
    | WRecvTimer =>
      if oc_timer oc then Some (goto i (Worker id (WPing true)) p, [])
      else
        match pl_queue p with
        | task :: q =>
          let p := p_queue q p in
          if (0 <? oc_inflight oc) && (pl_worker_count p =? 1)
          then Some (spawn_worker 0 (goto i (Worker 1 (WSend task)) (p_count 2 p)), [])
          else Some (goto i (Worker id (WSend task)) p, [])
        | [] => if pl_tx_open p then None else Some (worker_exit i id p, [])
        end
    | WSend task =>
      if oc_ok oc then
        if 0 <? id then Some (run_worker_start i id p, [PoSend task])
        else Some (goto i (Worker id WMonitor) p, [PoSend task])
      else
        let p := set_err p in
        if id =? 0 then
          let '(p, outs) := cleanup p in
          Some (goto i (Worker id WConnect) p, PoSend task :: outs)
        else Some (worker_exit i id p, [PoSend task])
    | WIdle =>
      match pl_queue p with
      | task :: q => Some (goto i (Worker id (WRunSend task)) (p_queue q p), [])
      | [] => if pl_tx_open p then None else Some (goto i (Worker id WFlushEnd) p, [])
      end
    | WRunSend task =>
      if oc_ok oc then Some (goto i (Worker id WBatch) p, [PoSend task])
      else Some (run_worker_end i id false p, [PoSend task])
    | WBatch =>
      match pl_queue p with
      | task :: q => Some (goto i (Worker id (WRunSend task)) (p_queue q p), [])
      | [] => Some (goto i (Worker id WFlush) p, [])
      end
    | WFlush =>
      if oc_ok oc then Some (goto i (Worker id WIdle) p, []) else Some (run_worker_end i id false p, [])
    | WFlushEnd => Some (run_worker_end i id (oc_ok oc) p, [])
    | WGone => None
    end
  end.

(** [Drop for ConnPoolInner], when neither a handle nor a worker is left. *)
Definition pool_unused p : bool :=
  negb (pl_tx_open p) && forallb (fun w => match wk_pc w with WGone => true | _ => false end) (pl_workers p).

(** ** Interleavings: the tasks submitted and what a step gives away *)

Inductive pool_step : ConnPool T -> ConnPool T -> list T -> list (pool_out T) -> Prop :=
| pp_submit p t p' : pl_tx_open p = true -> pool_send_req t p = Ready p' -> pool_step p p' [t] []
| pp_spawn p :
    pl_tx_open p = true -> pl_worker_count p + 1 < 2 ^ 64 -> pool_step p (pool_spawn p) [] []
| pp_turn p oc i p' outs :
    pl_connected p + 1 < 2 ^ 64 -> worker_turn oc i p = Some (p', outs) -> pool_step p p' [] outs
| pp_close p : pool_step p (close_tx p) [] []
| pp_drop p p' outs : pool_unused p = true -> cleanup p = (p', outs) -> pool_step p p' [] outs.

Inductive pool_run (p0 : ConnPool T) : ConnPool T -> list T -> list (pool_out T) -> Prop :=
| pr_nil : pool_run p0 p0 [] []
| pr_snoc p p' ts outs ts' outs' :
    pool_run p0 p ts outs -> pool_step p p' ts' outs' -> pool_run p0 p' (ts ++ ts') (outs ++ outs').

End pool.

(** ** Lemmas on the workers *)

Section facts.
Context {T : Type} `{!ClientTask T} (error_handle : T -> event T).
Implicit Types (p : ConnPool T) (w : worker T).
Abbreviation turn := (worker_turn error_handle).

(** The task in a worker's hands. *)
Definition pc_held (pc : worker_pc T) : list T :=
  match pc with WSend t | WRunSend t => [t] | _ => [] end.
Definition held_tasks (ws : list (worker T)) : list T := concat (map (fun w => pc_held (wk_pc w)) ws).

(** The tasks a pool is responsible for. *)
Definition inside p : list T := pl_queue p ++ held_tasks (pl_workers p).

Definition fail_out (t : T) : pool_out T := PoFail (error_handle (set_rpc_error t Unreachable)).

Lemma held_tasks_at ws i w :
  ws !! i = Some w -> held_tasks ws ≡ₚ pc_held (wk_pc w) ++ held_tasks (delete i ws).
Proof.
  intros H. unfold held_tasks. apply delete_Permutation in H.
  rewrite (Permutation_map (fun w => pc_held (wk_pc w)) H). done.
Qed.

Lemma delete_insert_same {A} (l : list A) i x : delete i (<[i := x]> l) = delete i l.
Proof. revert i. induction l as [|y l IH]; intros [|i]; cbn; [done..|]. f_equal. apply IH. Qed.

(** Moving tasks between the channel, one worker and the outside. *)
Lemma inside_move p p' i w w' ws sent failed :
  pl_workers p !! i = Some w -> pl_workers p' = <[i := w']> (pl_workers p) ++ ws ->
  held_tasks ws = [] ->
  pl_queue p ++ pc_held (wk_pc w) ≡ₚ (pl_queue p' ++ pc_held (wk_pc w')) ++ sent ++ failed ->
  inside p ≡ₚ inside p' ++ sent ++ failed.
Proof.
  intros Hi Hw Hn Hp. unfold inside. rewrite Hw. unfold held_tasks at 2. rewrite map_app, concat_app.
  fold (held_tasks ws) (held_tasks (<[i := w']> (pl_workers p))). rewrite Hn, app_nil_r.
  assert (Hi' : <[i := w']> (pl_workers p) !! i = Some w').
  { apply list_lookup_insert_eq. by apply lookup_lt_Some in Hi. }
  rewrite (held_tasks_at _ _ _ Hi), (held_tasks_at _ _ _ Hi'), delete_insert_same.
  rewrite !app_assoc, Hp, <- !app_assoc. do 2 apply Permutation_app_head.
  rewrite !app_assoc. by rewrite Permutation_app_comm, app_assoc.
Qed.

(** Name what a turn gave away, and settle where it came from. *)
Ltac conserve Hi :=
  lazymatch goal with
  | |- exists s f, [] = _ /\ _ => exists [], []
  | |- exists s f, [PoSend ?t] = _ /\ _ => exists [t], []
  | p : ConnPool _ |- exists s f, PoSend ?t :: _ = _ /\ _ => exists [t], (pl_queue p)
  | p : ConnPool _ |- _ => exists [], (pl_queue p)
  end;
  (split; [done|]);
  first
    [ eapply (inside_move _ _ _ _ _ []); [exact Hi|cbn; rewrite app_nil_r; reflexivity|done|]
    | eapply (inside_move _ _ _ _ _ [Worker 0 WConnect]); [exact Hi|cbn; reflexivity|done|] ];
  cbn; rewrite ?app_nil_r;
  first
    [ done
    | match goal with E : pl_queue _ = _ |- _ => rewrite E end; first [done|apply Permutation_cons_append]
    | symmetry; apply Permutation_cons_append ].

(** A turn loses no task and makes none. *)
Lemma turn_conserves oc i p p' outs :
  turn oc i p = Some (p', outs) ->
  exists sent failed, outs = map PoSend sent ++ map fail_out failed /\
    inside p ≡ₚ inside p' ++ sent ++ failed.
Proof.
  unfold worker_turn. destruct (pl_workers p !! i) as [[id pc]|] eqn:Hi; [|done].
  unfold run_worker_end, run_worker_start, worker_exit, spawn_worker, cleanup.
  intros H; destruct pc as [| |[]| | | | | | | |]; cbn in H; try done; repeat (case_match; simplify_eq/=);
    conserve Hi.
Qed.

Lemma step_conserves p p' ts outs :
  pool_step error_handle p p' ts outs ->
  exists sent failed, outs = map PoSend sent ++ map fail_out failed /\
    ts ++ inside p ≡ₚ inside p' ++ sent ++ failed.
Proof.
  intros [p1 t p1' _ Hs|p1 _ _|p1 oc i p1' outs' _ Ht|p1|p1 p1' outs' _ Hc].
  - exists [], []. split; [done|]. unfold pool_send_req in Hs. case_match; simplify_eq.
    unfold inside. cbn. rewrite !app_nil_r, <- app_assoc. cbn. by rewrite Permutation_middle.
  - exists [], []. split; [done|]. unfold inside, pool_spawn, spawn_worker, held_tasks. cbn.
    rewrite map_app, concat_app. cbn. by rewrite !app_nil_r.
  - by apply (turn_conserves oc i).
  - exists [], []. split; [done|]. cbn. by rewrite app_nil_r.
  - exists [], (pl_queue p1). injection Hc as <- <-. split; [done|]. unfold inside. cbn.
    apply Permutation_app_comm.
Qed.

Lemma perm_swap_app {A} (a b c d : list A) : (a ++ b) ++ c ++ d ≡ₚ (a ++ c) ++ b ++ d.
Proof.
  rewrite <- !app_assoc. apply Permutation_app_head. rewrite !app_assoc.
  apply Permutation_app_tail, Permutation_app_comm.
Qed.

Lemma run_conserves p0 p ts outs :
  pool_run error_handle p0 p ts outs ->
  exists sent failed, outs ≡ₚ map PoSend sent ++ map fail_out failed /\
    ts ++ inside p0 ≡ₚ inside p ++ sent ++ failed.
Proof.
  induction 1 as [|p p' ts outs ts' outs' _ (s1 & f1 & Ho1 & Hp1) Hs].
  - exists [], []. cbn. by rewrite app_nil_r.
  - destruct (step_conserves _ _ _ _ Hs) as (s2 & f2 & -> & Hp2).
    exists (s1 ++ s2), (f1 ++ f2). split.
    + rewrite Ho1, !map_app. apply perm_swap_app.
    + rewrite (Permutation_app_comm ts), <- app_assoc, Hp1, app_assoc, Hp2, <- app_assoc.
      apply Permutation_app_head. rewrite Permutation_app_comm. apply perm_swap_app.
Qed.

(** ** Workers and the monitor *)

Definition wk_alive w : Z := match wk_pc w with WGone => 0 | _ => 1 end.
(** The monitor is the live worker with identity 0. *)
Definition wk_monitor w : Z := match wk_pc w with WGone => 0 | _ => if wk_id w =? 0 then 1 else 0 end.

(** Only the monitor monitors, only the others run [_run_worker]. *)
Definition wk_ok w : Prop :=
  match wk_pc w with
  | WMonitor | WPing _ | WRecvTimer => wk_id w = 0
  | WIdle | WBatch | WRunSend _ | WFlush | WFlushEnd => 0 < wk_id w
  | WConnect | WSend _ | WGone => 0 <= wk_id w
  end.

Record pool_inv p : Prop := PoolInv {
  pi_count : pl_worker_count p = zsum wk_alive (pl_workers p);
  pi_bound : pl_worker_count p < 2 ^ 64;
  pi_one : zsum wk_monitor (pl_workers p) <= 1;
  pi_open : pl_tx_open p = true -> zsum wk_monitor (pl_workers p) = 1;
  pi_workers : Forall wk_ok (pl_workers p);
  pi_queue : zlen (pl_queue p) <= pl_cap p;
}.

Lemma wk_alive_nonneg w : 0 <= wk_alive w.
Proof. unfold wk_alive. by destruct (wk_pc w). Qed.
Lemma wk_monitor_nonneg w : 0 <= wk_monitor w.
Proof. unfold wk_monitor. by destruct (wk_pc w), (wk_id w =? 0). Qed.
Lemma wk_monitor_alive w : wk_monitor w <= wk_alive w.
Proof. unfold wk_monitor, wk_alive. by destruct (wk_pc w), (wk_id w =? 0). Qed.

Lemma inv_move p p' i w w' ws :
  pool_inv p -> pl_workers p !! i = Some w -> pl_workers p' = <[i := w']> (pl_workers p) ++ ws ->
  Forall wk_ok ws -> wk_ok w' ->
  pl_worker_count p' = pl_worker_count p - wk_alive w + wk_alive w' + zsum wk_alive ws ->
  pl_worker_count p' < 2 ^ 64 -> pl_tx_open p' = pl_tx_open p ->
  wk_monitor w' + zsum wk_monitor ws <= wk_monitor w ->
  (pl_tx_open p = true -> wk_monitor w' + zsum wk_monitor ws = wk_monitor w) ->
  zlen (pl_queue p') <= pl_cap p' -> pool_inv p'.
Proof.
  intros [Hc Hb H1 Ho Hw Hq] Hi Ew Hws Hok Ec Hb' Et Hm Hm' Hq'.
  split; rewrite ?Ew, ?zsum_app, ?(zsum_insert _ _ _ _ _ Hi); try done; [lia..| |].
  - rewrite Et. intros Hx. specialize (Ho Hx). specialize (Hm' Hx). lia.
  - apply Forall_app. split; [|done]. by apply Forall_insert.
Qed.

Lemma count_pos p i w : pool_inv p -> pl_workers p !! i = Some w -> wk_alive w <= pl_worker_count p.
Proof. intros H Hi. rewrite (pi_count _ H). by apply (zsum_ge _ _ i), Hi; apply wk_alive_nonneg. Qed.

Lemma u64_decr_pos z : 0 < z < 2 ^ 64 -> u64_decr z = z - 1.
Proof. intros H. unfold u64_decr. apply as_u64_small. unfold is_u64. lia. Qed.

Lemma turn_inv oc i p p' outs : pool_inv p -> turn oc i p = Some (p', outs) -> pool_inv p'.
Proof.
  intros H. unfold worker_turn. destruct (pl_workers p !! i) as [[id pc]|] eqn:Hi; [|done].
  assert (Hw : wk_ok (Worker id pc)) by apply (Forall_lookup_1 _ _ _ _ (pi_workers _ H) Hi).
  pose proof (count_pos _ _ _ H Hi) as Hp. pose proof (pi_bound _ H) as Hb.
  pose proof (pi_queue _ H) as Hq.
  unfold run_worker_end, run_worker_start, worker_exit, spawn_worker, cleanup.
  intros Ht; destruct pc as [| |[]| | | | | | | |]; cbn in Ht, Hw, Hp; try done;
    repeat (case_match; simplify_eq/=);
    first
      [ eapply (inv_move _ _ _ _ _ []); [exact H|exact Hi|cbn; rewrite app_nil_r; reflexivity|..]
      | eapply (inv_move _ _ _ _ _ [Worker 0 WConnect]); [exact H|exact Hi|cbn; reflexivity|..] ].
  all: cbn; rewrite ?u64_decr_pos by lia; bool_to_prop;
    match type of Hq with zlen ?q <= _ => pose proof (zlen_nonneg q) end;
    try destruct (Z.eqb_spec id 0); try done; try lia; try congruence; try by constructor.
  all: rewrite ?zlen_nil, ?zlen_cons in *; lia.
Qed.

Lemma step_inv p p' ts outs : pool_inv p -> pool_step error_handle p p' ts outs -> pool_inv p'.
Proof.
  intros H Hs. destruct Hs as [p t p' Ho Hs|p Ho Hb|p oc i p' outs _ Ht|p|p p' outs Hu Hc].
  - unfold pool_send_req in Hs. case_match eqn:Eq; simplify_eq. apply Z.ltb_lt in Eq.
    destruct H as [Hc Hbd H1 Hop Hw Hq]. split; try done. cbn.
    rewrite zlen_app, zlen_cons, zlen_nil. lia.
  - destruct H as [Hc Hbd H1 Hop Hw Hq]. specialize (Hop Ho).
    pose proof (zsum_le _ _ (pl_workers p) wk_monitor_alive).
    assert (E : u64_incr (pl_worker_count p) = pl_worker_count p + 1).
    { unfold u64_incr. apply as_u64_small. unfold is_u64. lia. }
    assert (Hm : wk_monitor (Worker (T := T) (pl_worker_count p) WConnect) = 0).
    { unfold wk_monitor. cbn. rewrite (proj2 (Z.eqb_neq _ _)) by lia. done. }
    unfold pool_spawn, spawn_worker.
    split; cbn; rewrite ?E, ?zsum_app; cbn [zsum]; rewrite ?Hm; cbn; try done; try lia.
    apply Forall_app. split; [done|]. constructor; [|done]. cbn. lia.
  - by apply (turn_inv oc i p p' outs).
  - by destruct H; split.
  - injection Hc as <- <-. destruct H as [Hc Hbd H1 Hop Hw Hq]. split; try done. cbn.
    pose proof (zlen_nonneg (pl_queue p)). rewrite zlen_nil. lia.
Qed.

Lemma pool_cap_pos thresholds n : 0 <= n -> 0 < pool_cap thresholds n.
Proof.
  intros Hn. unfold pool_cap. destruct (Z.ltb_spec 0 thresholds).
  - destruct (Z.ltb_spec n thresholds); lia.
  - destruct (Z.eqb_spec n 0); lia.
Qed.

Lemma ConnPool_new_inv thresholds n : 0 <= n -> pool_inv (ConnPool_new (T := T) thresholds n).
Proof.
  intros Hn. pose proof (pool_cap_pos thresholds n Hn).
  split; [reflexivity|reflexivity|cbn; lia|done| |exact (Z.lt_le_incl _ _ H)]. by constructor.
Qed.

Lemma run_inv p0 p ts outs : pool_inv p0 -> pool_run error_handle p0 p ts outs -> pool_inv p.
Proof. intros H. induction 1 as [|p p' ts outs ts' outs' _ IH Hs]; [done|]. by apply (step_inv p p' ts' outs'). Qed.

(** Counters and health move in one direction only. *)
Definition pool_le p p' : Prop :=
  (pl_is_ok p = false -> pl_is_ok p' = false) /\ pl_connected p <= pl_connected p'.

Lemma turn_le oc i p p' outs :
  pl_connected p + 1 < 2 ^ 64 -> 0 <= pl_connected p -> turn oc i p = Some (p', outs) -> pool_le p p'.
Proof.
  intros Hc H0. assert (E : u64_incr (pl_connected p) = pl_connected p + 1).
  { unfold u64_incr. apply as_u64_small. unfold is_u64. lia. }
  unfold worker_turn. destruct (pl_workers p !! i) as [[id pc]|]; [|done].
  unfold run_worker_end, run_worker_start, worker_exit, spawn_worker, cleanup, pool_le.
  intros Ht; destruct pc as [| |[]| | | | | | | |]; cbn in Ht; try done;
    repeat (case_match; simplify_eq/=); cbn; rewrite ?E; split; auto; lia.
Qed.

Lemma run_le p0 p ts outs :
  0 <= pl_connected p0 -> pool_run error_handle p0 p ts outs -> pool_le p0 p.
Proof.
  intros H0. induction 1 as [|p p' ts outs ts' outs' _ [IH1 IH2] Hs]; [by split|].
  assert (Hle : pool_le p p').
  { destruct Hs as [p t p' Ho Hs|p Ho Hb|p oc i p' outs' Hc Ht|p|p p' outs' Hu Hc]; try by split.
    - unfold pool_send_req in Hs. case_match; simplify_eq. by split.
    - by apply (turn_le oc i p p' outs'); [|lia|].
    - injection Hc as <- <-. by split. }
  destruct Hle as [Hl1 Hl2]. split; [auto|lia].
Qed.

(** A worker takes several turns, nobody else any. *)
Fixpoint worker_turns (ocs : list outcome) (i : nat) p : ConnPool T * list (pool_out T) :=
  match ocs with
  | [] => (p, [])
  | oc :: ocs' =>
    match turn oc i p with
    | None => (p, [])
    | Some (p', outs) => let '(p'', outs') := worker_turns ocs' i p' in (p'', outs ++ outs')
    end
  end.

(** The task has left the pool. *)
Definition served (t : T) (outs : list (pool_out T)) : Prop := PoSend t ∈ outs \/ fail_out t ∈ outs.

Lemma served_app t a b : served t b -> served t (a ++ b).
Proof. intros [H|H]; [left|right]; apply elem_of_app; by right. Qed.

Lemma goto_at i (w w' : worker T) (p : ConnPool T) ws :
  pl_workers p !! i = Some w -> (<[i := w']> (pl_workers p) ++ ws) !! i = Some w'.
Proof.
  intros H. apply lookup_lt_Some in H. rewrite lookup_app_l by (by rewrite length_insert).
  by apply list_lookup_insert_eq.
Qed.

Lemma goto_at_0 i (w w' : worker T) (p : ConnPool T) :
  pl_workers p !! i = Some w -> <[i := w']> (pl_workers p) !! i = Some w'.
Proof. intros H. pose proof (goto_at i w w' p [] H) as H'. by rewrite app_nil_r in H'. Qed.

Lemma cleanup_serves t p : t ∈ pl_queue p -> served t (cleanup error_handle p).2.
Proof.
  intros H. right. apply list_elem_of_In. apply (in_map fail_out). by apply list_elem_of_In.
Qed.

Lemma worker_turns_cons oc ocs i p :
  worker_turns (oc :: ocs) i p =
    match turn oc i p with
    | None => (p, [])
    | Some (p', outs) => let '(p'', outs') := worker_turns ocs i p' in (p'', outs ++ outs')
    end.
Proof. done. Qed.

(** The task in hand is handed over in the next turn, whatever it gives. *)
Lemma turns_send oc ocs i p id t :
  pl_workers p !! i = Some (Worker id (WSend t)) -> served t (worker_turns (oc :: ocs) i p).2.
Proof.
  intros Hi. cbn [worker_turns]. unfold worker_turn. rewrite Hi. unfold cleanup.
  repeat case_match; simplify_eq/=; left; left.
Qed.

Lemma turns_then oc ocs i p p' outs t :
  turn oc i p = Some (p', outs) -> served t (worker_turns ocs i p').2 ->
  served t (worker_turns (oc :: ocs) i p).2.
Proof.
  intros E H. rewrite worker_turns_cons, E. destruct (worker_turns ocs i p') as [p'' outs'].
  by apply served_app.
Qed.

Lemma turns_now oc ocs i p p' outs t :
  turn oc i p = Some (p', outs) -> served t outs -> served t (worker_turns (oc :: ocs) i p).2.
Proof.
  intros E H. rewrite worker_turns_cons, E. destruct (worker_turns ocs i p') as [p'' outs'].
  destruct H as [H|H]; [left|right]; apply elem_of_app; by left.
Qed.

(** Waiting on the channel, it takes the task at its head. *)
Lemma turns_recv oc1 oc2 ocs i p t q :
  pl_workers p !! i = Some (Worker 0 WRecvTimer) -> pl_queue p = t :: q -> oc_timer oc1 = false ->
  served t (worker_turns (oc1 :: oc2 :: ocs) i p).2.
Proof.
  intros Hi Hq Ht.
  assert (E : exists id p', turn oc1 i p = Some (p', []) /\
    pl_workers p' !! i = Some (Worker id (WSend t))).
  { unfold worker_turn. rewrite Hi, Ht, Hq. destruct (_ && _); eexists _, _; (split; [done|]).
    - by eapply goto_at.
    - by eapply goto_at_0. }
  destruct E as (id & p' & E & Hi'). eapply turns_then; [exact E|]. by eapply turns_send.
Qed.

Lemma turns_monitor oc1 oc2 oc3 ocs i p t q :
  pl_workers p !! i = Some (Worker 0 WMonitor) -> pl_worker_count p = 1 -> pl_queue p = t :: q ->
  oc_timer oc2 = false -> served t (worker_turns (oc1 :: oc2 :: oc3 :: ocs) i p).2.
Proof.
  intros Hi Hc Hq Ht. eapply turns_then.
  - unfold worker_turn. rewrite Hi, Hc. reflexivity.
  - eapply turns_recv; [by eapply goto_at_0|done..].
Qed.

(** The turn after which the monitor is at the head of its loop, or has failed
    everything. *)
Lemma turns_to_monitor oc1 oc2 oc3 oc4 ocs i p pc t q :
  pl_workers p !! i = Some (Worker 0 pc) -> pl_worker_count p = 1 -> pl_queue p = t :: q ->
  oc_timer oc3 = false ->
  match pc with WConnect | WPing true | WSend _ => True | WPing false => oc_ok oc1 = true | _ => False end ->
  served t (worker_turns (oc1 :: oc2 :: oc3 :: oc4 :: ocs) i p).2.
Proof.
  intros Hi Hc Hq Ht Hpc.
  assert (Hfail : served t (cleanup error_handle (set_err p)).2) by (apply cleanup_serves; cbn; rewrite Hq; left).
  destruct (oc_ok oc1) eqn:Hok.
  - destruct pc as [| |alone| |t'| | | | | |]; try done; (eapply turns_then;
      [unfold worker_turn; rewrite Hi, Hok; reflexivity|]);
      (eapply turns_monitor; [by eapply goto_at_0|done..]).
  - destruct pc as [| |[]| |t'| | | | | |]; try done; (eapply turns_now;
      [unfold worker_turn; rewrite Hi, Hok; reflexivity|]); [done..|].
    by apply (served_app t [PoSend t']).
Qed.

(** The channel is attended: when the monitor is the only worker it
    hands the task at the head of the channel to the connection, or fails it,
    within five turns, wherever it is and whatever the connection answers,
    provided the timer does not fire before a task that is there. *)
Theorem monitor_serves (oc1 oc2 oc3 oc4 oc5 : outcome) i p w t q :
  pool_inv p -> pl_workers p !! i = Some w -> wk_monitor w = 1 -> pl_worker_count p = 1 ->
  pl_queue p = t :: q -> Forall (fun oc => oc_timer oc = false) [oc1; oc2; oc3; oc4; oc5] ->
  served t (worker_turns [oc1; oc2; oc3; oc4; oc5] i p).2.
Proof.
  intros H Hi Hm Hc Hq Ht. rewrite !Forall_cons in Ht. destruct Ht as (H1 & H2 & H3 & H4 & _).
  pose proof (Forall_lookup_1 _ _ _ _ (pi_workers _ H) Hi) as Hok.
  destruct w as [id pc]. unfold wk_monitor, wk_ok in *. cbn [wk_id wk_pc] in *.
  assert (Hid : id = 0) by (destruct pc; try done; destruct (Z.eqb_spec id 0); done). subst id.
  destruct pc as [| |alone| |t'| | | | | |]; try done.
  - by eapply turns_to_monitor.
  - by eapply turns_monitor.
  - destruct alone, (oc_ok oc1) eqn:Ek; try by eapply turns_to_monitor.
    eapply turns_then; [unfold worker_turn; rewrite Hi, Ek; reflexivity|].
    eapply turns_to_monitor; [by eapply goto_at_0|done..].
  - by eapply turns_recv.
  - by eapply turns_to_monitor.
Qed.

(** ** Properties of a pool *)

(** C19. A pool loses no task: in every interleaving of submissions, workers
    and the end of the pool each task submitted is still in the channel or in
    the hands of a worker, or has left exactly once, to a connection or to
    [error_handle] with [Unreachable]; the channel never exceeds its size. *)
Theorem pool_tasks_conserved thresholds n p ts outs :
  0 <= n -> pool_run error_handle (ConnPool_new thresholds n) p ts outs ->
  zlen (pl_queue p) <= pl_cap p /\
  exists sent failed,
    outs ≡ₚ map PoSend sent ++
      map (fun t => PoFail (error_handle (set_rpc_error t Unreachable))) failed /\
    ts ≡ₚ (pl_queue p ++ held_tasks (pl_workers p)) ++ sent ++ failed.
Proof.
  intros Hn Hr. split; [apply (run_inv _ _ _ _ (ConnPool_new_inv thresholds n Hn) Hr)|].
  destruct (run_conserves _ _ _ _ Hr) as (s & f & Ho & Hp). exists s, f. split; [exact Ho|].
  unfold inside in Hp. cbn in Hp. by rewrite app_nil_r in Hp.
Qed.

(** While a handle of the pool is left exactly one worker is the
    monitor, however workers come and go; [worker_count] is the number of live
    workers, and no other worker pings or waits with a timer. *)
Theorem pool_one_monitor thresholds n p ts outs :
  0 <= n -> pool_run error_handle (ConnPool_new thresholds n) p ts outs ->
  pl_worker_count p = zsum wk_alive (pl_workers p) /\
  zsum wk_monitor (pl_workers p) <= 1 /\
  (pl_tx_open p = true -> zsum wk_monitor (pl_workers p) = 1) /\
  Forall wk_ok (pl_workers p).
Proof.
  intros Hn Hr. destruct (run_inv _ _ _ _ (ConnPool_new_inv thresholds n Hn) Hr). done.
Qed.

(** C35. A pool never recovers its health: once an error has cleared
    [is_ok] no later step sets it, whatever connects or answers afterwards;
    and [connected_worker_count] is never taken back. *)
Theorem pool_health_final thresholds n p p' ts outs ts' outs' :
  pool_run error_handle (ConnPool_new thresholds n) p ts outs ->
  pool_run error_handle p p' ts' outs' ->
  (pl_is_ok p = false -> pl_is_ok p' = false) /\ 0 <= pl_connected p <= pl_connected p'.
Proof.
  intros H1 H2. destruct (run_le (ConnPool_new thresholds n) p ts outs) as [_ H0]; [done..|].
  change (pl_connected (ConnPool_new thresholds n)) with 0 in H0.
  destruct (run_le p p' ts' outs' H0 H2). done.
Qed.

End facts.

(** ** Concrete instances *)

Module PoolWitness.

Definition eh : APIClientReq -> event APIClientReq := error_handle_default.
Definition good : outcome := Outcome true false 0.
Definition busy : outcome := Outcome true false 1.
Definition bad : outcome := Outcome false false 1.
Definition pool0 : ConnPool APIClientReq := ConnPool_new 4 0.
Definition submit (t : APIClientReq) (p : ConnPool APIClientReq) : ConnPool APIClientReq :=
  match pool_send_req t p with Ready p' => p' | Pending => p end.
Definition turn_of (oc : outcome) (i : nat) (p : ConnPool APIClientReq) : ConnPool APIClientReq :=
  match worker_turn eh oc i p with Some (p', _) => p' | None => p end.
Definition run_events (oc : outcome) (i : nat) (p : ConnPool APIClientReq) : list (pool_out APIClientReq) :=
  match worker_turn eh oc i p with Some (_, outs) => outs | None => [] end.

Definition t1 := sample_task 1.
Definition t2 := sample_task 2.
Definition t3 := sample_task 3.

Section turns.
Context (p0 p : ConnPool APIClientReq) (ts : list APIClientReq) (outs : list (pool_out APIClientReq)).
Context (H : pool_run eh p0 p ts outs).

Lemma then_turn oc i :
  pl_connected p + 1 < 2 ^ 64 -> bool_decide (is_Some (worker_turn eh oc i p)) = true ->
  pool_run eh p0 (turn_of oc i p) ts (outs ++ run_events oc i p).
Proof using H.
  intros Hc Hs. apply bool_decide_eq_true in Hs. rewrite <- (app_nil_r ts).
  apply (pr_snoc _ _ p); [done|]. apply (pp_turn _ _ oc i); [done|].
  unfold turn_of, run_events. destruct Hs as [[p' o] E]. by rewrite E.
Qed.

Lemma then_submit t :
  pl_tx_open p = true -> (zlen (pl_queue p) <? pl_cap p) = true ->
  pool_run eh p0 (submit t p) (ts ++ [t]) outs.
Proof using H.
  intros Ho Hq. rewrite <- (app_nil_r outs). apply (pr_snoc _ _ p); [done|].
  apply pp_submit; [done|]. unfold submit, pool_send_req. by rewrite Hq.
Qed.

End turns.

(** Two tasks; the monitor sends the first, hands over its place with the
    second, which fails; the new monitor cannot connect, a third task fails. *)
Definition pool_a := turn_of good 0 (turn_of good 0 (submit t2 (submit t1 pool0))).
Definition pool_b := turn_of good 0 (turn_of good 0 pool_a).
Definition pool_c := turn_of busy 0 (turn_of good 0 pool_b).
Definition pool_d := submit t3 (turn_of bad 0 pool_c).
Definition pool_e := turn_of bad 1 pool_d.
Definition pool_f := turn_of good 1 (turn_of good 1 pool_e).

Lemma pool_d_run : pool_run eh pool0 pool_d [t1; t2; t3] [PoSend t1; PoSend t2].
Proof.
  pose proof (pr_nil eh pool0) as H.
  apply (then_submit _ _ _ _) with (t := t1) in H; [|by vm_compute..].
  apply (then_submit _ _ _ _) with (t := t2) in H; [|by vm_compute..].
  apply (then_turn _ _ _ _) with (oc := good) (i := 0%nat) in H; [|by vm_compute..].
  apply (then_turn _ _ _ _) with (oc := good) (i := 0%nat) in H; [|by vm_compute..].
  apply (then_turn _ _ _ _) with (oc := good) (i := 0%nat) in H; [|by vm_compute..].
  apply (then_turn _ _ _ _) with (oc := good) (i := 0%nat) in H; [|by vm_compute..].
  apply (then_turn _ _ _ _) with (oc := good) (i := 0%nat) in H; [|by vm_compute..].
  apply (then_turn _ _ _ _) with (oc := busy) (i := 0%nat) in H; [|by vm_compute..].
  apply (then_turn _ _ _ _) with (oc := bad) (i := 0%nat) in H; [|by vm_compute..].
  apply (then_submit _ _ _ _) with (t := t3) in H; [|by vm_compute..].
  exact H.
Qed.

Lemma pool_e_run : pool_run eh pool_d pool_e [] [PoFail (eh (set_rpc_error t3 Unreachable))].
Proof.
  pose proof (pr_nil eh pool_d) as H.
  apply (then_turn _ _ _ _) with (oc := bad) (i := 1%nat) in H; [|by vm_compute..]. exact H.
Qed.

Lemma pool_f_run : pool_run eh pool_d pool_f [] [PoFail (eh (set_rpc_error t3 Unreachable))].
Proof.
  pose proof pool_e_run as H.
  apply (then_turn _ _ _ _) with (oc := good) (i := 1%nat) in H; [|by vm_compute..].
  apply (then_turn _ _ _ _) with (oc := good) (i := 1%nat) in H; [|by vm_compute..]. exact H.
Qed.

Lemma pool_tasks_conserved_witness :
  zlen (pl_queue pool_d) <= pl_cap pool_d /\
  exists sent failed,
    [PoSend t1; PoSend t2] ≡ₚ map PoSend sent ++
      map (fun t => PoFail (eh (set_rpc_error t Unreachable))) failed /\
    [t1; t2; t3] ≡ₚ (pl_queue pool_d ++ held_tasks (pl_workers pool_d)) ++ sent ++ failed.
Proof.
  apply (pool_tasks_conserved eh 4 0 pool_d [t1; t2; t3] [PoSend t1; PoSend t2]).
  - lia.
  - exact pool_d_run.
Defined.

Lemma pool_one_monitor_witness : zsum wk_monitor (pl_workers pool_d) = 1.
Proof.
  destruct (pool_one_monitor eh 4 0 pool_d [t1; t2; t3] [PoSend t1; PoSend t2]) as (_ & _ & Ho & _).
  - lia.
  - exact pool_d_run.
  - apply Ho. vm_compute. reflexivity.
Defined.

(** Connected and answering pings again, the pool is still unhealthy. *)
Lemma pool_health_final_witness :
  pl_workers pool_f !! 1%nat = Some (Worker 0 WRecvTimer) /\ pl_is_ok pool_f = false.
Proof.
  split; [vm_compute; reflexivity|].
  destruct (pool_health_final eh 4 0 pool_d pool_f [t1; t2; t3] [PoSend t1; PoSend t2] []
    [PoFail (eh (set_rpc_error t3 Unreachable))] pool_d_run pool_f_run) as [Hh _].
  apply Hh. vm_compute. reflexivity.
Defined.

Lemma monitor_serves_witness :
  served eh t3 (worker_turns eh [bad; good; good; good; good] 1 pool_d).2.
Proof.
  apply (monitor_serves eh bad good good good good 1 pool_d (Worker 0 WConnect) t3 []).
  - apply (run_inv eh pool0 pool_d [t1; t2; t3] [PoSend t1; PoSend t2]).
    + apply ConnPool_new_inv. lia.
    + exact pool_d_run.
  - vm_compute. reflexivity.
  - reflexivity.
  - vm_compute. reflexivity.
  - vm_compute. reflexivity.
  - repeat constructor.
Defined.

End PoolWitness.
