(* ===== verification/Stream.v ===== *)
(** * One client connection (stream/src/client/stream.rs, throttler.rs)

    [ClientStreamInner] is shared by the sending coroutine and the receiving
    one. Each is a program counter over the shared state; a step runs from one
    suspension or atomic access to the next, so that every interleaving of the
    two is a sequence of steps. Writes and reads go through [TcpClient]; a read
    of the header is the step at which it completes, and each read of a part of
    the body another: in between, the task taken out of the timer is in the
    reading future only. The wait for the throttler may end at any time here;
    [Throttle] binds it to the number of requests in flight. *)
From Stdlib Require Import ZArith Lia Strings.String.
From stdpp Require Import base list sets.
From S2P Require Import Prelude Errors Task ApiClient Proto BTree Timer TimerInv Net TcpClient.
Local Open Scope Z_scope.
Local Open Scope rpc_scope.

(** ** Throttler: [left] is the number of guards alive *)

Definition nearly_full (left thresholds : Z) : bool := thresholds <? left + 1.
Definition is_full (left thresholds : Z) : bool := thresholds <=? left.

(** ** State *)

(** Where the sender is in [send_task] / [send_request]. *)
Inductive sender_pc (T : Type) : Type :=
| SIdle                                   (** between calls *)
| SAnnounced (t : T) (need_flush : bool)  (** counted, [closed] not looked at yet *)
| SUndo                                   (** refused, counter not taken back yet *)
| SSending (t : T) (need_flush : bool)    (** admitted *)
| SReg (t : T)                            (** written, to be registered *)
| SFailed (t : T)                         (** not written, to be handed back *)
| SThrottle                               (** registered, waiting for the throttler *)
| SGone.                                  (** [ClientStream] dropped *)
Arguments SIdle {T}.
Arguments SAnnounced {T}.
Arguments SUndo {T}.
Arguments SSending {T}.
Arguments SReg {T}.
Arguments SFailed {T}.
Arguments SThrottle {T}.
Arguments SGone {T}.

(** Where the receiver is in [receive_loop] / [recv_one_resp]. *)
Inductive recv_pc (T : Type) : Type :=
| RLoop                                   (** at the head of [recv_one_resp]'s loop *)
| RReading (open : bool)                  (** in [read_resp], with the close channel or not *)
| RWaiting (open : bool) (head : RespHead) (** suspended in [take_task] *)
| RInBody (open : bool) (head : RespHead) (pc : body_pc T) (** suspended in the body *)
| RClean (f : option (body_pc T))         (** [receive_loop] got an error; [f]: the body at which
                                              [has_err] stopped the reading future, which is not
                                              polled again but dropped at the end *)
| RCheck (f : option (body_pc T))         (** cleaned up, to look at the counter *)
| RExit.
Arguments RLoop {T}.
Arguments RReading {T}.
Arguments RWaiting {T}.
Arguments RInBody {T}.
Arguments RClean {T}.
Arguments RCheck {T}.
Arguments RExit {T}.

(** The body of a response that the reading future is in the middle of. *)
Definition recv_body_pc {T} (r : recv_pc T) : option (body_pc T) :=
  match r with RInBody _ _ pc => Some pc | RClean f | RCheck f => f | _ => None end.
(** The task that the future owns, and the guard of the throttler with it. *)
Definition pc_tasks {T} (f : option (body_pc T)) : list T :=
  match f with Some pc => body_task pc | None => [] end.
Definition pc_guard {T} (f : option (body_pc T)) : Z :=
  match f with Some pc => body_guard pc | None => 0 end.
Definition recv_tasks {T} (r : recv_pc T) : list T := pc_tasks (recv_body_pc r).
Definition recv_guard {T} (r : recv_pc T) : Z := pc_guard (recv_body_pc r).

Record ClientStream (S T : Type) : Type := CStream {
  cs_conn : TcpClient S;
  cs_client_id : Z;
  cs_seq : Z;
  cs_closed : bool;
  cs_has_err : bool;
  cs_timer : ClientTaskTimer T;
  cs_thresholds : Z;
  cs_encode_buf : bytes;
  cs_sender : sender_pc T;
  cs_recv : recv_pc T;
  cs_close_fired : bool;   (** the close channel: its sender is dropped *)
}.
Arguments CStream {S T}.
Arguments cs_conn {S T}.
Arguments cs_client_id {S T}.
Arguments cs_seq {S T}.
Arguments cs_closed {S T}.
Arguments cs_has_err {S T}.
Arguments cs_timer {S T}.
Arguments cs_thresholds {S T}.
Arguments cs_encode_buf {S T}.
Arguments cs_sender {S T}.
Arguments cs_recv {S T}.
Arguments cs_close_fired {S T}.

Section stream.
Context {S : Type} `{!AsyncStream S} {T : Type} `{!ClientTask T}.
Context (buffer_alloc : Z -> bool) (error_handle : T -> event T).
Implicit Types st : ClientStream S T.

Definition ClientStream_new (conn : TcpClient S) (client_id task_timeout thresholds : Z)
    : ClientStream S T :=
  let thresholds := if thresholds =? 0 then 128 else thresholds in
  CStream conn client_id 1 false false (Timer_new task_timeout thresholds) thresholds [] SIdle RLoop
    false.

Definition upd_conn (c : TcpClient S) st : ClientStream S T :=
  CStream c (cs_client_id st) (cs_seq st) (cs_closed st) (cs_has_err st) (cs_timer st)
    (cs_thresholds st) (cs_encode_buf st) (cs_sender st) (cs_recv st) (cs_close_fired st).
Definition upd_seq (n : Z) st : ClientStream S T :=
  CStream (cs_conn st) (cs_client_id st) n (cs_closed st) (cs_has_err st) (cs_timer st)
    (cs_thresholds st) (cs_encode_buf st) (cs_sender st) (cs_recv st) (cs_close_fired st).
Definition set_closed st : ClientStream S T :=
  CStream (cs_conn st) (cs_client_id st) (cs_seq st) true (cs_has_err st) (cs_timer st)
    (cs_thresholds st) (cs_encode_buf st) (cs_sender st) (cs_recv st) (cs_close_fired st).
Definition set_has_err st : ClientStream S T :=
  CStream (cs_conn st) (cs_client_id st) (cs_seq st) (cs_closed st) true (cs_timer st)
    (cs_thresholds st) (cs_encode_buf st) (cs_sender st) (cs_recv st) (cs_close_fired st).
Definition upd_timer (t : ClientTaskTimer T) st : ClientStream S T :=
  CStream (cs_conn st) (cs_client_id st) (cs_seq st) (cs_closed st) (cs_has_err st) t
    (cs_thresholds st) (cs_encode_buf st) (cs_sender st) (cs_recv st) (cs_close_fired st).
Definition upd_buf (b : bytes) st : ClientStream S T :=
  CStream (cs_conn st) (cs_client_id st) (cs_seq st) (cs_closed st) (cs_has_err st) (cs_timer st)
    (cs_thresholds st) b (cs_sender st) (cs_recv st) (cs_close_fired st).
Definition upd_sender (p : sender_pc T) st : ClientStream S T :=
  CStream (cs_conn st) (cs_client_id st) (cs_seq st) (cs_closed st) (cs_has_err st) (cs_timer st)
    (cs_thresholds st) (cs_encode_buf st) p (cs_recv st) (cs_close_fired st).
Definition upd_recv (p : recv_pc T) st : ClientStream S T :=
  CStream (cs_conn st) (cs_client_id st) (cs_seq st) (cs_closed st) (cs_has_err st) (cs_timer st)
    (cs_thresholds st) (cs_encode_buf st) (cs_sender st) p (cs_close_fired st).
Definition fire_close st : ClientStream S T :=
  CStream (cs_conn st) (cs_client_id st) (cs_seq st) (cs_closed st) (cs_has_err st) (cs_timer st)
    (cs_thresholds st) (cs_encode_buf st) (cs_sender st) (cs_recv st) true.

(** [get_inflight_count]: every item that is registered or about to be owns a
    guard of the throttler, and so does the one taken out of the timer until
    its body has been read. *)
Definition get_inflight_count st : Z :=
  zlen (live (cs_timer st)) + match cs_sender st with SReg _ => 1 | _ => 0 end + recv_guard (cs_recv st).

(** ** The sender *)

Definition seq_update st : Z * ClientStream S T := (cs_seq st, upd_seq (u64_incr (cs_seq st)) st).

(** [send_task] up to [fetch_add]. *)
Definition send_start (task : T) (need_flush : bool) st : ClientStream S T :=
  let need_flush := if nearly_full (get_inflight_count st) (cs_thresholds st) then true else need_flush in
  let st := upd_timer (count_incr (cs_timer st)) st in
  upd_sender (SAnnounced task need_flush) st.

(** The test of [closed]: refuse the task, or go on. *)
Definition send_check (task : T) (need_flush : bool) st : ClientStream S T * list (event T) :=
  if cs_closed st then (upd_sender SUndo st, [error_handle (set_rpc_error task IO)])
  else (upd_sender (SSending task need_flush) st, []).

(** The rollback after a refusal. *)
Definition send_undo st : ClientStream S T :=
  upd_sender SIdle (upd_timer (count_decr (cs_timer st)) st).

(** [send_request] up to the registration; [set_closed] and [set_has_err] of
    [send_task] repeat those of the failing write. *)
Definition send_request (task : T) (need_flush : bool) st : may (ClientStream S T) :=
  let '(seq, st) := seq_update st in
  let task := set_seq task seq in
  let? (buf, r) := ReqHead_encode (cs_encode_buf st) (cs_client_id st) task in
  let st := upd_buf buf st in
  match r with
  | Err _ => Ret (upd_sender SIdle (set_has_err (set_closed st)))
  | Ok blob_buf =>
    match write_req buf blob_buf need_flush (cs_conn st) with
    | (c, Err _) =>
      let st := set_has_err (set_closed (upd_conn c st)) in
      let st := upd_timer (stop_reg_task (count_decr (cs_timer st))) st in
      Ret (upd_sender (SFailed task) st)
    | (c, Ok _) => Ret (upd_sender (SReg task) (upd_conn c st))
    end
  end.

(** [timer.reg_task(task, wg).await], retried while the channel is full. *)
Definition send_register (task : T) st : poll (ClientStream S T) :=
  match reg_task task (cs_timer st) with
  | Ready timer => Ready (upd_sender SThrottle (upd_timer timer st))
  | Pending => Pending
  end.

(** The end of a failed [send_request]. *)
Definition send_failed (task : T) st : ClientStream S T * list (event T) :=
  (upd_sender SIdle st, [error_handle (set_rpc_error task IO)]).

Definition stream_flush_req st : ClientStream S T * result unit RpcIntErr :=
  match flush_req (cs_conn st) with
  | (c, Err _) =>
    let st := set_has_err (set_closed (upd_conn c st)) in
    (upd_timer (stop_reg_task (cs_timer st)) st, Err IO)
  | (c, Ok _) => (upd_conn c st, Ok tt)
  end.

Definition send_ping_req st : may (ClientStream S T * result unit RpcIntErr) :=
  if cs_closed st then Ret (st, Err IO)
  else
    let '(seq, st) := seq_update st in
    let? buf := ReqHead_encode_ping (cs_encode_buf st) (cs_client_id st) seq in
    let st := upd_buf buf st in
    match write_req buf None true (cs_conn st) with
    | (c, Err _) => Ret (set_closed (upd_conn c st), Err IO)
    | (c, Ok _) => Ret (upd_conn c st, Ok tt)
    end.

(** [set_error_and_exit]. *)
Definition set_error_and_exit st : ClientStream S T :=
  let st := set_has_err st in upd_conn (close_conn (cs_conn st)) st.

(** [Drop for ClientStream]. *)
Definition stream_drop st : ClientStream S T :=
  let st := fire_close st in
  let st := upd_timer (stop_reg_task (cs_timer st)) st in
  upd_sender SGone (set_closed st).

(** ** The receiver *)

(** The head of the loop of [recv_one_resp]. An error there makes
    [receive_loop] set [closed] and clean up ([RClean]). *)
Definition recv_head st : ClientStream S T :=
  if cs_closed st then
    let '(timer, empty) := check_pending_tasks_empty (cs_timer st) in
    let st := upd_timer timer st in
    if empty || cs_has_err st then upd_recv (RClean None) (set_closed st)
    else upd_recv (RReading false) st
  else upd_recv (RReading true) st.

(** What [recv_one_resp] does with the result of [read_resp]. *)
Definition recv_result (open : bool) (r : read_state T) st : ClientStream S T :=
  match r with
  | RWait head => upd_recv (RWaiting open head) st
  | RBody head pc => upd_recv (RInBody open head pc) st
  | RDone (Err _) => upd_recv (RClean None) (set_closed st)
  | RDone (Ok true) => upd_recv RLoop st
  | RDone (Ok false) => if open then upd_recv RLoop (set_closed st) else upd_recv RLoop st
  end.

(** The header has been read (or has not, for good). *)
Definition recv_read (open : bool) st : may (ClientStream S T * list (event T)) :=
  let? (c, timer, evs, r) := read_resp buffer_alloc error_handle None (cs_conn st) (cs_timer st) in
  Ret (recv_result open r (upd_timer timer (upd_conn c st)), evs).

(** The close channel fires while the header is being read, [k] bytes of which
    have been. *)
Definition recv_cancel (k : Z) st : may (ClientStream S T * list (event T)) :=
  let? (c, timer, evs, r) := read_resp buffer_alloc error_handle (Some k) (cs_conn st) (cs_timer st) in
  Ret (recv_result true r (upd_timer timer (upd_conn c st)), evs).

Definition recv_resume (open : bool) (head : RespHead) st : may (ClientStream S T * list (event T)) :=
  let? (c, timer, evs, r) :=
    read_resp_resume buffer_alloc error_handle head (cs_conn st) (cs_timer st) in
  Ret (recv_result open r (upd_timer timer (upd_conn c st)), evs).

(** The part of the body that is being read has been (or has not). *)
Definition recv_body (open : bool) (head : RespHead) (pc : body_pc T) st : ClientStream S T * list (event T) :=
  let '(c, timer, evs, r) := read_resp_body buffer_alloc error_handle head pc (cs_conn st) (cs_timer st) in
  (recv_result open r (upd_timer timer (upd_conn c st)), evs).

(** [time_reach], from [ReceiverTimerFuture::poll]. *)
Definition time_reach st : ClientStream S T * list (event T) :=
  let '(timer, evs) := adjust_task_queue error_handle (cs_timer st) in (upd_timer timer st, evs).

(** [poll_sent_task], from [ReceiverTimerFuture::poll]. *)
Definition recv_poll_sent st : ClientStream S T := upd_timer (poll_sent_task (cs_timer st)).1 st.

(** The test of [has_err] in [ReceiverTimerFuture::poll]: the reading future,
    wherever it is suspended, will not be polled again. *)
Definition recv_has_err st : ClientStream S T :=
  if cs_has_err st then upd_recv (RClean (recv_body_pc (cs_recv st))) (set_closed st) else st.

(** [receive_loop] after an error: clean up, then once more as long as the
    counter is not zero; at its end the reading future is dropped, with the task
    it may own. *)
Definition recv_clean (f : option (body_pc T)) st : may (ClientStream S T * list (event T)) :=
  let? (timer, evs) := clean_pending_tasks error_handle (cs_timer st) in
  Ret (upd_recv (RCheck f) (upd_timer timer st), evs).

Definition recv_check (f : option (body_pc T)) st : may (ClientStream S T * list (event T)) :=
  if 0 <? pending_task_count (cs_timer st) then recv_clean f st
  else Ret (upd_recv RExit st, []).

(** The receiver is still in its main loop. *)
Definition receiving (r : recv_pc T) : bool :=
  match r with RLoop | RReading _ | RWaiting _ _ | RInBody _ _ _ => true | _ => false end.

(** ** Interleavings *)

Inductive stream_op : Type :=
| SendStart (t : T) (need_flush : bool)
| SendCheck | SendUndo | SendRequest | SendRegister | SendFailed | SendDone
| Flush | Ping | ErrorExit | DropStream
| RecvHead | RecvRead | RecvCancel (k : Z) | RecvResume | RecvBody | RecvTick | RecvPollSent | RecvHasErr | RecvClean | RecvCheck.

Inductive stream_step : stream_op -> ClientStream S T -> ClientStream S T -> list (event T) -> Prop :=
| st_start st t nf :
    cs_sender st = SIdle -> pending_task_count (cs_timer st) + 1 < 2 ^ 64 ->
    stream_step (SendStart t nf) st (send_start t nf st) []
| st_check st t nf st' evs :
    cs_sender st = SAnnounced t nf -> send_check t nf st = (st', evs) ->
    stream_step SendCheck st st' evs
| st_undo st : cs_sender st = SUndo -> stream_step SendUndo st (send_undo st) []
| st_request st t nf st' :
    cs_sender st = SSending t nf -> cs_seq st + 1 < 2 ^ 64 -> send_request t nf st = Ret st' ->
    stream_step SendRequest st st' []
| st_register st t st' :
    cs_sender st = SReg t -> send_register t st = Ready st' -> stream_step SendRegister st st' []
| st_failed st t st' evs :
    cs_sender st = SFailed t -> send_failed t st = (st', evs) -> stream_step SendFailed st st' evs
| st_done st : cs_sender st = SThrottle -> stream_step SendDone st (upd_sender SIdle st) []
| st_flush st st' r :
    cs_sender st = SIdle -> stream_flush_req st = (st', r) -> stream_step Flush st st' []
| st_ping st st' r :
    cs_sender st = SIdle -> cs_seq st + 1 < 2 ^ 64 -> send_ping_req st = Ret (st', r) ->
    stream_step Ping st st' []
| st_exit st : cs_sender st = SIdle -> stream_step ErrorExit st (set_error_and_exit st) []
| st_drop st : cs_sender st = SIdle -> stream_step DropStream st (stream_drop st) []
| st_head st : cs_recv st = RLoop -> stream_step RecvHead st (recv_head st) []
| st_read st open st' evs :
    cs_recv st = RReading open -> recv_read open st = Ret (st', evs) ->
    stream_step RecvRead st st' evs
| st_cancel st k st' evs :
    cs_recv st = RReading true -> cs_close_fired st = true -> 0 <= k < RPC_RESP_HEADER_LEN ->
    is_ok (read_exact (tc_stream (cs_conn st)) k).2 = true -> recv_cancel k st = Ret (st', evs) ->
    stream_step (RecvCancel k) st st' evs
| st_resume st open head st' evs :
    cs_recv st = RWaiting open head -> recv_resume open head st = Ret (st', evs) ->
    stream_step RecvResume st st' evs
| st_body st open head pc st' evs :
    cs_recv st = RInBody open head pc -> recv_body open head pc st = (st', evs) ->
    stream_step RecvBody st st' evs
| st_tick st st' evs :
    receiving (cs_recv st) = true -> time_reach st = (st', evs) -> stream_step RecvTick st st' evs
| st_poll st : receiving (cs_recv st) = true -> stream_step RecvPollSent st (recv_poll_sent st) []
| st_has_err st : receiving (cs_recv st) = true -> stream_step RecvHasErr st (recv_has_err st) []
| st_clean st f st' evs :
    cs_recv st = RClean f -> recv_clean f st = Ret (st', evs) -> stream_step RecvClean st st' evs
| st_rcheck st f st' evs :
    cs_recv st = RCheck f -> recv_check f st = Ret (st', evs) -> stream_step RecvCheck st st' evs.

End stream.
