(* ===== verification/StreamInv.v ===== *)
(** * Where the requests of a connection are

    The two coroutines of [Stream] preserve an invariant that ties the pending
    counter to where tasks are; every step is a run of the timer's transition
    system, so the results on the timer hold of every connection. *)
From Stdlib Require Import ZArith Lia Strings.String.
From stdpp Require Import base list sets sorting.
From S2P Require Import Prelude Errors Task ApiClient Proto BTree Timer TimerInv Net TcpClient Stream.
Local Open Scope Z_scope.
Local Open Scope rpc_scope.

Section inv.
Context {S : Type} `{!AsyncStream S} {T : Type} `{!ClientTask T} `{!ClientTaskOk T}.
Context (buffer_alloc : Z -> bool) (error_handle : T -> event T).
Context (error_handle_task : forall t, ev_task (error_handle t) = t).
Implicit Types st : ClientStream S T.
Abbreviation step := (stream_step buffer_alloc error_handle).
Abbreviation trun := (timer_run error_handle).

(** ** Reading and the timer *)

(** What the reading future is in the middle of, and the task it keeps. *)
Definition state_pc (s : body_state T) : option (body_pc T) := match s with BRead pc => Some pc | BDone _ => None end.
Definition read_pc (r : read_state T) : option (body_pc T) := match r with RBody _ pc => Some pc | _ => None end.
Definition state_tasks (s : body_state T) : list T := pc_tasks (state_pc s).
Definition read_tasks (r : read_state T) : list T := pc_tasks (read_pc r).

Lemma recv_resp_taken_events h o (c c' : TcpClient S) evs s :
  recv_resp_taken buffer_alloc error_handle h o c = Ret (c', evs, s) ->
  zlen evs + zlen (state_tasks s) = match o with Some _ => 1 | None => 0 end.
Proof.
  unfold recv_resp_taken, recv_error, recv_resp_blob, finish_task, get_resp_buf, recv_and_dump.
  intros H. destruct o as [t|]; repeat (case_match; simplify_eq/=; try done).
Qed.

Lemma recv_resp_poll_events h pc (c c' : TcpClient S) evs s :
  recv_resp_poll buffer_alloc error_handle h pc c = (c', evs, s) ->
  zlen evs + zlen (state_tasks s) = zlen (body_task pc).
Proof.
  unfold recv_resp_poll, recv_resp_blob, recv_error_string, finish_task, recv_and_dump.
  intros H. destruct pc; repeat (case_match; simplify_eq/=; try done).
Qed.

Lemma read_resp_finish_inv h x timer (c' : TcpClient S) timer' (evs : list (event T)) rs :
  read_resp_finish h x timer = (c', timer', evs, rs) ->
  timer' = timer /\ exists s, x = (c', evs, s) /\ read_pc rs = state_pc s.
Proof. unfold read_resp_finish. destruct x as [[c e] [[r|r]|pc]]; intros; simplify_eq; eauto 6. Qed.

(** The events of a read whose search for the task was answered with [r], and
    what the future is in the middle of. *)
Definition read_events (r : poll (option T)) (evs : list (event T)) (kept : option (body_pc T)) : Prop :=
  match r with
  | Pending => evs = [] /\ kept = None
  | Ready o => exists h (c c' : TcpClient S) s,
      recv_resp_taken buffer_alloc error_handle h o c = Ret (c', evs, s) /\ kept = state_pc s
  end.

Lemma read_events_count r evs kept : read_events r evs kept -> zlen evs + zlen (pc_tasks kept) = zlen (taken r).
Proof.
  destruct r as [o|]; cbn; [|by intros [-> ->]].
  intros (h & c & c' & s & H & ->). apply recv_resp_taken_events in H. unfold state_tasks in H. rewrite H. by destruct o.
Qed.

Lemma read_resp_timer cancel (c c' : TcpClient S) timer timer' evs rs :
  read_resp buffer_alloc error_handle cancel c timer = Ret (c', timer', evs, rs) ->
  (timer' = timer /\ evs = [] /\ read_pc rs = None) \/
  exists k r, take_task k timer = (timer', r) /\ read_events r evs (read_pc rs).
Proof.
  unfold read_resp. destruct cancel; [intros; simplify_eq; by left|].
  destruct (read_exact (tc_stream c) RPC_RESP_HEADER_LEN) as [s [hb|]]; [|intros; simplify_eq; by left].
  destruct (RespHead_decode_head hb) as [[h|e]|]; cbn [may_bind]; [|intros; simplify_eq; by left|done].
  unfold recv_resp_body. destruct (get_resp_buf (rs_msg_len h) _) as [c1|]; cbn [may_bind]; [|done].
  destruct (take_task (rs_seq h) timer) as [t1 [o|]] eqn:Et; intros H; right; exists (rs_seq h).
  - destruct (recv_resp_taken _ _ h o c1) as [x|] eqn:Ex; cbn [may_bind] in H; [|done]. injection H as H.
    apply read_resp_finish_inv in H as [-> (q & -> & Eq)]. exists (Ready o). split; [done|]. by eexists _, _, _, _.
  - simplify_eq. by exists Pending.
Qed.

(** Polling a suspended read again is looking the task up again. *)
Lemma take_task_resume_eq k timer :
  timer_inv timer -> take_task_resume k timer = take_task k timer.
Proof.
  intros H. pose proof (inv_min _ H). unfold take_task.
  destruct (Z.ltb_spec (processed_seq timer) k) as [Hk|Hk].
  { rewrite (proj2 (Z.ltb_ge _ _)) by lia. done. }
  unfold take_task_resume, wait_reg_poll. rewrite (proj2 (Z.leb_le _ _)) by lia.
  destruct (Z.ltb_spec k (min_delay_seq timer)); [|by destruct (find_task k timer)].
  rewrite find_task_eq by (by apply received_ok).
  pose proof (lookup_live_low k timer H (or_introl H1)) as Hl. unfold live in Hl.
  rewrite bt_lookup_app in Hl. by destruct (bt_lookup k (received timer)).
Qed.

Lemma read_resume_timer h (c c' : TcpClient S) timer timer' evs rs :
  timer_inv timer ->
  read_resp_resume buffer_alloc error_handle h c timer = Ret (c', timer', evs, rs) ->
  exists k r, take_task k timer = (timer', r) /\ read_events r evs (read_pc rs).
Proof.
  intros Hi. unfold read_resp_resume. rewrite take_task_resume_eq by done.
  destruct (take_task (rs_seq h) timer) as [t1 [o|]] eqn:Et; intros H; exists (rs_seq h).
  - destruct (recv_resp_taken _ _ h o c) as [x|] eqn:Ex; cbn [may_bind] in H; [|done]. injection H as H.
    apply read_resp_finish_inv in H as [-> (q & -> & Eq)]. exists (Ready o). split; [done|]. by eexists _, _, _, _.
  - simplify_eq. by exists Pending.
Qed.

Lemma read_body_timer h pc (c c' : TcpClient S) timer timer' evs rs :
  read_resp_body buffer_alloc error_handle h pc c timer = (c', timer', evs, rs) ->
  timer' = timer /\ exists s, recv_resp_poll buffer_alloc error_handle h pc c = (c', evs, s) /\
    read_pc rs = state_pc s.
Proof. apply read_resp_finish_inv. Qed.

(** ** The invariant *)

(** Tasks in the sender's hands, announcements it has not settled. *)
Definition sender_held (p : sender_pc T) : Z :=
  match p with SAnnounced _ _ | SSending _ _ | SReg _ | SFailed _ => 1 | _ => 0 end.
Definition sender_count (p : sender_pc T) : Z :=
  match p with SAnnounced _ _ | SSending _ _ | SReg _ | SUndo => 1 | _ => 0 end.
(** The sender has passed the test of [closed]. *)
Definition admitted (p : sender_pc T) : bool :=
  match p with SSending _ _ | SReg _ => true | _ => false end.

Definition sender_seq_ok st : Prop :=
  match cs_sender st with
  | SReg t => newest (cs_timer st) < task_seq t < cs_seq st
  | _ => True
  end.

(** [started]: calls of [send_task]; [lost]: tasks whose encoding failed;
    [handed]: events so far. What is missing was dropped with the reading
    future. *)
Record stream_inv (started lost handed : Z) st : Prop := StreamInv {
  si_timer : timer_inv (cs_timer st);
  si_seq : newest (cs_timer st) < cs_seq st;
  si_reg : sender_seq_ok st;
  si_count : pending_task_count (cs_timer st) =
    zlen (pending_tasks (cs_timer st)) + sender_count (cs_sender st) + lost;
  si_lost : 0 <= lost;
  si_closed : receiving (cs_recv st) = false -> cs_closed st = true;
  si_clean : (exists f, cs_recv st = RCheck f) \/ cs_recv st = RExit -> received (cs_timer st) = [];
  si_exit : cs_recv st = RExit ->
    pending_tasks (cs_timer st) = [] /\ admitted (cs_sender st) = false /\ lost = 0;
  si_stopped : forall f, cs_recv st = RClean f \/ cs_recv st = RCheck f -> f <> None -> cs_has_err st = true;
  si_conserve : handed + zlen (live (cs_timer st)) + sender_held (cs_sender st) +
    zlen (recv_tasks (cs_recv st)) + lost <= started;
}.

Definition op_started (op : stream_op (T := T)) : Z := match op with SendStart _ _ => 1 | _ => 0 end.
(** A call of [send_request] that gave up before writing: the task is dropped. *)
Definition op_lost (op : stream_op (T := T)) st' : Z :=
  match op, cs_sender st' with SendRequest, SIdle => 1 | _, _ => 0 end.

(** ** Timer steps, one at a time *)

Lemma trun_one op t t' outs : timer_step error_handle op t t' outs -> trun [op] t t' outs.
Proof. intros H. rewrite <- (app_nil_l [op]), <- (app_nil_l outs). eapply run_snoc; [apply run_nil|done]. Qed.

(** What a run of the timer does to the quantities of the invariant. *)
Lemma trun_facts ops t t' outs :
  timer_inv t -> trun ops t t' outs ->
  timer_inv t' /\ zlen (live t) + zlen (concat (map op_reg ops)) = zlen outs + zlen (live t').
Proof.
  intros H Hr. destruct (timer_run_ok _ error_handle_task _ _ _ _ H Hr) as (Hi & _ & Hp).
  split; [done|]. apply Permutation_length in Hp. rewrite !length_app, length_map in Hp.
  unfold bt_keys in Hp. rewrite !length_map in Hp. unfold zlen. lia.
Qed.

(** A step that leaves the channel alone. *)
Lemma take_task_pending k t :
  timer_inv t -> pending_task_count (take_task k t).1 - zlen (pending_tasks (take_task k t).1)
    = pending_task_count t - zlen (pending_tasks t).
Proof.
  intros H. assert (Hf : forall s : ClientTaskTimer T, pending_task_count (find_task k s).1 = pending_task_count s /\
    pending_tasks (find_task k s).1 = pending_tasks s).
  { intros s. unfold find_task. split_cases. }
  assert (Hr : pending_task_count (recv_pending t) - zlen (pending_tasks (recv_pending t))
    = pending_task_count t - zlen (pending_tasks t)).
  { rewrite recv_pending_eq by done. cbn. rewrite zlen_nil. lia. }
  pose proof (Hf t) as [Hc Hp]. pose proof (Hf (recv_pending t)) as [Hc' Hp'].
  unfold take_task, take_task_resume, wait_reg_poll, poll_sent_task.
  destruct (k <? _); [done|]. destruct (processed_seq t <? k).
  - destruct (k <=? processed_seq t); [destruct (find_task k t); cbn in *; congruence|].
    destruct (reg_stopped_flag t); [done|]. destruct (_ && _); [|done].
    destruct (find_task k (recv_pending t)). cbn in *. congruence.
  - destruct (find_task k t); cbn in *; congruence.
Qed.

(** Fields the invariant does not look at. *)
Lemma inv_ext started lost handed st st' :
  cs_timer st' = cs_timer st -> cs_sender st' = cs_sender st -> cs_recv st' = cs_recv st ->
  cs_seq st <= cs_seq st' -> (cs_closed st = true -> cs_closed st' = true) ->
  (cs_has_err st = true -> cs_has_err st' = true) ->
  stream_inv started lost handed st -> stream_inv started lost handed st'.
Proof.
  intros Et Es Er Hseq Hcl He [? ? Hreg ? ? ? ? ? ? ?]. unfold sender_seq_ok in *.
  constructor; unfold sender_seq_ok; rewrite ?Et, ?Es, ?Er; try done; [lia| |by intros; auto|by intros; eauto].
  destruct (cs_sender st); try done. lia.
Qed.

(** A step of the receiver on the timer. *)
Lemma inv_timer_op started lost handed st op t' outs n :
  stream_inv started lost handed st -> receiving (cs_recv st) = true ->
  timer_step error_handle op (cs_timer st) t' outs -> op_reg op = [] ->
  pending_task_count t' - zlen (pending_tasks t') =
    pending_task_count (cs_timer st) - zlen (pending_tasks (cs_timer st)) ->
  n = zlen outs ->
  stream_inv started lost (handed + n) (upd_timer t' st).
Proof.
  intros [Hi Hseq Hreg Hc Hl Hcl Hclean Hexit Hstop Hcons] Hrec Hstep Hop Hcnt ->.
  destruct (trun_facts _ _ _ _ Hi (trun_one _ _ _ _ Hstep)) as [Hi' Hlen].
  cbn in Hlen. rewrite Hop in Hlen. cbn in Hlen. rewrite zlen_nil in Hlen.
  pose proof (step_newest error_handle _ _ _ _ Hi Hstep) as Hn.
  assert (Hn' : newest t' = newest (cs_timer st)) by (by destruct op).
  constructor; unfold sender_seq_ok in *; cbn; rewrite ?Hn'; try done; try lia;
    intros E; [destruct E as [[f E]|E]|]; by rewrite E in Hrec.
Qed.

(** Moves of the receiver that leave the rest alone. *)
Lemma inv_recv started lost handed handed' st r :
  stream_inv started lost handed st ->
  receiving r = true \/
    ((exists f, r = RClean f /\ (f <> None -> cs_has_err st = true)) /\ cs_closed st = true) ->
  handed' + zlen (recv_tasks r) <= handed + zlen (recv_tasks (cs_recv st)) ->
  stream_inv started lost handed' (upd_recv r st).
Proof.
  intros [? ? ? ? ? ? ? ? ? ?] Hr Hle. unfold sender_seq_ok in *.
  constructor; unfold sender_seq_ok; cbn; try done; try lia.
  - destruct Hr as [->|[(f & -> & ?) ?]]; done.
  - intros [[f ->] | ->]; destruct Hr as [|[(f' & ? & ?) ?]]; done.
  - intros ->. destruct Hr as [|[(f & ? & ?) ?]]; done.
  - intros f Hf Hn. destruct Hr as [Hr|[(f' & -> & He) _]]; [by destruct Hf as [-> | ->]|].
    destruct Hf as [[= <-]|]; [by apply He|done].
Qed.

(** Stopping the registrations and a poll of the channel. *)
Lemma inv_stop started lost handed st :
  stream_inv started lost handed st ->
  stream_inv started lost handed (upd_timer (stop_reg_task (cs_timer st)) st).
Proof.
  intros [Hi ? ? ? ? ? ? ? ? ?].
  assert (timer_inv (stop_reg_task (cs_timer st))) by (apply (timer_inv_ext (cs_timer st)); try done; apply Hi).
  constructor; done.
Qed.

Lemma recv_pending_count t :
  timer_inv t -> pending_task_count (recv_pending t) - zlen (pending_tasks (recv_pending t)) =
    pending_task_count t - zlen (pending_tasks t).
Proof. intros H. rewrite recv_pending_eq by done. cbn. rewrite zlen_nil. lia. Qed.

(** ** The receiver *)

Lemma inv_result started lost handed handed' st open r :
  stream_inv started lost handed st -> receiving (cs_recv st) = true ->
  handed' + zlen (read_tasks r) <= handed + zlen (recv_tasks (cs_recv st)) ->
  stream_inv started lost handed' (recv_result open r st).
Proof.
  intros H Hr Hle. assert (Hc : stream_inv started lost handed (set_closed st)).
  { by apply (inv_ext started lost handed st). }
  destruct r as [[[|]|e]|h|h pc]; cbn in Hle |- *;
    try (eapply inv_recv; [first [exact Hc|exact H]|first [by left|right; split; [by exists None|done]]|exact Hle]; fail).
  destruct open; (eapply inv_recv; [first [exact Hc|exact H]|by left|exact Hle]).
Qed.

Lemma inv_read started lost handed st st' (c : TcpClient S) t' evs open r :
  stream_inv started lost handed st -> receiving (cs_recv st) = true -> recv_tasks (cs_recv st) = [] ->
  ((t' = cs_timer st /\ evs = @nil (event T) /\ read_pc r = None) \/
   exists k o, take_task k (cs_timer st) = (t', o) /\ read_events o evs (read_pc r)) ->
  st' = recv_result open r (upd_timer t' (upd_conn c st)) ->
  stream_inv started lost (handed + zlen evs) st'.
Proof.
  intros H Hr Hno Ht ->.
  assert (Hc : stream_inv started lost handed (upd_conn c st)) by (by apply (inv_ext started lost handed st)).
  destruct Ht as [(-> & -> & E)|(k & o & Et & Ez%read_events_count)].
  - eapply inv_result; [|done|unfold read_tasks; rewrite E; cbn; rewrite Hno, zlen_nil, !Z.add_0_r; reflexivity].
    by apply (inv_ext started lost handed st).
  - eapply inv_result; [|done|].
    + eapply (inv_timer_op _ _ _ _ (OpTake k)); [done|done|by apply step_take|done| |reflexivity].
      pose proof (take_task_pending k (cs_timer st) (si_timer _ _ _ _ H)) as Hp.
      rewrite Et in Hp. exact Hp.
    + cbn [cs_recv upd_timer upd_conn]. rewrite Hno, zlen_nil. unfold read_tasks, zlen in *. lia.
Qed.

(** A part of the body. *)
Lemma inv_body started lost handed st open h pc st' evs :
  stream_inv started lost handed st -> cs_recv st = RInBody open h pc ->
  recv_body buffer_alloc error_handle open h pc st = (st', evs) ->
  stream_inv started lost (handed + zlen evs) st'.
Proof.
  intros H Hr. unfold recv_body.
  destruct (read_resp_body _ _ h pc (cs_conn st) (cs_timer st)) as [[[c t'] e] r] eqn:E. intros [= <- <-].
  apply read_body_timer in E as (-> & s & E & Es). apply recv_resp_poll_events in E.
  eapply (inv_result _ _ handed); [|cbn; by rewrite Hr|].
  - by apply (inv_ext started lost handed st).
  - cbn [cs_recv upd_timer upd_conn]. unfold read_tasks, state_tasks in *. rewrite Hr, Es. unfold recv_tasks; cbn. lia.
Qed.

Lemma inv_head started lost handed st :
  stream_inv started lost handed st -> cs_recv st = RLoop ->
  stream_inv started lost handed (recv_head st).
Proof.
  intros H Hr. unfold recv_head.
  destruct (cs_closed st) eqn:Ec; [|eapply inv_recv; [exact H|by left|by rewrite Hr]].
  assert (Hp : stream_inv started lost (handed + 0) (upd_timer (check_pending_tasks_empty (cs_timer st)).1 st)).
  { pose proof (si_timer _ _ _ _ H) as Hi.
    eapply (inv_timer_op _ _ _ _ OpCheck); [done|by rewrite Hr|apply step_check|done| |done].
    rewrite check_pending_state. by apply recv_pending_count. }
  rewrite Z.add_0_r in Hp. destruct (check_pending_tasks_empty (cs_timer st)) as [t' e]. cbn in Hp.
  cbn zeta. destruct (e || cs_has_err _).
  - eapply (inv_recv _ _ handed (handed)); [by apply (inv_ext started lost handed (upd_timer t' st))|right; split; [by exists None|done]|cbn; by rewrite Hr].
  - eapply inv_recv; [exact Hp|by left|cbn; by rewrite Hr].
Qed.

Lemma inv_clean started lost handed st st' f evs :
  stream_inv started lost handed st -> cs_recv st = RClean f \/ cs_recv st = RCheck f ->
  recv_clean error_handle f st = Ret (st', evs) ->
  stream_inv started lost (handed + zlen evs) st'.
Proof.
  intros [Hi Hseq Hreg Hc Hl Hcl Hclean Hexit Hstop Hcons] Hr. unfold recv_clean.
  destruct (clean_pending_tasks_eq error_handle (cs_timer st) Hi) as (t' & E & Hi' & Hl' & Hcnt & Hn & _).
  rewrite E. cbn [may_bind]. intros H; simplify_eq.
  assert (Hz : zlen (fail_with error_handle IO (clean_order (cs_timer st))) = zlen (live (cs_timer st))).
  { unfold fail_with, zlen. rewrite length_map. f_equal. apply Permutation_length, clean_order_live. }
  assert (Hz' : live t' = []) by done. unfold live in Hl'. apply app_nil in Hl' as [Hrec Hpend].
  unfold keyed in Hpend. apply map_eq_nil in Hpend.
  assert (Hk : recv_tasks (cs_recv st) = recv_tasks (RCheck f)) by (by destruct Hr as [->| ->]). rewrite Hk in Hcons.
  constructor; unfold sender_seq_ok in *; cbn; rewrite ?Hn, ?Hz, ?Hz', ?Hpend, ?zlen_nil; try done; try lia.
  - intros _. apply Hcl. by destruct Hr as [->| ->].
  - intros f0 [|[= <-]]; [done|]. apply Hstop. tauto.
Qed.

Lemma inv_check started lost handed st st' f evs :
  stream_inv started lost handed st -> cs_recv st = RCheck f ->
  recv_check error_handle f st = Ret (st', evs) ->
  stream_inv started lost (handed + zlen evs) st'.
Proof.
  intros H Hr. unfold recv_check.
  destruct (Z.ltb_spec 0 (pending_task_count (cs_timer st))) as [Hp|Hz].
  { eapply inv_clean; [exact H|by right]. }
  intros E; simplify_eq. rewrite zlen_nil, Z.add_0_r.
  destruct H as [Hi Hseq Hreg Hc Hl Hcl Hclean Hexit Hstop Hcons].
  pose proof (zlen_nonneg (pending_tasks (cs_timer st))).
  assert (0 <= sender_count (cs_sender st)) by (by destruct (cs_sender st)).
  constructor; unfold sender_seq_ok in *; cbn; try done.
  - intros _. apply Hcl. by rewrite Hr.
  - intros _. apply Hclean. eauto.
  - intros _. split; [apply zlen_nil_iff; lia|]. split; [|lia].
    destruct (cs_sender st); cbn in *; try done; lia.
  - by intros f0 [?|?].
  - pose proof (zlen_nonneg (recv_tasks (cs_recv st))). rewrite (zlen_nil (A := T)). lia.
Qed.

(** ** The sender *)

(** A sender step that runs [op] on the timer. *)
Lemma inv_sender started lost handed st p op t' started' lost' handed' :
  stream_inv started lost handed st ->
  timer_step error_handle op (cs_timer st) t' [] ->
  (forall t, op = OpReg t -> task_seq t < cs_seq st) ->
  received t' = received (cs_timer st) ->
  match p with SReg t => newest t' < task_seq t < cs_seq st | _ => True end ->
  pending_task_count t' = zlen (pending_tasks t') + sender_count p + lost' -> 0 <= lost' ->
  (cs_recv st = RExit -> pending_tasks t' = [] /\ admitted p = false /\ lost' = 0) ->
  handed' + zlen (live t') + sender_held p + zlen (recv_tasks (cs_recv st)) + lost' <= started' ->
  stream_inv started' lost' handed' (upd_sender p (upd_timer t' st)).
Proof.
  intros [Hi Hseq Hreg Hc Hl Hcl Hclean Hexit Hstop Hcons] Hstep Hlt Hrec Hp Hcnt Hl' Hex Hcons'.
  destruct (trun_facts _ _ _ _ Hi (trun_one _ _ _ _ Hstep)) as [Hi' _].
  pose proof (step_newest error_handle _ _ _ _ Hi Hstep) as Hn.
  assert (Hns : newest t' < cs_seq st).
  { destruct op; try lia. destruct Hn as [_ ->]. by apply Hlt. }
  constructor; cbn; try done. by rewrite Hrec.
Qed.

(** A sender step that leaves the timer alone. *)
Lemma inv_sender_only started lost handed st p lost' handed' :
  stream_inv started lost handed st ->
  match p with SReg t => newest (cs_timer st) < task_seq t < cs_seq st | _ => True end ->
  sender_count p + lost' = sender_count (cs_sender st) + lost -> 0 <= lost' ->
  (cs_recv st = RExit -> admitted p = false /\ lost' = 0) ->
  handed' + sender_held p + lost' = handed + sender_held (cs_sender st) + lost ->
  stream_inv started lost' handed' (upd_sender p st).
Proof.
  intros [Hi Hseq Hreg Hc Hl Hcl Hclean Hexit Hstop Hcons] Hp Hcnt Hl' Hex Hcons'.
  constructor; cbn; try done; try lia. intros E. destruct (Hexit E) as (? & _ & _).
  destruct (Hex E). done.
Qed.

Lemma inv_start started lost handed st t nf :
  stream_inv started lost handed st -> cs_sender st = SIdle ->
  pending_task_count (cs_timer st) + 1 < 2 ^ 64 ->
  stream_inv (started + 1) lost handed (send_start t nf st).
Proof.
  intros H Hs Hb. unfold send_start. cbn zeta.
  pose proof (si_count _ _ _ _ H) as Hc. pose proof (si_conserve _ _ _ _ H) as Hcons.
  pose proof (si_lost _ _ _ _ H). pose proof (zlen_nonneg (pending_tasks (cs_timer st))).
  rewrite Hs in *. cbn [sender_count sender_held] in *.
  eapply (inv_sender started lost handed st _ OpCount); try done; [by apply step_count| | |].
  - cbn. unfold u64_incr, as_u64. rewrite Z.mod_small; lia.
  - intros E. destruct (si_exit _ _ _ _ H E) as (? & _ & ?). done.
  - cbn [sender_held]. change (live (count_incr (cs_timer st))) with (live (cs_timer st)). lia.
Qed.

Lemma inv_send_check started lost handed st t nf st' evs :
  stream_inv started lost handed st -> cs_sender st = SAnnounced t nf ->
  send_check error_handle t nf st = (st', evs) ->
  stream_inv started lost (handed + zlen evs) st'.
Proof.
  intros H Hs. unfold send_check. destruct (cs_closed st) eqn:Ec; intros E; simplify_eq.
  - apply (inv_sender_only started lost handed); try done; rewrite ?Hs; cbn;
      first [by apply H|by intros E; split; [|apply H]|unfold zlen; cbn; lia].
  - rewrite zlen_nil, Z.add_0_r.
    apply (inv_sender_only started lost handed); try done; rewrite ?Hs; cbn; try done;
      try (by apply H). intros E. pose proof (si_closed _ _ _ _ H) as Hc. rewrite E in Hc. rewrite Hc in Ec; done.
Qed.

Lemma inv_undo started lost handed st :
  stream_inv started lost handed st -> cs_sender st = SUndo ->
  stream_inv started lost handed (send_undo st).
Proof.
  intros H Hs. pose proof (si_count _ _ _ _ H) as Hc. pose proof (si_conserve _ _ _ _ H) as Hcons.
  pose proof (si_lost _ _ _ _ H). pose proof (zlen_nonneg (pending_tasks (cs_timer st))).
  pose proof (inv_count _ (si_timer _ _ _ _ H)).
  rewrite Hs in *. cbn [sender_count sender_held] in *.
  eapply (inv_sender started lost handed st _ OpUncount); try done; [apply step_uncount; lia| |].
  - cbn. unfold u64_decr, as_u64. rewrite Z.mod_small; lia.
  - intros E. destruct (si_exit _ _ _ _ H E) as (? & _ & ?). done.
Qed.

(** An admitted sender and an exited receiver exclude each other. *)
Lemma admitted_running started lost handed st :
  stream_inv started lost handed st -> admitted (cs_sender st) = true -> cs_recv st <> RExit.
Proof. intros H Ha E. destruct (si_exit _ _ _ _ H E) as (_ & Hn & _). congruence. Qed.

Lemma inv_request started lost handed st t nf st' :
  stream_inv started lost handed st -> cs_sender st = SSending t nf -> cs_seq st + 1 < 2 ^ 64 ->
  send_request t nf st = Ret st' ->
  stream_inv started (lost + op_lost SendRequest st') handed st'.
Proof.
  intros H Hs Hb. pose proof (si_count _ _ _ _ H) as Hc. pose proof (si_conserve _ _ _ _ H) as Hcons.
  pose proof (si_lost _ _ _ _ H) as Hl. pose proof (zlen_nonneg (pending_tasks (cs_timer st))) as Hp.
  pose proof (inv_count _ (si_timer _ _ _ _ H)) as Hpc. pose proof (si_seq _ _ _ _ H) as Hseq.
  assert (Hrun : cs_recv st <> RExit).
  { eapply admitted_running; [exact H|by rewrite Hs]. }
  rewrite Hs in Hc, Hcons. cbn [sender_count sender_held] in *.
  pose proof (newest_max _ (si_timer _ _ _ _ H)) as [Hnew _]. pose proof (inv_min _ (si_timer _ _ _ _ H)).
  assert (Hinc : u64_incr (cs_seq st) = cs_seq st + 1).
  { unfold u64_incr, as_u64. apply Z.mod_small. lia. }
  unfold send_request, seq_update. cbn zeta.
  destruct (ReqHead_encode _ _ _) as [[buf r]|]; cbn [may_bind]; [|done].
  destruct r as [blob|e].
  - destruct (write_req _ _ _ _) as [c [u|u]]; intros [= <-].
    + cbn. rewrite Z.add_0_r.
      apply (inv_sender_only started lost handed); cbn; rewrite ?Hs, ?Hinc; cbn; try done; try lia.
      * apply (inv_ext started lost handed st); cbn; try done. lia.
      * rewrite task_seq_set_seq. lia.
    + cbn [op_lost upd_sender upd_timer cs_sender]. rewrite Z.add_0_r.
      eapply (inv_sender started lost handed
        (set_has_err (set_closed (upd_conn c (upd_buf buf (upd_seq (u64_incr (cs_seq st))
           (upd_timer (stop_reg_task (cs_timer st)) st)))))) _ OpUncount
           (count_decr (stop_reg_task (cs_timer st)))); try done.
      * eapply (inv_ext started lost handed (upd_timer (stop_reg_task (cs_timer st)) st)); cbn; try done;
          [lia|by apply inv_stop].
      * cbn. apply (step_uncount error_handle (stop_reg_task (cs_timer st))). cbn. lia.
      * cbn. unfold u64_decr, as_u64. rewrite Z.mod_small; lia.
  - intros [= <-]. cbn [op_lost upd_sender cs_sender].
    apply (inv_sender_only started lost handed); cbn; rewrite ?Hs; cbn; try done; try lia.
    apply (inv_ext started lost handed st); cbn; try done. lia.
Qed.

Lemma inv_register started lost handed st t st' :
  stream_inv started lost handed st -> cs_sender st = SReg t -> send_register t st = Ready st' ->
  stream_inv started lost handed st'.
Proof.
  intros H Hs. unfold send_register.
  destruct (reg_task t (cs_timer st)) as [t'|] eqn:Er; [|done]. intros [= <-].
  pose proof (si_count _ _ _ _ H) as Hc. pose proof (si_conserve _ _ _ _ H) as Hcons.
  pose proof (si_lost _ _ _ _ H) as Hl. pose proof (si_reg _ _ _ _ H) as Hreg.
  assert (Hrun : cs_recv st <> RExit).
  { eapply admitted_running; [exact H|by rewrite Hs]. }
  unfold sender_seq_ok in Hreg. rewrite Hs in *. cbn [sender_count sender_held] in *.
  destruct (reg_task_inv t (cs_timer st) t' (si_timer _ _ _ _ H)) as [_ Hlive]; [lia|lia|done|].
  assert (Et : t' = set_pending (pending_tasks (cs_timer st) ++ [t]) (cs_timer st)).
  { unfold reg_task in Er. destruct (_ <? _); by simplify_eq. }
  eapply (inv_sender started lost handed st _ (OpReg t)); try done.
  - apply step_reg; [lia|lia|done].
  - intros t0 [= <-]. lia.
  - by rewrite Et.
  - rewrite Et; cbn. rewrite zlen_app, zlen_cons, zlen_nil. lia.
  - rewrite Hlive, zlen_app, zlen_cons, zlen_nil. cbn. lia.
Qed.

Lemma inv_failed started lost handed st t st' evs :
  stream_inv started lost handed st -> cs_sender st = SFailed t ->
  send_failed error_handle t st = (st', evs) -> stream_inv started lost (handed + zlen evs) st'.
Proof.
  intros H Hs E. unfold send_failed in E. simplify_eq.
  apply (inv_sender_only started lost handed); try done; rewrite ?Hs; cbn; try done; try (by apply H).
  - intros E. split; [done|]. by apply H.
  - unfold zlen; cbn. lia.
Qed.

(** ** Every step keeps the invariant *)

Lemma inv_step op started lost handed st st' evs :
  stream_inv started lost handed st -> step op st st' evs ->
  stream_inv (started + op_started op) (lost + op_lost op st') (handed + zlen evs) st'.
Proof.
  intros H Hstep. destruct Hstep; cbn [op_started op_lost]; rewrite ?zlen_nil, ?Z.add_0_r.
  - by apply inv_start.
  - by eapply inv_send_check.
  - by apply inv_undo.
  - by eapply inv_request.
  - by eapply inv_register.
  - by eapply inv_failed.
  - apply (inv_sender_only started lost handed); try done; rewrite ?H0; cbn; try done; try (by apply H).
    intros E. split; [done|]. by apply H.
  - unfold stream_flush_req in *. destruct (flush_req (cs_conn st)) as [c [u|u]]; simplify_eq.
    + by apply (inv_ext started lost handed st).
    + apply (inv_ext started lost handed (upd_timer (stop_reg_task (cs_timer st)) st)); try done.
      by apply inv_stop.
  - pose proof (newest_max _ (si_timer _ _ _ _ H)) as [? _]. pose proof (inv_min _ (si_timer _ _ _ _ H)).
    pose proof (si_seq _ _ _ _ H). unfold send_ping_req, seq_update in *. destruct (cs_closed st) eqn:Ec; simplify_eq; [done|].
    assert (Hinc : u64_incr (cs_seq st) = cs_seq st + 1) by (unfold u64_incr, as_u64; apply Z.mod_small; lia).
    destruct (ReqHead_encode_ping _ _ _) as [buf|]; cbn [may_bind] in *; [|done].
    destruct (write_req _ _ _ _) as [c [u|u]]; simplify_eq;
      apply (inv_ext started lost handed st); cbn; try done; try lia.
  - by apply (inv_ext started lost handed st).
  - apply (inv_sender_only started lost handed); cbn; rewrite ?H0; try done; try (by apply H).
    + apply (inv_ext started lost handed (upd_timer (stop_reg_task (cs_timer st)) st)); try done.
      by apply inv_stop.
    + intros E. split; [done|]. by apply H.
  - by apply inv_head.
  - unfold recv_read in *. destruct (read_resp _ _ _ _ _) as [[[[c t'] e] r]|] eqn:Er; cbn [may_bind] in *; [|done].
    apply read_resp_timer in Er. simplify_eq. eapply inv_read; [done|by rewrite H0|by rewrite H0|exact Er|done].
  - unfold recv_cancel in *. destruct (read_resp _ _ _ _ _) as [[[[c t'] e] r]|] eqn:Er; cbn [may_bind] in *; [|done].
    apply read_resp_timer in Er. simplify_eq. eapply inv_read; [done|by rewrite H0|by rewrite H0|exact Er|done].
  - unfold recv_resume in *. destruct (read_resp_resume _ _ _ _ _) as [[[[c t'] e] r]|] eqn:Er; cbn in *; [|done].
    simplify_eq. eapply inv_read; [done|by rewrite H0|by rewrite H0| |done]. right.
    eapply read_resume_timer; [apply H|done].
  - by eapply inv_body.
  - unfold time_reach in *. pose proof (adjust_task_queue_eq error_handle _ (si_timer _ _ _ _ H)) as E.
    rewrite E in *. simplify_eq. eapply inv_timer_op; [done|done|by apply step_tick|done|done|].
    unfold zlen. by rewrite length_map.
  - rewrite <- (Z.add_0_r handed). eapply (inv_timer_op _ _ _ _ OpPoll); [done|done|apply step_poll|done| |done].
    by apply recv_pending_count, H.
  - unfold recv_has_err. destruct (cs_has_err st) eqn:Ee; [|done]. eapply (inv_recv _ _ handed).
    + by apply (inv_ext started lost handed st).
    + right. split; [|done]. by eexists.
    + unfold recv_tasks; cbn. by destruct (recv_body_pc (cs_recv st)).
  - eapply inv_clean; [done|by left|done].
  - by eapply inv_check.
Qed.

(** Runs, with the number of calls, of lost tasks and the events. *)
Inductive stream_run : Z -> Z -> list (event T) -> ClientStream S T -> ClientStream S T -> Prop :=
| srun_nil st : stream_run 0 0 [] st st
| srun_snoc started lost outs op st st' st'' evs :
    stream_run started lost outs st st' -> step op st' st'' evs ->
    stream_run (started + op_started op) (lost + op_lost op st'') (outs ++ evs) st st''.

Lemma inv_run started lost outs st st' :
  stream_inv 0 0 0 st -> stream_run started lost outs st st' ->
  stream_inv started lost (zlen outs) st'.
Proof.
  intros H. induction 1 as [|started lost outs op st st' st'' evs Hr IH Hs]; [done|].
  rewrite zlen_app. eapply inv_step; [by apply IH|done].
Qed.

Lemma ClientStream_new_inv (conn : TcpClient S) cid timeout thr :
  0 <= timeout -> stream_inv 0 0 0 (ClientStream_new (T := T) conn cid timeout thr).
Proof.
  intros Ht. constructor; cbn; try done; try (by intros [[? ?]|?]);
    try (by intros ? [?|?]).
  by apply Timer_new_inv.
Qed.

(** ** Properties *)

(** However the sending and the receiving coroutine of a connection
    interleave, once the receiver has exited and no call of [send_task] is in
    progress, no task is left in the timer or in its channel, none could not be
    encoded, and none has been handed back that was not sent. *)
Theorem no_task_stranded (conn : TcpClient S) cid timeout thr started lost outs st :
  0 <= timeout ->
  stream_run started lost outs (ClientStream_new conn cid timeout thr) st ->
  cs_recv st = RExit -> cs_sender st = SIdle \/ cs_sender st = SGone ->
  live (cs_timer st) = [] /\ lost = 0 /\ zlen outs <= started.
Proof using ClientTaskOk0 error_handle_task.
  intros Ht Hr Hex Hs. pose proof (inv_run _ _ _ _ _ (ClientStream_new_inv conn cid timeout thr Ht) Hr) as H.
  destruct (si_exit _ _ _ _ H Hex) as (Hp & _ & Hl).
  assert (Hlive : live (cs_timer st) = []).
  { unfold live. rewrite (si_clean _ _ _ _ H) by auto. by rewrite Hp. }
  split; [done|]. split; [done|]. pose proof (si_conserve _ _ _ _ H) as Hc.
  rewrite Hlive, zlen_nil, Hl, Hex in Hc. unfold recv_tasks in Hc; cbn in Hc.
  destruct Hs as [Hs|Hs]; rewrite Hs in Hc; cbn in Hc; unfold zlen in *; cbn in *; lia.
Qed.

(** C36. A task whose request cannot be encoded is never handed back, and
    it wedges the connection: from then on the receiver can never exit, since
    the pending counter is not taken back. *)
Theorem encode_failure_wedges (conn : TcpClient S) cid timeout thr started lost outs st :
  0 <= timeout ->
  stream_run started lost outs (ClientStream_new conn cid timeout thr) st ->
  0 < lost -> cs_recv st <> RExit /\ 0 < pending_task_count (cs_timer st) /\ zlen outs < started.
Proof using ClientTaskOk0 error_handle_task.
  intros Ht Hr Hl. pose proof (inv_run _ _ _ _ _ (ClientStream_new_inv conn cid timeout thr Ht) Hr) as H.
  split; [intros E; destruct (si_exit _ _ _ _ H E) as (_ & _ & ?); lia|].
  pose proof (si_count _ _ _ _ H) as Hc. pose proof (si_conserve _ _ _ _ H) as Hcons.
  pose proof (zlen_nonneg (pending_tasks (cs_timer st))). pose proof (zlen_nonneg (live (cs_timer st))).
  pose proof (zlen_nonneg (recv_tasks (cs_recv st))).
  assert (0 <= sender_count (cs_sender st) /\ 0 <= sender_held (cs_sender st)) by (by destruct (cs_sender st)).
  lia.
Qed.

(** C29. The receiver does exit: after an error, with no call of
    [send_task] in progress and no encoding failure before, it cleans up once,
    handing every live task to [error_handle], finds the counter at zero and
    returns. *)
Theorem receiver_exits (conn : TcpClient S) cid timeout thr started outs st f :
  0 <= timeout ->
  stream_run started 0 outs (ClientStream_new conn cid timeout thr) st ->
  cs_recv st = RClean f -> sender_count (cs_sender st) = 0 ->
  exists st1 st2, step RecvClean st st1 (fail_with error_handle IO (clean_order (cs_timer st))) /\
    step RecvCheck st1 st2 [] /\ cs_recv st2 = RExit.
Proof using ClientTaskOk0 error_handle_task.
  intros Ht Hr Hcl Hs. pose proof (inv_run _ _ _ _ _ (ClientStream_new_inv conn cid timeout thr Ht) Hr) as H.
  destruct (clean_pending_tasks_eq error_handle (cs_timer st) (si_timer _ _ _ _ H))
    as (t' & E & _ & _ & Hcnt & _).
  exists (upd_recv (RCheck f) (upd_timer t' st)), (upd_recv RExit (upd_recv (RCheck f) (upd_timer t' st))).
  split; [|split; [|done]].
  - apply (st_clean _ _ _ f); [done|]. unfold recv_clean. by rewrite E.
  - apply (st_rcheck _ _ _ f); [done|]. unfold recv_check; cbn.
    pose proof (si_count _ _ _ _ H). rewrite Hcnt, (proj2 (Z.ltb_ge _ _)) by lia. done.
Qed.

End inv.

(** ** Concrete instances *)

Module StreamWitness.

Definition always (_ : Z) : bool := true.
Definition conn : TcpClient mem_stream := TcpC (MemStream [] [] true) [].
Definition start : ClientStream mem_stream APIClientReq := ClientStream_new conn 1 3 4.



Definition st1 := send_start (sample_task 0) true start.
Definition st2 := (send_check error_handle_default (sample_task 0) true st1).1.
Definition st3 := match send_request (sample_task 0) true st2 with Ret s => s | Panic => st2 end.
Definition st4 := match send_register (set_seq (sample_task 0) 1) st3 with Ready s => s | Pending => st3 end.
Definition st5 := upd_sender SIdle st4.
Definition st6 := recv_head st5.
Definition st7 := match recv_read always error_handle_default true st6 with Ret (s, _) => s | Panic => st6 end.
Definition st8 := match recv_clean error_handle_default None st7 with Ret (s, _) => s | Panic => st7 end.
Definition st9 := match recv_check error_handle_default None st8 with Ret (s, _) => s | Panic => st8 end.

Definition failed_task : APIClientReq := api_set_rpc_error (set_seq (sample_task 0) 1) IO.

Lemma stream_keep_task (t : APIClientReq) : ev_task (error_handle_default t) = t.
Proof. done. Qed.

Lemma run7 : stream_run always error_handle_default 1 0 [] start st7.
Proof.
  eapply (srun_snoc _ _ 1 0 [] RecvRead start st6 st7 []); [|apply (st_read _ _ _ true); vm_compute; reflexivity].
  eapply (srun_snoc _ _ 1 0 [] RecvHead start st5 st6 []); [|apply st_head; vm_compute; reflexivity].
  eapply (srun_snoc _ _ 1 0 [] SendDone start st4 st5 []); [|apply st_done; vm_compute; reflexivity].
  eapply (srun_snoc _ _ 1 0 [] SendRegister start st3 st4 []); [|apply (st_register _ _ _ (set_seq (sample_task 0) 1)); vm_compute; reflexivity].
  eapply (srun_snoc _ _ 1 0 [] SendRequest start st2 st3 []); [|apply (st_request _ _ _ (sample_task 0) true); vm_compute; reflexivity].
  eapply (srun_snoc _ _ 1 0 [] SendCheck start st1 st2 []); [|apply (st_check _ _ _ (sample_task 0) true); vm_compute; reflexivity].
  eapply (srun_snoc _ _ 0 0 [] (SendStart (sample_task 0) true) start start st1 []); [|apply st_start; vm_compute; reflexivity].
  apply srun_nil.
Qed.

Lemma run9 : stream_run always error_handle_default 1 0 [EvDone failed_task] start st9.
Proof.
  eapply (srun_snoc _ _ 1 0 [EvDone failed_task] RecvCheck start st8 st9 []); [|apply (st_rcheck _ _ _ None); vm_compute; reflexivity].
  eapply (srun_snoc _ _ 1 0 [] RecvClean start st7 st8 [EvDone failed_task]); [|apply (st_clean _ _ _ None); vm_compute; reflexivity].
  apply run7.
Qed.

Lemma no_task_stranded_witness :
  cs_recv st9 = RExit /\ live (cs_timer st9) = [] /\ zlen [EvDone failed_task] <= 1.
Proof.
  split; [vm_compute; reflexivity|].
  destruct (no_task_stranded always error_handle_default stream_keep_task conn 1 3 4 1 0 [EvDone failed_task] st9)
    as (Hl & _ & Hz).
  - lia.
  - exact run9.
  - vm_compute. reflexivity.
  - left. vm_compute. reflexivity.
  - split; [exact Hl|exact Hz].
Defined.

Lemma receiver_exits_witness :
  exists s1 s2, stream_step always error_handle_default RecvClean st7 s1 [EvDone failed_task] /\
    stream_step always error_handle_default RecvCheck s1 s2 [] /\ cs_recv s2 = RExit.
Proof.
  destruct (receiver_exits always error_handle_default stream_keep_task conn 1 3 4 1 [] st7 None) as (s1 & s2 & H1 & H2 & H3).
  - lia.
  - exact run7.
  - vm_compute. reflexivity.
  - vm_compute. reflexivity.
  - exists s1, s2. split; [|split; [exact H2|exact H3]].
    assert (E : fail_with error_handle_default IO (clean_order (cs_timer st7)) = [EvDone failed_task])
      by (vm_compute; reflexivity).
    rewrite E in H1. exact H1.
Defined.

(** A task the codec cannot encode. *)
Record bad_task : Type := BadTask { bad_seq : Z }.
#[local] Instance bad_task_ops : ClientTask bad_task := {|
  task_seq := bad_seq;
  set_seq _ s := BadTask s;
  get_action _ := ANum 1;
  encode_req _ buf := (buf, Err tt);
  get_req_blob _ := None;
  decode_resp t _ := Ok t;
  reserve_resp_blob t _ := (t, None);
  fill_resp_blob t _ := t;
  set_custom_error t _ _ _ := t;
  set_rpc_error t _ := t;
  set_ok t := t;
|}.
#[local] Instance bad_task_ok : ClientTaskOk bad_task.
Proof. by split. Qed.

Definition bstart : ClientStream mem_stream bad_task := ClientStream_new conn 1 3 4.
Definition b1 := send_start (BadTask 0) false bstart.
Definition b2 := (send_check error_handle_default (BadTask 0) false b1).1.
Definition b3 := match send_request (BadTask 0) false b2 with Ret s => s | Panic => b2 end.

Lemma encode_failure_wedges_witness :
  cs_sender b3 = SIdle /\ cs_recv b3 <> RExit /\ 0 < pending_task_count (cs_timer b3).
Proof.
  split; [vm_compute; reflexivity|].
  destruct (encode_failure_wedges always error_handle_default (fun t => eq_refl) conn 1 3 4 1 1 [] b3)
    as (Hr & Hc & _).
  - lia.
  - eapply (srun_snoc _ _ 1 0 [] SendRequest bstart b2 b3 []); [|apply (st_request _ _ _ (BadTask 0) false); vm_compute; reflexivity].
    eapply (srun_snoc _ _ 1 0 [] SendCheck bstart b1 b2 []); [|apply (st_check _ _ _ (BadTask 0) false); vm_compute; reflexivity].
    eapply (srun_snoc _ _ 0 0 [] (SendStart (BadTask 0) false) bstart bstart b1 []); [|apply st_start; vm_compute; reflexivity].
    apply srun_nil.
  - lia.
  - split; [exact Hr|exact Hc].
Defined.

End StreamWitness.
