(* ===== verification/StreamTrace.v ===== *)
(** * Where every request of a connection is

    The invariant of [StreamInv] counts. Here the tasks have an identity: a
    [tag] that the operations of the [ClientTask] trait, which all work on
    [&mut self], leave alone. Every step of a connection then keeps the
    multiset of the tags it is responsible for, so that what is handed back is
    what was sent, task by task, less what the two defects of the connection
    lose: a task that cannot be encoded, and the task whose body is being read
    when the sender's failure stops the receiver. *)
From Stdlib Require Import ZArith Lia Strings.String.
From stdpp Require Import base list sets sorting.
From S2P Require Import Prelude Errors Task ApiClient Proto BTree Timer TimerInv Net TcpClient Stream StreamInv.
Local Open Scope Z_scope.
Local Open Scope rpc_scope.

(** ** The identity of a task *)

Class TaskTag (T K : Type) `{!ClientTask T} : Type := {
  tag : T -> K;
  tag_set_seq t s : tag (set_seq t s) = tag t;
  tag_rpc_error t e : tag (set_rpc_error t e) = tag t;
  tag_custom_error t e i v : tag (set_custom_error t e i v) = tag t;
  tag_set_ok t : tag (set_ok t) = tag t;
  tag_decode t b t' : decode_resp t b = Ok t' -> tag t' = tag t;
  tag_reserve t n t' o : reserve_resp_blob t n = (t', o) -> tag t' = tag t;
  tag_fill t b : tag (fill_resp_blob t b) = tag t;
}.

(** The encoded request of an API task is never written again. *)
Definition api_tag_of (t : APIClientReq) : bytes * option bytes := (api_action t, api_req_msg t).

Lemma api_tag_decode t b t' : api_decode_resp t b = Ok t' -> api_tag_of t' = api_tag_of t.
Proof. unfold api_decode_resp. by case_match; intros [= <-]. Qed.

Lemma api_tag_reserve (t t' : APIClientReq) (o : option Z) : (t, None) = (t', o) -> api_tag_of t' = api_tag_of t.
Proof. by intros [= <- _]. Qed.

#[global] Instance api_tag : TaskTag APIClientReq (bytes * option bytes) := {|
  tag := api_tag_of;
  tag_set_seq _ _ := eq_refl;
  tag_rpc_error _ _ := eq_refl;
  tag_custom_error _ _ _ _ := eq_refl;
  tag_set_ok _ := eq_refl;
  tag_decode := api_tag_decode;
  tag_reserve t _ := api_tag_reserve t;
  tag_fill _ _ := eq_refl;
|}.

Section trace.
Context {S : Type} `{!AsyncStream S} {T : Type} `{!ClientTask T} `{!ClientTaskOk T}.
Context {K : Type} `{!TaskTag T K}.
Context (buffer_alloc : Z -> bool) (error_handle : T -> event T).
Context (error_handle_task : forall t, ev_task (error_handle t) = t).
Implicit Types st : ClientStream S T.
Abbreviation step := (stream_step buffer_alloc error_handle).

Definition ev_tag (e : event T) : K := tag (ev_task e).
Definition timer_tags (tm : ClientTaskTimer T) : list K := map (fun p => tag (snd p)) (live tm).

(** How a task gets lost. *)
Inductive loss : Type :=
| Unencoded (t : T)  (** [send_request] gave up before writing it *)
| Dropped (t : T)    (** in the reading future, that [receive_loop] drops *).
Definition loss_tag (l : loss) : K := match l with Unencoded t | Dropped t => tag t end.
Definition unencoded (ls : list loss) : list T :=
  omap (fun l => match l with Unencoded t => Some t | Dropped _ => None end) ls.
Definition dropped (ls : list loss) : list T :=
  omap (fun l => match l with Dropped t => Some t | Unencoded _ => None end) ls.

(** The task in the sender's hands. *)
Definition sender_tasks (p : sender_pc T) : list T :=
  match p with SAnnounced t _ | SSending t _ | SReg t | SFailed t => [t] | _ => [] end.
Definition stream_tags st : list K :=
  timer_tags (cs_timer st) ++ map tag (sender_tasks (cs_sender st)) ++ map tag (recv_tasks (cs_recv st)).

(** The task a step submits, and the one it forgets. *)
Definition op_task (op : stream_op (T := T)) : list T :=
  match op with SendStart t _ => [t] | _ => [] end.
Definition lost_task (op : stream_op (T := T)) st st' : list loss :=
  match op with
  | SendRequest => match cs_sender st' with SIdle => map Unencoded (sender_tasks (cs_sender st)) | _ => [] end
  | RecvCheck => match cs_recv st' with RExit => map Dropped (recv_tasks (cs_recv st)) | _ => [] end
  | _ => []
  end.

Lemma loss_tags_split ls : map loss_tag ls ≡ₚ map tag (unencoded ls) ++ map tag (dropped ls).
Proof.
  unfold unencoded, dropped. induction ls as [|[t|t] ls IH]; cbn; [done|by rewrite IH|].
  rewrite IH. apply Permutation_middle.
Qed.

Lemma loss_kinds (l : list T) :
  unencoded (map Unencoded l) = l /\ dropped (map Dropped l) = l /\
  dropped (map Unencoded l) = [] /\ unencoded (map Dropped l) = [].
Proof. unfold unencoded, dropped. induction l as [|t l (H1 & H2 & H3 & H4)]; cbn; [done|]. by rewrite H1, H2. Qed.

Lemma unencoded_app a b : unencoded (a ++ b) = unencoded a ++ unencoded b.
Proof. apply omap_app. Qed.

Lemma dropped_app a b : dropped (a ++ b) = dropped a ++ dropped b.
Proof. apply omap_app. Qed.

(** ** Reading a response *)

Lemma ev_tag_handle t : ev_tag (error_handle t) = tag t.
Proof using error_handle_task. unfold ev_tag. by rewrite error_handle_task. Qed.

Lemma finish_task_tags h t (c c' : TcpClient S) evs s :
  finish_task error_handle h t c = (c', evs, s) -> map ev_tag evs ++ map tag (state_tasks s) = [tag t].
Proof using error_handle_task.
  unfold finish_task. intros H. repeat (case_match; simplify_eq/=).
  - unfold ev_tag; cbn. rewrite tag_set_ok. by erewrite tag_decode.
  - by rewrite ev_tag_handle, tag_rpc_error.
  - unfold ev_tag; cbn. by rewrite tag_set_ok.
Qed.

Lemma dump_tasks g l : state_tasks (recv_and_dump buffer_alloc g l) = @nil T.
Proof. unfold recv_and_dump. by destruct (buffer_alloc _). Qed.

Lemma recv_resp_blob_tags h t (c c' : TcpClient S) evs s :
  recv_resp_blob buffer_alloc error_handle h t c = (c', evs, s) ->
  map ev_tag evs ++ map tag (state_tasks s) = [tag t].
Proof using error_handle_task.
  unfold recv_resp_blob. destruct (0 <? rs_blob_len h); [|apply finish_task_tags].
  destruct (reserve_resp_blob t (rs_blob_len h)) as [t' [n|]] eqn:Er; apply tag_reserve in Er; intros [= <- <- <-].
  - cbn. by rewrite Er.
  - rewrite dump_tasks. cbn. by rewrite ev_tag_handle, tag_rpc_error, Er.
Qed.

Lemma recv_resp_taken_tags h o (c c' : TcpClient S) evs s :
  recv_resp_taken buffer_alloc error_handle h o c = Ret (c', evs, s) ->
  map ev_tag evs ++ map tag (state_tasks s) = match o with Some t => [tag t] | None => [] end.
Proof using error_handle_task.
  unfold recv_resp_taken. destruct o as [t|].
  - destruct (0 <? rs_flag h).
    + unfold recv_error. destruct (rs_flag h =? 1).
      { intros [= <- <- <-]. cbn. by rewrite ev_tag_handle, tag_custom_error. }
      destruct (rs_flag h =? 2); [|done]. destruct (get_resp_buf _ c); cbn [may_bind]; [|done]. by intros [= <- <- <-].
    + destruct (0 <? rs_msg_len h); [by intros [= <- <- <-]|]. intros [= H]. by apply recv_resp_blob_tags in H.
  - destruct (0 <? _); intros [= <- <- <-]; [by rewrite dump_tasks|done].
Qed.

Lemma recv_resp_poll_tags h pc (c c' : TcpClient S) evs s :
  recv_resp_poll buffer_alloc error_handle h pc c = (c', evs, s) ->
  map ev_tag evs ++ map tag (state_tasks s) = map tag (body_task pc).
Proof using error_handle_task.
  destruct pc as [t|t n|t|g l]; cbn.
  - destruct (read_resp_buf c) as [c1 [u|e]]; [apply recv_resp_blob_tags|].
    intros [= <- <- <-]. cbn. by rewrite ev_tag_handle, tag_rpc_error.
  - destruct (read_exact (tc_stream c) n) as [s1 [b|e]].
    + intros H%finish_task_tags. by rewrite H, tag_fill.
    + intros [= <- <- <-]. cbn. by rewrite ev_tag_handle, tag_rpc_error.
  - unfold recv_error_string. destruct (read_resp_buf c) as [c1 [u|e]];
      [destruct (if starts_with _ _ then _ else _)|]; intros [= <- <- <-]; cbn;
      by rewrite ev_tag_handle, ?tag_rpc_error, ?tag_custom_error.
  - destruct (read_exact _ _) as [s1 [b|e]]; by intros [= <- <- <-].
Qed.

Definition taken_tags (r : poll (option T)) : list K :=
  match r with Ready (Some t) => [tag t] | _ => [] end.

Lemma read_events_tags r evs kept :
  read_events (S := S) buffer_alloc error_handle r evs kept ->
  map ev_tag evs ++ map tag (pc_tasks kept) = taken_tags r.
Proof using error_handle_task.
  destruct r as [o|]; cbn; [|by intros [-> ->]].
  intros (h & c & c' & s & H & ->). apply recv_resp_taken_tags in H. unfold state_tasks in H. rewrite H. by destruct o.
Qed.

(** ** The timer *)

Lemma take_task_tags k tm tm' r :
  timer_inv tm -> take_task k tm = (tm', r) -> timer_tags tm ≡ₚ timer_tags tm' ++ taken_tags r.
Proof.
  intros H E. unfold timer_tags.
  destruct (decide (reg_stopped_flag tm = true /\ processed_seq tm < k)) as [[? ?]|Hn].
  { rewrite take_task_stopped in E by done. simplify_eq. by rewrite app_nil_r. }
  destruct (take_task_live k tm H) as (_ & Hl & Hr).
  { destruct (reg_stopped_flag tm); [right|by left]. destruct (Z.leb_spec k (processed_seq tm)); [done|].
    exfalso; tauto. }
  rewrite E in Hl, Hr. cbn in Hl, Hr. subst r. rewrite Hl. unfold take_answer.
  destruct (bt_lookup k (live tm)) as [t|] eqn:El; cbn.
  - rewrite (without_split k t _ (inv_sorted _ H) El) at 1. cbn. apply Permutation_cons_append.
  - rewrite without_live by done. destruct (newest tm <? k); cbn; by rewrite app_nil_r.
Qed.

Lemma fail_with_tags e (m : btree T) :
  map ev_tag (fail_with error_handle e m) = map (fun p => tag (snd p)) m.
Proof using error_handle_task.
  unfold fail_with. rewrite map_map. apply map_ext. intros [k t]; cbn.
  by rewrite ev_tag_handle, tag_rpc_error.
Qed.

Lemma recv_pending_tags tm : timer_inv tm -> timer_tags (recv_pending tm) = timer_tags tm.
Proof. intros H. unfold timer_tags. by rewrite recv_pending_live. Qed.

Lemma clean_tags tm tm' evs :
  timer_inv tm -> clean_pending_tasks error_handle tm = Ret (tm', evs) ->
  timer_tags tm ≡ₚ timer_tags tm' ++ map ev_tag evs.
Proof using error_handle_task ClientTaskOk0.
  intros H E. destruct (clean_pending_tasks_eq error_handle tm H) as (t1 & E1 & _ & Hl & _).
  rewrite E1 in E. simplify_eq. unfold timer_tags. rewrite Hl, fail_with_tags. cbn.
  by rewrite clean_order_live.
Qed.

Lemma tick_tags tm tm' evs :
  timer_inv tm -> adjust_task_queue error_handle tm = (tm', evs) ->
  timer_tags tm ≡ₚ timer_tags tm' ++ map ev_tag evs.
Proof using error_handle_task ClientTaskOk0.
  intros H E. rewrite adjust_task_queue_eq in E by done. simplify_eq.
  unfold timer_tags. rewrite fail_with_tags, live_ticked, map_app. apply Permutation_app_comm.
Qed.

(** ** A step keeps what the connection is responsible for *)

Definition balanced (op : stream_op (T := T)) st st' (evs : list (event T)) : Prop :=
  map tag (op_task op) ++ stream_tags st ≡ₚ
    stream_tags st' ++ map ev_tag evs ++ map loss_tag (lost_task op st st').

(** A step of the receiver. *)
Lemma balanced_recv op st st' evs :
  op_task op = [] -> lost_task op st st' = [] -> cs_sender st' = cs_sender st ->
  timer_tags (cs_timer st) ++ map tag (recv_tasks (cs_recv st)) ≡ₚ
    timer_tags (cs_timer st') ++ map ev_tag evs ++ map tag (recv_tasks (cs_recv st')) ->
  balanced op st st' evs.
Proof.
  intros Ho Hl Es Ht. unfold balanced, stream_tags. rewrite Ho, Es, Hl. cbn [map app].
  transitivity ((timer_tags (cs_timer st) ++ map tag (recv_tasks (cs_recv st))) ++ map tag (sender_tasks (cs_sender st)));
    [solve_Permutation|]. rewrite Ht. solve_Permutation.
Qed.

(** ... that leaves the reading future alone. *)
Lemma balanced_quiet op st st' evs :
  op_task op = [] -> lost_task op st st' = [] -> cs_sender st' = cs_sender st ->
  recv_tasks (cs_recv st') = recv_tasks (cs_recv st) ->
  timer_tags (cs_timer st) ≡ₚ timer_tags (cs_timer st') ++ map ev_tag evs ->
  balanced op st st' evs.
Proof.
  intros Ho Hl Es Er Ht. apply balanced_recv; [done..|]. rewrite Er, Ht. solve_Permutation.
Qed.

Lemma recv_result_timer open r st : cs_timer (recv_result open r st) = cs_timer st /\
  cs_sender (recv_result open r st) = cs_sender st.
Proof. destruct r as [[[|]|]| |]; cbn; try done; by destruct open. Qed.

Lemma recv_result_pc open r st : recv_body_pc (cs_recv (recv_result open r st)) = read_pc r.
Proof. destruct r as [[[|]|]| |]; cbn; try done; by destruct open. Qed.

(** What a step leaves to the sender. *)
Lemma recv_ops_sender op st st' evs :
  step op st st' evs ->
  match op with SendStart _ _ | SendCheck | SendUndo | SendRequest | SendRegister | SendFailed | SendDone
    | DropStream => True
  | _ => cs_sender st' = cs_sender st end.
Proof.
  destruct 1; try done.
  - unfold stream_flush_req in *. by destruct (flush_req (cs_conn st)) as [? []]; simplify_eq.
  - unfold send_ping_req, seq_update in *. destruct (cs_closed st); simplify_eq; [done|].
    destruct (ReqHead_encode_ping _ _ _); cbn in *; [|done].
    by destruct (write_req _ _ _ _) as [? []]; simplify_eq.
  - unfold recv_head. destruct (cs_closed st); [|done].
    destruct (check_pending_tasks_empty _) as [? []]; [done|]. cbn. by destruct (cs_has_err st).
  - unfold recv_read in *. destruct (read_resp _ _ _ _ _) as [[[[c tm] e] r]|]; cbn in *; [|done].
    simplify_eq. exact (proj2 (recv_result_timer open r (upd_timer tm (upd_conn c st)))).
  - unfold recv_cancel in *. destruct (read_resp _ _ _ _ _) as [[[[c tm] e] r]|]; cbn in *; [|done].
    simplify_eq. exact (proj2 (recv_result_timer true r (upd_timer tm (upd_conn c st)))).
  - unfold recv_resume in *. destruct (read_resp_resume _ _ _ _ _) as [[[[c tm] e] r]|]; cbn in *; [|done].
    simplify_eq. exact (proj2 (recv_result_timer open r (upd_timer tm (upd_conn c st)))).
  - unfold recv_body in *. destruct (read_resp_body _ _ _ _ _ _) as [[[c tm] e] r]; cbn in *.
    simplify_eq. exact (proj2 (recv_result_timer open r (upd_timer tm (upd_conn c st)))).
  - unfold time_reach in *. by destruct (adjust_task_queue _ _); simplify_eq.
  - unfold recv_has_err. by destruct (cs_has_err st).
  - unfold recv_clean in *. destruct (clean_pending_tasks _ _) as [[]|]; cbn in *; by simplify_eq.
  - unfold recv_check, recv_clean in *. destruct (0 <? _); [|by simplify_eq].
    destruct (clean_pending_tasks _ _) as [[]|]; cbn in *; by simplify_eq.
Qed.

(** The steps that move the receiver. *)
Definition recv_op (op : stream_op (T := T)) : bool :=
  match op with
  | RecvHead | RecvRead | RecvCancel _ | RecvResume | RecvBody | RecvHasErr | RecvClean | RecvCheck => true
  | _ => false
  end.

Lemma other_ops_recv op st st' evs : step op st st' evs -> recv_op op = false -> cs_recv st' = cs_recv st.
Proof.
  destruct 1; intros Ho; try done;
    unfold send_check, send_request, seq_update, send_register, send_failed, stream_flush_req, send_ping_req,
      time_reach in *; cbn zeta in *; unfold may_bind in *; repeat (case_match; simplify_eq/=); by simplify_eq/=.
Qed.

(** Where a step takes the sender. *)
Lemma sender_next op st st' evs :
  step op st st' evs ->
  match op with
  | SendStart t _ => cs_sender st = SIdle /\ exists nf, cs_sender st' = SAnnounced t nf /\
      (nf = false -> nearly_full (get_inflight_count st) (cs_thresholds st) = false)
  | SendCheck => exists t nf, cs_sender st = SAnnounced t nf /\
      (cs_sender st' = SUndo \/ cs_sender st' = SSending t nf)
  | SendUndo => cs_sender st = SUndo /\ cs_sender st' = SIdle
  | SendRequest => exists t nf, cs_sender st = SSending t nf /\
      (cs_sender st' = SIdle \/ exists t', cs_sender st' = SFailed t' \/ cs_sender st' = SReg t')
  | SendRegister => exists t, cs_sender st = SReg t /\ cs_sender st' = SThrottle
  | SendFailed => exists t, cs_sender st = SFailed t /\ cs_sender st' = SIdle
  | SendDone => cs_sender st = SThrottle /\ cs_sender st' = SIdle
  | DropStream => cs_sender st = SIdle /\ cs_sender st' = SGone
  | _ => cs_sender st' = cs_sender st
  end.
Proof.
  intros Hs. pose proof (recv_ops_sender _ _ _ _ Hs) as Hr. destruct Hs; try exact Hr; try done.
  - split; [done|]. eexists. split; [reflexivity|]. by destruct (nearly_full _ _).
  - exists t, nf. split; [done|]. unfold send_check in *. destruct (cs_closed st); simplify_eq; auto.
  - exists t, nf. split; [done|]. unfold send_request, seq_update in *. cbn zeta in *.
    destruct (ReqHead_encode _ _ _) as [[buf [blob|e]]|]; cbn in *; [| |done].
    + right. destruct (write_req _ _ _ _) as [c [u|u]]; simplify_eq; cbn; eauto.
    + simplify_eq. by left.
  - exists t. split; [done|]. unfold send_register in *. by destruct (reg_task _ _); simplify_eq.
  - exists t. unfold send_failed in *. by simplify_eq.
Qed.

Lemma balanced_read op open r st (c : TcpClient S) tm evs :
  op_task op = [] -> op <> SendRequest -> op <> RecvCheck -> timer_inv (cs_timer st) -> recv_tasks (cs_recv st) = [] ->
  ((tm = cs_timer st /\ evs = [] /\ read_pc r = None) \/
   exists k o, take_task k (cs_timer st) = (tm, o) /\
     read_events (S := S) buffer_alloc error_handle o evs (read_pc r)) ->
  balanced op st (recv_result open r (upd_timer tm (upd_conn c st))) evs.
Proof using error_handle_task.
  intros Ho Hn Hn2 Hi Hno Ht. destruct (recv_result_timer open r (upd_timer tm (upd_conn c st))) as [Et Es].
  apply balanced_recv; [done|by destruct op|done|]. rewrite Et, Hno, app_nil_r. unfold recv_tasks. rewrite recv_result_pc. cbn [cs_timer upd_timer].
  destruct Ht as [(-> & -> & ->)|(k & o & E & Hr)].
  - by rewrite !app_nil_r.
  - rewrite (read_events_tags _ _ _ Hr). by eapply take_task_tags.
Qed.

Lemma balanced_body st open h pc st' evs :
  cs_recv st = RInBody open h pc -> recv_body buffer_alloc error_handle open h pc st = (st', evs) ->
  balanced RecvBody st st' evs.
Proof using error_handle_task.
  intros Hr. unfold recv_body.
  destruct (read_resp_body _ _ h pc (cs_conn st) (cs_timer st)) as [[[c tm] e] r] eqn:E. intros [= <- <-].
  apply read_body_timer in E as (-> & s & E & Es). apply recv_resp_poll_tags in E.
  destruct (recv_result_timer open r (upd_timer (cs_timer st) (upd_conn c st))) as [Et Ese].
  unfold state_tasks in E. apply balanced_recv; [done..|]. rewrite Et. unfold recv_tasks.
  by rewrite recv_result_pc, Es, E, Hr.
Qed.

(** A step of the sender that leaves the live tasks alone. *)
Lemma balanced_sender op st st' evs :
  timer_tags (cs_timer st') = timer_tags (cs_timer st) -> cs_recv st' = cs_recv st ->
  map tag (op_task op ++ sender_tasks (cs_sender st)) =
    map tag (sender_tasks (cs_sender st')) ++ map loss_tag (lost_task op st st') /\ evs = [] \/
  op_task op = [] /\ lost_task op st st' = [] /\
    map tag (sender_tasks (cs_sender st)) = map tag (sender_tasks (cs_sender st')) ++ map ev_tag evs ->
  balanced op st st' evs.
Proof.
  intros Et Er H. unfold balanced, stream_tags. rewrite Et, Er. destruct H as [[H ->]|(-> & -> & ->)].
  - rewrite map_app in H. transitivity (timer_tags (cs_timer st) ++ (map tag (op_task op) ++
      map tag (sender_tasks (cs_sender st))) ++ map tag (recv_tasks (cs_recv st))); [solve_Permutation|].
    rewrite H. cbn [map app]. solve_Permutation.
  - cbn [map app]. solve_Permutation.
Qed.

Lemma reg_task_tags t tm tm' :
  reg_task t tm = Ready tm' -> timer_tags tm' = timer_tags tm ++ [tag t].
Proof.
  unfold reg_task. case_match; [|done]. intros [= <-]. unfold timer_tags, live, received. cbn [pending_tasks set_pending delay_tasks_queue sent_tasks].
  by rewrite keyed_app, !map_app, <- !app_assoc.
Qed.

(** The tasks that pass through [send_request]. *)
Lemma balanced_request st t nf st' :
  cs_sender st = SSending t nf -> send_request t nf st = Ret st' -> balanced SendRequest st st' [].
Proof.
  intros Hs. unfold send_request, seq_update. cbn zeta.
  destruct (ReqHead_encode _ _ _) as [[buf r]|]; cbn [may_bind]; [|done].
  destruct r as [blob|e]; [destruct (write_req _ _ _ _) as [c [u|u]]|]; intros [= <-];
    apply balanced_sender; try done.
  - right. rewrite Hs. unfold lost_task; cbn. by rewrite tag_set_seq.
  - right. rewrite Hs. unfold lost_task; cbn. by rewrite tag_set_seq.
  - left. unfold lost_task; cbn. by rewrite Hs.
Qed.

Lemma balanced_register st t st' :
  cs_sender st = SReg t -> send_register t st = Ready st' -> balanced SendRegister st st' [].
Proof.
  intros Hs. unfold send_register. destruct (reg_task t (cs_timer st)) as [tm|] eqn:E; [|done].
  intros [= <-]. unfold balanced, stream_tags, lost_task. cbn [op_task map app cs_timer cs_sender cs_recv upd_sender upd_timer].
  rewrite (reg_task_tags _ _ _ E), Hs. cbn. by rewrite app_nil_r, <- app_assoc.
Qed.

Lemma recv_clean_balanced op st f st' evs :
  op = RecvClean \/ op = RecvCheck -> cs_recv st = RClean f \/ cs_recv st = RCheck f -> timer_inv (cs_timer st) ->
  recv_clean error_handle f st = Ret (st', evs) -> balanced op st st' evs.
Proof using error_handle_task ClientTaskOk0.
  intros Ho Hr Hi. unfold recv_clean.
  destruct (clean_pending_tasks error_handle (cs_timer st)) as [[tm e]|] eqn:E; cbn [may_bind]; [|done].
  intros [= <- <-]. apply balanced_quiet; [by destruct Ho as [-> | ->]|by destruct Ho as [-> | ->]|done| |].
  - by destruct Hr as [-> | ->].
  - by apply clean_tags.
Qed.

Lemma balanced_head st : cs_recv st = RLoop -> timer_inv (cs_timer st) -> balanced RecvHead st (recv_head st) [].
Proof.
  intros Hr Hi. unfold recv_head.
  destruct (cs_closed st); [|by apply balanced_quiet; cbn; rewrite ?Hr, ?app_nil_r].
  pose proof (check_pending_state (cs_timer st)) as E.
  destruct (check_pending_tasks_empty (cs_timer st)) as [tm e]. cbn in E. subst tm. cbn zeta.
  destruct (e || _); (apply balanced_quiet; [done|done|done|by rewrite Hr|]); cbn; by rewrite recv_pending_tags, app_nil_r.
Qed.

Lemma step_balanced op started lost handed st st' evs :
  stream_inv started lost handed st -> step op st st' evs -> balanced op st st' evs.
Proof using error_handle_task ClientTaskOk0.
  intros H Hstep. pose proof (si_timer _ _ _ _ H) as Hi. destruct Hstep.
  - apply balanced_sender; [done|done|left]. by rewrite H0.
  - unfold send_check in *. destruct (cs_closed st); simplify_eq; (apply balanced_sender; [done|done|]);
      [right|left]; rewrite H0; [|done]. cbn. by rewrite ev_tag_handle, tag_rpc_error.
  - apply balanced_sender; [done|done|left]. by rewrite H0.
  - by eapply balanced_request.
  - by eapply balanced_register.
  - unfold send_failed in *. simplify_eq. apply balanced_sender; [done|done|right]. rewrite H0.
    cbn. by rewrite ev_tag_handle, tag_rpc_error.
  - apply balanced_sender; [done|done|left]. by rewrite H0.
  - unfold stream_flush_req in *. destruct (flush_req (cs_conn st)) as [c [u|u]]; simplify_eq;
      (apply balanced_sender; [done|done|left]); cbn; by rewrite H0.
  - unfold send_ping_req, seq_update in *.
    destruct (cs_closed st); simplify_eq; [|destruct (ReqHead_encode_ping _ _ _); cbn in *; [|done];
      destruct (write_req _ _ _ _) as [c [u|u]]; simplify_eq];
      (apply balanced_sender; [done|done|left]); cbn; by rewrite H0.
  - apply balanced_sender; [done|done|left]. cbn. by rewrite H0.
  - apply balanced_sender; [done|done|left]. cbn. by rewrite H0.
  - by apply balanced_head.
  - unfold recv_read in *. destruct (read_resp _ _ _ _ _) as [[[[c tm] e] r]|] eqn:E; cbn in *; [|done].
    simplify_eq. apply balanced_read; [done|done|done|done|by rewrite H0|]. by eapply read_resp_timer.
  - unfold recv_cancel in *. destruct (read_resp _ _ _ _ _) as [[[[c tm] e] r]|] eqn:E; cbn in *; [|done].
    apply read_resp_timer in E. simplify_eq. apply balanced_read; [done|done|done|done|by rewrite H0|exact E].
  - unfold recv_resume in *. destruct (read_resp_resume _ _ _ _ _) as [[[[c tm] e] r]|] eqn:E; cbn in *; [|done].
    simplify_eq. apply balanced_read; [done|done|done|done|by rewrite H0|]. right. by eapply read_resume_timer.
  - by eapply balanced_body.
  - unfold time_reach in *. destruct (adjust_task_queue error_handle (cs_timer st)) as [tm e] eqn:E.
    simplify_eq. apply balanced_quiet; [done..|]. by apply tick_tags.
  - apply balanced_quiet; [done..|]. cbn. by rewrite recv_pending_tags, app_nil_r.
  - unfold recv_has_err. destruct (cs_has_err st); (apply balanced_quiet; [done|done|done| |]); cbn; rewrite ?app_nil_r; done.
  - eapply recv_clean_balanced; [by left|by left|done|done].
  - unfold recv_check in *. destruct (0 <? _); [eapply recv_clean_balanced; [by right|by right|done|done]|].
    simplify_eq. unfold balanced, stream_tags, lost_task. cbn. rewrite !map_map. cbn. by rewrite <- !app_assoc.
Qed.

(** *** What the receiver drops *)

(** The receiver has left its loop because of [has_err]. *)
Definition stopped st : bool := match cs_recv st with RExit => cs_has_err st | _ => false end.
Definition drop_room st : Z := if stopped st then 1 else 0.

Lemma has_err_step op st st' evs : step op st st' evs -> cs_has_err st = true -> cs_has_err st' = true.
Proof.
  destruct 1; intros He; try done;
    unfold send_check, send_request, seq_update, send_register, send_failed, stream_flush_req, send_ping_req,
      recv_head, recv_read, recv_cancel, recv_resume, recv_body, time_reach, recv_has_err, recv_check, recv_clean in *;
    cbn zeta in *; unfold may_bind in *; repeat (case_match; simplify_eq/=); simplify_eq/=; try done;
    by match goal with |- context [recv_result ?o ?r _] => destruct r as [[[|]|]| |]; cbn; [|destruct o|..] end.
Qed.

Lemma exit_step op st st' evs : step op st st' evs -> cs_recv st = RExit -> cs_recv st' = RExit.
Proof.
  destruct 1; intros He; try done; try congruence; try (by rewrite He in *);
    unfold send_check, send_request, seq_update, send_register, send_failed, stream_flush_req, send_ping_req in *;
    cbn zeta in *; unfold may_bind in *; repeat (case_match; simplify_eq/=); simplify_eq/=; done.
Qed.

(** It drops one task at most, at its end, and only then. *)
Lemma drop_step op started lost handed st st' evs :
  stream_inv started lost handed st -> step op st st' evs ->
  drop_room st + zlen (dropped (lost_task op st st')) <= drop_room st'.
Proof.
  intros Hi H. assert (Hmono : drop_room st <= drop_room st').
  { unfold drop_room, stopped. pose proof (exit_step _ _ _ _ H) as He. pose proof (has_err_step _ _ _ _ H) as Hh.
    assert (Hp : 0 <= (if match cs_recv st' with RExit => cs_has_err st' | _ => false end then 1 else 0))
      by (by destruct (match cs_recv st' with RExit => cs_has_err st' | _ => false end)).
    destruct (cs_recv st); try done.
    rewrite (He eq_refl). destruct (cs_has_err st); [by rewrite Hh|by destruct (cs_has_err st')]. }
  assert (Hno : dropped (lost_task op st st') = [] ->
    drop_room st + zlen (dropped (lost_task op st st')) <= drop_room st').
  { intros ->. rewrite zlen_nil. lia. }
  destruct op; try (by apply Hno).
  - apply Hno. unfold lost_task. destruct (cs_sender st'); try done. apply loss_kinds.
  - assert (Hx : cs_recv st' = RExit \/ lost_task RecvCheck st st' = [])
      by (unfold lost_task; destruct (cs_recv st'); auto).
    destruct Hx as [Ex|E]; [|apply Hno; by rewrite E].
    inversion H; subst. unfold lost_task. rewrite Ex.
    destruct f as [pc|].
    + pose proof (si_stopped _ _ _ _ Hi (Some pc) (or_intror H0) ltac:(done)) as He.
      pose proof (has_err_step _ _ _ _ H He) as He'. unfold drop_room, stopped. rewrite H0, Ex, He'.
      unfold recv_tasks; cbn. by destruct pc.
    + rewrite H0. cbn. rewrite zlen_nil. lia.
Qed.

(** ** Runs, with the tasks themselves *)

Inductive stream_trace : list T -> list loss -> list (event T) -> ClientStream S T -> ClientStream S T -> Prop :=
| strace_nil st : stream_trace [] [] [] st st
| strace_snoc ts lost outs op st st' st'' evs :
    stream_trace ts lost outs st st' -> step op st' st'' evs ->
    stream_trace (ts ++ op_task op) (lost ++ lost_task op st' st'') (outs ++ evs) st st''.

Lemma lost_task_count op st st' evs : step op st st' evs -> zlen (unencoded (lost_task op st st')) = op_lost op st'.
Proof.
  intros H. unfold lost_task, op_lost. destruct H; try done.
  - destruct (cs_sender st'); try done. rewrite (proj1 (loss_kinds _)). by rewrite H.
  - destruct (cs_recv st'); try done. by rewrite (proj2 (proj2 (proj2 (loss_kinds _)))).
Qed.

Lemma trace_run ts lost outs st st' :
  stream_trace ts lost outs st st' -> stream_run buffer_alloc error_handle (zlen ts) (zlen (unencoded lost)) outs st st'.
Proof.
  induction 1 as [|ts lost outs op st st' st'' evs _ IH Hs]; [apply srun_nil|].
  rewrite unencoded_app, !zlen_app, (lost_task_count _ _ _ _ Hs).
  replace (zlen (op_task op)) with (op_started op) by (by destruct op). by eapply srun_snoc.
Qed.

Lemma trace_tags ts lost outs st st' :
  stream_inv 0 0 0 st -> stream_trace ts lost outs st st' ->
  map tag ts ++ stream_tags st ≡ₚ stream_tags st' ++ map ev_tag outs ++ map loss_tag lost.
Proof using error_handle_task ClientTaskOk0.
  intros H. induction 1 as [|ts lost outs op st st' st'' evs Hr IH Hs]; [cbn; by rewrite app_nil_r|].
  pose proof (inv_run _ _ error_handle_task _ _ _ _ _ H (trace_run _ _ _ _ _ Hr)) as Hi.
  pose proof (step_balanced _ _ _ _ _ _ _ Hi Hs) as Hb. unfold balanced in Hb.
  specialize (IH H). rewrite !map_app.
  assert (E : (map tag ts ++ map tag (op_task op)) ++ stream_tags st ≡ₚ
    map tag (op_task op) ++ (map tag ts ++ stream_tags st)) by solve_Permutation.
  rewrite E, IH, app_assoc, Hb. solve_Permutation.
Qed.

Lemma trace_dropped ts lost outs st st' :
  stream_inv 0 0 0 st -> stream_trace ts lost outs st st' ->
  drop_room st + zlen (dropped lost) <= drop_room st'.
Proof using error_handle_task ClientTaskOk0.
  intros H. induction 1 as [|ts lost outs op st st' st'' evs Hr IH Hs]; [cbn; rewrite zlen_nil; lia|].
  pose proof (inv_run _ _ error_handle_task _ _ _ _ _ H (trace_run _ _ _ _ _ Hr)) as Hi.
  pose proof (drop_step _ _ _ _ _ _ _ Hi Hs). specialize (IH H). rewrite dropped_app, zlen_app. lia.
Qed.

(** ** Properties *)

(** C11. Where every request is. However the sending and the receiving
    coroutine of a connection interleave, each task sent is still in the timer,
    in the sender's hands or in the future that reads its response, or was lost
    because it could not be encoded, or was dropped with that future, or has
    been handed back, and it is so exactly once. A connection drops one task at
    most, and only if [has_err], which a failed send or flush and
    [set_error_and_exit] set, stopped its receiver in the middle of a body. Once
    the receiver has exited and no call of [send_task] is in progress, nothing is
    left, and the tasks handed back are exactly those that were sent, less the
    one dropped. *)
Theorem tasks_handed_back (conn : TcpClient S) cid timeout thr ts lost outs st :
  0 <= timeout ->
  stream_trace ts lost outs (ClientStream_new conn cid timeout thr) st ->
  map tag ts ≡ₚ stream_tags st ++ map ev_tag outs ++ map loss_tag lost /\
  (dropped lost = [] \/ (zlen (dropped lost) = 1 /\ cs_recv st = RExit /\ cs_has_err st = true)) /\
  (cs_recv st = RExit -> cs_sender st = SIdle \/ cs_sender st = SGone ->
   live (cs_timer st) = [] /\ unencoded lost = [] /\ map tag ts ≡ₚ map ev_tag outs ++ map tag (dropped lost)).
Proof using error_handle_task ClientTaskOk0.
  intros Ht Hr. pose proof (ClientStream_new_inv (T := T) conn cid timeout thr Ht) as H0.
  pose proof (trace_tags _ _ _ _ _ H0 Hr) as Hp. cbn in Hp. rewrite app_nil_r in Hp.
  split; [done|]. split.
  { pose proof (trace_dropped _ _ _ _ _ H0 Hr) as Hd. unfold drop_room, stopped in Hd. cbn in Hd.
    destruct (dropped lost) as [|t l]; [by left|right]. rewrite zlen_cons in Hd |- *. pose proof (zlen_nonneg l).
    destruct (cs_recv st); try lia. destruct (cs_has_err st); [|lia]. split; [lia|done]. }
  intros Hex Hs. destruct (no_task_stranded _ _ error_handle_task conn cid timeout thr _ _ _ _ Ht
    (trace_run _ _ _ _ _ Hr) Hex Hs) as (Hl & Hlost & _).
  split; [done|]. apply zlen_nil_iff in Hlost. split; [done|].
  unfold stream_tags, timer_tags in Hp. rewrite Hl, Hex, loss_tags_split, Hlost in Hp. cbn in Hp.
  by destruct Hs as [Hs|Hs]; rewrite Hs in Hp.
Qed.

End trace.
Arguments Unencoded {T}.
Arguments Dropped {T}.

(** ** Concrete instances *)

Module TraceWitness.
Import StreamWitness.

Definition task : APIClientReq := sample_task 0.
Abbreviation trace := (stream_trace always error_handle_default).

Lemma trace7 : trace [task] [] [] start st7.
Proof.
  eapply (strace_snoc _ _ [task] [] [] RecvRead start st6 st7 []); [|apply (st_read _ _ _ true); vm_compute; reflexivity].
  eapply (strace_snoc _ _ [task] [] [] RecvHead start st5 st6 []); [|apply st_head; vm_compute; reflexivity].
  eapply (strace_snoc _ _ [task] [] [] SendDone start st4 st5 []); [|apply st_done; vm_compute; reflexivity].
  eapply (strace_snoc _ _ [task] [] [] SendRegister start st3 st4 []);
    [|apply (st_register _ _ _ (set_seq task 1)); vm_compute; reflexivity].
  eapply (strace_snoc _ _ [task] [] [] SendRequest start st2 st3 []);
    [|apply (st_request _ _ _ task true); vm_compute; reflexivity].
  eapply (strace_snoc _ _ [task] [] [] SendCheck start st1 st2 []);
    [|apply (st_check _ _ _ task true); vm_compute; reflexivity].
  eapply (strace_snoc _ _ [] [] [] (SendStart task true) start start st1 []); [|apply st_start; vm_compute; reflexivity].
  apply strace_nil.
Qed.

Lemma trace9 : trace [task] [] [EvDone failed_task] start st9.
Proof.
  eapply (strace_snoc _ _ [task] [] [EvDone failed_task] RecvCheck start st8 st9 []);
    [|apply (st_rcheck _ _ _ None); vm_compute; reflexivity].
  eapply (strace_snoc _ _ [task] [] [] RecvClean start st7 st8 [EvDone failed_task]);
    [|apply (st_clean _ _ _ None); vm_compute; reflexivity].
  apply trace7.
Qed.

Lemma tasks_handed_back_witness :
  cs_recv st9 = RExit /\ map tag [task] ≡ₚ map ev_tag [EvDone failed_task].
Proof.
  split; [vm_compute; reflexivity|].
  destruct (tasks_handed_back always error_handle_default stream_keep_task conn 1 3 4 [task] []
    [EvDone failed_task] st9) as (_ & _ & H).
  - lia.
  - exact trace9.
  - exact (proj2 (proj2 (H ltac:(vm_compute; reflexivity) ltac:(left; vm_compute; reflexivity)))).
Defined.

(** *** A task that is dropped

    The head of the response has come, the message it announces has not: the
    task is out of the timer when [set_error_and_exit] stops the receiver, whose
    clean-up does not find it. Nothing is handed back. *)
Definition head1 : bytes := RespHead_to_bytes (ok_head 1 [Byte.x61; Byte.x62] None).
Definition dstart : ClientStream mem_stream APIClientReq :=
  ClientStream_new (TcpC (MemStream head1 [] true) []) 1 3 4.
Definition d1 := send_start task true dstart.
Definition d2 := (send_check error_handle_default task true d1).1.
Definition d3 := match send_request task true d2 with Ret s => s | Panic => d2 end.
Definition d4 := match send_register (set_seq task 1) d3 with Ready s => s | Pending => d3 end.
Definition d5 := upd_sender SIdle d4.
Definition d6 := recv_head d5.
Definition d7 := match recv_read always error_handle_default true d6 with Ret (s, _) => s | Panic => d6 end.
Definition d8 := set_error_and_exit d7.
Definition d9 := recv_has_err d8.
Definition body1 : option (body_pc APIClientReq) := Some (BMsg (set_seq task 1)).
Definition d10 := match recv_clean error_handle_default body1 d9 with Ret (s, _) => s | Panic => d9 end.
Definition d11 := match recv_check error_handle_default body1 d10 with Ret (s, _) => s | Panic => d10 end.

Lemma drop_reads : trace [task] [] [] dstart d7.
Proof.
  eapply (strace_snoc _ _ [task] [] [] RecvRead dstart d6 d7 []); [|apply (st_read _ _ _ true); vm_compute; reflexivity].
  eapply (strace_snoc _ _ [task] [] [] RecvHead dstart d5 d6 []); [|apply st_head; vm_compute; reflexivity].
  eapply (strace_snoc _ _ [task] [] [] SendDone dstart d4 d5 []); [|apply st_done; vm_compute; reflexivity].
  eapply (strace_snoc _ _ [task] [] [] SendRegister dstart d3 d4 []);
    [|apply (st_register _ _ _ (set_seq task 1)); vm_compute; reflexivity].
  eapply (strace_snoc _ _ [task] [] [] SendRequest dstart d2 d3 []);
    [|apply (st_request _ _ _ task true); vm_compute; reflexivity].
  eapply (strace_snoc _ _ [task] [] [] SendCheck dstart d1 d2 []);
    [|apply (st_check _ _ _ task true); vm_compute; reflexivity].
  eapply (strace_snoc _ _ [] [] [] (SendStart task true) dstart dstart d1 []); [|apply st_start; vm_compute; reflexivity].
  apply strace_nil.
Qed.

Example task_dropped :
  trace [task] [Dropped (set_seq task 1)] [] dstart d11 /\ cs_recv d11 = RExit /\ live (cs_timer d11) = [].
Proof.
  split; [|split; vm_compute; reflexivity].
  eapply (strace_snoc _ _ [task] [] [] RecvCheck dstart d10 d11 []); [|apply (st_rcheck _ _ _ body1); vm_compute; reflexivity].
  eapply (strace_snoc _ _ [task] [] [] RecvClean dstart d9 d10 []); [|apply (st_clean _ _ _ body1); vm_compute; reflexivity].
  eapply (strace_snoc _ _ [task] [] [] RecvHasErr dstart d8 d9 []); [|apply st_has_err; vm_compute; reflexivity].
  eapply (strace_snoc _ _ [task] [] [] ErrorExit dstart d7 d8 []); [|apply st_exit; vm_compute; reflexivity].
  apply drop_reads.
Qed.

(** *** Header bytes that are lost

    The stream is dropped, and the close channel fires, when 3 bytes of the header have been read: they go
    with the future, and the next read takes its header from the fourth byte
    on. The head of a response to a registered request is then no head at all. *)
Definition e6 := stream_drop d6.
Definition e7 := match recv_cancel always error_handle_default 3 e6 with Ret (s, _) => s | Panic => e6 end.

Example header_bytes_lost :
  stream_step always error_handle_default (RecvCancel 3) e6 e7 [] /\
  incoming (tc_stream (cs_conn e7)) = drop 3 head1.
Proof.
  split; [apply st_cancel; [vm_compute; reflexivity|reflexivity|done|vm_compute; reflexivity|vm_compute; reflexivity]
         |vm_compute; reflexivity].
Qed.

End TraceWitness.
