(* ===== verification/StreamPoll.v ===== *)
(** * A connection polled by the runtime

    [ReceiverTimerFuture::poll] (stream/src/client/stream.rs) lets the ticks
    that are due age the pending requests, looks at [has_err], takes in what
    the sender has registered and lets the reader go on as far as the socket
    allows. A poll is a run of steps of [Stream], and the ageing bounds how
    long a request waits for its response to begin, whatever the server does. *)
From Stdlib Require Import ZArith Lia Strings.String.
From stdpp Require Import base list sets sorting.
From S2P Require Import Prelude Errors Task ApiClient Proto BTree Timer TimerInv Net TcpClient Stream StreamInv StreamTrace.
Local Open Scope Z_scope.
Local Open Scope rpc_scope.

Section poll.
Context {S : Type} `{!AsyncStream S} {T : Type} `{!ClientTask T}.
Context (buffer_alloc : Z -> bool) (error_handle : T -> event T).
Implicit Types st : ClientStream S T.

(** The loop over [poll_tick]: [n] ticks are due. *)
Fixpoint poll_ticks (n : nat) st : ClientStream S T * list (event T) :=
  match n with
  | O => (st, [])
  | Datatypes.S n' =>
    let '(st, evs) := time_reach error_handle st in
    let '(st, evs') := poll_ticks n' st in (st, evs ++ evs')
  end.

(** What [Cancellable] answers once the close channel has fired: that it has
    dropped the read of the header, and with how many bytes, or that the header
    is there. *)
Context (cancelled : ClientStream S T -> option Z).

Definition poll_header (open : bool) st : may (ClientStream S T * list (event T)) :=
  match (if open && cs_close_fired st then cancelled st else None) with
  | Some k => recv_cancel buffer_alloc error_handle k st
  | None => recv_read buffer_alloc error_handle open st
  end.

(** [recv_one_resp] polled: it goes on until the socket has nothing more (after
    [fuel] turns), it is suspended in [take_task], or it returns an error. *)
Fixpoint recv_one_resp (fuel : nat) st : may (ClientStream S T * list (event T)) :=
  match fuel with
  | O => Ret (st, [])
  | Datatypes.S fuel' =>
    match cs_recv st with
    | RLoop => recv_one_resp fuel' (recv_head st)
    | RReading open =>
      let? (st, evs) := poll_header open st in
      let? (st, evs') := recv_one_resp fuel' st in Ret (st, evs ++ evs')
    | RInBody open head pc =>
      let '(st, evs) := recv_body buffer_alloc error_handle open head pc st in
      let? (st, evs') := recv_one_resp fuel' st in Ret (st, evs ++ evs')
    | RWaiting open head =>
      let? (st, evs) := recv_resume buffer_alloc error_handle open head st in
      match cs_recv st with
      | RWaiting _ _ => Ret (st, evs)
      | _ => let? (st, evs') := recv_one_resp fuel' st in Ret (st, evs ++ evs')
      end
    | _ => Ret (st, [])
    end
  end.

(** [poll]: an error, of [has_err] or of the reader, ends the future and takes
    [receive_loop] to its cleanup. *)
Definition receiver_poll (due fuel : nat) st : may (ClientStream S T * list (event T)) :=
  let '(st, evs) := poll_ticks due st in
  if cs_has_err st then Ret (recv_has_err st, evs)
  else
    let st := recv_poll_sent st in
    let? (st, evs') := recv_one_resp fuel st in Ret (st, evs ++ evs').

(** [Drop for ClientStreamInner]. *)
Definition inner_drop st : may (ClientStream S T * list (event T)) :=
  let? (timer, evs) := clean_pending_tasks error_handle (cs_timer st) in
  Ret (upd_timer timer st, evs).

(** Runs that keep the steps. *)
Inductive stream_exec : list (stream_op (T := T)) -> list (event T) -> ClientStream S T -> ClientStream S T -> Prop :=
| sexec_nil st : stream_exec [] [] st st
| sexec_cons op ops evs outs st st' st'' :
    stream_step buffer_alloc error_handle op st st' evs -> stream_exec ops outs st' st'' ->
    stream_exec (op :: ops) (evs ++ outs) st st''.

Definition is_recv_tick (op : stream_op (T := T)) : bool := match op with RecvTick => true | _ => false end.
Definition recv_ticks (ops : list (stream_op (T := T))) : Z := zlen (List.filter is_recv_tick ops).

(** ** A poll is a run *)

Lemma exec_app ops1 ops2 outs1 outs2 st st1 st2 :
  stream_exec ops1 outs1 st st1 -> stream_exec ops2 outs2 st1 st2 ->
  stream_exec (ops1 ++ ops2) (outs1 ++ outs2) st st2.
Proof.
  induction 1 as [|op ops evs outs st st' st'' Hs _ IH]; intros H2; [done|].
  cbn. rewrite <- app_assoc. eapply sexec_cons; [exact Hs|by apply IH].
Qed.

Lemma exec_one op st st' evs :
  stream_step buffer_alloc error_handle op st st' evs -> stream_exec [op] evs st st'.
Proof. intros H. rewrite <- (app_nil_r evs). eapply sexec_cons; [exact H|apply sexec_nil]. Qed.

Lemma recv_ticks_app a b : recv_ticks (a ++ b) = recv_ticks a + recv_ticks b.
Proof. unfold recv_ticks. by rewrite List.filter_app, zlen_app. Qed.

Lemma time_reach_recv st st' evs : time_reach error_handle st = (st', evs) -> cs_recv st' = cs_recv st.
Proof. unfold time_reach. destruct (adjust_task_queue _ _). by intros [= <- _]. Qed.

Lemma poll_ticks_exec n st st' evs :
  receiving (cs_recv st) = true -> poll_ticks n st = (st', evs) ->
  cs_recv st' = cs_recv st /\ stream_exec (replicate n RecvTick) evs st st'.
Proof.
  revert st evs. induction n as [|n IH]; intros st evs Hr; cbn.
  { intros [= <- <-]. split; [done|apply sexec_nil]. }
  destruct (time_reach error_handle st) as [st1 e1] eqn:E1.
  destruct (poll_ticks n st1) as [st2 e2] eqn:E2. intros [= <- <-].
  pose proof (time_reach_recv _ _ _ E1) as Er. rewrite <- Er in Hr.
  destruct (IH _ _ Hr E2) as [Er2 Hx]. split; [congruence|].
  eapply sexec_cons; [|exact Hx]. apply st_tick; [by rewrite <- Er|done].
Qed.

Context (cancelled_ok : forall st k, cancelled st = Some k ->
  0 <= k < RPC_RESP_HEADER_LEN /\ is_ok (read_exact (tc_stream (cs_conn st)) k).2 = true).

Lemma recv_one_resp_exec fuel st st' evs :
  recv_one_resp fuel st = Ret (st', evs) ->
  exists ops, stream_exec ops evs st st' /\ Forall (fun op => is_recv_tick op = false) ops.
Proof.
  revert st st' evs. induction fuel as [|fuel IH]; intros st st' evs; cbn.
  { intros [= <- <-]. exists []. split; [apply sexec_nil|constructor]. }
  destruct (cs_recv st) as [|open|open head|open head pc|f|f|] eqn:Er.
  - intros H. destruct (IH _ _ _ H) as (ops & Hx & Hf). exists (RecvHead :: ops).
    split; [|by constructor]. rewrite <- (app_nil_l evs). eapply sexec_cons; [by apply st_head|exact Hx].
  - destruct (poll_header open st) as [[st1 e1]|] eqn:E1; cbn [may_bind]; [|done]. unfold poll_header in E1.
    destruct (recv_one_resp fuel st1) as [[st2 e2]|] eqn:E2; cbn [may_bind]; [|done]. intros [= <- <-].
    assert (Hs : exists op, stream_step buffer_alloc error_handle op st st1 e1 /\ is_recv_tick op = false).
    { destruct (open && cs_close_fired st) eqn:Ec; [destruct (cancelled st) as [k|] eqn:Ek|];
        [|exists RecvRead; split; [by eapply st_read|done]..].
      apply andb_prop in Ec as [-> Ec]. destruct (cancelled_ok _ _ Ek). exists (RecvCancel k).
      split; [by apply st_cancel|done]. }
    destruct Hs as (op & Hs & Ht). destruct (IH _ _ _ E2) as (ops & Hx & Hf). exists (op :: ops).
    split; [|by constructor]. eapply sexec_cons; [exact Hs|exact Hx].
  - destruct (recv_resume _ _ open head st) as [[st1 e1]|] eqn:E1; cbn; [|done].
    assert (Hs : stream_step buffer_alloc error_handle RecvResume st st1 e1) by (by eapply st_resume).
    assert (Hgo : forall st2 e2, recv_one_resp fuel st1 = Ret (st2, e2) ->
      exists ops, stream_exec ops (e1 ++ e2) st st2 /\ Forall (fun op => is_recv_tick op = false) ops).
    { intros st2 e2 E2. destruct (IH _ _ _ E2) as (ops & Hx & Hf). exists (RecvResume :: ops).
      split; [|by constructor]. eapply sexec_cons; [exact Hs|exact Hx]. }
    destruct (cs_recv st1) eqn:Er1;
      try (destruct (recv_one_resp fuel st1) as [[st2 e2]|]; cbn; [|done]; intros [= <- <-]; by apply Hgo).
    intros [= <- <-]. exists [RecvResume]. split; [by apply exec_one|by constructor].
  - destruct (recv_body _ _ open head pc st) as [st1 e1] eqn:E1.
    destruct (recv_one_resp fuel st1) as [[st2 e2]|] eqn:E2; cbn [may_bind]; [|done]. intros [= <- <-].
    destruct (IH _ _ _ E2) as (ops & Hx & Hf). exists (RecvBody :: ops).
    split; [|by constructor]. eapply sexec_cons; [by eapply st_body|exact Hx].
  - intros [= <- <-]. exists []. split; [apply sexec_nil|constructor].
  - intros [= <- <-]. exists []. split; [apply sexec_nil|constructor].
  - intros [= <- <-]. exists []. split; [apply sexec_nil|constructor].
Qed.

Lemma no_ticks ops : Forall (fun op => is_recv_tick op = false) ops -> recv_ticks ops = 0.
Proof.
  induction 1 as [|op ops Ho _ IH]; [done|]. unfold recv_ticks in *. cbn. by rewrite Ho.
Qed.

Lemma ticks_replicate n : recv_ticks (replicate n RecvTick) = Z.of_nat n.
Proof.
  induction n as [|n IH]; [done|]. unfold recv_ticks in *. cbn. rewrite zlen_cons, IH. lia.
Qed.

(** A poll of the receiver is a run of the connection with one tick for
    each tick due; unless the connection has failed, what is registered is
    taken in before the reader goes on. *)
Theorem receiver_poll_refines due fuel st st' evs :
  receiving (cs_recv st) = true -> receiver_poll due fuel st = Ret (st', evs) ->
  exists st1 ops1 ops2 evs1 evs2, evs = evs1 ++ evs2 /\
    stream_exec ops1 evs1 st st1 /\ recv_ticks ops1 = Z.of_nat due /\
    stream_exec ops2 evs2 st1 st' /\ recv_ticks ops2 = 0 /\
    (if cs_has_err st1 then ops2 = [RecvHasErr] else head ops2 = Some RecvPollSent).
Proof.
  intros Hr. unfold receiver_poll. destruct (poll_ticks due st) as [st1 e1] eqn:E1.
  destruct (poll_ticks_exec _ _ _ _ Hr E1) as [Er1 Hx1]. rewrite <- Er1 in Hr.
  destruct (cs_has_err st1) eqn:Ee.
  - intros [= <- <-]. exists st1, (replicate due RecvTick), [RecvHasErr], e1, [].
    rewrite Ee. split; [by rewrite app_nil_r|]. split; [done|]. split; [apply ticks_replicate|].
    split; [|done]. apply exec_one. by apply st_has_err.
  - destruct (recv_one_resp fuel (recv_poll_sent st1)) as [[st2 e2]|] eqn:E2; cbn; [|done].
    intros [= <- <-]. destruct (recv_one_resp_exec _ _ _ _ E2) as (ops & Hx & Hf).
    exists st1, (replicate due RecvTick), (RecvPollSent :: ops), e1, e2.
    rewrite Ee. split; [done|]. split; [done|]. split; [apply ticks_replicate|].
    split; [|split; [|done]].
    + rewrite <- (app_nil_l e2). eapply sexec_cons; [by apply st_poll|exact Hx].
    + by apply (no_ticks ops).
Qed.

End poll.

(** ** What a step does to the requests that wait *)

Section deadline.
Context {S : Type} `{!AsyncStream S} {T : Type} `{!ClientTask T} `{!ClientTaskOk T}.
Context {K : Type} `{!TaskTag T K}.
Context (buffer_alloc : Z -> bool) (error_handle : T -> event T).
Context (error_handle_task : forall t, ev_task (error_handle t) = t).
Implicit Types (st : ClientStream S T) (tm : ClientTaskTimer T).
Abbreviation step := (stream_step buffer_alloc error_handle).
Abbreviation exec := (stream_exec buffer_alloc error_handle).

(** A step seen from the timer; the last argument: what the reading future is in
    the middle of afterwards. *)
Inductive timer_view : stream_op (T := T) -> ClientTaskTimer T -> ClientTaskTimer T -> list (event T) ->
  option (body_pc T) -> Prop :=
| tv_keep op tm tm' evs kept :
    op <> RecvTick -> sent_tasks tm' = sent_tasks tm -> delay_tasks_queue tm' = delay_tasks_queue tm ->
    pending_tasks tm' = pending_tasks tm -> task_timeout tm' = task_timeout tm -> op <> RecvPollSent ->
    timer_view op tm tm' evs kept
| tv_reg op tm t tm' evs kept : op = SendRegister -> reg_task t tm = Ready tm' -> timer_view op tm tm' evs kept
| tv_recv op tm evs kept : op <> RecvTick -> timer_view op tm (recv_pending tm) evs kept
| tv_take op k tm tm' r evs kept :
    op <> RecvTick -> op <> RecvPollSent -> take_task k tm = (tm', r) ->
    read_events (S := S) buffer_alloc error_handle r evs kept -> timer_view op tm tm' evs kept
| tv_tick tm kept : timer_view RecvTick tm (ticked tm) (fail_with error_handle Timeout (expired tm)) kept
| tv_clean op tm tm' kept :
    op <> RecvTick -> op <> RecvPollSent -> task_timeout tm' = task_timeout tm -> live tm' = [] ->
    timer_view op tm tm' (fail_with error_handle IO (clean_order tm)) kept.

Lemma recv_clean_view op st f st' evs kept :
  op <> RecvTick -> op <> RecvPollSent -> timer_inv (cs_timer st) -> recv_clean error_handle f st = Ret (st', evs) ->
  timer_view op (cs_timer st) (cs_timer st') evs kept.
Proof using ClientTaskOk0 error_handle_task.
  intros Hn Hn2 Hi. unfold recv_clean.
  destruct (clean_pending_tasks_eq error_handle (cs_timer st) Hi) as (tm & E & _ & Hl & _). rewrite E. cbn.
  intros [= <- <-]. apply tv_clean; [done..| |done].
  by destruct (timer_step_ok error_handle error_handle_task OpClean _ tm _ Hi (step_clean _ _ _ _ E)) as (_ & Ht & _).
Qed.

Lemma step_view op started lost handed st st' evs :
  stream_inv started lost handed st -> step op st st' evs ->
  timer_view op (cs_timer st) (cs_timer st') evs (recv_body_pc (cs_recv st')).
Proof using ClientTaskOk0 error_handle_task.
  intros H Hstep. pose proof (si_timer _ _ _ _ H) as Hi. destruct Hstep; try (by apply tv_keep).
  - unfold send_check in *. by destruct (cs_closed st); simplify_eq; apply tv_keep.
  - unfold send_request, seq_update in *. cbn zeta in *.
    destruct (ReqHead_encode _ _ _) as [[buf [blob|e]]|]; cbn in *; [| |done];
      [destruct (write_req _ _ _ _) as [c [u|u]]|]; simplify_eq; by apply tv_keep.
  - unfold send_register in *. destruct (reg_task t (cs_timer st)) as [tm|] eqn:E; simplify_eq.
    by apply (tv_reg _ _ t).
  - unfold send_failed in *. simplify_eq. by apply tv_keep.
  - unfold stream_flush_req in *. by destruct (flush_req _) as [c [u|u]]; simplify_eq; apply tv_keep.
  - unfold send_ping_req, seq_update in *. destruct (cs_closed st); simplify_eq; [by apply tv_keep|].
    destruct (ReqHead_encode_ping _ _ _); cbn in *; [|done].
    by destruct (write_req _ _ _ _) as [c [u|u]]; simplify_eq; apply tv_keep.
  - unfold recv_head. destruct (cs_closed st); [|by apply tv_keep].
    pose proof (check_pending_state (cs_timer st)) as E.
    destruct (check_pending_tasks_empty (cs_timer st)) as [tm e]. cbn in E. subst tm. cbn zeta.
    by destruct (e || _); apply tv_recv.
  - unfold recv_read in *. destruct (read_resp _ _ _ _ _) as [[[[c tm] e] r]|] eqn:E; cbn in *; [|done].
    simplify_eq. rewrite recv_result_pc, (proj1 (recv_result_timer _ _ _)). cbn.
    apply read_resp_timer in E as [(-> & -> & _)|(k & o & E & Hr)]; [by apply tv_keep|]. by eapply tv_take.
  - unfold recv_cancel in *. destruct (read_resp _ _ _ _ _) as [[[[c tm] e] r]|] eqn:E; cbn in *; [|done].
    apply read_resp_timer in E. simplify_eq. rewrite recv_result_pc, (proj1 (recv_result_timer _ _ _)). cbn.
    destruct E as [(-> & -> & _)|(k' & o & E & Hr)]; [by apply tv_keep|]. by eapply tv_take.
  - unfold recv_resume in *. destruct (read_resp_resume _ _ _ _ _) as [[[[c tm] e] r]|] eqn:E; cbn in *; [|done].
    simplify_eq. rewrite recv_result_pc, (proj1 (recv_result_timer _ _ _)). cbn.
    apply read_resume_timer in E as (k & o & E & Hr); [|done]. by eapply tv_take.
  - unfold recv_body in *. destruct (read_resp_body _ _ _ _ _ _) as [[[c tm] e] r] eqn:E.
    apply read_body_timer in E as (-> & _). simplify_eq. rewrite (proj1 (recv_result_timer _ _ _)). by apply tv_keep.
  - unfold time_reach in *. rewrite adjust_task_queue_eq in * by done. simplify_eq. by apply tv_tick.
  - by apply tv_recv.
  - unfold recv_has_err. by destruct (cs_has_err st); apply tv_keep.
  - by eapply recv_clean_view.
  - unfold recv_check in *. destruct (0 <? _); [by eapply recv_clean_view|]. simplify_eq. by apply tv_keep.
Qed.

(** The task has come back. *)
Definition handed (t : T) (evs : list (event T)) : Prop := tag t ∈ map ev_tag evs.

Lemma handed_fail k t e (m : btree T) : (k, t) ∈ m -> handed t (fail_with error_handle e m).
Proof using error_handle_task.
  intros H. unfold handed. rewrite fail_with_tags by done.
  apply list_elem_of_In. apply (in_map (fun p => tag (snd p)) m (k, t)). by apply list_elem_of_In.
Qed.

(** ... or the future that reads its response owns it. *)
Definition off (t : T) (evs : list (event T)) (kept : option (body_pc T)) : Prop :=
  handed t evs \/ tag t ∈ map tag (pc_tasks kept).

Lemma off_taken t evs kept :
  read_events (S := S) buffer_alloc error_handle (Ready (Some t)) evs kept -> off t evs kept.
Proof using error_handle_task.
  intros H%read_events_tags; [|done]. unfold off, handed. rewrite <- elem_of_app, H. by left.
Qed.

(** A task that waits keeps waiting, or comes back. *)
Lemma take_waiting k t k' tm tm' r :
  timer_inv tm -> take_task k' tm = (tm', r) -> (k, t) ∈ live tm ->
  (k, t) ∈ live tm' \/ r = Ready (Some t).
Proof.
  intros H E Hin. destruct (take_task_split _ _ _ _ H E) as [[-> _]|[Hl Hr]]; [by left|].
  rewrite Hl. destruct (decide (k = k')) as [->|Hne].
  - right. rewrite Hr. unfold take_answer. by rewrite (proj2 (bt_lookup_Some k' t _ (inv_sorted _ H)) Hin).
  - left. unfold bt_without. apply list_elem_of_In, filter_In. split; [by apply list_elem_of_In|].
    cbn. by rewrite (proj2 (Z.eqb_neq k k')).
Qed.

Lemma view_waiting op k t tm tm' evs kept :
  timer_inv tm -> timer_view op tm tm' evs kept -> (k, t) ∈ live tm -> (k, t) ∈ live tm' \/ off t evs kept.
Proof using error_handle_task.
  intros H Hv Hin. destruct Hv as [op tm tm' evs kept _ Es Ed Ep _ _|op tm t' tm' evs kept _ Er|op tm evs kept _
    |op k' tm tm' r evs kept _ _ Et Hr|tm kept|op tm tm' kept _ _ _ _].
  - left. unfold live, received in *. by rewrite Es, Ed, Ep.
  - left. unfold reg_task in Er. case_match; simplify_eq. unfold live, received in *.
    cbn [sent_tasks delay_tasks_queue pending_tasks set_pending]. rewrite keyed_app, !elem_of_app in *. tauto.
  - left. by rewrite recv_pending_live.
  - destruct (take_waiting _ _ _ _ _ _ H Et Hin) as [?| ->]; [by left|right]. by apply off_taken.
  - rewrite live_ticked in Hin. apply elem_of_app in Hin as [Hin|Hin]; [right; left|by left].
    by eapply handed_fail.
  - right. left. eapply handed_fail. by rewrite clean_order_live.
Qed.

(** Taken in from the channel, it grows older with every tick. *)
Lemma take_held k t n k' tm tm' r :
  timer_inv tm -> take_task k' tm = (tm', r) -> held k t n tm -> held k t n tm' \/ r = Ready (Some t).
Proof.
  intros H E Hh. destruct (decide (k = k')) as [<-|Hne].
  2: { left. pose proof (held_take k k' t n tm H Hne Hh) as H'. by rewrite E in H'. }
  right. pose proof (held_live _ _ _ _ Hh) as Hin.
  assert (Hk : k <= processed_seq tm).
  { pose proof (inv_received _ H) as Hr. rewrite Forall_forall in Hr. apply Hr.
    destruct Hh as (b & Hb & Hi). apply (bt_in_keys k t).
    unfold received. rewrite elem_of_app. destruct n as [|n]; cbn in Hb; simplify_eq; [by right|left].
    rewrite concat_rev_perm. apply list_elem_of_In, in_concat. exists b.
    split; apply list_elem_of_In; [|done]. by apply list_elem_of_lookup_2 in Hb. }
  destruct (take_task_live k tm H (or_intror Hk)) as (_ & _ & Hr). rewrite E in Hr. cbn in Hr. rewrite Hr.
  unfold take_answer. by rewrite (proj2 (bt_lookup_Some k t _ (inv_sorted _ H)) Hin).
Qed.

Lemma view_held op k t n tm tm' evs kept :
  timer_inv tm -> timer_view op tm tm' evs kept -> held k t n tm ->
  off t evs kept \/
  held k t (if is_recv_tick op then Datatypes.S n else n) tm' /\
  (is_recv_tick op = true -> Z.of_nat n < task_timeout tm).
Proof using error_handle_task.
  intros H Hv Hh. assert (Hno : forall o : stream_op (T := T), o <> RecvTick -> is_recv_tick o = false) by (by intros []).
  destruct Hv as [op tm tm' evs kept Ho Es Ed Ep _ _|op tm t' tm' evs kept Ho Er|op tm evs kept Ho
    |op k' tm tm' r evs kept Ho _ Et Hr|tm kept|op tm tm' kept Ho _ _ _].
  - right. rewrite (Hno _ Ho). split; [|done]. unfold held in *. by rewrite Es, Ed.
  - right. subst op. cbn. split; [|done]. unfold reg_task in Er. by case_match; simplify_eq.
  - right. rewrite (Hno _ Ho). split; [|done]. by apply held_recv.
  - rewrite (Hno _ Ho). destruct (take_held _ _ _ _ _ _ _ H Et Hh) as [?| ->]; [by right|left].
    by apply off_taken.
  - pose proof (held_tick k t n tm H Hh) as E. cbn.
    destruct (Z.ltb_spec (Z.of_nat n) (task_timeout tm)); [by right|left; left]. by eapply handed_fail.
  - left. left. apply held_live in Hh. eapply handed_fail. by rewrite clean_order_live.
Qed.

Lemma view_timeout op tm tm' evs kept :
  timer_inv tm -> timer_view op tm tm' evs kept -> task_timeout tm' = task_timeout tm.
Proof.
  intros H. destruct 1 as [| ? ? ? ? ? ? _ Er| |op k' tm tm' r evs kept _ _ Et _| |]; try done.
  - unfold reg_task in Er. by case_match; simplify_eq.
  - by rewrite recv_pending_eq.
  - pose proof (take_task_timeout k' tm) as Ht. by rewrite Et in Ht.
Qed.

(** Runs from a state that satisfies the invariant. *)
Definition sound st : Prop := exists started lost handed, stream_inv started lost handed st.

Lemma sound_step op st st' evs :
  sound st -> step op st st' evs ->
  sound st' /\ timer_inv (cs_timer st) /\ timer_view op (cs_timer st) (cs_timer st') evs (recv_body_pc (cs_recv st')).
Proof using ClientTaskOk0 error_handle_task.
  intros (s & l & h & H) Hs. split; [|split; [apply H|by eapply step_view]].
  eexists _, _, _. by eapply inv_step.
Qed.

Lemma exec_sound ops outs st st' :
  sound st -> exec ops outs st st' ->
  sound st' /\ task_timeout (cs_timer st') = task_timeout (cs_timer st).
Proof using ClientTaskOk0 error_handle_task.
  intros H. induction 1 as [|op ops evs outs st st1 st2 Hs Hx IH]; [done|].
  destruct (sound_step _ _ _ _ H Hs) as (H1 & Hi & Hv). destruct (IH H1) as [H2 E].
  split; [done|]. rewrite E. by eapply view_timeout.
Qed.

(** *** A task in the reading future *)

(** [has_err] has stopped the receiver while it was reading the response of the
    task with the tag [k]. *)
Definition stopped_reading (k : K) ops st st' : Prop :=
  exists ops1 ops2 outs1 outs2 st1, ops = ops1 ++ ops2 /\ exec ops1 outs1 st st1 /\ exec ops2 outs2 st1 st' /\
    receiving (cs_recv st1) = false /\ cs_has_err st1 = true /\ k ∈ map tag (recv_tasks (cs_recv st1)).

(** It has come back, its body is being read, or it was when the receiver was
    stopped. *)
Definition gone_by (k : K) ops outs st st' : Prop :=
  k ∈ map ev_tag outs \/ k ∈ map tag (recv_tasks (cs_recv st')) \/ stopped_reading k ops st st'.

Lemma reading_step op st st' evs (k : K) :
  sound st -> step op st st' evs -> k ∈ map tag (recv_tasks (cs_recv st)) ->
  k ∈ map ev_tag evs \/ k ∈ map tag (recv_tasks (cs_recv st')) \/
  (receiving (cs_recv st) = false /\ cs_has_err st = true).
Proof using error_handle_task.
  intros (n & l & h & Hi) Hs Hk.
  assert (Hkeep : forall r, cs_recv st' = r -> recv_tasks r = recv_tasks (cs_recv st) ->
    k ∈ map ev_tag evs \/ k ∈ map tag (recv_tasks (cs_recv st')) \/
    (receiving (cs_recv st) = false /\ cs_has_err st = true)).
  { intros r <- E. right. left. by rewrite E. }
  assert (Hno : recv_tasks (cs_recv st) = [] -> False) by (intros E; rewrite E in Hk; by apply elem_of_nil in Hk).
  destruct (recv_op op) eqn:Eo; [|by apply (Hkeep _ (other_ops_recv _ _ _ _ _ _ Hs Eo))].
  destruct Hs; try done; try (exfalso; apply Hno; by rewrite H).
  - unfold recv_body in *. destruct (read_resp_body _ _ _ _ _ _) as [[[c tm] e] r] eqn:E. simplify_eq.
    apply read_body_timer in E as (-> & s & E & Es). apply recv_resp_poll_tags in E; [|done].
    unfold recv_tasks, state_tasks in *. rewrite recv_result_pc, Es. rewrite H in Hk. cbn in Hk. rewrite <- E in Hk.
    apply elem_of_app in Hk. tauto.
  - eapply Hkeep; [reflexivity|]. unfold recv_has_err. by destruct (cs_has_err st).
  - unfold recv_clean in *. eapply Hkeep; [reflexivity|]. rewrite H.
    by destruct (clean_pending_tasks _ _) as [[tm e]|]; cbn in *; simplify_eq.
  - right. right. rewrite H in Hk |- *. destruct f as [pc|]; [|by apply elem_of_nil in Hk].
    split; [done|]. eapply (si_stopped _ _ _ _ Hi); [right; exact H|done].
Qed.

Lemma gone_start (k : K) op ops evs outs st st1 st2 :
  k ∈ map ev_tag evs -> gone_by k (op :: ops) (evs ++ outs) st st2.
Proof. intros H. left. rewrite map_app, elem_of_app. by left. Qed.

Lemma gone_later (k : K) ops1 ops outs1 outs st st1 st2 :
  exec ops1 outs1 st st1 -> gone_by k ops outs st1 st2 -> gone_by k (ops1 ++ ops) (outs1 ++ outs) st st2.
Proof.
  intros Hx [H|[H|(opsa & opsb & oa & ob & sta & -> & Ha & Hb & Hrest)]].
  - left. rewrite map_app, elem_of_app. by right.
  - right. by left.
  - right. right. exists (ops1 ++ opsa), opsb, (outs1 ++ oa), ob, sta. split; [by rewrite app_assoc|].
    split; [by eapply exec_app|]. by split.
Qed.

Lemma exec_reading (k : K) ops outs st st' :
  sound st -> exec ops outs st st' -> k ∈ map tag (recv_tasks (cs_recv st)) -> gone_by k ops outs st st'.
Proof using ClientTaskOk0 error_handle_task.
  intros H. induction 1 as [st|op ops evs outs st st1 st2 Hs Hx IH]; intros Hk; [right; by left|].
  destruct (sound_step _ _ _ _ H Hs) as (H1 & _ & _).
  destruct (reading_step _ _ _ _ _ H Hs Hk) as [Hh|[Hk1|[Hr He]]].
  - by eapply gone_start.
  - apply (gone_later k [op] ops evs outs st st1 st2); [by apply exec_one|]. by apply IH.
  - right. right. exists [], (op :: ops), [], (evs ++ outs), st. split; [done|]. split; [apply sexec_nil|].
    split; [by eapply sexec_cons|done].
Qed.

Lemma gone_then (k : K) ops1 ops2 outs1 outs2 st st1 st2 :
  sound st1 -> gone_by k ops1 outs1 st st1 -> exec ops1 outs1 st st1 -> exec ops2 outs2 st1 st2 ->
  gone_by k (ops1 ++ ops2) (outs1 ++ outs2) st st2.
Proof using ClientTaskOk0 error_handle_task.
  intros Hg [H|[H|(opsa & opsb & oa & ob & sta & -> & Ha & Hb & Hrest)]] Hx1 Hx2.
  - left. rewrite map_app, elem_of_app. by left.
  - eapply gone_later; [exact Hx1|]. by apply exec_reading.
  - right. right. exists opsa, (opsb ++ ops2), oa, (ob ++ outs2), sta. split; [by rewrite app_assoc|].
    split; [done|]. split; [by eapply exec_app|done].
Qed.

(** What a step has taken from the timer. *)
Lemma gone_off t op ops evs outs st st1 st2 :
  sound st1 -> step op st st1 evs -> exec ops outs st1 st2 -> off t evs (recv_body_pc (cs_recv st1)) ->
  gone_by (tag t) (op :: ops) (evs ++ outs) st st2.
Proof using ClientTaskOk0 error_handle_task.
  intros Hg Hs Hx Ho. apply (gone_then (tag t) [op] ops evs outs st st1 st2); [done| |by apply exec_one|done].
  destruct Ho as [Ho|Ho]; [by left|right; by left].
Qed.

Lemma exec_waiting k t ops outs st st' :
  sound st -> exec ops outs st st' -> (k, t) ∈ live (cs_timer st) ->
  gone_by (tag t) ops outs st st' \/ (k, t) ∈ live (cs_timer st').
Proof using ClientTaskOk0 error_handle_task.
  intros H. induction 1 as [|op ops evs outs st st1 st2 Hs Hx IH]; [by right|]. intros Hin.
  destruct (sound_step _ _ _ _ H Hs) as (H1 & Hi & Hv).
  destruct (view_waiting _ _ _ _ _ _ _ Hi Hv Hin) as [Hin'|Hh]; [|left; by eapply gone_off].
  destruct (IH H1 Hin') as [Hg|?]; [left|by right].
  apply (gone_later (tag t) [op] ops evs outs st st1 st2); [by apply exec_one|done].
Qed.

Lemma recv_ticks_cons (op : stream_op (T := T)) ops : recv_ticks (op :: ops) = (if is_recv_tick op then 1 else 0) + recv_ticks ops.
Proof. unfold recv_ticks. cbn. destruct (is_recv_tick op); rewrite ?zlen_cons; lia. Qed.

Lemma exec_held k t n ops outs st st' :
  sound st -> exec ops outs st st' -> held k t n (cs_timer st) ->
  Z.of_nat n <= task_timeout (cs_timer st) ->
  gone_by (tag t) ops outs st st' \/ Z.of_nat n + recv_ticks ops <= task_timeout (cs_timer st).
Proof using ClientTaskOk0 error_handle_task.
  intros H Hx. revert n H. induction Hx as [st|op ops evs outs st st1 st2 Hs Hx IH]; intros n H Hh Hn.
  { right. unfold recv_ticks; cbn. rewrite zlen_nil. lia. }
  destruct (sound_step _ _ _ _ H Hs) as (H1 & Hi & Hv).
  destruct (view_held _ _ _ _ _ _ _ _ Hi Hv Hh) as [Hd|[Hh' Hlt]]; [left; by eapply gone_off|].
  pose proof (view_timeout _ _ _ _ _ Hi Hv) as Et. rewrite <- Et in *.
  destruct (IH _ H1 Hh') as [Hd|Hle].
  - destruct (is_recv_tick op); [specialize (Hlt eq_refl)|]; lia.
  - left. apply (gone_later (tag t) [op] ops evs outs st st1 st2); [by apply exec_one|done].
  - right. rewrite recv_ticks_cons. destruct (is_recv_tick op); lia.
Qed.

(** What has been taken in from the channel is in some batch. *)
Lemma received_held k t tm : timer_inv tm -> (k, t) ∈ live tm -> exists n, held k t n (recv_pending tm).
Proof.
  intros H Hin. assert (Hr : (k, t) ∈ received (recv_pending tm)).
  { rewrite <- recv_pending_live in Hin by done. unfold live in Hin.
    rewrite (recv_pending_eq tm H) in Hin |- *. cbn in Hin. by rewrite app_nil_r in Hin. }
  unfold received in Hr. rewrite concat_rev_perm in Hr. apply elem_of_app in Hr as [Hr|Hr].
  - apply list_elem_of_In, in_concat in Hr as (b & Hb & Hr).
    apply list_elem_of_In, list_elem_of_lookup_1 in Hb as [n Hb]. exists (Datatypes.S n), b.
    split; [done|]. by apply list_elem_of_In.
  - exists 0%nat. eexists. split; [reflexivity|done].
Qed.

Lemma held_bound k t n tm : timer_inv tm -> held k t n tm -> Z.of_nat n <= task_timeout tm.
Proof.
  intros H (b & Hb & _). apply lookup_lt_Some in Hb. pose proof (inv_delay _ H). unfold zlen in *.
  cbn in Hb. lia.
Qed.

Lemma exec_split ops1 ops2 outs st st2 :
  exec (ops1 ++ ops2) outs st st2 ->
  exists st1 outs1 outs2, outs = outs1 ++ outs2 /\ exec ops1 outs1 st st1 /\ exec ops2 outs2 st1 st2.
Proof.
  revert outs st. induction ops1 as [|op ops1 IH]; intros outs st H; cbn in H.
  { exists st, [], outs. split; [done|]. split; [apply sexec_nil|done]. }
  inversion H as [|? ? evs outs' ? st1 ? Hs Hx]; subst.
  destruct (IH _ _ Hx) as (st' & o1 & o2 & -> & Hx1 & Hx2).
  exists st', (evs ++ o1), o2. split; [by rewrite app_assoc|]. split; [by eapply sexec_cons|done].
Qed.

Lemma run_timeout started lost outs st st' :
  stream_inv 0 0 0 st -> stream_run buffer_alloc error_handle started lost outs st st' ->
  task_timeout (cs_timer st') = task_timeout (cs_timer st).
Proof using ClientTaskOk0 error_handle_task.
  intros H. induction 1 as [|started lost outs op st st1 st2 evs Hr IH Hs]; [done|].
  rewrite <- (IH H). assert (Hg : sound st1) by (eexists _, _, _; by eapply inv_run).
  destruct (sound_step _ _ _ _ Hg Hs) as (_ & Hi & Hv). by eapply view_timeout.
Qed.

(** ** Properties *)

(** C12. No request waits longer than its timeout for its response to begin.
    However the two coroutines interleave and whatever the server sends, once
    more than [task_timeout] ticks have passed after the receiver's next poll of
    the channel, a task that was in the timer or in its channel has come back to
    its caller - answered, or failed -, or the head of its response has been read
    and the future that reads the body owns it - which is still reading it, or
    was stopped while it did by [has_err], which a failed send or flush and
    [set_error_and_exit] set. *)
Theorem request_deadline (conn : TcpClient S) cid timeout thr started lost0 outs0 st t ops1 ops2 outs st' :
  0 <= timeout ->
  stream_run buffer_alloc error_handle started lost0 outs0 (ClientStream_new conn cid timeout thr) st ->
  (task_seq t, t) ∈ live (cs_timer st) -> exec (ops1 ++ RecvPollSent :: ops2) outs st st' ->
  timeout < recv_ticks ops2 ->
  tag t ∈ map ev_tag outs \/ tag t ∈ map tag (recv_tasks (cs_recv st')) \/
  stopped_reading (tag t) (ops1 ++ RecvPollSent :: ops2) st st'.
Proof using ClientTaskOk0 error_handle_task.
  intros Ht Hr Hin Hx Hlate. pose proof (ClientStream_new_inv (T := T) conn cid timeout thr Ht) as H0.
  pose proof (run_timeout _ _ _ _ _ H0 Hr) as Eto. cbn in Eto.
  assert (Hg : sound st) by (eexists _, _, _; by eapply inv_run).
  destruct (exec_split _ _ _ _ _ Hx) as (st1 & o1 & o2 & -> & Hx1 & Hx2).
  destruct (exec_sound _ _ _ _ Hg Hx1) as [Hg1 E1].
  destruct (exec_waiting _ t _ _ _ _ Hg Hx1 Hin) as [Hd|Hin1]; [by eapply gone_then|].
  inversion Hx2 as [|op ops evs outs2 ? st2 ? Hs Hx3]; subst.
  destruct (sound_step _ _ _ _ Hg1 Hs) as (Hg2 & Hi1 & _). pose proof (exec_one _ _ _ _ _ _ Hs) as Hs1.
  inversion Hs; subst. unfold recv_poll_sent, poll_sent_task in *.
  destruct (received_held _ _ _ Hi1 Hin1) as [n Hh].
  destruct (exec_held _ t n _ _ _ _ Hg2 Hx3 Hh) as [Hd|Hle].
  - exact (held_bound _ _ _ _ (recv_pending_inv _ Hi1) Hh).
  - eapply gone_later; [exact Hx1|]. exact (gone_later (tag t) [RecvPollSent] ops2 [] outs2 _ _ _ Hs1 Hd).
  - cbn in Hle. rewrite (recv_pending_eq _ Hi1) in Hle. cbn in Hle. lia.
Qed.

(** When the runtime drops the receiver, wherever it is, the tasks in the timer
    and in its channel are handed back then; the one whose body is being read is
    not. *)
Theorem inner_drop_hands_back (conn : TcpClient S) cid timeout thr ts lost outs st :
  0 <= timeout ->
  stream_trace buffer_alloc error_handle ts lost outs (ClientStream_new conn cid timeout thr) st ->
  cs_sender st = SIdle \/ cs_sender st = SGone ->
  exists st' evs, inner_drop error_handle st = Ret (st', evs) /\ live (cs_timer st') = [] /\
    map tag ts ≡ₚ map ev_tag (outs ++ evs) ++ map loss_tag lost ++ map tag (recv_tasks (cs_recv st)).
Proof using ClientTaskOk0 error_handle_task.
  intros Ht Hr Hs. pose proof (ClientStream_new_inv (T := T) conn cid timeout thr Ht) as H0.
  pose proof (inv_run _ _ error_handle_task _ _ _ _ _ H0 (trace_run _ _ _ _ _ _ _ Hr)) as Hi.
  pose proof (trace_tags _ _ error_handle_task _ _ _ _ _ H0 Hr) as Hp. cbn in Hp. rewrite app_nil_r in Hp.
  destruct (clean_pending_tasks_eq error_handle (cs_timer st) (si_timer _ _ _ _ Hi)) as (tm & E & _ & Hl & _).
  eexists _, _. split; [unfold inner_drop; rewrite E; reflexivity|]. split; [exact Hl|].
  pose proof (clean_tags error_handle error_handle_task _ _ _ (si_timer _ _ _ _ Hi) E) as Hc.
  unfold timer_tags at 2 in Hc. rewrite Hl in Hc. cbn in Hc.
  unfold stream_tags in Hp. rewrite Hp, Hc, map_app.
  destruct Hs as [-> | ->]; cbn; solve_Permutation.
Qed.

End deadline.

(** ** Concrete instances *)

Module PollWitness.
Import StreamWitness.

(** A request is registered; the server stays silent for four ticks. *)
Definition p1 := recv_poll_sent st5.
Definition p2 := (poll_ticks error_handle_default 4 p1).1.
Definition timed_out : APIClientReq := api_set_rpc_error (set_seq (sample_task 0) 1) Timeout.

Lemma run5 : stream_run always error_handle_default 1 0 [] start st5.
Proof.
  eapply (srun_snoc _ _ 1 0 [] SendDone start st4 st5 []); [|apply st_done; vm_compute; reflexivity].
  eapply (srun_snoc _ _ 1 0 [] SendRegister start st3 st4 []);
    [|apply (st_register _ _ _ (set_seq (sample_task 0) 1)); vm_compute; reflexivity].
  eapply (srun_snoc _ _ 1 0 [] SendRequest start st2 st3 []);
    [|apply (st_request _ _ _ (sample_task 0) true); vm_compute; reflexivity].
  eapply (srun_snoc _ _ 1 0 [] SendCheck start st1 st2 []);
    [|apply (st_check _ _ _ (sample_task 0) true); vm_compute; reflexivity].
  eapply (srun_snoc _ _ 0 0 [] (SendStart (sample_task 0) true) start start st1 []);
    [|apply st_start; vm_compute; reflexivity].
  apply srun_nil.
Qed.

Lemma silent_exec :
  stream_exec always error_handle_default (RecvPollSent :: replicate 4 RecvTick) [EvDone timed_out] st5 p2.
Proof.
  apply (sexec_cons _ _ RecvPollSent _ [] [EvDone timed_out] st5 p1); [apply st_poll; vm_compute; reflexivity|].
  apply (poll_ticks_exec always error_handle_default 4 p1 p2); vm_compute; reflexivity.
Qed.

Lemma request_deadline_witness :
  live (cs_timer st5) = [(1, set_seq (sample_task 0) 1)] /\
  (tag (set_seq (sample_task 0) 1) ∈ map ev_tag [EvDone timed_out] \/
   tag (set_seq (sample_task 0) 1) ∈ map tag (recv_tasks (cs_recv p2)) \/
   stopped_reading always error_handle_default (tag (set_seq (sample_task 0) 1))
     ([] ++ RecvPollSent :: replicate 4 RecvTick) st5 p2).
Proof.
  split; [vm_compute; reflexivity|].
  apply (request_deadline always error_handle_default stream_keep_task conn 1 3 4 1 0 [] st5
    (set_seq (sample_task 0) 1) [] (replicate 4 RecvTick) [EvDone timed_out] p2).
  - lia.
  - exact run5.
  - vm_compute. left.
  - exact silent_exec.
  - vm_compute. reflexivity.
Defined.

(** The same through the poll of the runtime. *)
Example silent_poll :
  match receiver_poll always error_handle_default (fun _ => None) 4 0 p1 with
  | Ret (_, evs) => evs = [EvDone timed_out]
  | Panic => False
  end.
Proof. vm_compute. reflexivity. Qed.

End PollWitness.
