(* ===== verification/Throttle.v ===== *)
(** * The sliding window of a connection

    [send_task] returns only when the throttler lets it
    (stream/src/client/throttler.rs, stream.rs): the step [SendDone] of [Stream],
    which may be taken at any time there, is bound to the wait here. The wait
    group is crossfire's: [wait_ready left threshold] says whether its
    [wait_async] returns with [left] guards alive. *)
From Stdlib Require Import ZArith Lia Strings.String.
From stdpp Require Import base list sets sorting.
From S2P Require Import Prelude Errors Task ApiClient Proto BTree Timer TimerInv Net TcpClient Stream StreamInv StreamTrace StreamPoll.
Local Open Scope Z_scope.
Local Open Scope rpc_scope.

Section window.
Context {S : Type} `{!AsyncStream S} {T : Type} `{!ClientTask T}.
Context (buffer_alloc : Z -> bool) (error_handle : T -> event T) (wait_ready : Z -> Z -> bool).
Implicit Types st : ClientStream S T.

(** [Throttler::throttle]: no threshold, no wait. *)
Definition throttle (left target : Z) : poll unit :=
  if 0 <? target then if wait_ready left target then Ready tt else Pending else Ready tt.

(** [ClientStream::will_block] and [is_closed]. *)
Definition will_block st : bool := nearly_full (get_inflight_count st) (cs_thresholds st).
Definition stream_is_closed st : bool := cs_closed st.

(** A step of a connection whose sender waits for its throttler. *)
Definition window_step (op : stream_op (T := T)) st st' (evs : list (event T)) : Prop :=
  stream_step buffer_alloc error_handle op st st' evs /\
  match op with
  | SendDone => throttle (get_inflight_count st) (cs_thresholds st) = Ready tt
  | _ => True
  end.

Inductive window_exec : list (stream_op (T := T)) -> list (event T) -> ClientStream S T -> ClientStream S T -> Prop :=
| wexec_nil st : window_exec [] [] st st
| wexec_cons op ops evs outs st st' st'' :
    window_step op st st' evs -> window_exec ops outs st' st'' ->
    window_exec (op :: ops) (evs ++ outs) st st''.

Lemma window_refines ops outs st st' :
  window_exec ops outs st st' -> stream_exec buffer_alloc error_handle ops outs st st'.
Proof. induction 1 as [|op ops evs outs st st' st'' [Hs _] _ IH]; [apply sexec_nil|by eapply sexec_cons]. Qed.

End window.

(** ** What a step does to the size of the window *)

Section facts.
Context {S : Type} `{!AsyncStream S} {T : Type} `{!ClientTask T} `{!ClientTaskOk T}.
Context {K : Type} `{!TaskTag T K}.
Context (buffer_alloc : Z -> bool) (error_handle : T -> event T).
Context (error_handle_task : forall t, ev_task (error_handle t) = t).
Implicit Types (st : ClientStream S T) (tm : ClientTaskTimer T) (op : stream_op (T := T)).
Abbreviation step := (stream_step buffer_alloc error_handle).
Abbreviation exec := (stream_exec buffer_alloc error_handle).
Abbreviation view := (timer_view (S := S) buffer_alloc error_handle).

(** The guards of the requests that are registered, and of the one being read. *)
Definition waiting_count st : Z := zlen (live (cs_timer st)) + recv_guard (cs_recv st).
Definition registers op : bool := match op with SendRegister => true | _ => false end.

Lemma zlen_without {V} k (m : btree V) : zlen (bt_without k m) <= zlen m.
Proof.
  unfold zlen, bt_without. pose proof (filter_length_le (fun p => negb (fst p =? k)) m). lia.
Qed.

Lemma view_count op tm tm' evs kept :
  timer_inv tm -> view op tm tm' evs kept ->
  zlen (live tm') <= zlen (live tm) + (if registers op then 1 else 0).
Proof.
  intros H Hv. assert (Hle : forall n, n <= n + (if registers op then 1 else 0)) by (destruct (registers op); lia).
  destruct Hv as [op tm tm' evs kept _ Es Ed Ep _ _|op tm t tm' evs kept -> Er|op tm evs kept _
    |op k tm tm' r evs kept _ _ Et _|tm kept|op tm tm' kept _ _ _ Hl].
  - unfold live, received. by rewrite Es, Ed, Ep.
  - unfold reg_task in Er. destruct (_ <? _); simplify_eq. unfold live, received.
    cbn [sent_tasks delay_tasks_queue pending_tasks set_pending registers].
    rewrite keyed_app, !zlen_app. change (zlen (keyed [t])) with 1. lia.
  - by rewrite recv_pending_live.
  - specialize (Hle (zlen (live tm))). destruct (take_task_split _ _ _ _ H Et) as [[-> _]|[-> _]]; [done|].
    pose proof (zlen_without k (live tm)). lia.
  - rewrite (live_ticked tm), zlen_app. pose proof (zlen_nonneg (expired tm)). cbn. lia.
  - rewrite Hl, zlen_nil. pose proof (zlen_nonneg (live tm)). specialize (Hle (zlen (live tm))). lia.
Qed.

(** The reading future owns one guard at most, ... *)
Lemma guard_bound (f : option (body_pc T)) : 0 <= pc_guard f <= 1.
Proof. destruct f as [[| | |[]]|]; cbn; lia. Qed.

(** ... which it has from the task it has taken, ... *)
Lemma taken_guard r evs kept :
  read_events (S := S) buffer_alloc error_handle r evs kept -> pc_guard kept <= zlen (taken r).
Proof.
  destruct r as [[t|]|]; cbn; [| |by intros [_ ->]]; intros (h & c & c' & s & E & ->).
  - rewrite zlen_cons, zlen_nil. pose proof (guard_bound (state_pc s)). lia.
  - rewrite zlen_nil. unfold recv_resp_taken, recv_and_dump in E. by repeat (case_match; simplify_eq/=).
Qed.

(** ... and does not get back once it has given it up. *)
Lemma poll_guard h pc (c c' : TcpClient S) evs s :
  recv_resp_poll buffer_alloc error_handle h pc c = (c', evs, s) -> pc_guard (state_pc s) <= body_guard pc.
Proof.
  unfold recv_resp_poll, recv_resp_blob, recv_error_string, finish_task, recv_and_dump.
  destruct pc; cbn; intros E; repeat (case_match; simplify_eq/=; try lia).
Qed.

Lemma take_count k tm tm' r :
  timer_inv tm -> take_task k tm = (tm', r) -> zlen (live tm') + zlen (taken r) <= zlen (live tm).
Proof using ClientTaskOk0 error_handle_task.
  intros H E. destruct (trun_facts _ error_handle_task _ _ _ _ H (trun_one _ _ _ _ _ (step_take error_handle k _ _ _ E)))
    as [_ Hl]. cbn in Hl. rewrite zlen_nil in Hl. lia.
Qed.

(** The guard of the future after a step. *)
Lemma step_guard op st st' evs :
  timer_inv (cs_timer st) -> step op st st' evs ->
  recv_guard (cs_recv st') <= recv_guard (cs_recv st) \/
  (exists k r, take_task k (cs_timer st) = (cs_timer st', r) /\ recv_guard (cs_recv st') <= zlen (taken r)).
Proof.
  intros Hi Hs. destruct (recv_op op) eqn:Eo; [|left; by rewrite (other_ops_recv _ _ _ _ _ _ Hs Eo)].
  pose proof (fun p : recv_pc T => proj1 (guard_bound (recv_body_pc p))) as Hpos.
  destruct Hs; try done; unfold recv_guard in *.
  - left. rewrite H. unfold recv_head. destruct (cs_closed st); [|cbn; lia].
    destruct (check_pending_tasks_empty _) as [tm e]. by destruct (e || _); cbn.
  - unfold recv_read in *. destruct (read_resp _ _ _ _ _) as [[[[c tm] e] r]|] eqn:E; cbn in *; [|done].
    apply read_resp_timer in E. simplify_eq. rewrite recv_result_pc, (proj1 (recv_result_timer _ _ _)). rewrite H. cbn.
    destruct E as [(-> & -> & ->)|(k & o & E & Hr)]; [left; done|right]. exists k, o. split; [done|by eapply taken_guard].
  - unfold recv_cancel in *. destruct (read_resp _ _ _ _ _) as [[[[c tm] e] r]|] eqn:E; cbn in *; [|done].
    apply read_resp_timer in E. simplify_eq. rewrite recv_result_pc, (proj1 (recv_result_timer _ _ _)). rewrite H. cbn.
    destruct E as [(-> & -> & ->)|(k' & o & E & Hr)]; [left; done|right]. exists k', o. split; [done|by eapply taken_guard].
  - unfold recv_resume in *. destruct (read_resp_resume _ _ _ _ _) as [[[[c tm] e] r]|] eqn:E; cbn in *; [|done].
    simplify_eq. rewrite recv_result_pc, (proj1 (recv_result_timer _ _ _)). cbn.
    apply read_resume_timer in E as (k & o & E & Hr); [|done]. right. exists k, o. split; [done|by eapply taken_guard].
  - unfold recv_body in *. destruct (read_resp_body _ _ _ _ _ _) as [[[c tm] e] r] eqn:E. simplify_eq.
    apply read_body_timer in E as (_ & s & E & Es). rewrite recv_result_pc, Es, H. left. by eapply poll_guard.
  - left. unfold recv_has_err. by destruct (cs_has_err st).
  - left. rewrite H. unfold recv_clean in *. by destruct (clean_pending_tasks _ _) as [[tm e]|]; cbn in *; simplify_eq.
  - left. rewrite H. unfold recv_check, recv_clean in *. destruct (0 <? _); simplify_eq/=; [|apply guard_bound].
    by destruct (clean_pending_tasks _ _) as [[tm e]|]; cbn in *; simplify_eq.
Qed.

Lemma step_count op st st' evs :
  sound st -> step op st st' evs ->
  waiting_count st' <= waiting_count st + (if registers op then 1 else 0).
Proof using ClientTaskOk0 error_handle_task.
  intros Hg Hs. destruct (sound_step _ _ error_handle_task _ _ _ _ Hg Hs) as (_ & Hi & Hv).
  pose proof (view_count _ _ _ _ _ Hi Hv). unfold waiting_count.
  pose proof (guard_bound (recv_body_pc (cs_recv st))). fold (recv_guard (cs_recv st)) in *.
  destruct (step_guard _ _ _ _ Hi Hs) as [Hle|(k & r & E & Hle)]; [lia|].
  pose proof (take_count _ _ _ _ Hi E). destruct (registers op); lia.
Qed.

Lemma recv_result_thresholds open r st : cs_thresholds (recv_result open r st) = cs_thresholds st.
Proof. destruct r as [[[|]|]| |]; cbn; try done; by destruct open. Qed.

Lemma step_thresholds op st st' evs : step op st st' evs -> cs_thresholds st' = cs_thresholds st.
Proof.
  destruct 1; try done; unfold send_check, send_request, seq_update, send_register, send_failed, stream_flush_req,
    send_ping_req, recv_head, recv_read, recv_cancel, recv_resume, recv_body, time_reach, recv_has_err, recv_check, recv_clean in *;
    cbn zeta in *; unfold may_bind in *; repeat (case_match; simplify_eq/=); simplify_eq/=;
    by rewrite ?recv_result_thresholds.
Qed.

(** ** The wait ends *)

(** Every request in the window was taken in at least [n] ticks ago. *)
Definition aged (n : nat) tm : Prop :=
  forall k t, (k, t) ∈ live tm -> exists m, (n <= m)%nat /\ held k t m tm.

Lemma aged_over n tm : timer_inv tm -> aged n tm -> task_timeout tm < Z.of_nat n -> live tm = [].
Proof.
  intros H Ha Hn. destruct (live tm) as [|[k t] l] eqn:E; [done|].
  destruct (Ha k t) as (m & Hm & Hh); [rewrite E; by left|].
  pose proof (held_bound _ _ _ _ H Hh). lia.
Qed.

Lemma aged_take n k tm tm' r :
  timer_inv tm -> take_task k tm = (tm', r) -> aged n tm -> aged n tm'.
Proof.
  intros H E Ha k' t Hin. destruct (take_task_split _ _ _ _ H E) as [[-> _]|[Hl Hr]]; [by apply Ha|].
  rewrite Hl in Hin. apply list_elem_of_In, filter_In in Hin as [Hin Hne]. apply list_elem_of_In in Hin.
  destruct (Ha k' t Hin) as (m & Hm & Hh). exists m. split; [done|].
  destruct (take_held _ _ _ _ _ _ _ H E Hh) as [?| ->]; [done|]. exfalso.
  unfold take_answer in Hr. destruct (bt_lookup k (live tm)) as [t'|] eqn:El; [|by case_match].
  injection Hr as <-. apply (bt_lookup_Some k t _ (inv_sorted _ H)) in El.
  pose proof (inv_keys _ H) as Hk. rewrite Forall_forall in Hk.
  pose proof (Hk _ Hin) as E1. pose proof (Hk _ El) as E2. cbn in *. rewrite E1, <- E2, Z.eqb_refl in Hne. done.
Qed.

Lemma view_aged n op tm tm' evs kept :
  timer_inv tm -> view op tm tm' evs kept -> registers op = false -> aged n tm ->
  aged (if is_recv_tick op then Datatypes.S n else n) tm'.
Proof.
  intros H Hv Hreg Ha.
  assert (Hno : forall o : stream_op (T := T), o <> RecvTick -> is_recv_tick o = false) by (by intros []).
  destruct Hv as [op tm tm' evs kept Ho Es Ed Ep _ _|op tm t tm' evs kept -> Er|op tm evs kept Ho
    |op k tm tm' r evs kept Ho _ Et _|tm kept|op tm tm' kept Ho _ _ Hl]; rewrite ?(Hno _ Ho).
  - intros k t Hin. unfold aged, live, received, held in *. rewrite Es, Ed, Ep in *. by apply Ha.
  - done.
  - intros k t Hin. rewrite recv_pending_live in Hin by done. destruct (Ha k t Hin) as (m & Hm & Hh).
    exists m. split; [done|]. by apply held_recv.
  - by eapply aged_take.
  - intros k t Hin. cbn. assert (Hin' : (k, t) ∈ live tm) by (rewrite live_ticked; apply elem_of_app; by right).
    destruct (Ha k t Hin') as (m & Hm & Hh). pose proof (held_tick k t m tm H Hh) as E.
    destruct (Z.of_nat m <? task_timeout tm); [exists (Datatypes.S m); split; [lia|done]|]. exfalso.
    pose proof (inv_sorted _ H) as Hs. rewrite live_ticked in Hs.
    eapply bt_ok_disjoint; [exact Hs| |]; eapply bt_in_keys; eassumption.
  - intros k t Hin. rewrite Hl in Hin. by apply not_elem_of_nil in Hin.
Qed.

(** A sender that waits does nothing else. *)
Lemma waiting_step op st st' evs :
  cs_sender st = SThrottle -> step op st st' evs -> op <> SendDone ->
  cs_sender st' = SThrottle /\ registers op = false.
Proof.
  intros E Hs Ho. pose proof (sender_next _ _ _ _ _ _ Hs) as Hn. rewrite E in Hn.
  destruct op; try done; naive_solver.
Qed.

Lemma waiting_aged n ops outs st st' :
  sound st -> exec ops outs st st' -> cs_sender st = SThrottle -> Forall (fun op => op <> SendDone) ops ->
  aged n (cs_timer st) ->
  cs_sender st' = SThrottle /\ aged (n + Z.to_nat (recv_ticks ops)) (cs_timer st').
Proof using ClientTaskOk0 error_handle_task.
  intros Hg Hx. revert n Hg. induction Hx as [st|op ops evs outs st st1 st2 Hs Hx IH]; intros n Hg E Hf Ha.
  { split; [done|]. unfold recv_ticks; cbn. by rewrite Nat.add_0_r. }
  apply Forall_cons in Hf as [Ho Hf]. destruct (waiting_step _ _ _ _ E Hs Ho) as [E1 Hr].
  destruct (sound_step _ _ error_handle_task _ _ _ _ Hg Hs) as (Hg1 & Hi & Hv).
  destruct (IH _ Hg1 E1 Hf (view_aged _ _ _ _ _ _ Hi Hv Hr Ha)) as [E2 H2]. split; [done|].
  rewrite recv_ticks_cons. assert (0 <= recv_ticks ops) by apply zlen_nonneg.
  replace (n + _)%nat with ((if is_recv_tick op then Datatypes.S n else n) + Z.to_nat (recv_ticks ops))%nat; [done|].
  destruct (is_recv_tick op); lia.
Qed.

Lemma sound_timer st : sound st -> timer_inv (cs_timer st).
Proof. intros (s & l & h & H). apply H. Qed.

Lemma poll_aged tm : timer_inv tm -> aged 0 (recv_pending tm).
Proof.
  intros H k t Hin. rewrite recv_pending_live in Hin by done.
  destruct (received_held _ _ _ H Hin) as [m Hh]. exists m. split; [lia|done].
Qed.

Lemma waiting_exec ops outs st st' :
  sound st -> exec ops outs st st' -> cs_sender st = SThrottle -> Forall (fun op => op <> SendDone) ops ->
  sound st' /\ cs_sender st' = SThrottle /\ cs_thresholds st' = cs_thresholds st.
Proof using ClientTaskOk0 error_handle_task.
  intros Hg Hx. revert Hg. induction Hx as [|op ops evs outs st st1 st2 Hs _ IH]; intros Hg E Hf; [done|].
  apply Forall_cons in Hf as [Ho Hf]. destruct (waiting_step _ _ _ _ E Hs Ho) as [E1 _].
  destruct (sound_step _ _ error_handle_task _ _ _ _ Hg Hs) as (Hg1 & _).
  rewrite <- (step_thresholds _ _ _ _ Hs). by apply IH.
Qed.

(** From a poll of the registrations on, the window ages. *)
Lemma waiting_split ops1 ops2 outs st st' :
  sound st -> exec (ops1 ++ RecvPollSent :: ops2) outs st st' -> cs_sender st = SThrottle ->
  Forall (fun op => op <> SendDone) (ops1 ++ ops2) ->
  sound st' /\ task_timeout (cs_timer st') = task_timeout (cs_timer st) /\ cs_sender st' = SThrottle /\
  cs_thresholds st' = cs_thresholds st /\ aged (Z.to_nat (recv_ticks ops2)) (cs_timer st').
Proof using ClientTaskOk0 error_handle_task.
  intros Hg Hx E [Hf1 Hf2]%Forall_app. destruct (exec_sound _ _ error_handle_task _ _ _ _ Hg Hx) as [Hg' Et].
  destruct (exec_split _ _ _ _ _ _ _ Hx) as (st1 & o1 & o2 & -> & Hx1 & Hx2).
  destruct (waiting_exec _ _ _ _ Hg Hx1 E Hf1) as (Hg1 & E1 & T1).
  inversion Hx2 as [|op ops evs outs2 ? st2 ? Hs Hx3]; subst.
  destruct (sound_step _ _ error_handle_task _ _ _ _ Hg1 Hs) as (Hg2 & Hi1 & _).
  destruct (waiting_step _ _ _ _ E1 Hs ltac:(done)) as [E2 _].
  destruct (waiting_exec _ _ _ _ Hg2 Hx3 E2 Hf2) as (_ & E3 & T3).
  split; [done|]. split; [done|]. split; [done|].
  split; [by rewrite T3, (step_thresholds _ _ _ _ Hs), T1|].
  inversion Hs; subst. exact (proj2 (waiting_aged 0 _ _ _ _ Hg2 Hx3 E2 Hf2 (poll_aged _ Hi1))).
Qed.

(** ** The window is bounded *)

(** The wait of the wait group ends when no more than its threshold is left. *)
Context (wait_ready : Z -> Z -> bool).
Context (wait_ready_iff : forall left target, wait_ready left target = true <-> left <= target).
Abbreviation wstep := (window_step buffer_alloc error_handle wait_ready).
Abbreviation wexec := (window_exec buffer_alloc error_handle wait_ready).

Definition window_inv (w : Z) st : Prop :=
  cs_thresholds st = w /\
  match cs_sender st with
  | SAnnounced _ nf | SSending _ nf => waiting_count st <= w /\ (nf = false -> waiting_count st + 1 <= w)
  | SThrottle => waiting_count st <= w + 1
  | _ => waiting_count st <= w
  end.

Lemma window_step_inv w op st st' evs :
  0 < w -> sound st -> window_inv w st -> wstep op st st' evs -> window_inv w st'.
Proof using ClientTaskOk0 error_handle_task wait_ready_iff.
  intros H0 Hg [Ew H] [Hs Ht]. pose proof (sender_next _ _ _ _ _ _ Hs) as Hn.
  pose proof (step_count _ _ _ _ Hg Hs) as Hc. split; [by rewrite (step_thresholds _ _ _ _ Hs)|].
  destruct op; cbn [registers] in Hc; rewrite ?Z.add_0_r in Hc;
    try (rewrite Hn; destruct (cs_sender st); intuition lia).
  - destruct Hn as [E (nf & -> & Hf)]. rewrite E in H. split; [lia|]. intros Enf. specialize (Hf Enf).
    unfold nearly_full, get_inflight_count in Hf. rewrite E in Hf. unfold waiting_count in *. lia.
  - destruct Hn as (t & nf & E & [-> | ->]); rewrite E in H; intuition lia.
  - destruct Hn as [E ->]. by rewrite E in H; lia.
  - destruct Hn as (t & nf & E & [-> |(t' & [-> | ->])]); rewrite E in H; intuition lia.
  - destruct Hn as (t & E & ->). rewrite E in H. lia.
  - destruct Hn as (t & E & ->). rewrite E in H. lia.
  - destruct Hn as [E ->]. unfold throttle in Ht. rewrite Ew, (proj2 (Z.ltb_lt 0 w)) in Ht by done.
    destruct (wait_ready _ _) eqn:Er; [|done]. apply wait_ready_iff in Er.
    unfold get_inflight_count in Er. rewrite E in Er. unfold waiting_count in *. lia.
  - destruct Hn as [E ->]. rewrite E in H. lia.
Qed.

Lemma window_exec_inv w ops outs st st' :
  0 < w -> sound st -> window_inv w st -> wexec ops outs st st' -> sound st' /\ window_inv w st'.
Proof using ClientTaskOk0 error_handle_task wait_ready_iff.
  intros H0 Hg Hw. induction 1 as [|op ops evs outs st st1 st2 Hs _ IH]; [done|].
  apply IH; [|by eapply window_step_inv].
  by destruct (sound_step _ _ error_handle_task _ _ _ _ Hg (proj1 Hs)).
Qed.

Lemma new_sound (conn : TcpClient S) cid timeout thr :
  0 <= timeout -> sound (ClientStream_new (T := T) conn cid timeout thr).
Proof. intros H. eexists _, _, _. by apply ClientStream_new_inv. Qed.

(** A request that is written without a flush leaves room for itself. *)
Definition room_inv w st : Prop :=
  match cs_sender st with
  | SAnnounced _ _ | SSending _ _ | SReg _ => waiting_count st + 1 <= w
  | SThrottle => waiting_count st <= w
  | _ => True
  end.

Definition same_call op : Prop := match op with SendStart _ _ | SendDone => False | _ => True end.

Lemma room_step w op st st' evs :
  sound st -> room_inv w st -> step op st st' evs -> same_call op -> room_inv w st'.
Proof using ClientTaskOk0 error_handle_task.
  intros Hg H Hs Ho. unfold room_inv in *. pose proof (sender_next _ _ _ _ _ _ Hs) as Hn.
  pose proof (step_count _ _ _ _ Hg Hs) as Hc.
  destruct op; cbn [registers same_call] in *; rewrite ?Z.add_0_r in Hc;
    try (rewrite Hn; destruct (cs_sender st); try done; lia); try done.
  - destruct Hn as (t & nf & E & [-> | ->]); rewrite E in H; [done|lia].
  - by destruct Hn as [_ ->].
  - destruct Hn as (t & nf & E & [-> |(t' & [-> | ->])]); rewrite E in H; try done; lia.
  - destruct Hn as (t & E & ->). rewrite E in H. lia.
  - by destruct Hn as (t & _ & ->).
  - by destruct Hn as [_ ->].
Qed.

Lemma room_exec w ops outs st st' :
  sound st -> room_inv w st -> exec ops outs st st' -> Forall same_call ops ->
  room_inv w st' /\ cs_thresholds st' = cs_thresholds st.
Proof using ClientTaskOk0 error_handle_task.
  intros Hg H Hx. revert Hg H. induction Hx as [|op ops evs outs st st1 st2 Hs _ IH]; intros Hg H Hf; [done|].
  apply Forall_cons in Hf as [Ho Hf]. destruct (sound_step _ _ error_handle_task _ _ _ _ Hg Hs) as (Hg1 & _).
  destruct (IH Hg1 (room_step _ _ _ _ _ Hg H Hs Ho) Hf) as [H2 E]. split; [done|].
  by rewrite E, (step_thresholds _ _ _ _ Hs).
Qed.

Lemma room_ready left target : left <= target -> wait_ready left target = true.
Proof using wait_ready_iff. apply wait_ready_iff. Qed.

(** ** Properties *)

Section connection.
Context (conn : TcpClient S) (cid timeout thr : Z) (timeout_ok : 0 <= timeout) (thr_ok : 0 <= thr).
Abbreviation start := (ClientStream_new (T := T) conn cid timeout thr).

(** [ClientStreamInner::new]: 128 unless configured. *)
Definition window : Z := if thr =? 0 then 128 else thr.

Lemma start_window ops outs st :
  wexec ops outs start st -> 0 < window /\ sound st /\ window_inv window st.
Proof using ClientTaskOk0 error_handle_task wait_ready_iff timeout_ok thr_ok.
  intros Hx. assert (H0 : 0 < window) by (unfold window; destruct (Z.eqb_spec thr 0); lia).
  split; [done|]. apply (window_exec_inv window ops outs start); [done| | |done].
  - exact (new_sound _ _ _ _ timeout_ok).
  - split; [done|]. change (waiting_count start <= window). change (waiting_count start) with 0. lia.
Qed.

(** C14. The sliding window. However the two coroutines of a connection
    interleave, there are never more requests in flight than the threshold and
    the one whose sender waits for the throttler; between two calls of
    [send_task] there are at most as many as the threshold. *)
Theorem window_bounded ops outs st :
  window_exec buffer_alloc error_handle wait_ready ops outs start st ->
  get_inflight_count st <= window + 1 /\ (cs_sender st = SIdle -> get_inflight_count st <= window).
Proof using ClientTaskOk0 error_handle_task wait_ready_iff timeout_ok thr_ok.
  intros Hx. destruct (start_window _ _ _ Hx) as (_ & _ & _ & H). unfold get_inflight_count, waiting_count in *.
  destruct (cs_sender st); (split; [intuition lia|intros ?; first [discriminate|lia]]).
Qed.

(** C13. A full window does not stop the sender for good. While it waits
    for the throttler the server may answer or not: after a poll of the
    registrations and more than [task_timeout] ticks, or once the receiver has
    exited, the wait is over and [send_task] returns. *)
Theorem throttle_released ops0 outs0 st ops1 ops2 outs st' :
  wexec ops0 outs0 start st -> cs_sender st = SThrottle ->
  exec (ops1 ++ RecvPollSent :: ops2) outs st st' -> Forall (fun op => op <> SendDone) (ops1 ++ ops2) ->
  timeout < recv_ticks ops2 \/ cs_recv st' = RExit ->
  window_step buffer_alloc error_handle wait_ready SendDone st' (upd_sender SIdle st') [].
Proof using ClientTaskOk0 error_handle_task wait_ready_iff timeout_ok thr_ok.
  intros Hx0 E Hx Hf Hlate. destruct (start_window _ _ _ Hx0) as (H0 & Hg & Ew & _).
  destruct (exec_sound _ _ error_handle_task _ _ _ _ (new_sound _ _ _ _ timeout_ok) (window_refines _ _ _ _ _ _ _ Hx0))
    as [_ Eto].
  destruct (waiting_split _ _ _ _ _ Hg Hx E Hf) as (Hg' & Et & E' & Eth & Ha).
  assert (Hl : live (cs_timer st') = []).
  { destruct Hlate as [Hlate|Hex].
    - apply (aged_over _ _ (sound_timer _ Hg') Ha). rewrite Et, Eto. cbn. lia.
    - destruct Hg' as (s & lo & h & Hi). destruct (si_exit _ _ _ _ Hi Hex) as (Hp & _).
      unfold live. rewrite (si_clean _ _ _ _ Hi) by auto. by rewrite Hp. }
  split; [by apply st_done|]. unfold throttle, get_inflight_count. rewrite Hl, E', Eth, Ew.
  rewrite (proj2 (Z.ltb_lt 0 window)) by done. change (zlen (@nil (Z * T)) + 0) with 0.
  pose proof (guard_bound (recv_body_pc (cs_recv st'))). fold (recv_guard (cs_recv st')) in *.
  by rewrite room_ready by lia.
Qed.

(** A request that is written without being flushed never makes its sender
    wait: what the sender waits for is on its way to the server. *)
Theorem unflushed_never_waits ops0 outs0 st t ops outs st' :
  wexec ops0 outs0 start st -> cs_sender st = SSending t false ->
  exec ops outs st st' -> Forall same_call ops -> cs_sender st' = SThrottle ->
  wstep SendDone st' (upd_sender SIdle st') [].
Proof using ClientTaskOk0 error_handle_task wait_ready_iff timeout_ok thr_ok.
  intros Hx0 E Hx Hf E'. destruct (start_window _ _ _ Hx0) as (H0 & Hg & Ew & Hw). rewrite E in Hw.
  assert (Hroom : room_inv window st) by (unfold room_inv; rewrite E; by apply (proj2 Hw)).
  destruct (room_exec window _ _ _ _ Hg Hroom Hx Hf) as [Hr Eth].
  unfold room_inv in Hr. rewrite E' in Hr. split; [by apply st_done|].
  unfold throttle, get_inflight_count. rewrite E', Eth, Ew, (proj2 (Z.ltb_lt 0 window)) by done.
  unfold waiting_count in Hr. by rewrite room_ready by lia.
Qed.
End connection.

End facts.

(** ** A concrete window of one request *)

Module ThrottleWitness.
Import StreamWitness.

Definition small : ClientStream mem_stream APIClientReq := ClientStream_new conn 1 3 1.
Abbreviation wrun := (window_exec always error_handle_default Z.leb).

(** [send_task] up to the registration. *)
Definition a1 (st : ClientStream mem_stream APIClientReq) := send_start (sample_task 0) false st.
Definition nf_of (st : ClientStream mem_stream APIClientReq) : bool :=
  match cs_sender st with SAnnounced _ nf | SSending _ nf => nf | _ => false end.
Definition a2 st := (send_check error_handle_default (sample_task 0) (nf_of (a1 st)) (a1 st)).1.
Definition a3 st := match send_request (sample_task 0) (nf_of (a2 st)) (a2 st) with Ret s => s | Panic => a2 st end.
Definition reg_of (st : ClientStream mem_stream APIClientReq) : APIClientReq :=
  match cs_sender st with SReg t => t | _ => sample_task 0 end.
Definition a4 st := match send_register (reg_of (a3 st)) (a3 st) with Ready s => s | Pending => a3 st end.
Definition call_ops : list (stream_op (T := APIClientReq)) :=
  [SendStart (sample_task 0) false; SendCheck; SendRequest; SendRegister].

(** The first request leaves the window with no room, the second one waits. *)
Definition w2 := upd_sender SIdle (a4 small).
Definition w3 := a4 w2.
Definition w4 := recv_poll_sent w3.
Definition w5 := (poll_ticks error_handle_default 4 w4).1.
Definition late : list (event APIClientReq) := (poll_ticks error_handle_default 4 w4).2.

Lemma leb_ready left target : (left <=? target) = true <-> left <= target.
Proof. apply Z.leb_le. Qed.

Lemma one_call st ops outs st' :
  cs_sender st = SIdle -> pending_task_count (cs_timer st) + 1 < 2 ^ 64 ->
  cs_sender (a1 st) = SAnnounced (sample_task 0) (nf_of (a1 st)) ->
  send_check error_handle_default (sample_task 0) (nf_of (a1 st)) (a1 st) = (a2 st, []) ->
  cs_sender (a2 st) = SSending (sample_task 0) (nf_of (a2 st)) -> cs_seq (a2 st) + 1 < 2 ^ 64 ->
  send_request (sample_task 0) (nf_of (a2 st)) (a2 st) = Ret (a3 st) ->
  cs_sender (a3 st) = SReg (reg_of (a3 st)) -> send_register (reg_of (a3 st)) (a3 st) = Ready (a4 st) ->
  wrun ops outs (a4 st) st' -> wrun (call_ops ++ ops) outs st st'.
Proof.
  intros. apply (wexec_cons _ _ _ _ _ [] outs st (a1 st) st'); [by split; [apply st_start|]|].
  apply (wexec_cons _ _ _ _ _ [] outs (a1 st) (a2 st) st'); [split; [by eapply st_check|done]|].
  apply (wexec_cons _ _ _ _ _ [] outs (a2 st) (a3 st) st'); [split; [by eapply st_request|done]|].
  apply (wexec_cons _ _ _ _ _ [] outs (a3 st) (a4 st) st'); [split; [by eapply st_register|done]|done].
Qed.

Lemma one_done st ops outs st' :
  cs_sender st = SThrottle -> throttle Z.leb (get_inflight_count st) (cs_thresholds st) = Ready tt ->
  wrun ops outs (upd_sender SIdle st) st' -> wrun (SendDone :: ops) outs st st'.
Proof.
  intros. apply (wexec_cons _ _ _ _ _ [] outs st (upd_sender SIdle st) st'); [|done].
  by split; [apply st_done|].
Qed.

Lemma full_window : wrun (call_ops ++ SendDone :: call_ops ++ []) [] small w3.
Proof.
  apply (one_call small); [vm_compute; reflexivity..|].
  apply (one_done (a4 small)); [vm_compute; reflexivity..|]. fold w2.
  apply (one_call w2); [vm_compute; reflexivity..|]. unfold w3. apply wexec_nil.
Qed.

Lemma silent_server : stream_exec always error_handle_default (RecvPollSent :: replicate 4 RecvTick) late w3 w5.
Proof.
  apply (sexec_cons _ _ RecvPollSent _ [] late w3 w4); [apply st_poll; vm_compute; reflexivity|].
  apply (poll_ticks_exec always error_handle_default 4 w4 w5); vm_compute; reflexivity.
Qed.

Lemma window_bounded_witness : get_inflight_count w3 = 2 /\ get_inflight_count w3 <= window 1 + 1.
Proof.
  split; [vm_compute; reflexivity|].
  exact (proj1 (window_bounded always error_handle_default stream_keep_task Z.leb leb_ready conn 1 3 1
    ltac:(lia) ltac:(lia) (call_ops ++ SendDone :: call_ops ++ []) [] w3 full_window)).
Defined.

Lemma throttle_released_witness :
  throttle Z.leb (get_inflight_count w3) (cs_thresholds w3) = Pending /\
  window_step always error_handle_default Z.leb SendDone w5 (upd_sender SIdle w5) [].
Proof.
  split; [vm_compute; reflexivity|].
  apply (throttle_released always error_handle_default stream_keep_task Z.leb leb_ready conn 1 3 1
    ltac:(lia) ltac:(lia) (call_ops ++ SendDone :: call_ops ++ []) [] w3 [] (replicate 4 RecvTick) late w5).
  - exact full_window.
  - vm_compute. reflexivity.
  - exact silent_server.
  - repeat constructor; discriminate.
  - left. vm_compute. reflexivity.
Defined.

End ThrottleWitness.
