(* ===== verification/Wire.v ===== *)
(** * Reading while the bytes are still arriving

    On a real connection a frame arrives in pieces. A read that succeeds on
    what has arrived gives the same on what will have arrived, so the two ends
    stay in step however the network cuts the stream; a read that runs dry
    fails, and this file says what it does to the task whose response it was. *)
From Stdlib Require Import ZArith Lia Strings.String.
From stdpp Require Import base list sets.
From S2P Require Import Prelude Errors Task ApiClient Proto BTree Timer TimerInv Net TcpClient ServerTask TcpServer ApiServer EndToEnd Stream StreamInv.
Local Open Scope Z_scope.
Local Open Scope rpc_scope.

(** [x] arrives. *)
Definition feed (x : bytes) (s : mem_stream) : mem_stream := MemStream (ms_in s ++ x) (ms_out s) (ms_open s).
Definition feed_server (x : bytes) (c : TcpServer mem_stream) : TcpServer mem_stream :=
  ts_set_stream (feed x (ts_stream c)) c.

Lemma read_exact_feed x s n s' b :
  read_exact s n = (s', Ok b) -> read_exact (feed x s) n = (feed x s', Ok b).
Proof.
  cbn. destruct (Z.leb_spec n (zlen (ms_in s))) as [H|]; [|done]. intros [= <- <-].
  rewrite zlen_app. pose proof (zlen_nonneg x). rewrite (proj2 (Z.leb_le _ _)) by lia.
  assert (Hn : (Z.to_nat n <= length (ms_in s))%nat) by (unfold zlen in *; lia).
  unfold feed; cbn. by rewrite take_app_le, drop_app_le by done.
Qed.

Lemma read_exact_out (s : mem_stream) n s' r :
  read_exact s n = (s', r) -> ms_out s' = ms_out s /\ ms_open s' = ms_open s.
Proof. cbn. by destruct (n <=? zlen (ms_in s)); intros [= <- _]. Qed.

(** A successful read takes a prefix of the bytes. *)
Lemma read_exact_take (s : mem_stream) n s' b :
  read_exact s n = (s', Ok b) -> ms_in s = b ++ ms_in s' /\ (0 <= n -> zlen b = n).
Proof.
  cbn. destruct (Z.leb_spec n (zlen (ms_in s))) as [H|]; [|done]. intros [= <- <-]. cbn.
  rewrite take_drop. split; [done|]. intros. unfold zlen in *. rewrite length_take. lia.
Qed.

(** ** The server *)
Section server.
Context (buffer_alloc : Z -> bool).

Lemma read_action_feed x h c c' a :
  read_action h c = (c', Ok a) -> read_action h (feed_server x c) = (feed_server x c', Ok a).
Proof.
  unfold read_action. destruct (ReqHead_get_action h) as [n|n]; [by intros [= <- <-]|]. cbn zeta.
  match goal with |- context [read_exact ?s ?l] => destruct (read_exact s l) as [s1 [b|e]] eqn:E end; [|done].
  apply (read_exact_feed x) in E. cbn [ts_action_buf ts_stream ts_set_action ts_set_stream feed_server] in *.
  rewrite E. destruct (from_utf8 b); [|done]. by intros [= <- <-].
Qed.

Lemma read_msg_feed x h c c' :
  read_msg h c = (c', Ok tt) -> read_msg h (feed_server x c) = (feed_server x c', Ok tt).
Proof.
  unfold read_msg. cbn zeta. destruct (0 <? rq_msg_len h); [|by intros [= <-]].
  match goal with |- context [read_exact ?s ?l] => destruct (read_exact s l) as [s1 [b|e]] eqn:E end; [|done].
  apply (read_exact_feed x) in E. cbn [ts_msg_buf ts_stream ts_set_msg ts_set_stream feed_server] in *.
  rewrite E. by intros [= <-].
Qed.

Lemma read_blob_feed x h c c' b :
  read_blob buffer_alloc h c = (c', Ok b) -> read_blob buffer_alloc h (feed_server x c) = (feed_server x c', Ok b).
Proof.
  unfold read_blob. cbn zeta. destruct (0 <? as_i32 (rq_blob_len h)); [|by intros [= <- <-]].
  destruct (buffer_alloc _); [|done].
  match goal with |- context [read_exact ?s ?l] => destruct (read_exact s l) as [s1 [d|e]] eqn:E end; [|done].
  apply (read_exact_feed x) in E. cbn [ts_stream ts_set_stream feed_server] in *. rewrite E. by intros [= <- <-].
Qed.

(** A request that can be read now can be read when more has arrived. *)
Lemma read_req_feed x closed c c' req :
  read_req buffer_alloc closed c = Ret (c', Ok req) ->
  read_req buffer_alloc closed (feed_server x c) = Ret (feed_server x c', Ok req).
Proof.
  unfold read_req. destruct closed; [done|].
  destruct (read_exact (ts_stream c) RPC_REQ_HEADER_LEN) as [s [hb|e]] eqn:E; [|done].
  apply (read_exact_feed x) in E. unfold feed_server at 1. cbn [ts_stream ts_set_stream]. rewrite E.
  destruct (ReqHead_decode_head hb) as [[h|e]|]; cbn [may_bind]; [|done..].
  change (ts_set_stream (feed x s) (feed_server x c)) with (feed_server x (ts_set_stream s c)).
  destruct (read_action h (ts_set_stream s c)) as [c1 [a|e]] eqn:Ea; [|done].
  rewrite (read_action_feed x _ _ _ _ Ea).
  destruct (read_msg h c1) as [c2 [[]|e]] eqn:Em; [|done]. rewrite (read_msg_feed x _ _ _ Em).
  destruct (read_blob buffer_alloc h c2) as [c3 [b|e]] eqn:Eb; [|done]. rewrite (read_blob_feed x _ _ _ _ Eb).
  by intros [= <- <-].
Qed.

End server.

(** ** The client *)
Section client.
Context {T : Type} `{!ClientTask T} (buffer_alloc : Z -> bool) (error_handle : T -> event T).
Implicit Types (c : TcpClient mem_stream) (timer : ClientTaskTimer T).

(** The reading side of [c] once [x] has arrived. *)
Definition view (x : bytes) (c : TcpClient mem_stream) : TcpClient mem_stream :=
  TcpC (MemStream (ms_in (tc_stream c) ++ x) [] false) (tc_resp_buf c).

Lemma view_view x y c : view y (view x c) = view (x ++ y) c.
Proof. unfold view; cbn. by rewrite app_assoc. Qed.

Lemma read_exact_view x c n s b :
  read_exact (tc_stream c) n = (s, Ok b) ->
  read_exact (tc_stream (view x c)) n = (tc_stream (view x (tc_set_stream s c)), Ok b).
Proof.
  intros E. pose proof (read_exact_feed x _ _ _ _ E) as F. unfold view, feed in *. cbn in F |- *.
  destruct (n <=? zlen (ms_in (tc_stream c) ++ x)); [|done]. injection F as Hi _ _ ->. by rewrite Hi.
Qed.

Lemma get_resp_buf_view x n c : get_resp_buf n (view x c) =
  (let? c' := get_resp_buf n c in Ret (view x c')).
Proof. unfold get_resp_buf. by destruct (ISIZE_MAX <? n). Qed.

Lemma read_resp_buf_view x c c' :
  read_resp_buf c = (c', Ok tt) -> read_resp_buf (view x c) = (view x c', Ok tt).
Proof.
  unfold read_resp_buf. destruct (read_exact (tc_stream c) _) as [s [b|e]] eqn:E; [|done].
  apply (read_exact_view x) in E. change (tc_resp_buf (view x c)) with (tc_resp_buf c). rewrite E. by intros [= <-].
Qed.

Lemma finish_task_view x h t c c' evs r :
  finish_task error_handle h t c = (c', evs, r) -> finish_task error_handle h t (view x c) = (view x c', evs, r).
Proof.
  unfold finish_task. change (tc_resp_buf (view x c)) with (tc_resp_buf c).
  destruct (0 <? rs_msg_len h); [destruct (decode_resp t _)|]; by intros [= <- <- <-].
Qed.

Lemma recv_resp_blob_view x h t c c' evs r :
  recv_resp_blob buffer_alloc error_handle h t c = (c', evs, r) ->
  recv_resp_blob buffer_alloc error_handle h t (view x c) = (view x c', evs, r).
Proof.
  unfold recv_resp_blob. cbn zeta. destruct (0 <? rs_blob_len h); [|apply finish_task_view].
  destruct (reserve_resp_blob t _) as [t' [n|]]; by intros [= <- <- <-].
Qed.

(** Up to the body nothing is read. *)
Lemma recv_resp_taken_view x h o c :
  recv_resp_taken buffer_alloc error_handle h o (view x c) =
  (let? (c', evs, r) := recv_resp_taken buffer_alloc error_handle h o c in Ret (view x c', evs, r)).
Proof.
  unfold recv_resp_taken. destruct o as [t|].
  - destruct (0 <? rs_flag h).
    + unfold recv_error. destruct (rs_flag h =? 1); [done|]. destruct (rs_flag h =? 2); [|done].
      rewrite get_resp_buf_view. by destruct (get_resp_buf _ c).
    + destruct (0 <? rs_msg_len h); [done|].
      destruct (recv_resp_blob _ _ h t c) as [[c1 e] r] eqn:E. cbn [may_bind].
      by rewrite (recv_resp_blob_view x _ _ _ _ _ _ E).
  - cbn zeta. by destruct (0 <? _).
Qed.

(** A failure of the connection, as [error_handle] gets it. *)
Definition own_failure (ev : event T) : Prop :=
  exists t e, (e = IO \/ e = Timeout) /\ ev = error_handle (set_rpc_error t e).

Lemma own_io t : own_failure (error_handle (set_rpc_error t IO)).
Proof. exists t, IO. auto. Qed.

(** Nothing is missing. *)
Lemma read_exact_here c n s :
  read_exact (tc_stream c) n = (s, Err tt) -> exists s', read_exact (tc_stream (view [] c)) n = (s', Err tt).
Proof. cbn. rewrite app_nil_r. destruct (n <=? _); [done|]. by eexists. Qed.

Lemma read_resp_buf_here c c' :
  read_resp_buf c = (c', Err tt) -> exists c1, read_resp_buf (view [] c) = (c1, Err tt).
Proof.
  unfold read_resp_buf. destruct (read_exact (tc_stream c) _) as [s [b|[]]] eqn:E; [done|]. intros _.
  apply read_exact_here in E as [s' E]. change (tc_resp_buf (view [] c)) with (tc_resp_buf c). rewrite E. by eexists.
Qed.

(** A part of the body that can be read now can be read when more has arrived;
    when it runs dry, the task gets the failure, and it does so only if
    something is missing. *)
Definition runs_dry h pc c (evs : list (event T)) (r : body_state T) : Prop :=
  r = BDone (Err tt) /\ Forall own_failure evs /\
  exists c1 e1, recv_resp_poll buffer_alloc error_handle h pc (view [] c) = (c1, e1, BDone (Err tt)).

Lemma recv_resp_poll_view x h pc c c' evs r :
  recv_resp_poll buffer_alloc error_handle h pc c = (c', evs, r) ->
  runs_dry h pc c evs r \/ recv_resp_poll buffer_alloc error_handle h pc (view x c) = (view x c', evs, r).
Proof.
  assert (Hio : forall t, Forall own_failure [error_handle (set_rpc_error t IO)]) by (repeat constructor; apply own_io).
  unfold runs_dry. destruct pc as [t|t n|t|g l]; cbn [recv_resp_poll].
  - destruct (read_resp_buf c) as [c1 [[]|[]]] eqn:E.
    + rewrite (read_resp_buf_view x _ _ E). right. by apply recv_resp_blob_view.
    + apply read_resp_buf_here in E as [c2 ->]. intros [= <- <- <-]. left. eauto.
  - destruct (read_exact (tc_stream c) n) as [s [b|[]]] eqn:E.
    + rewrite (read_exact_view x _ _ _ _ E). right.
      exact (finish_task_view x h (fill_resp_blob t b) (tc_set_stream s c) c' evs r H).
    + apply read_exact_here in E as [s2 ->]. intros [= <- <- <-]. left. eauto.
  - unfold recv_error_string. destruct (read_resp_buf c) as [c1 [[]|[]]] eqn:E.
    + rewrite (read_resp_buf_view x _ _ E). cbn zeta. change (tc_resp_buf (view x c1)) with (tc_resp_buf c1). right.
      destruct (if starts_with _ _ then _ else _); by injection H as <- <- <-.
    + apply read_resp_buf_here in E as [c2 ->]. intros [= <- <- <-]. left. eauto.
  - destruct (read_exact (tc_stream c) _) as [s [b|[]]] eqn:E.
    + rewrite (read_exact_view x _ _ _ _ E). intros [= <- <- <-]. by right.
    + apply read_exact_here in E as [s2 ->]. intros [= <- <- <-]. left. eauto.
Qed.

(** *** A body read to its end *)
Abbreviation run_ok := (run_ok (S := mem_stream) buffer_alloc error_handle).

Lemma run_ok_split n h c e s evs rest :
  run_ok n h (c, e, s) evs rest -> exists evs', evs = e ++ evs' /\ run_ok n h (c, [], s) evs' rest.
Proof.
  intros (c' & E & Hi). destruct s as [r|pc].
  - rewrite body_run_done in E. injection E as <- <- ->. exists []. rewrite app_nil_r. split; [done|].
    by apply run_ok_done.
  - destruct n as [|n]; [done|]. rewrite body_run_read in E.
    destruct (body_run _ _ n h _) as [[[c1 e1] r1]|] eqn:E1; cbn [may_bind] in E; [|done]. injection E as -> <- ->.
    exists e1. split; [done|]. exists c'. by rewrite body_run_read, E1.
Qed.

(** ... can be when more has arrived. *)
Lemma run_ok_view y n h c e s evs rest :
  run_ok n h (c, e, s) evs rest -> run_ok n h (view y c, e, s) evs (rest ++ y).
Proof.
  revert c e s evs. induction n as [|n IH]; intros c e [r|pc] evs (c' & E & Hi); try done.
  - cbn in E. injection E as <- <- ->. apply run_ok_done. cbn in *. by rewrite Hi.
  - cbn in E. injection E as <- <- ->. apply run_ok_done. cbn in *. by rewrite Hi.
  - rewrite body_run_read in E.
    destruct (recv_resp_poll buffer_alloc error_handle h pc c) as [[c1 e1] s1] eqn:Ep.
    destruct (body_run _ _ n h _) as [[[c2 e2] r]|] eqn:Er; cbn [may_bind] in E; [|done]. injection E as -> <- ->.
    apply run_ok_read.
    destruct (recv_resp_poll_view y _ _ _ _ _ _ Ep) as [[-> _]|Ev]; [by rewrite body_run_done in Er|].
    rewrite Ev. apply IH. by exists c'.
Qed.

(** ... and is there when nothing is missing. *)
Lemma run_ok_here n h c e s evs rest : run_ok n h (view [] c, e, s) evs rest -> run_ok n h (c, e, s) evs rest.
Proof.
  revert c e s evs. induction n as [|n IH]; intros c e [r|pc] evs (c' & E & Hi); try done;
    try (cbn in E; injection E as <- <- ->; apply run_ok_done; cbn in *; by rewrite app_nil_r in Hi).
  rewrite body_run_read in E.
  destruct (recv_resp_poll buffer_alloc error_handle h pc c) as [[c1 e1] s1] eqn:Ep.
  destruct (recv_resp_poll_view [] _ _ _ _ _ _ Ep) as [(_ & _ & c2 & e2 & Ev)|Ev]; rewrite Ev in E.
  { rewrite body_run_done in E. done. }
  destruct (body_run _ _ n h _) as [[[c2 e2] r]|] eqn:Er; cbn [may_bind] in E; [|done]. injection E as -> <- ->.
  apply run_ok_read. rewrite Ep. apply IH. by exists c'.
Qed.

(** It does not fail: an error would not be the end of a frame. *)
Lemma run_ok_not_err n h c e evs rest u : ~ run_ok n h (c, e, BDone (Err u)) evs rest.
Proof. intros (c' & E & _). by rewrite body_run_done in E. Qed.

End client.

(** ** The stream of responses *)
Section responses.
Context {T : Type} `{!ClientTask T} (buffer_alloc : Z -> bool) (error_handle : T -> event T).
Context (reserve_exact : forall (t t' : T) n m, 0 < n -> reserve_resp_blob t n = (t', Some m) -> m = n).
Context (alloc_i32 : forall n, 0 < n <= I32_MAX -> buffer_alloc n = true).
Implicit Types (c : TcpClient mem_stream) (timer : ClientTaskTimer T).

(** A response on its way: the number it answers and what it says. *)
Definition down_item : Type := (Z * result (bytes * option bytes) EncodedErr)%type.
Definition down_frame (i : down_item) : bytes := outcome_frame i.1 i.2.
Definition down_fits (i : down_item) : Prop := is_u64 i.1 /\ outcome_fits i.2.
Definition down_bytes (pend : list down_item) : bytes := concat (map down_frame pend).

(** How a task may leave by [good] responses, or by a failure of the
    connection. *)
Context (good : event T -> Prop).
Definition events_from (evs : list (event T)) : Prop :=
  Forall (fun ev => own_failure error_handle ev \/ good ev) evs.
(** The responses on their way are good for the tasks that wait for them. *)
Definition good_for (pend : list down_item) timer : Prop :=
  forall i t, i ∈ pend -> (i.1, t) ∈ live timer -> good (outcome_event error_handle i.2 t).

(** The number [k] has been looked up for good: no task waits under it, and
    none will. *)
Definition past (k : Z) timer : Prop := k <= newest timer /\ bt_lookup k (live timer) = None.

(** ... and what it leaves: the responses [taken] are done with. *)
Definition done_with timer (taken : list down_item) : Prop :=
  reg_stopped_flag timer = false -> Forall (fun i => past i.1 timer) taken.

(** The body at [pc] is being read, the responses [pend] are to follow, and the
    last bytes [x] of it all have not arrived: once they have, the rest of the
    body is there and makes [good] events. *)
Definition in_body (x : bytes) (pend : list down_item) (h : RespHead) (pc : body_pc T) c : Prop :=
  exists evs, run_ok buffer_alloc error_handle 2 h (view x c, [], BRead pc) evs (down_bytes pend) /\ Forall good evs.

Lemma in_body_arrive x y pend i h pc c :
  in_body x pend h pc c -> y = x ++ down_frame i -> in_body y (pend ++ [i]) h pc c.
Proof.
  intros (evs & H & Hg) ->. exists evs. split; [|done]. rewrite <- view_view.
  unfold down_bytes. rewrite map_app, concat_app. cbn. rewrite app_nil_r. by apply run_ok_view.
Qed.

(** What a read makes of the responses [pend] on their way, the last bytes [x]
    of which have not arrived. *)
Definition left_over (x : bytes) (pend : list down_item) timer c (r : read_state T) : Prop :=
  match r with
  | RDone (Err _) => True
  | RDone (Ok _) => exists taken pend', pend = taken ++ pend' /\ ms_in (tc_stream c) ++ x = down_bytes pend' /\
      done_with timer taken
  | RWait h => exists i pend', pend = i :: pend' /\ h = outcome_head i.1 i.2 /\
      zlen (tc_resp_buf c) = rs_msg_len h /\ ms_in (tc_stream c) ++ x = outcome_body i.2 ++ down_bytes pend'
  | RBody h pc => exists taken pend', pend = taken ++ pend' /\ in_body x pend' h pc c /\ done_with timer taken
  end.

Lemma take_live k timer timer' t :
  timer_inv timer -> take_task k timer = (timer', Ready (Some t)) -> (k, t) ∈ live timer.
Proof.
  intros H E. destruct (take_task_split _ _ _ _ H E) as [[_ Hr]|[_ Hr]]; [done|].
  unfold take_answer in Hr. destruct (bt_lookup k (live timer)) as [t'|] eqn:El; [|by case_match].
  injection Hr as ->. by apply (bt_lookup_Some k t' _ (inv_sorted _ H)).
Qed.

Lemma take_past k timer timer' o :
  timer_inv timer -> take_task k timer = (timer', Ready o) -> reg_stopped_flag timer' = false -> past k timer'.
Proof.
  intros H E Hf. pose proof (take_task_flag k timer) as Hg. pose proof (newest_take_task k timer H) as Hn.
  rewrite E in Hg, Hn. cbn in Hg, Hn. rewrite Hf in Hg.
  destruct (take_task_live k timer H (or_introl (eq_sym Hg))) as (_ & Hl & Hr). rewrite E in Hl, Hr. cbn in Hl, Hr.
  unfold past. rewrite Hl, Hn. split.
  - unfold take_answer in Hr. destruct (bt_lookup k (live timer)) as [t|] eqn:El.
    + apply bt_lookup_is_key in El. destruct (newest_max _ H) as [_ Hm]. rewrite Forall_forall in Hm. auto.
    + destruct (Z.ltb_spec (newest timer) k); [done|lia].
  - apply bt_lookup_None. unfold bt_keys, bt_without. intros Hin. apply list_elem_of_In, in_map_iff in Hin as ([k' t] & Hk & Hin).
    apply filter_In in Hin as [_ Hin]. cbn in *. subst k'. by rewrite Z.eqb_refl in Hin.
Qed.

Lemma done_with_nil timer : done_with timer [].
Proof. intros _. constructor. Qed.

Lemma outcome_head_seq seq o : rs_seq (outcome_head seq o) = seq.
Proof. by destruct o as [[msg blob]|[]]. Qed.

Lemma down_sane i : down_fits i -> RespHead_sane (outcome_head i.1 i.2) /\
  zlen (outcome_body i.2) = body_len (outcome_head i.1 i.2).
Proof. intros [Hs Hf]. by apply outcome_head_sane. Qed.

Lemma down_bytes_cons i pend :
  down_bytes (i :: pend) = RespHead_to_bytes (outcome_head i.1 i.2) ++ outcome_body i.2 ++ down_bytes pend.
Proof. unfold down_bytes; cbn. unfold down_frame at 1. by rewrite outcome_frame_split, <- app_assoc. Qed.

(** The rest of a body: where a read that is in it stands, seen from the end. *)
Lemma body_left x n h c e s evs tm taken pend :
  (n <= 2)%nat -> run_ok buffer_alloc error_handle n h (view x c, e, s) evs (down_bytes pend) ->
  Forall good evs -> done_with tm taken ->
  forall c' tm' evs' r, read_resp_finish h (c, e, s) tm = (c', tm', evs', r) ->
  events_from evs' /\ left_over x (taken ++ pend) tm' c' r.
Proof.
  intros Hn H Hg Hd c' tm' evs' r E. destruct (run_ok_split _ _ _ _ _ _ _ _ _ H) as (evs2 & -> & H2).
  apply Forall_app in Hg as [Hg1 Hg2]. destruct s as [[u|u]|pc]; cbn in E; injection E as <- <- <- <-.
  - split; [by eapply Forall_impl; [exact Hg1|auto]|]. exists taken, pend. split; [done|]. split; [|done].
    destruct H as (c1 & E & Hi). rewrite body_run_done in E. injection E as <- _. exact Hi.
  - by apply run_ok_not_err in H.
  - split; [by eapply Forall_impl; [exact Hg1|auto]|]. exists taken, pend. split; [done|]. split; [|done].
    exists evs2. split; [|done]. destruct n as [|[|[|n]]]; [by apply run_ok_more, run_ok_more|by apply run_ok_more|done|lia].
Qed.

(** The task of the frame [i] has been looked up. *)
Lemma taken_left x i pend c timer tm o :
  down_fits i -> timer_inv timer -> good_for (i :: pend) timer -> take_task i.1 timer = (tm, Ready o) ->
  zlen (tc_resp_buf c) = rs_msg_len (outcome_head i.1 i.2) ->
  ms_in (tc_stream c) ++ x = outcome_body i.2 ++ down_bytes pend ->
  forall c' tm' evs r,
  (let? y := recv_resp_taken buffer_alloc error_handle (outcome_head i.1 i.2) o c in
   Ret (read_resp_finish (outcome_head i.1 i.2) y tm)) = Ret (c', tm', evs, r) ->
  events_from evs /\ left_over x (i :: pend) tm' c' r.
Proof using reserve_exact alloc_i32.
  intros Hi H Hgood E Hl Hin c' tm' evs r Hr. destruct (down_sane i Hi) as [Hsane Hlen].
  change (incoming (tc_stream (view x c)) = outcome_body i.2 ++ down_bytes pend) in Hin.
  destruct (recv_resp_taken_ok buffer_alloc error_handle reserve_exact alloc_i32 _ o (view x c)
    (outcome_body i.2) (down_bytes pend) Hsane Hl Hin Hlen) as (y & Ey & Hy).
  rewrite recv_resp_taken_view in Ey.
  destruct (recv_resp_taken _ _ _ o c) as [[[c1 e1] s1]|]; cbn [may_bind] in Ey, Hr; [|done].
  injection Ey as <-. injection Hr as Hr. change (i :: pend) with ([i] ++ pend).
  eapply (body_left x 2 _ c1 e1 s1 _ tm [i] pend); [done|exact Hy| |intros Hst; constructor; [by eapply take_past|constructor]|exact Hr].
  destruct o as [t|]; cbn; [|constructor]. constructor; [|constructor].
  rewrite resp_event_outcome by apply Hi. apply Hgood; [by left|]. by eapply take_live.
Qed.

Lemma read_down x cancel c timer c' timer' evs r pend :
  cancel = None \/ cancel = Some 0 ->
  read_resp buffer_alloc error_handle cancel c timer = Ret (c', timer', evs, r) ->
  timer_inv timer -> Forall down_fits pend -> good_for pend timer -> ms_in (tc_stream c) ++ x = down_bytes pend ->
  events_from evs /\ left_over x pend timer' c' r.
Proof using reserve_exact alloc_i32.
  intros Hc Hr H Hf Hgood Hin. destruct Hc as [-> | ->].
  2: { injection Hr as <- <- <- <-. split; [constructor|]. exists [], pend. split; [done|]. split; [|apply done_with_nil].
    cbn. destruct (Z.leb_spec 0 (zlen (ms_in (tc_stream c)))) as [_|Hneg]; [exact Hin|].
    pose proof (zlen_nonneg (ms_in (tc_stream c))). lia. }
  unfold read_resp in Hr.
  destruct (read_exact (tc_stream c) RPC_RESP_HEADER_LEN) as [s [hb|e']] eqn:Ex;
    [|injection Hr as <- <- <- <-; split; [constructor|done]].
  apply read_exact_take in Ex as [Ei El]. specialize (El ltac:(done)). destruct pend as [|i pend].
  { rewrite Ei in Hin. apply app_nil in Hin as [[-> _]%app_nil _]. done. }
  pose proof (Forall_inv Hf) as Hi. destruct (down_sane i Hi) as [Hsane Hlen].
  rewrite down_bytes_cons, Ei, <- app_assoc in Hin.
  apply app_inj_1 in Hin as [-> Hin].
  2: { pose proof (zlen_RespHead_to_bytes (outcome_head i.1 i.2)) as E20. unfold zlen in *. lia. }
  pose proof Hsane as (Hok & Hmg & Hv & _). rewrite RespHead_decode_to_bytes in Hr by done.
  cbn [may_bind] in Hr. cbn zeta in Hr. pose proof Hok as (_ & _ & _ & Hml & _).
  unfold recv_resp_body in Hr. rewrite get_resp_buf_ok in Hr by auto. cbn [may_bind] in Hr.
  rewrite outcome_head_seq in Hr.
  assert (Hbuf : zlen (tc_resp_buf (TcpC (tc_stream (tc_set_stream s c))
    (resize (rs_msg_len (outcome_head i.1 i.2)) (tc_resp_buf (tc_set_stream s c))))) = rs_msg_len (outcome_head i.1 i.2))
    by apply zlen_resize, Hml.
  destruct (take_task i.1 timer) as [tm [o|]] eqn:Et; [|injection Hr as <- <- <- <-; split; [constructor|]].
  - by eapply (taken_left x i pend); [..|exact Hr].
  - by exists i, pend.
Qed.

Lemma resume_down x i c timer c' timer' evs r pend :
  read_resp_resume buffer_alloc error_handle (outcome_head i.1 i.2) c timer = Ret (c', timer', evs, r) ->
  timer_inv timer -> down_fits i -> good_for (i :: pend) timer ->
  zlen (tc_resp_buf c) = rs_msg_len (outcome_head i.1 i.2) ->
  ms_in (tc_stream c) ++ x = outcome_body i.2 ++ down_bytes pend ->
  events_from evs /\ left_over x (i :: pend) timer' c' r.
Proof using reserve_exact alloc_i32.
  intros Hr H Hi Hgood Hl Hin. unfold read_resp_resume in Hr.
  rewrite take_task_resume_eq, outcome_head_seq in Hr by done.
  destruct (take_task i.1 timer) as [tm [o|]] eqn:Et; [|injection Hr as <- <- <- <-; split; [constructor|]].
  - by eapply (taken_left x i pend); [..|exact Hr].
  - by exists i, pend.
Qed.

Lemma body_down x h pc c timer c' timer' evs r pend :
  read_resp_body buffer_alloc error_handle h pc c timer = (c', timer', evs, r) ->
  in_body x pend h pc c -> events_from evs /\ left_over x pend timer' c' r.
Proof.
  intros Hr (evs0 & (c0 & E & Hi) & Hg). unfold read_resp_body in Hr.
  destruct (recv_resp_poll buffer_alloc error_handle h pc c) as [[c1 e1] s1] eqn:Ep.
  destruct (recv_resp_poll_view buffer_alloc error_handle x _ _ _ _ _ _ Ep) as [(-> & He & _)|Ev].
  { injection Hr as <- <- <- <-. split; [|done]. eapply Forall_impl; [exact He|auto]. }
  rewrite body_run_read, Ev in E. destruct (body_run _ _ 1 h _) as [[[c2 e2] q]|] eqn:E2; cbn [may_bind] in E; [|done].
  injection E as -> <- ->. change pend with ([] ++ pend).
  eapply (body_left x 1 h c1 e1 s1); [lia|by exists c0|exact Hg|apply done_with_nil|exact Hr].
Qed.

End responses.

(** ** The stream of requests *)

(** A ping, seen as a task without message. *)
Record ping_task : Type := Ping_task { ping_seq : Z }.
#[global] Instance ping_task_ops : ClientTask ping_task := {|
  task_seq := ping_seq;
  set_seq _ s := Ping_task s;
  get_action _ := ANum PING_ACTION;
  encode_req _ buf := (buf, Ok 0);
  get_req_blob _ := None;
  decode_resp t _ := Ok t;
  reserve_resp_blob t _ := (t, None);
  fill_resp_blob t _ := t;
  set_custom_error t _ _ _ := t;
  set_rpc_error t _ := t;
  set_ok t := t;
|}.

Section requests.
Context {T : Type} `{!ClientTask T} (buffer_alloc : Z -> bool) (cid : Z) (cid_ok : is_u64 cid).
Context (alloc_i32 : forall n, 0 < n <= I32_MAX -> buffer_alloc n = true).

(** A request on its way: a task with its encoded message, or a ping. *)
Inductive up_item : Type :=
| UpTask (t : T) (msg : bytes)
| UpPing (seq : Z).

Definition up_seq (i : up_item) : Z := match i with UpTask t _ => task_seq t | UpPing seq => seq end.
Definition up_frame (i : up_item) : bytes :=
  match i with UpTask t msg => req_frame cid t msg | UpPing seq => req_frame cid (Ping_task seq) [] end.
Definition up_view (i : up_item) : RpcSvrReq :=
  match i with UpTask t msg => svr_view t msg | UpPing seq => svr_view (Ping_task seq) [] end.
Definition up_fits (i : up_item) : Prop :=
  match i with UpTask t msg => req_sendable cid t msg | UpPing seq => is_u64 seq end.

Lemma up_view_seq i : sq_seq (up_view i) = up_seq i.
Proof. by destruct i. Qed.

Lemma encode_ping_frame buf seq : ReqHead_encode_ping buf cid seq = Ret (up_frame (UpPing seq)).
Proof.
  unfold ReqHead_encode_ping. pose proof (zlen_set_len RPC_REQ_HEADER_LEN buf ltac:(done)) as Hl.
  rewrite <- (app_nil_r (set_len _ buf)), ReqHead_write_head_app by done. done.
Qed.

Lemma up_reads i (c : TcpServer mem_stream) rest :
  up_fits i -> ms_in (ts_stream c) = up_frame i ++ rest ->
  exists c', read_req buffer_alloc false c = Ret (c', Ok (up_view i)) /\ ms_in (ts_stream c') = rest.
Proof using alloc_i32 cid_ok.
  intros Hf Hi. destruct i as [t msg|seq]; cbn in *.
  - destruct (read_req_frame buffer_alloc cid t msg c rest Hf) as (c' & E & Hc & _); [|done|by exists c'].
    intros Hp. apply alloc_i32. split; [done|]. apply Hf.
  - destruct (read_req_frame buffer_alloc cid (Ping_task seq) [] c rest) as (c' & E & Hc & _); [|done|done|by exists c'].
    unfold I32_MAX, U32_MAX. by repeat split; try apply cid_ok; try apply Hf.
Qed.

(** A request that is read is the next one. *)
Lemma read_up x closed (c c' : TcpServer mem_stream) req pend :
  read_req buffer_alloc closed c = Ret (c', Ok req) -> Forall up_fits pend ->
  ms_in (ts_stream c) ++ x = concat (map up_frame pend) ->
  exists i pend', pend = i :: pend' /\ req = up_view i /\
    ms_in (ts_stream c') ++ x = concat (map up_frame pend').
Proof using alloc_i32 cid_ok.
  intros Hr Hf Hin. destruct closed; [done|]. destruct pend as [|i pend].
  { apply app_nil in Hin as [E _]. unfold read_req in Hr.
    destruct (read_exact (ts_stream c) RPC_REQ_HEADER_LEN) as [s [hb|e]] eqn:Ex; [|done]. cbn in Ex. by rewrite E in Ex. }
  apply Forall_cons in Hf as [Hi _]. exists i, pend. split; [done|].
  destruct (up_reads i (feed_server x c) (concat (map up_frame pend)) Hi Hin) as (c2 & E & Hc).
  rewrite (read_req_feed _ x _ _ _ _ Hr) in E. injection E as <- ->. split; [done|exact Hc].
Qed.

End requests.
