(* ===== verification/System.v ===== *)
(** * A client connection and the server connection at its other end

    The sending and the receiving coroutine of a client ([Stream]), the
    reader, the workers and the writer of the server ([Server]), and the network
    between them, as one transition system: any of them may take a step, and the
    network carries any number of bytes at a time, cuts the stream anywhere, and
    may break either direction for good. *)
From Stdlib Require Import ZArith Lia Strings.String.
From stdpp Require Import base list sets.
From S2P Require Import Prelude Errors Task ApiClient Proto BTree Timer TimerInv Net TcpClient ServerTask TcpServer ApiServer EndToEnd Server Stream StreamInv StreamTrace StreamPoll Wire.
Local Open Scope Z_scope.
Local Open Scope rpc_scope.

Record System (T R : Type) : Type := Sys {
  sy_client : ClientStream mem_stream T;
  sy_server : ServerConn mem_stream R;
}.
Arguments Sys {T R}.
Arguments sy_client {T R}.
Arguments sy_server {T R}.

(** What has been observed of a run: the tasks sent, the requests the server
    read, the messages it wrote, and the tasks handed back. *)
Record history (T R : Type) : Type := History {
  h_tasks : list T;
  h_reqs : list RpcSvrReq;
  h_outs : list (noti_msg R);
  h_evs : list (event T);
}.
Arguments History {T R}.
Arguments h_tasks {T R}.
Arguments h_reqs {T R}.
Arguments h_outs {T R}.
Arguments h_evs {T R}.

Section system.
Context {T : Type} `{!ClientTask T} {R : Type} `{!ServerTaskEncode R}.
Context (buffer_alloc : Z -> bool) (error_handle : T -> event T).
Context (dispatch : RpcSvrReq -> may (dispatched R)).
Context (client_id task_timeout thresholds : Z).
Implicit Types (c : ClientStream mem_stream T) (s : ServerConn mem_stream R) (h : history T R).

Definition h_nil : history T R := History [] [] [] [].
Definition h_app h h' : history T R :=
  History (h_tasks h ++ h_tasks h') (h_reqs h ++ h_reqs h') (h_outs h ++ h_outs h') (h_evs h ++ h_evs h').

(** ** The network *)

Definition client_stream c : mem_stream := tc_stream (cs_conn c).
Definition on_client (f : mem_stream -> mem_stream) c : ClientStream mem_stream T :=
  upd_conn (tc_set_stream (f (client_stream c)) (cs_conn c)) c.
Definition on_server (f : mem_stream -> mem_stream) s : ServerConn mem_stream R :=
  upd_srv_conn (ts_set_stream (f (stream_of s)) (sc_conn s)) s.

(** The first [n] bytes on their way are gone from the sending end. *)
Definition drain (n : nat) (m : mem_stream) : mem_stream := MemStream (ms_in m) (drop n (ms_out m)) (ms_open m).
(** Nothing more can be sent. *)
Definition cut (m : mem_stream) : mem_stream := MemStream (ms_in m) (ms_out m) false.

(** ** Steps *)

(** A connection that is closed while the header of a response has been read in
    part loses its place in the stream: what it takes for the next header are
    the bytes that follow. Those runs are not followed. *)
Definition lossless (op : stream_op (T := T)) : Prop := match op with RecvCancel k => k = 0 | _ => True end.

Inductive sys_step : System T R -> System T R -> history T R -> Prop :=
| sy_client_step op c c' s evs :
    stream_step buffer_alloc error_handle op c c' evs -> lossless op ->
    sys_step (Sys c s) (Sys c' s) (History (op_task op) [] [] evs)
| sy_server_step c s s' reqs outs :
    server_step buffer_alloc dispatch s s' reqs outs ->
    sys_step (Sys c s) (Sys c s') (History [] reqs outs [])
| sy_up n c s :
    sys_step (Sys c s)
      (Sys (on_client (drain n) c) (on_server (feed (take n (ms_out (client_stream c)))) s)) h_nil
| sy_down n c s :
    sys_step (Sys c s)
      (Sys (on_client (feed (take n (ms_out (stream_of s)))) c) (on_server (drain n) s)) h_nil
| sy_cut_up c s : sys_step (Sys c s) (Sys (on_client cut c) s) h_nil
| sy_cut_down c s : sys_step (Sys c s) (Sys c (on_server cut s)) h_nil.

(** Both ends of a connection that has just been accepted. *)
Definition sys_start : System T R :=
  let fresh := MemStream [] [] true in
  Sys (ClientStream_new (TcpC fresh []) client_id task_timeout thresholds) (server_conn fresh).

Inductive sys_run : System T R -> history T R -> Prop :=
| sy_nil : sys_run sys_start h_nil
| sy_snoc sys sys' h h' : sys_run sys h -> sys_step sys sys' h' -> sys_run sys' (h_app h h').

End system.
