(* ===== verification/SystemEnds.v ===== *)
(** * What a step of either end does to the wire

    Every step of a client connection writes at most one request frame, made
    of the task the sender holds, and reads at most one of the responses on
    their way; every step of a server connection reads at most one of the
    requests on their way and writes at most one response frame, of a message
    on its way to the writer. *)
From Stdlib Require Import ZArith Lia Strings.String.
From stdpp Require Import base list sets.
From S2P Require Import Prelude Errors Task ApiClient Proto BTree Timer TimerInv Net TcpClient ServerTask TcpServer ApiServer EndToEnd Server Stream StreamInv StreamTrace StreamPoll Wire System.
Local Open Scope Z_scope.
Local Open Scope rpc_scope.

(** ** The client *)
Section client.
Context {T : Type} `{!ClientTask T} `{!ClientTaskOk T}.
Context (buffer_alloc : Z -> bool) (error_handle : T -> event T).
Context (error_handle_task : forall t, ev_task (error_handle t) = t).
Implicit Types c : ClientStream mem_stream T.
Abbreviation step := (stream_step (S := mem_stream) buffer_alloc error_handle).

(** Operations that neither write a frame nor read one. *)
Definition quiet (op : stream_op (T := T)) : bool :=
  match op with SendRequest | Ping | RecvRead | RecvCancel _ | RecvResume | RecvBody => false | _ => true end.

(** Where such an operation takes the receiver. *)
Definition recv_moves (r r' : recv_pc T) : Prop :=
  r' = r \/ (r = RLoop /\ exists open, r' = RReading open) \/ receiving r' = false.

(** What the two streams have in common. *)
Definition same_wire c c' : Prop :=
  ms_in (client_stream c') = ms_in (client_stream c) /\ ms_out (client_stream c') = ms_out (client_stream c) /\
  tc_resp_buf (cs_conn c') = tc_resp_buf (cs_conn c).

Lemma own_fail_with e (m : btree T) :
  e = IO \/ e = Timeout -> Forall (own_failure error_handle) (fail_with error_handle e m).
Proof.
  intros He. apply Forall_forall. intros ev Hin. apply list_elem_of_In, in_map_iff in Hin as ([k t] & <- & _).
  by exists t, e.
Qed.

Lemma flush_req_same (conn conn' : TcpClient mem_stream) r :
  flush_req conn = (conn', r) -> ms_in (tc_stream conn') = ms_in (tc_stream conn) /\
    ms_out (tc_stream conn') = ms_out (tc_stream conn) /\ tc_resp_buf conn' = tc_resp_buf conn.
Proof. unfold flush_req. cbn. by destruct (ms_open _); intros [= <- <-]. Qed.

Lemma close_conn_same (conn : TcpClient mem_stream) :
  ms_in (tc_stream (close_conn conn)) = ms_in (tc_stream conn) /\
  ms_out (tc_stream (close_conn conn)) = ms_out (tc_stream conn) /\ tc_resp_buf (close_conn conn) = tc_resp_buf conn.
Proof.
  unfold close_conn. destruct (flush_req conn) as [conn' r] eqn:E. apply flush_req_same in E as (? & ? & ?).
  by destruct (is_ok r).
Qed.

Lemma clean_own f c c' evs :
  timer_inv (cs_timer c) -> recv_clean error_handle f c = Ret (c', evs) ->
  same_wire c c' /\ cs_seq c' = cs_seq c /\ cs_recv c' = RCheck f /\ Forall (own_failure error_handle) evs.
Proof using ClientTaskOk0.
  intros H. unfold recv_clean. destruct (clean_pending_tasks_eq error_handle (cs_timer c) H) as (tm & -> & _).
  cbn. intros [= <- <-]. repeat split. apply own_fail_with. by left.
Qed.

Lemma quiet_step op c c' evs :
  quiet op = true -> sound c -> step op c c' evs ->
  same_wire c c' /\ cs_seq c' = cs_seq c /\ recv_moves (cs_recv c) (cs_recv c') /\
  Forall (own_failure error_handle) evs.
Proof using ClientTaskOk0.
  intros Hq (n & l & hd & Hi) Hs. pose proof (si_timer _ _ _ _ Hi) as Ht. unfold recv_moves.
  destruct Hs; try done; try (by repeat split; [by left|constructor]).
  - unfold send_check in *. destruct (cs_closed st); simplify_eq; (repeat split; [by left|]); [|constructor].
    constructor; [apply own_io|constructor].
  - unfold send_register in *. destruct (reg_task t (cs_timer st)); simplify_eq.
    repeat split; [by left|constructor].
  - unfold send_failed in *. simplify_eq. repeat split; [by left|]. constructor; [apply own_io|constructor].
  - unfold stream_flush_req in *. destruct (flush_req (cs_conn st)) as [c [u|u]] eqn:E; simplify_eq;
      apply flush_req_same in E; (split; [exact E|]); (split; [done|]); (split; [by left|constructor]).
  - split; [exact (close_conn_same (cs_conn st))|]. split; [done|]. split; [by left|constructor].
  - unfold recv_head. destruct (cs_closed st).
    + destruct (check_pending_tasks_empty (cs_timer st)) as [tm e].
      destruct (e || _); (split; [done|]); (split; [done|]); (split; [cbn; eauto|constructor]).
    + split; [done|]. split; [done|]. split; [cbn; eauto|constructor].
  - match goal with E : time_reach _ _ = _ |- _ =>
      unfold time_reach in E; rewrite adjust_task_queue_eq in E by done; injection E as <- <- end.
    repeat split; [by left|]. apply own_fail_with. by right.
  - unfold recv_has_err. destruct (cs_has_err st); (split; [done|]); (split; [done|]); (split; [cbn; auto|constructor]).
  - destruct (clean_own _ _ _ _ Ht ltac:(eassumption)) as (Hw & Hsq & Hr & He). rewrite Hr.
    split; [done|]. split; [done|]. split; [auto|done].
  - unfold recv_check in *. destruct (0 <? _).
    + destruct (clean_own _ _ _ _ Ht ltac:(eassumption)) as (Hw & Hsq & Hr & He). rewrite Hr.
    split; [done|]. split; [done|]. split; [auto|done].
    + simplify_eq. repeat split; [auto|constructor].
Qed.

(** *** Writing *)

Lemma client_id_step op c c' evs : step op c c' evs -> cs_client_id c' = cs_client_id c.
Proof.
  intros Hs. destruct Hs; try done.
  - unfold send_check in *. by destruct (cs_closed st); simplify_eq.
  - unfold send_request, seq_update in *. cbn zeta in *.
    destruct (ReqHead_encode _ _ _) as [[buf [blob|e]]|]; cbn [may_bind] in *; [| |done];
      [destruct (write_req _ _ _ _) as [c [u|u]]|]; by simplify_eq.
  - unfold send_register in *. by destruct (reg_task t (cs_timer st)); simplify_eq.
  - unfold send_failed in *. by simplify_eq.
  - unfold stream_flush_req in *. by destruct (flush_req _) as [c [u|u]]; simplify_eq.
  - unfold send_ping_req, seq_update in *. destruct (cs_closed st); simplify_eq; [done|].
    destruct (ReqHead_encode_ping _ _ _); cbn in *; [|done].
    by destruct (write_req _ _ _ _) as [c [u|u]]; simplify_eq.
  - unfold recv_head. destruct (cs_closed st); [|done].
    destruct (check_pending_tasks_empty (cs_timer st)) as [tm e]. by destruct (e || _).
  - unfold recv_read in *. destruct (read_resp _ _ _ _ _) as [[[[c tm] e] r]|]; cbn in *; [|done].
    simplify_eq. by destruct r as [[[|]|]| |]; cbn; [|destruct open|..].
  - unfold recv_cancel in *. destruct (read_resp _ _ _ _ _) as [[[[c tm] e] r]|]; cbn in *; [|done].
    simplify_eq. by destruct r as [[[|]|]| |].
  - unfold recv_resume in *. destruct (read_resp_resume _ _ _ _ _) as [[[[c tm] e] r]|]; cbn in *; [|done].
    simplify_eq. by destruct r as [[[|]|]| |]; cbn; [|destruct open|..].
  - unfold recv_body in *. destruct (read_resp_body _ _ _ _ _ _) as [[[c tm] e] r]; cbn in *.
    simplify_eq. by destruct r as [[[|]|]| |]; cbn; [|destruct open|..].
  - unfold time_reach in *. by destruct (adjust_task_queue _ _); simplify_eq.
  - unfold recv_has_err. by destruct (cs_has_err st).
  - unfold recv_clean in *. by destruct (clean_pending_tasks _ _) as [[tm e]|]; cbn in *; simplify_eq.
  - unfold recv_check, recv_clean in *. destruct (0 <? _); [|by simplify_eq].
    by destruct (clean_pending_tasks _ _) as [[tm e]|]; cbn in *; simplify_eq.
Qed.

Context (cid : Z) (cid_ok : is_u64 cid).
Context (encode_req_appends : forall t : T,
  (exists msg, encodes_to t msg) \/ exists f, forall b, encode_req t b = (f b, Err tt)).

(** A step that writes the frames [wr]. *)
Definition writes (wr : list (up_item (T := T))) c c' : Prop :=
  ms_in (client_stream c') = ms_in (client_stream c) /\ tc_resp_buf (cs_conn c') = tc_resp_buf (cs_conn c) /\
  cs_recv c' = cs_recv c /\ ms_out (client_stream c') = ms_out (client_stream c) ++ concat (map (up_frame cid) wr).

(** A message the wire can carry, or a task that is refused. *)
Lemma encode_cases buf t :
  is_u64 (task_seq t) -> action_sendable (get_action t) ->
  (exists b, ReqHead_encode buf cid t = Ret (b, Err tt)) \/
  exists msg, encodes_to t msg /\ req_sendable cid t msg.
Proof using cid_ok encode_req_appends.
  intros Hs Ha. destruct (encode_req_appends t) as [(msg & Hm)|(f & Hf)].
  - destruct (Z.leb_spec (zlen msg) U32_MAX) as [H1|H1]; [destruct (Z.leb_spec (blob_size (get_req_blob t)) I32_MAX)|].
    + right. by exists msg.
    + left. eapply ReqHead_encode_err; [exact Hm|auto].
    + left. eapply ReqHead_encode_err; [exact Hm|eauto].
  - left. eapply ReqHead_encode_err; [exact Hf|auto].
Qed.

Lemma request_writes t nf c c' :
  cs_client_id c = cid -> 0 <= cs_seq c -> cs_seq c + 1 < 2 ^ 64 -> action_sendable (get_action (set_seq t (cs_seq c))) ->
  send_request t nf c = Ret c' ->
  cs_seq c' = cs_seq c + 1 /\
  ((writes [] c c' /\ forall t', cs_sender c' <> SReg t') \/
   exists msg, let t' := set_seq t (cs_seq c) in encodes_to t' msg /\ up_fits cid (UpTask t' msg) /\
     writes [UpTask t' msg] c c' /\ cs_sender c' = SReg t').
Proof using cid_ok encode_req_appends ClientTaskOk0.
  intros Hc H0 Hsq Ha. unfold send_request, seq_update. cbn zeta. cbn [upd_seq cs_encode_buf cs_client_id].
  rewrite Hc. assert (Hinc : u64_incr (cs_seq c) = cs_seq c + 1) by (unfold u64_incr, as_u64; apply Z.mod_small; lia).
  set (t' := set_seq t (cs_seq c)) in *.
  assert (Hu : is_u64 (task_seq t')) by (unfold t'; rewrite task_seq_set_seq; unfold is_u64; lia).
  destruct (encode_cases (cs_encode_buf c) t' Hu Ha) as [(b & E)|(msg & Hm & Hf)].
  { rewrite E. cbn [may_bind]. intros [= <-]. split; [done|]. left. unfold writes; cbn. by rewrite app_nil_r. }
  destruct (ms_open (client_stream c)) eqn:Eo.
  - destruct (send_frame cid t' msg (cs_encode_buf c) nf (cs_conn c) Hm Hf)
      as (buf & blob & conn & E & W & Hw & Hin & _); [exact Eo|].
    rewrite E. cbn [may_bind]. cbn [cs_conn upd_buf upd_seq]. rewrite W. intros [= <-]. split; [done|]. right.
    exists msg. split; [done|]. split; [done|]. split; [|done]. unfold writes, client_stream in *. cbn in *.
    rewrite app_nil_r. split; [done|]. split; [|done]. unfold write_req in W. cbn in W. rewrite Eo in W.
    destruct blob; cbn in W; destruct nf; cbn in W; by simplify_eq.
  - match goal with |- context [ReqHead_encode ?b ?i ?x] => destruct (ReqHead_encode b i x) as [[buf [blob|e]]|] end;
      cbn [may_bind]; [| |done].
    + unfold write_req. cbn. unfold client_stream in Eo. rewrite Eo. intros [= <-]. split; [done|]. left.
      unfold writes, client_stream; cbn. by rewrite app_nil_r.
    + intros [= <-]. split; [done|]. left. unfold writes; cbn. by rewrite app_nil_r.
Qed.

Lemma ping_writes c c' r :
  cs_client_id c = cid -> 0 <= cs_seq c -> cs_seq c + 1 < 2 ^ 64 -> send_ping_req c = Ret (c', r) ->
  cs_seq c <= cs_seq c' /\ cs_sender c' = cs_sender c /\
  (writes [] c c' \/ (writes [UpPing (cs_seq c)] c c' /\ cs_seq c < cs_seq c')).
Proof.
  intros Hc H0 Hsq. unfold send_ping_req, seq_update.
  destruct (cs_closed c).
  { intros [= <- <-]. split; [done|]. split; [done|]. left. unfold writes; cbn. by rewrite app_nil_r. }
  assert (Hinc : u64_incr (cs_seq c) = cs_seq c + 1) by (unfold u64_incr, as_u64; apply Z.mod_small; lia).
  cbn zeta. cbn [upd_seq cs_encode_buf cs_client_id]. rewrite Hc, (encode_ping_frame (T := T)). cbn [may_bind].
  unfold write_req. cbn [upd_buf upd_seq cs_conn write_all mem_stream_ops].
  fold (client_stream c). destruct (ms_open (client_stream c)) eqn:Eo; cbn.
  - intros [= <- <-]. cbn. split; [lia|]. split; [done|]. right. split; [|lia].
    unfold writes, client_stream. cbn [map concat]. by rewrite app_nil_r.
  - intros [= <- <-]. cbn. split; [lia|]. split; [done|]. left. unfold writes, client_stream; cbn. by rewrite app_nil_r.
Qed.

(** *** Reading *)

Context (reserve_exact : forall (t t' : T) n m, 0 < n -> reserve_resp_blob t n = (t', Some m) -> m = n).
Context (alloc_i32 : forall n, 0 < n <= I32_MAX -> buffer_alloc n = true).

(** The responses that are [good] ([Wire.good_for]). *)
Context (good : event T -> Prop).

(** The responses [pend] are on their way to the client, their last bytes [x]
    not there yet; the head of the first one may have been read, or a body that
    comes before them may be half-way. *)
Definition down_ok (x : bytes) (pend : list down_item) c : Prop :=
  match cs_recv c with
  | RLoop | RReading _ => ms_in (client_stream c) ++ x = down_bytes pend
  | RWaiting _ h => exists i pend', pend = i :: pend' /\ h = outcome_head i.1 i.2 /\
      zlen (tc_resp_buf (cs_conn c)) = rs_msg_len h /\
      ms_in (client_stream c) ++ x = outcome_body i.2 ++ down_bytes pend'
  | RInBody _ h pc => in_body buffer_alloc error_handle good x pend h pc (cs_conn c)
  | _ => True
  end.

Lemma down_bytes_snoc pend i : down_bytes (pend ++ [i]) = down_bytes pend ++ down_frame i.
Proof. unfold down_bytes. rewrite map_app, concat_app. cbn. by rewrite app_nil_r. Qed.

Lemma down_ok_write x pend i c : down_ok x pend c -> down_ok (x ++ down_frame i) (pend ++ [i]) c.
Proof.
  unfold down_ok. destruct (cs_recv c) as [|open|open h|open h pc| | |]; try done;
    try (intros E; by rewrite down_bytes_snoc, app_assoc, E).
  - intros (i0 & pend' & -> & Hh & Hl & E). exists i0, (pend' ++ [i]). split; [done|]. split; [done|]. split; [done|].
    by rewrite down_bytes_snoc, !app_assoc, E.
  - intros H. by eapply in_body_arrive.
Qed.

Lemma down_ok_writes x pend items c : down_ok x pend c -> down_ok (x ++ down_bytes items) (pend ++ items) c.
Proof.
  revert x pend. induction items as [|i items IH]; intros x pend H.
  { unfold down_bytes; cbn. by rewrite !app_nil_r. }
  change (down_bytes (i :: items)) with (down_frame i ++ down_bytes items).
  change (i :: items) with ([i] ++ items). rewrite !app_assoc. by apply IH, down_ok_write.
Qed.

(** Where the client reads from. *)
Lemma view_eq x (conn conn' : TcpClient mem_stream) :
  ms_in (tc_stream conn') = ms_in (tc_stream conn) -> tc_resp_buf conn' = tc_resp_buf conn -> view x conn' = view x conn.
Proof. unfold view. by intros -> ->. Qed.

(** More bytes arrive, or leave, on the way. *)
Lemma down_ok_ext x pend c c' :
  cs_recv c' = cs_recv c -> ms_in (client_stream c') = ms_in (client_stream c) ->
  tc_resp_buf (cs_conn c') = tc_resp_buf (cs_conn c) -> down_ok x pend c -> down_ok x pend c'.
Proof. intros Hr Hi Hb. unfold down_ok, in_body. by rewrite (view_eq x _ _ Hi Hb), Hr, Hi, Hb. Qed.

Lemma down_ok_quiet x pend c c' :
  recv_moves (cs_recv c) (cs_recv c') -> same_wire c c' -> down_ok x pend c -> down_ok x pend c'.
Proof.
  intros [Hr|[[Hr [open Hr']]|Hr]] (Hi & _ & Hb) H.
  - by eapply down_ok_ext.
  - unfold down_ok in *. rewrite Hr in H. by rewrite Hr', Hi.
  - unfold down_ok. by destruct (cs_recv c').
Qed.

Lemma down_ok_arrive n x pend c :
  down_ok x pend c -> down_ok (drop n x) pend (on_client (feed (take n x)) c).
Proof.
  unfold down_ok, in_body. change (cs_recv (on_client (feed (take n x)) c)) with (cs_recv c).
  replace (view (drop n x) (cs_conn (on_client (feed (take n x)) c))) with (view x (cs_conn c))
    by (unfold view; cbn; by rewrite <- app_assoc, take_drop).
  unfold on_client, client_stream; cbn. by destruct (cs_recv c); rewrite <- ?app_assoc, ?take_drop.
Qed.

Lemma get_resp_buf_out n (conn conn' : TcpClient mem_stream) :
  get_resp_buf n conn = Ret conn' -> tc_stream conn' = tc_stream conn.
Proof. unfold get_resp_buf. by destruct (ISIZE_MAX <? n); intros [= <-]. Qed.

Lemma read_resp_buf_out (conn conn' : TcpClient mem_stream) r :
  read_resp_buf conn = (conn', r) -> ms_out (tc_stream conn') = ms_out (tc_stream conn).
Proof.
  unfold read_resp_buf. destruct (read_exact (tc_stream conn) _) as [s [b|e]] eqn:E;
    apply read_exact_out in E as [E _]; by intros [= <- _].
Qed.

Lemma finish_task_out h t (conn conn' : TcpClient mem_stream) evs r :
  finish_task error_handle h t conn = (conn', evs, r) -> conn' = conn.
Proof. unfold finish_task. destruct (0 <? _); [destruct (decode_resp _ _)|]; by intros [= <- _ _]. Qed.

Lemma recv_resp_blob_out h t (conn conn' : TcpClient mem_stream) evs r :
  recv_resp_blob buffer_alloc error_handle h t conn = (conn', evs, r) -> conn' = conn.
Proof.
  unfold recv_resp_blob. cbn zeta. destruct (0 <? rs_blob_len h); [|apply finish_task_out].
  destruct (reserve_resp_blob t _) as [t' [n|]]; by intros [= <- _ _].
Qed.

(** A read writes nothing. *)
Lemma recv_resp_taken_out h o (conn conn' : TcpClient mem_stream) evs r :
  recv_resp_taken buffer_alloc error_handle h o conn = Ret (conn', evs, r) ->
  ms_out (tc_stream conn') = ms_out (tc_stream conn).
Proof.
  unfold recv_resp_taken. destruct o as [t|].
  - destruct (0 <? rs_flag h).
    + unfold recv_error. destruct (rs_flag h =? 1); [by intros [= <- _ _]|].
      destruct (rs_flag h =? 2); [|done].
      destruct (get_resp_buf _ conn) as [c1|] eqn:Eg; cbn [may_bind]; [|done]. apply get_resp_buf_out in Eg.
      intros [= <- _ _]. by rewrite Eg.
    + destruct (0 <? rs_msg_len h); [by intros [= <- _ _]|]. intros [= E]. by apply recv_resp_blob_out in E as ->.
  - cbn zeta. destruct (0 <? _); by intros [= <- _ _].
Qed.

Lemma recv_resp_poll_out h pc (conn conn' : TcpClient mem_stream) evs r :
  recv_resp_poll buffer_alloc error_handle h pc conn = (conn', evs, r) ->
  ms_out (tc_stream conn') = ms_out (tc_stream conn).
Proof.
  destruct pc as [t|t n|t|g l]; cbn [recv_resp_poll]; [|destruct (read_exact (tc_stream conn) n) as [s [b|e]] eqn:E| |].
  - destruct (read_resp_buf conn) as [c1 [u|e]] eqn:E; apply read_resp_buf_out in E; [|by intros [= <- _ _]].
    by intros ->%recv_resp_blob_out.
  - apply read_exact_out in E as [E _]. by intros ->%finish_task_out.
  - apply read_exact_out in E as [E _]. by intros [= <- _ _].
  - unfold recv_error_string. destruct (read_resp_buf conn) as [c1 [u|e]] eqn:E; apply read_resp_buf_out in E;
      [cbn zeta; destruct (if starts_with _ _ then _ else _)|]; by intros [= <- _ _].
  - destruct (read_exact (tc_stream conn) _) as [s [b|e]] eqn:E; apply read_exact_out in E as [E _]; by intros [= <- _ _].
Qed.

Lemma read_finish_out h (conn0 conn : TcpClient mem_stream) (e0 evs : list (event T)) s0 (tm tm' : ClientTaskTimer T) r :
  read_resp_finish h (conn0, e0, s0) tm = (conn, tm', evs, r) -> conn = conn0.
Proof. destruct s0 as [[u|u]|pc]; cbn; by intros [= <- _ _ _]. Qed.

Lemma read_taken_out h o (conn conn' : TcpClient mem_stream) tm tm' evs r :
  (let? x := recv_resp_taken buffer_alloc error_handle h o conn in Ret (read_resp_finish h x tm)) =
    Ret (conn', tm', evs, r) -> ms_out (tc_stream conn') = ms_out (tc_stream conn).
Proof.
  destruct (recv_resp_taken buffer_alloc error_handle h o conn) as [[[c1 e1] q]|] eqn:E; cbn [may_bind]; [|done].
  apply recv_resp_taken_out in E. intros [= H]. by apply read_finish_out in H as ->.
Qed.

Lemma read_resp_out cancel (conn conn' : TcpClient mem_stream) tm tm' evs r :
  read_resp buffer_alloc error_handle cancel conn tm = Ret (conn', tm', evs, r) ->
  ms_out (tc_stream conn') = ms_out (tc_stream conn).
Proof.
  unfold read_resp. destruct cancel as [k|].
  { intros [= <- _ _ _]. cbn. by destruct (k <=? zlen (ms_in (tc_stream conn))). }
  destruct (read_exact (tc_stream conn) RPC_RESP_HEADER_LEN) as [s [hb|e]] eqn:E; apply read_exact_out in E as [E _];
    [|by intros [= <- _ _ _]]. cbn zeta.
  destruct (RespHead_decode_head hb) as [[h|e]|]; cbn [may_bind]; [|by intros [= <- _ _ _]|done].
  unfold recv_resp_body. destruct (get_resp_buf _ _) as [c1|] eqn:Eg; cbn [may_bind]; [|done].
  apply get_resp_buf_out in Eg. cbn in Eg. rewrite <- E, <- Eg.
  destruct (take_task (rs_seq h) tm) as [t1 [o|]]; [apply read_taken_out|by intros [= <- _ _ _]].
Qed.

Lemma read_resume_out h (conn conn' : TcpClient mem_stream) tm tm' evs r :
  read_resp_resume buffer_alloc error_handle h conn tm = Ret (conn', tm', evs, r) ->
  ms_out (tc_stream conn') = ms_out (tc_stream conn).
Proof.
  unfold read_resp_resume. destruct (take_task_resume (rs_seq h) tm) as [t1 [o|]];
    [apply read_taken_out|by intros [= <- _ _ _]].
Qed.

Lemma read_body_out h pc (conn conn' : TcpClient mem_stream) tm tm' evs r :
  read_resp_body buffer_alloc error_handle h pc conn tm = (conn', tm', evs, r) ->
  ms_out (tc_stream conn') = ms_out (tc_stream conn).
Proof.
  unfold read_resp_body. destruct (recv_resp_poll buffer_alloc error_handle h pc conn) as [[c1 e1] q] eqn:E.
  apply recv_resp_poll_out in E. by intros ->%read_finish_out.
Qed.

(** What a read leaves, once the receiver has looked at the result. *)
Lemma left_over_ok x pend open r c tm (conn : TcpClient mem_stream) :
  left_over buffer_alloc error_handle good x pend tm conn r ->
  exists taken pend', pend = taken ++ pend' /\ done_with tm taken /\
    down_ok x pend' (recv_result open r (upd_timer tm (upd_conn conn c))).
Proof.
  unfold left_over, down_ok. destruct r as [[b|e]|h|h pc].
  - intros (taken & pend' & -> & E & Hd). exists taken, pend'. split; [done|]. split; [done|].
    by destruct b; [|destruct open].
  - intros _. exists [], pend. split; [done|]. by split; [apply done_with_nil|].
  - intros H. exists [], pend. split; [done|]. by split; [apply done_with_nil|].
  - intros (taken & pend' & -> & E & Hd). exists taken, pend'. split; [done|]. by split.
Qed.

Lemma recv_result_rest open r c : client_stream (recv_result open r c) = client_stream c /\
  cs_seq (recv_result open r c) = cs_seq c /\ cs_timer (recv_result open r c) = cs_timer c.
Proof. by destruct r as [[[|]|]| |]; cbn; [|destruct open|..]. Qed.

(** The steps that read, seen from the read. *)
Lemma read_result x pend c open r (conn : TcpClient mem_stream) tm evs :
  ms_out (tc_stream conn) = ms_out (client_stream c) ->
  events_from error_handle good evs /\ left_over buffer_alloc error_handle good x pend tm conn r ->
  let c' := recv_result open r (upd_timer tm (upd_conn conn c)) in
  ms_out (client_stream c') = ms_out (client_stream c) /\ cs_seq c' = cs_seq c /\
  events_from error_handle good evs /\
  exists taken pend', pend = taken ++ pend' /\ done_with (cs_timer c') taken /\ down_ok x pend' c'.
Proof.
  intros Ho [He Hl]. cbn zeta. destruct (recv_result_rest open r (upd_timer tm (upd_conn conn c))) as (-> & -> & ->).
  split; [done|]. split; [done|]. split; [done|]. by apply left_over_ok.
Qed.

Lemma read_step op x pend c c' evs :
  quiet op = false -> op <> SendRequest -> op <> Ping -> lossless op -> timer_inv (cs_timer c) -> step op c c' evs ->
  Forall down_fits pend -> good_for error_handle good pend (cs_timer c) -> down_ok x pend c ->
  ms_out (client_stream c') = ms_out (client_stream c) /\ cs_seq c' = cs_seq c /\
  events_from error_handle good evs /\
  exists taken pend', pend = taken ++ pend' /\ done_with (cs_timer c') taken /\ down_ok x pend' c'.
Proof using reserve_exact alloc_i32.
  intros Hq Hn1 Hn2 Hll Ht Hs Hf Hgood H. destruct Hs as [| | | | | | | | | | | |c open c' evs Hr E|c k c' evs Hr _ _ _ E
    |c open h c' evs Hr E|c open h pc c' evs Hr E| | | | |]; try done; unfold down_ok in H; rewrite Hr in H.
  - unfold recv_read in E. destruct (read_resp _ _ _ _ _) as [[[[conn tm] e] r]|] eqn:Er; cbn [may_bind] in E; [|done].
    injection E as <- <-. apply read_result; [by eapply read_resp_out|].
    eapply read_down; [exact reserve_exact|exact alloc_i32|by left|exact Er|done..].
  - unfold recv_cancel in E. cbn in Hll. subst k.
    destruct (read_resp _ _ _ _ _) as [[[[conn tm] e] r]|] eqn:Er; cbn [may_bind] in E; [|done].
    injection E as <- <-. apply read_result; [by eapply read_resp_out|].
    eapply read_down; [exact reserve_exact|exact alloc_i32|by right|exact Er|done..].
  - unfold recv_resume in E. destruct (read_resp_resume _ _ _ _ _) as [[[[conn tm] e] r]|] eqn:Er; cbn in E; [|done].
    injection E as <- <-. apply read_result; [by eapply read_resume_out|]. destruct H as (i & pend' & -> & -> & Hb & Hi).
    pose proof (Forall_inv Hf) as Hfi.
    eapply resume_down; [exact reserve_exact|exact alloc_i32|exact Er|done..].
  - unfold recv_body in E. destruct (read_resp_body _ _ _ _ _ _) as [[[conn tm] e] r] eqn:Er.
    injection E as <- <-. apply read_result; [by eapply read_body_out|]. by eapply body_down.
Qed.

(** *** A step of the client *)

(** The task whose request has not been written yet. *)
Definition unsent (p : sender_pc T) : list T :=
  match p with SAnnounced t _ | SSending t _ => [t] | _ => [] end.

Lemma unsent_step op c c' evs t :
  step op c c' evs -> t ∈ unsent (cs_sender c') -> t ∈ op_task op \/ t ∈ unsent (cs_sender c).
Proof.
  assert (Hno : forall p, unsent p = [] -> t ∈ unsent p -> False) by (intros p ->; apply not_elem_of_nil).
  intros Hs Ht. apply sender_next in Hs.
  destruct op; try (rewrite Hs in Ht; by right); try (destruct Hs as [_ Hs]; destruct (Hno _ (f_equal unsent Hs) Ht));
    try (destruct Hs as (? & _ & Hs); destruct (Hno _ (f_equal unsent Hs) Ht)).
  - destruct Hs as (_ & nf & Hs & _). rewrite Hs in Ht. by left.
  - destruct Hs as (t0 & nf & Hs & [Hs'|Hs']); rewrite Hs' in Ht; [by apply elem_of_nil in Ht|].
    right. by rewrite Hs.
  - destruct Hs as (t0 & nf & _ & [Hs'|(t' & [Hs'|Hs'])]); destruct (Hno _ (f_equal unsent Hs') Ht).
Qed.

Lemma sreg_step op c c' evs t :
  step op c c' evs -> op <> SendRequest -> cs_sender c' = SReg t -> cs_sender c = SReg t.
Proof.
  intros Hs Hn Ht. apply sender_next in Hs.
  destruct op; try done; try congruence; try (destruct Hs as [_ Hs]; congruence);
    try (destruct Hs as (? & _ & Hs); congruence).
  - destruct Hs as (_ & nf & Hs & _). congruence.
  - destruct Hs as (t0 & nf & Hs & [Hs'|Hs']); congruence.
Qed.

(** Whatever waits for a response was registered by the sender. *)
Lemma live_step op c c' evs k t :
  sound c -> step op c c' evs -> (k, t) ∈ live (cs_timer c') ->
  (k, t) ∈ live (cs_timer c) \/ (cs_sender c = SReg t /\ k = task_seq t).
Proof using error_handle_task ClientTaskOk0.
  intros Hc Hs Hin.
  destruct (sound_step buffer_alloc error_handle error_handle_task _ _ _ _ Hc Hs) as (_ & Hi & Hv).
  assert (Hreg : op = SendRegister \/ op <> SendRegister) by (destruct op; auto).
  destruct Hreg as [-> |Hn].
  { inversion Hs as [| | | |? t0 ? Hr E| | | | | | | | | | | | | | | |]; subst. unfold send_register in E.
    destruct (reg_task t0 (cs_timer c)) as [tm|] eqn:Er; [|done]. injection E as <-. unfold reg_task in Er.
    case_match; [|done]. injection Er as <-. unfold live, received in *.
    cbn [sent_tasks delay_tasks_queue pending_tasks set_pending cs_timer upd_sender upd_timer] in Hin.
    rewrite keyed_app, !elem_of_app in *. cbn in Hin. rewrite list_elem_of_singleton in Hin.
    destruct Hin as [Hin|[Hin|[= -> ->]]]; [tauto..|]. by right. }
  left. destruct Hv as [op tm tm' evs kept _ Es Ed Ep _ _|op tm t' tm' evs kept Ho Er|op tm evs kept _
    |op k' tm tm' r evs kept _ _ Et Hr|tm kept|op tm tm' kept _ _ _ El].
  - unfold live, received in *. by rewrite Es, Ed, Ep in Hin.
  - done.
  - by rewrite recv_pending_live in Hin.
  - destruct (take_task_split _ _ _ _ Hi Et) as [[-> _]|[Hl _]]; [done|]. rewrite Hl in Hin.
    apply list_elem_of_In in Hin. apply list_elem_of_In. unfold bt_without in Hin. by apply filter_In in Hin as [? _].
  - rewrite live_ticked, elem_of_app. by right.
  - rewrite El in Hin. by apply elem_of_nil in Hin.
Qed.

(** The timer never goes back. *)
Lemma timer_monotone op c c' evs :
  sound c -> step op c c' evs ->
  newest (cs_timer c) <= newest (cs_timer c') /\
  (reg_stopped_flag (cs_timer c') = false -> reg_stopped_flag (cs_timer c) = false).
Proof using ClientTaskOk0 error_handle_task.
  intros (n & l & hd & Hi) Hs. pose proof (si_timer _ _ _ _ Hi) as Ht. pose proof (si_reg _ _ _ _ Hi) as Hreg.
  assert (Hrp : newest (recv_pending (cs_timer c)) = newest (cs_timer c) /\
    reg_stopped_flag (recv_pending (cs_timer c)) = reg_stopped_flag (cs_timer c)).
  { split; [by apply newest_recv|by rewrite (recv_pending_eq _ Ht)]. }
  assert (Htk : forall k tm o, take_task k (cs_timer c) = (tm, o) ->
    newest tm = newest (cs_timer c) /\ reg_stopped_flag tm = reg_stopped_flag (cs_timer c)).
  { intros k tm o E. pose proof (newest_take_task k _ Ht) as H1. pose proof (take_task_flag k (cs_timer c)) as H2.
    by rewrite E in H1, H2. }
  assert (Hcl : forall f c1 e, recv_clean error_handle f c = Ret (c1, e) ->
    newest (cs_timer c1) = newest (cs_timer c) /\ reg_stopped_flag (cs_timer c1) = reg_stopped_flag (cs_timer c)).
  { intros f c1 e. unfold recv_clean.
    destruct (clean_pending_tasks_eq error_handle (cs_timer c) Ht) as (tm & -> & _ & _ & _ & ? & ?). cbn. by intros [= <- _]. }
  destruct Hs as [| | | | | | | | | | | |st open st' evs _ E|st k st' evs _ _ _ _ E|st open h st' evs _ E
    |st open h pc st' evs _ E|st st' evs _ E| | |st f st' evs _ E|st f st' evs _ E];
    try (split; [reflexivity|done]).
  - unfold send_check in *. by destruct (cs_closed st); simplify_eq.
  - unfold send_request, seq_update in *. cbn zeta in *.
    destruct (ReqHead_encode _ _ _) as [[buf [blob|e]]|]; cbn in *; [| |done];
      [destruct (write_req _ _ _ _) as [c [u|u]]|]; by simplify_eq.
  - unfold send_register in *. destruct (reg_task t (cs_timer st)) as [tm|] eqn:E; simplify_eq.
    unfold reg_task in E. case_match; simplify_eq. unfold sender_seq_ok in Hreg. rewrite H in Hreg.
    split; [|done]. unfold newest at 2. cbn [cs_timer upd_sender upd_timer pending_tasks set_pending processed_seq].
    rewrite last_seq_app. lia.
  - unfold send_failed in *. by simplify_eq.
  - unfold stream_flush_req in *. by destruct (flush_req _) as [c [u|u]]; simplify_eq.
  - unfold send_ping_req, seq_update in *. destruct (cs_closed st); simplify_eq; [done|].
    destruct (ReqHead_encode_ping _ _ _); cbn in *; [|done].
    by destruct (write_req _ _ _ _) as [c [u|u]]; simplify_eq.
  - unfold recv_head. destruct (cs_closed st); [|done]. pose proof (check_pending_state (cs_timer st)) as E.
    destruct (check_pending_tasks_empty (cs_timer st)) as [tm e]. cbn in E. subst tm. cbn zeta.
    destruct Hrp as [H1 H2]. destruct (e || _); cbn; rewrite H1, H2; done.
  - unfold recv_read in E. destruct (read_resp _ _ _ _ _) as [[[[c tm] e] r]|] eqn:Er; cbn in E; [|done].
    injection E as <- <-. rewrite (proj1 (recv_result_timer _ _ _)). cbn.
    apply read_resp_timer in Er as [(-> & _)|(k & o & E & _)]; [done|]. apply Htk in E as [-> ->]. done.
  - unfold recv_cancel in E. destruct (read_resp _ _ _ _ _) as [[[[c tm] e] r]|] eqn:Er; cbn [may_bind] in E; [|done].
    apply read_resp_timer in Er. injection E as <- <-. rewrite (proj1 (recv_result_timer _ _ _)). cbn.
    destruct Er as [(-> & _)|(k' & o & E & _)]; [done|]. apply Htk in E as [-> ->]. done.
  - unfold recv_resume in E. destruct (read_resp_resume _ _ _ _ _) as [[[[c tm] e] r]|] eqn:Er; cbn in E; [|done].
    injection E as <- <-. rewrite (proj1 (recv_result_timer _ _ _)). cbn.
    apply read_resume_timer in Er as (k & o & E & _); [|done]. apply Htk in E as [-> ->]. done.
  - unfold recv_body in E. destruct (read_resp_body _ _ _ _ _ _) as [[[c tm] e] r] eqn:Er.
    apply read_body_timer in Er as (-> & _). injection E as <- <-. by rewrite (proj1 (recv_result_timer _ _ _)).
  - unfold time_reach in E. rewrite adjust_task_queue_eq in E by done. by injection E as <- <-.
  - destruct Hrp as [H1 H2]. cbn. unfold poll_sent_task. cbn. rewrite H1, H2. done.
  - unfold recv_has_err. by destruct (cs_has_err st).
  - apply Hcl in E as [-> ->]. done.
  - unfold recv_check in E. destruct (0 <? _); [apply Hcl in E as [-> ->]; done|]. by injection E as <- <-.
Qed.

(** What is past stays past. *)
Lemma past_step op c c' evs k :
  sound c -> step op c c' evs -> past k (cs_timer c) -> past k (cs_timer c').
Proof using ClientTaskOk0 error_handle_task.
  intros Hc Hs [Hn Hl]. destruct (timer_monotone _ _ _ _ Hc Hs) as [Hm _]. split; [lia|].
  destruct (sound_step _ _ error_handle_task _ _ _ _ Hc Hs) as ((? & ? & ? & Hi') & _ & _).
  destruct (bt_lookup k (live (cs_timer c'))) as [t|] eqn:E; [|done]. exfalso.
  apply bt_lookup_in in E. destruct (live_step _ _ _ _ _ _ Hc Hs E) as [Hin|[Hr ->]].
  - apply bt_in_keys in Hin. by apply bt_lookup_None in Hl.
  - destruct Hc as (n & l & hd & Hi). pose proof (si_reg _ _ _ _ Hi) as Hreg. unfold sender_seq_ok in Hreg.
    rewrite Hr in Hreg. lia.
Qed.

(** What a step adds to the requests on their way. *)
Definition adds (wr : list (up_item (T := T))) c c' : Prop :=
  Forall (up_fits cid) wr /\
  (forall t msg, UpTask t msg ∈ wr -> encodes_to t msg /\ exists t0, t0 ∈ unsent (cs_sender c) /\ t = set_seq t0 (cs_seq c)) /\
  (forall t, cs_sender c' = SReg t -> cs_sender c = SReg t \/ exists msg, UpTask t msg ∈ wr) /\
  ((wr = [] /\ cs_seq c <= cs_seq c') \/ exists i, wr = [i] /\ up_seq i = cs_seq c /\ cs_seq c < cs_seq c') /\
  ms_out (client_stream c') = ms_out (client_stream c) ++ concat (map (up_frame cid) wr).

Lemma adds_nothing op c c' evs :
  step op c c' evs -> op <> SendRequest -> cs_seq c' = cs_seq c ->
  ms_out (client_stream c') = ms_out (client_stream c) -> adds [] c c'.
Proof.
  intros Hs Hn Hsq Hw. split; [done|]. split; [by intros ? ? ?%elem_of_nil|]. split.
  - intros t Ht. left. by eapply sreg_step.
  - split; [left; split; [done|lia]|by rewrite app_nil_r].
Qed.

Lemma client_effect op c c' evs x pend :
  sound c -> cs_client_id c = cid ->
  (forall t, t ∈ unsent (cs_sender c) -> action_sendable (get_action (set_seq t (cs_seq c)))) ->
  step op c c' evs -> lossless op -> Forall down_fits pend -> good_for error_handle good pend (cs_timer c) ->
  down_ok x pend c ->
  (exists wr, adds wr c c') /\ events_from error_handle good evs /\
  exists taken pend', pend = taken ++ pend' /\ done_with (cs_timer c') taken /\ down_ok x pend' c'.
Proof using ClientTaskOk0 cid_ok encode_req_appends reserve_exact alloc_i32.
  intros Hc Hcid Ha Hs Hll Hf Hgood H. destruct Hc as (n & l & hd & Hi).
  assert (H0 : 0 <= cs_seq c).
  { pose proof (si_seq _ _ _ _ Hi). pose proof (newest_max _ (si_timer _ _ _ _ Hi)) as [? _].
    pose proof (inv_min _ (si_timer _ _ _ _ Hi)). lia. }
  destruct (quiet op) eqn:Hq.
  { destruct (quiet_step op c c' evs Hq (ex_intro _ n (ex_intro _ l (ex_intro _ hd Hi))) Hs) as (Hw & Hsq & Hr & He).
    split; [exists []; eapply adds_nothing; [exact Hs|by destruct op|done|apply Hw]|]. split.
    - unfold events_from. eapply Forall_impl; [exact He|]. auto.
    - exists [], pend. split; [done|]. split; [apply done_with_nil|]. by eapply down_ok_quiet. }
  assert (Hread : (op <> SendRequest /\ op <> Ping) \/ op = SendRequest \/ op = Ping)
    by (destruct op; auto; left; by split).
  assert (Hk : forall wr, writes wr c c' ->
    exists taken pend', pend = taken ++ pend' /\ done_with (cs_timer c') taken /\ down_ok x pend' c').
  { intros wr (Hi' & Hb & Hr & _). exists [], pend. split; [done|]. split; [apply done_with_nil|].
    by eapply down_ok_ext. }
  destruct Hread as [[Hop1 Hop2]|[-> | ->]].
  - destruct (read_step op x pend c c' evs) as (Hw & Hsq & He & Hl); [try done; apply Hi..|].
    split; [exists []; by eapply adds_nothing|done].
  - inversion Hs as [| | |? t nf ? Hsd Hlt E| | | | | | | | | | | | | | | | |]; subst.
    destruct (request_writes t nf c c' Hcid H0 Hlt) as (Hsq & [[Hw Hn]|(msg & Hm & Hfit & Hw & Hsd')]).
    + apply Ha. rewrite Hsd. by left.
    + exact E.
    + split; [|split; [constructor|by eapply Hk]]. exists []. split; [done|].
      split; [by intros ? ? ?%elem_of_nil|]. split; [by intros t0 ?%Hn|]. split; [left; split; [done|lia]|apply Hw].
    + split; [|split; [constructor|by eapply Hk]]. exists [UpTask (set_seq t (cs_seq c)) msg].
      split; [by constructor|]. split.
      * intros t0 msg0 [= -> ->]%list_elem_of_singleton. split; [done|]. exists t. split; [|done].
        rewrite Hsd. by left.
      * split; [|split; [|apply Hw]].
        -- intros t0 Ht. right. exists msg. rewrite Hsd' in Ht. injection Ht as <-. by left.
        -- right. eexists. split; [done|]. cbn. rewrite task_seq_set_seq. lia.
  - inversion Hs as [| | | | | | | |? ? r Hsd Hlt E| | | | | | | | | | | |]; subst.
    destruct (ping_writes c c' r Hcid H0 Hlt E) as (Hsq & Hsd' & [Hw|[Hw Hlt']]);
      (split; [|split; [constructor|by eapply Hk]]).
    + exists []. split; [done|]. split; [by intros ? ? ?%elem_of_nil|]. split; [intros t Ht; left; congruence|].
      split; [by left|apply Hw].
    + exists [UpPing (cs_seq c)]. split; [constructor; [|done]; cbn; unfold is_u64; lia|].
      split; [by intros ? ? ?%list_elem_of_singleton|]. split; [intros t Ht; left; congruence|].
      split; [right; by eexists|apply Hw].
Qed.

End client.

Lemma down_ok_mono {T : Type} `{!ClientTask T} (buffer_alloc : Z -> bool) (error_handle : T -> event T)
    (good good' : event T -> Prop) x pend (c : ClientStream mem_stream T) :
  (forall ev, good ev -> good' ev) ->
  down_ok buffer_alloc error_handle good x pend c -> down_ok buffer_alloc error_handle good' x pend c.
Proof.
  intros Hg. unfold down_ok. destruct (cs_recv c); try done. intros (evs & H & He). exists evs. split; [done|].
  by eapply Forall_impl.
Qed.

(** ** The server *)
Section server.
Context {R : Type} `{!ServerTaskEncode R} {T : Type} `{!ClientTask T}.
Context (buffer_alloc : Z -> bool) (dispatch : RpcSvrReq -> may (dispatched R)).
Context (cid : Z) (cid_ok : is_u64 cid).
Context (alloc_i32 : forall n, 0 < n <= I32_MAX -> buffer_alloc n = true).
Implicit Types s : ServerConn mem_stream R.
Abbreviation step := (server_step (S := mem_stream) buffer_alloc dispatch).

(** What the message [m] of the response channel puts on the wire. *)
Definition msg_says (m : noti_msg R) (i : down_item) : Prop :=
  match m with
  | Ok r => resp_outcome r i.1 i.2
  | Err (seq, err) =>
    i = (seq, match err with None => Ok ([], None) | Some e => Err (ERpc e) end)
  end.

Lemma msg_says_frame m i : msg_says m i -> down_fits i -> msg_frame m (down_frame i).
Proof.
  intros Hm [_ Hf]. destruct m as [r|[seq err]]; cbn in Hm.
  - exists i.1, i.2. split; [done|]. split; [by apply outcome_fits_sendable|done].
  - subst i. by destruct err.
Qed.

(** The requests [pend] are on their way to the server, their last bytes [x]
    not there yet, as long as it reads. *)
Definition up_ok (x : bytes) (pend : list (up_item (T := T))) s : Prop :=
  sc_reading s = true -> ms_in (stream_of s) ++ x = concat (map (up_frame cid) pend).

Lemma up_ok_write x pend wr s : up_ok x pend s -> up_ok (x ++ concat (map (up_frame cid) wr)) (pend ++ wr) s.
Proof. intros H Hr. by rewrite map_app, concat_app, app_assoc, (H Hr). Qed.

Lemma up_ok_ext x pend s s' :
  (sc_reading s' = true -> sc_reading s = true) -> ms_in (stream_of s') = ms_in (stream_of s) ->
  up_ok x pend s -> up_ok x pend s'.
Proof. intros Hr Hi H Hr'. rewrite Hi. auto. Qed.

Lemma up_ok_arrive n x pend s : up_ok x pend s -> up_ok (drop n x) pend (on_server (feed (take n x)) s).
Proof. intros H Hr. cbn in *. rewrite <- app_assoc, take_drop. by apply H. Qed.

(** *** Where messages come from *)

Lemma noti_done_sub open (r : R) q m : m ∈ noti_done open r q -> m ∈ q \/ m = Ok r.
Proof. unfold noti_done. destruct open; [|by left]. rewrite elem_of_app, list_elem_of_singleton. tauto. Qed.

Lemma send_now_sub rs s m : m ∈ sc_queue (send_now rs s) -> m ∈ sc_queue s \/ m ∈ map Ok rs.
Proof.
  rewrite send_now_eq. destruct (writer_open s); [|by left]. cbn. by rewrite elem_of_app.
Qed.

Lemma send_now_keeps rs s : sc_conn (send_now rs s) = sc_conn s /\ sc_jobs (send_now rs s) = sc_jobs s /\
  sc_reading (send_now rs s) = sc_reading s.
Proof. done. Qed.

Lemma send_quick_sub seq err s m :
  m ∈ sc_queue (send_quick_resp seq err s) -> m ∈ sc_queue s \/ m = Err (seq, err).
Proof.
  unfold send_quick_resp, noti_send_err. destruct (writer_open s); cbn; [|by left].
  rewrite elem_of_app, list_elem_of_singleton. tauto.
Qed.

Lemma send_quick_keeps seq err s :
  sc_jobs (send_quick_resp seq err s) = sc_jobs s /\
  (sc_reading (send_quick_resp seq err s) = true -> sc_reading s = true).
Proof. unfold send_quick_resp, noti_send_err. by destruct (writer_open s). Qed.

Lemma reader_sub cancelled s s' o m :
  reader_step buffer_alloc dispatch cancelled s = Ret (s', o) -> m ∈ outstanding s' ->
  m ∈ outstanding s \/ m ∈ concat (map (answers dispatch) (option_list o)).
Proof.
  unfold reader_step. destruct (read_req buffer_alloc cancelled (sc_conn s)) as [[c r]|]; cbn [may_bind]; [|done].
  destruct r as [req|e]; [|intros [= <- <-]; by left]. cbn zeta.
  assert (Ha : forall l, l = answers dispatch req -> m ∈ l ->
    m ∈ outstanding s \/ m ∈ concat (map (answers dispatch) (option_list (Some req)))).
  { intros l -> Hm. right. cbn. by rewrite app_nil_r. }
  unfold answers in Ha at 1. unfold outstanding. destruct (is_ping req).
  { intros [= <- <-] Hm. rewrite (proj1 (send_quick_keeps _ _ _)) in Hm.
    apply elem_of_app in Hm as [Hm|Hm]; [|left; apply elem_of_app; by right].
    apply send_quick_sub in Hm as [Hm| ->]; [left; apply elem_of_app; by left|]. eapply Ha; [done|by left]. }
  destruct (dispatch req) as [d|]; cbn [may_bind]; [|done].
  assert (Hd : forall st : ServerConn mem_stream R, sc_queue st = sc_queue (send_now (dp_now d) (upd_srv_conn c s)) ->
    sc_jobs st = sc_jobs s ++ dp_later d -> m ∈ sc_queue st ++ map Ok (sc_jobs st) ->
    m ∈ outstanding s \/ m ∈ map Ok (dp_now d ++ dp_later d)).
  { intros st -> ->. unfold outstanding. rewrite map_app, !map_app, !elem_of_app.
    intros [Hm%send_now_sub|Hm]; cbn in *; tauto. }
  destruct (dp_res d) as [u|u]; intros [= <- <-] Hm.
  - apply Hd in Hm; [|done..]. destruct Hm as [Hm|Hm]; [by left|]. eapply Ha; [done|]. apply elem_of_app. by left.
  - rewrite (proj1 (send_quick_keeps _ _ _)) in Hm. apply elem_of_app in Hm.
    assert (Hm' : m = Err (sq_seq req, Some Decode) \/
      m ∈ outstanding (upd_jobs (sc_jobs s ++ dp_later d) (send_now (dp_now d) (upd_srv_conn c s)))).
    { unfold outstanding. rewrite elem_of_app. destruct Hm as [Hm%send_quick_sub|Hm]; cbn in *; tauto. }
    destruct Hm' as [-> |Hm']; [eapply Ha; [done|]; apply elem_of_app; right; by left|].
    apply Hd in Hm'; [|done..]. destruct Hm' as [Hm'|Hm']; [by left|]. eapply Ha; [done|]. apply elem_of_app. by left.
Qed.

Lemma job_sub i s s' m : job_step i s = Some s' -> m ∈ outstanding s' -> m ∈ outstanding s.
Proof.
  unfold job_step. destruct (sc_jobs s !! i) as [r|] eqn:Ei; [|done]. intros [= <-]. unfold outstanding. cbn.
  rewrite !elem_of_app. intros [[Hm| ->]%noti_done_sub|Hm]; [by left|right|right].
  - apply list_elem_of_In, in_map, list_elem_of_In. by eapply list_elem_of_lookup_2.
  - apply list_elem_of_In, in_map_iff in Hm as (r' & <- & Hr). apply list_elem_of_In, in_map, list_elem_of_In.
    apply list_elem_of_In in Hr. rewrite (delete_Permutation _ _ _ Ei). by right.
Qed.

(** *** Reading *)

Lemma read_effect cancelled x pend s s' o :
  reader_step buffer_alloc dispatch cancelled s = Ret (s', o) -> sc_reading s = true ->
  Forall (up_fits cid) pend -> up_ok x pend s ->
  exists taken pend', pend = taken ++ pend' /\ option_list o = map up_view taken /\ up_ok x pend' s'.
Proof using cid_ok alloc_i32.
  unfold reader_step. destruct (read_req buffer_alloc cancelled (sc_conn s)) as [[c r]|] eqn:Er; cbn [may_bind]; [|done].
  intros Hs Hrd Hf H. destruct r as [req|e].
  2: { injection Hs as <- <-. exists [], pend. by repeat split. }
  destruct (read_up buffer_alloc cid cid_ok alloc_i32 x _ _ _ _ pend Er Hf (H Hrd)) as (i & pend' & -> & -> & Hin).
  exists [i], pend'. split; [done|]. cbn zeta in Hs.
  assert (Hu : forall st : ServerConn mem_stream R, sc_conn st = c -> up_ok x pend' st) by (intros st Hc _; unfold stream_of; by rewrite Hc).
  destruct (is_ping (up_view i)).
  { injection Hs as <- <-. split; [done|]. apply Hu. by rewrite send_quick_conn. }
  destruct (dispatch (up_view i)) as [d|]; cbn [may_bind] in Hs; [|done].
  destruct (dp_res d); injection Hs as <- <-; (split; [done|]); apply Hu; by rewrite ?send_quick_conn.
Qed.

(** *** Writing *)

Lemma process_closed (m : noti_msg R) (c c' : TcpServer mem_stream) r :
  ms_open (ts_stream c) = false -> process m c = Ret (c', r) ->
  r = Err tt /\ ms_in (ts_stream c') = ms_in (ts_stream c) /\ ms_out (ts_stream c') = ms_out (ts_stream c).
Proof.
  intros Ho. destruct m as [r0|[seq err]]; cbn [process].
  - unfold write_resp. destruct (RespHead_encode _ _) as [[buf [k blob]]|]; cbn [may_bind]; [|done]. cbn. rewrite Ho.
    by intros [= <- <-].
  - unfold write_resp_internal. destruct (RespHead_encode_internal _ _ _) as [[buf k]|]; cbn [may_bind]; [|done].
    cbn. rewrite Ho. by intros [= <- <-].
Qed.

Lemma process_effect (m : noti_msg R) i (c c' : TcpServer mem_stream) r :
  msg_says m i -> down_fits i -> process m c = Ret (c', r) ->
  ms_in (ts_stream c') = ms_in (ts_stream c) /\
  ((r = Ok tt /\ ms_out (ts_stream c') = ms_out (ts_stream c) ++ down_frame i) \/
   (r = Err tt /\ ms_out (ts_stream c') = ms_out (ts_stream c))).
Proof.
  intros Hm Hf E. destruct (ms_open (ts_stream c)) eqn:Eo.
  - destruct (process_frame m (down_frame i) c (msg_says_frame m i Hm Hf)) as (c1 & E1 & Hi & Hw & _); [exact Eo|].
    rewrite E1 in E. injection E as <- <-. auto.
  - destruct (process_closed m c c' r Eo E) as (-> & Hi & Hw). auto.
Qed.

(** What the writer takes from the channel, and what it puts on the wire. *)
Definition wrote s s' (outs : list (noti_msg R)) : Prop :=
  ms_in (stream_of s') = ms_in (stream_of s) /\ sc_reading s' = sc_reading s /\
  (forall m, m ∈ outs \/ m ∈ outstanding s' -> m ∈ outstanding s) /\
  exists items, Forall2 msg_says outs items /\ Forall down_fits items /\
    ms_out (stream_of s') = ms_out (stream_of s) ++ concat (map down_frame items).

Lemma wrote_nothing s s' :
  ms_in (stream_of s') = ms_in (stream_of s) -> ms_out (stream_of s') = ms_out (stream_of s) ->
  sc_reading s' = sc_reading s -> (forall m, m ∈ outstanding s' -> m ∈ outstanding s) -> wrote s s' [].
Proof.
  intros Hi Hw Hr Hm. split; [done|]. split; [done|]. split; [|exists []; by rewrite app_nil_r].
  intros m [Hn|]; [by apply elem_of_nil in Hn|auto].
Qed.

Lemma flush_resp_same (c c' : TcpServer mem_stream) r :
  flush_resp c = (c', r) -> ms_in (ts_stream c') = ms_in (ts_stream c) /\ ms_out (ts_stream c') = ms_out (ts_stream c).
Proof. unfold flush_resp. cbn. by destruct (ms_open _); intros [= <- <-]. Qed.

Lemma svr_close_same (c : TcpServer mem_stream) :
  ms_in (ts_stream (svr_close_conn c)) = ms_in (ts_stream c) /\
  ms_out (ts_stream (svr_close_conn c)) = ms_out (ts_stream c).
Proof.
  unfold svr_close_conn. destruct (flush_resp c) as [c' r] eqn:E. apply flush_resp_same in E as [? ?].
  by destruct (is_ok r).
Qed.

Context (s : ServerConn mem_stream R).
Context (sayable : forall m, m ∈ outstanding s -> exists i, msg_says m i /\ down_fits i).

Lemma process_wrote m q s' o :
  sc_queue s = m :: q -> writer_process m q s = Ret (s', o) -> wrote s s' (option_list o).
Proof using sayable.
  intros Eq. unfold writer_process. destruct (process m (sc_conn s)) as [[c r]|] eqn:E; cbn [may_bind]; [|done].
  assert (Hq : forall m', m' ∈ m :: q \/ m' ∈ map Ok (sc_jobs s) -> m' ∈ outstanding s).
  { intros m' H. unfold outstanding. rewrite Eq, elem_of_app. done. }
  destruct (sayable m) as (i & Hm & Hf); [apply Hq; left; by left|].
  destruct (process_effect m i _ _ _ Hm Hf E) as (Hi & [[-> Hw]|[-> Hw]]); intros [= <- <-].
  - split; [done|]. split; [done|]. split.
    + intros m' [Hm'|Hm']; apply Hq.
      * left. apply list_elem_of_singleton in Hm' as ->. by left.
      * apply elem_of_app in Hm' as [Hm'|Hm']; [left; by right|by right].
    + exists [i]. split; [by constructor|]. split; [by constructor|]. cbn [map concat]. rewrite app_nil_r. exact Hw.
  - apply wrote_nothing; [done..|]. intros m' Hm'. apply Hq.
    apply elem_of_app in Hm' as [Hm'|Hm']; [left; by right|by right].
Qed.

Lemma write_effect s' o : writer_step s = Ret (Ready (s', o)) -> wrote s s' (option_list o).
Proof using sayable.
  assert (Hq : forall m q, sc_queue s = m :: q ->
    (let? r := writer_process m q s in Ret (Ready r)) = Ret (Ready (s', o)) -> wrote s s' (option_list o)).
  { intros m q Eq. destruct (writer_process m q s) as [[s1 o1]|] eqn:E; cbn [may_bind]; [|done].
    intros [= -> ->]. by eapply process_wrote. }
  unfold writer_step. destruct (sc_writer s) as [| |x]; [| |done];
    (destruct (sc_queue s) as [|m q] eqn:Eq; [|by apply Hq]).
  - destruct (has_senders s); [done|]. intros [= <- <-]. apply wrote_nothing; [apply svr_close_same..|done|].
    intros m. unfold outstanding; cbn. by rewrite Eq.
  - destruct (flush_resp (sc_conn s)) as [c [u|u]] eqn:E; intros [= <- <-]; apply flush_resp_same in E as [Hi Hw];
      (apply wrote_nothing; [exact Hi|exact Hw|done|done]).
Qed.

(** *** A step of the server *)

Lemma server_effect x pend s' reqs outs :
  step s s' reqs outs -> Forall (up_fits cid) pend -> up_ok x pend s ->
  (exists taken pend', pend = taken ++ pend' /\ reqs = map up_view taken /\ up_ok x pend' s') /\
  (forall m, m ∈ outs \/ m ∈ outstanding s' -> m ∈ outstanding s \/ m ∈ concat (map (answers dispatch) reqs)) /\
  exists items, Forall2 msg_says outs items /\ Forall down_fits items /\
    ms_out (stream_of s') = ms_out (stream_of s) ++ concat (map down_frame items).
Proof using cid_ok alloc_i32 sayable.
  intros Hst Hf H. inversion Hst as [? cancelled ? o Hr Hs|? i ? Hs|? ? o Hs]; subst.
  - split; [by eapply read_effect|]. split.
    + intros m [Hm|Hm]; [by apply elem_of_nil in Hm|]. by eapply reader_sub.
    + exists []. split; [done|]. split; [done|]. cbn. rewrite app_nil_r.
      apply (reader_step_out buffer_alloc dispatch) in Hs. apply Hs.
  - assert (Hc : sc_conn s' = sc_conn s /\ sc_reading s' = sc_reading s).
    { unfold job_step in Hs. by destruct (sc_jobs s !! i); simplify_eq. }
    destruct Hc as [Hc Hr]. split.
    { exists [], pend. split; [done|]. split; [done|]. eapply up_ok_ext; [|unfold stream_of; by rewrite Hc|done].
      by rewrite Hr. }
    split.
    + intros m [Hm|Hm]; [by apply elem_of_nil in Hm|]. left. by eapply job_sub.
    + exists []. split; [done|]. split; [done|]. unfold stream_of. by rewrite Hc, app_nil_r.
  - destruct (write_effect _ _ Hs) as (Hi & Hr & Hm & Hw). split.
    { exists [], pend. split; [done|]. split; [done|]. eapply up_ok_ext; [|exact Hi|done]. by rewrite Hr. }
    split; [|done]. intros m Hm'. left. by apply Hm.
Qed.

End server.
