(* ===== verification/SystemInv.v ===== *)
(** * No cross-talk

    The invariant of [System]: every byte on its way from the client is part
    of a request frame of a task that was sent, every byte on its way back part
    of the frame of an answer to one of the requests read, and a task that waits
    is the only one that was written under its number. So what a task is handed
    back is the answer to its own request, whatever the schedules of the four
    coroutines, the order of the workers and the cuts of the network. *)
From Stdlib Require Import ZArith Lia Strings.String.
From stdpp Require Import base list sets.
From S2P Require Import Prelude Errors Codec Task ApiClient Proto BTree Timer TimerInv Net TcpClient ServerTask TcpServer ApiServer EndToEnd Server Stream StreamInv StreamTrace StreamPoll Wire System SystemEnds.
Local Open Scope Z_scope.
Local Open Scope rpc_scope.

Section inv.
Context {T : Type} `{!ClientTask T} `{!ClientTaskOk T} {R : Type} `{!ServerTaskEncode R}.
Context (buffer_alloc : Z -> bool) (error_handle : T -> event T) (dispatch : RpcSvrReq -> may (dispatched R)).
Context (cid timeout thr : Z).
Implicit Types (sys : System T R) (h : history T R) (c : ClientStream mem_stream T) (s : ServerConn mem_stream R).

(** [ev] hands a task back with the answer [o] that the server gave to the
    very request of that task. *)
Definition answered h (ev : event T) : Prop :=
  exists t0 k msg m o, let t := set_seq t0 k in
    t0 ∈ h_tasks h /\ encodes_to t msg /\ svr_view t msg ∈ h_reqs h /\
    m ∈ answers dispatch (svr_view t msg) /\ m ∈ h_outs h /\ msg_says m (k, o) /\
    ev = outcome_event error_handle o t.

(** How a task may leave: with its answer, or with a failure of the
    connection. *)
Definition settled h (ev : event T) : Prop := own_failure error_handle ev \/ answered h ev.

(** What has been observed stays. *)
Definition extends h h' : Prop :=
  (forall t, t ∈ h_tasks h -> t ∈ h_tasks h') /\ (forall q, q ∈ h_reqs h -> q ∈ h_reqs h') /\
  (forall m, m ∈ h_outs h -> m ∈ h_outs h').

Lemma extends_app h h' : extends h (h_app h h').
Proof. unfold extends, h_app; cbn. repeat split; intros ?; rewrite elem_of_app; by left. Qed.

Lemma answered_extends h h' ev : extends h h' -> answered h ev -> answered h' ev.
Proof.
  intros (Ht & Hq & Hm) (t0 & k & msg & m & o & ? & ? & ? & ? & ? & ? & E). exists t0, k, msg, m, o.
  cbn zeta in *. auto 10.
Qed.

Lemma settled_extends h h' evs : extends h h' -> Forall (settled h) evs -> Forall (settled h') evs.
Proof.
  intros Hx He. eapply Forall_impl; [exact He|]. intros ev [?|Ha]; [by left|right]. by eapply answered_extends.
Qed.

(** An answer of the response channel names one response. *)
Lemma msg_says_unique (m : noti_msg R) i j : msg_says m i -> msg_says m j -> i = j.
Proof.
  destruct m as [r|[seq err]]; [|by intros -> ->]. destruct i as [k o], j as [k' o'].
  destruct o as [[msg blob]|e], o' as [[msg' blob']|e']; cbn; unfold resp_yields; intros H H';
    specialize (H []); specialize (H' []); rewrite H in H'; by injection H'; intros; subst.
Qed.

(** [ev] hands a task back with the answer to the request [sent] for it. *)
Definition served_answer (sent : list (up_item (T := T))) h (ev : event T) : Prop :=
  exists t msg m o, UpTask t msg ∈ sent /\ svr_view t msg ∈ h_reqs h /\
    m ∈ answers dispatch (svr_view t msg) /\ m ∈ h_outs h /\ msg_says m (task_seq t, o) /\
    ev = outcome_event error_handle o t.

Lemma served_mono sent wr h h' ev : extends h h' -> served_answer sent h ev -> served_answer (sent ++ wr) h' ev.
Proof.
  intros (_ & Hq & Hm) (t & msg & m & o & Ht & Hr & Ha & Ho & Hs & ->). exists t, msg, m, o.
  split; [rewrite elem_of_app; by left|]. split; [by apply Hq|]. split; [done|]. split; [by apply Hm|done].
Qed.

Abbreviation down_ok sent h := (down_ok buffer_alloc error_handle (served_answer sent h)).

Lemma down_ok_later sent wr h h' x pend c :
  extends h h' -> down_ok sent h x pend c -> down_ok (sent ++ wr) h' x pend c.
Proof. intros Hx. apply down_ok_mono. intros ev. by apply served_mono. Qed.

Lemma down_ok_keep sent h h' x pend c : extends h h' -> down_ok sent h x pend c -> down_ok sent h' x pend c.
Proof. intros Hx H. rewrite <- (app_nil_r sent). by eapply down_ok_later. Qed.

(** The state of a connection, with all the requests [sent] on it and all the
    responses sent [back]. *)
Record sys_inv sys h (sent : list (up_item (T := T))) (back : list down_item) : Prop := SysInv {
  yi_sound : sound (sy_client sys);
  yi_cid : cs_client_id (sy_client sys) = cid;
  yi_fits : Forall (up_fits cid) sent;
  yi_tasks : forall t msg, UpTask t msg ∈ sent ->
    encodes_to t msg /\ exists t0, t0 ∈ h_tasks h /\ t = set_seq t0 (task_seq t);
  yi_seqs : NoDup (map up_seq sent);
  yi_low : Forall (fun k => k < cs_seq (sy_client sys)) (map up_seq sent);
  yi_unsent : forall t, t ∈ unsent (cs_sender (sy_client sys)) -> t ∈ h_tasks h;
  yi_reg : forall t, cs_sender (sy_client sys) = SReg t -> exists msg, UpTask t msg ∈ sent;
  yi_live : forall k t, (k, t) ∈ live (cs_timer (sy_client sys)) ->
    k = task_seq t /\ exists msg, UpTask t msg ∈ sent;
  yi_up : exists got pend, sent = got ++ pend /\ h_reqs h = map up_view got /\
    up_ok cid (ms_out (client_stream (sy_client sys))) pend (sy_server sys);
  yi_answers : forall m, m ∈ h_outs h \/ m ∈ outstanding (sy_server sys) ->
    exists req, req ∈ h_reqs h /\ m ∈ answers dispatch req;
  yi_says : Forall2 msg_says (h_outs h) back;
  yi_back : Forall down_fits back;
  yi_down : exists gone pend, back = gone ++ pend /\ done_with (cs_timer (sy_client sys)) gone /\
    down_ok sent h (ms_out (stream_of (sy_server sys))) pend (sy_client sys);
  yi_events : Forall (settled h) (h_evs h);
}.

Lemma sys_start_inv : 0 <= timeout -> sys_inv (sys_start cid timeout thr) h_nil [] [].
Proof.
  intros Ht. constructor; cbn; try done; try (by intros ? ?%elem_of_nil); try (by intros ? ? ?%elem_of_nil);
    try (by constructor).
  - exists 0, 0, 0. by apply (ClientStream_new_inv (T := T)).
  - by exists [], [].
  - unfold outstanding; cbn. intros m [?%elem_of_nil|?%elem_of_nil]; done.
  - exists [], []. by split; [|split; [apply done_with_nil|]].
Qed.

(** The network does not touch what the client knows. *)
Lemma on_client_sound f c : sound c -> sound (on_client f c).
Proof. intros (n & l & hd & H). exists n, l, hd. by eapply (inv_ext n l hd c). Qed.

(** *** The network *)

Lemma h_app_nil h : h_app h h_nil = h.
Proof. destruct h. unfold h_app, h_nil; cbn. by rewrite !app_nil_r. Qed.

(** A step that neither end takes. *)
Lemma inv_net c c' s s' h sent back :
  sys_inv (Sys c s) h sent back ->
  sound c' -> cs_client_id c' = cs_client_id c -> cs_seq c' = cs_seq c -> cs_sender c' = cs_sender c ->
  cs_timer c' = cs_timer c -> outstanding s' = outstanding s ->
  (forall pend, up_ok (T := T) cid (ms_out (client_stream c)) pend s ->
    up_ok (T := T) cid (ms_out (client_stream c')) pend s') ->
  (forall pend, down_ok sent h (ms_out (stream_of s)) pend c -> down_ok sent h (ms_out (stream_of s')) pend c') ->
  sys_inv (Sys c' s') h sent back.
Proof.
  intros [? ? ? ? ? ? ? ? ? Hu ? ? ? Hd ?] Hc Ei Eq Es Et Eo Hup Hdown. cbn [sy_client sy_server] in *.
  constructor; cbn [sy_client sy_server]; rewrite ?Ei, ?Eq, ?Es, ?Et, ?Eo; try done.
  - destruct Hu as (got & pend & ? & ? & H). exists got, pend. auto.
  - destruct Hd as (gone & pend & ? & ? & H). exists gone, pend. auto.
Qed.

Lemma inv_up n c s h sent back :
  sys_inv (Sys c s) h sent back ->
  sys_inv (Sys (on_client (drain n) c) (on_server (feed (take n (ms_out (client_stream c)))) s)) h sent back.
Proof.
  intros H. eapply inv_net; [exact H|apply on_client_sound, H|done..| |].
  - intros pend. apply up_ok_arrive.
  - intros pend. by apply down_ok_ext.
Qed.

Lemma inv_down n c s h sent back :
  sys_inv (Sys c s) h sent back ->
  sys_inv (Sys (on_client (feed (take n (ms_out (stream_of s)))) c) (on_server (drain n) s)) h sent back.
Proof.
  intros H. eapply inv_net; [exact H|apply on_client_sound, H|done..| |].
  - intros pend. by apply up_ok_ext.
  - intros pend. apply down_ok_arrive.
Qed.

Lemma inv_cut_up c s h sent back :
  sys_inv (Sys c s) h sent back -> sys_inv (Sys (on_client cut c) s) h sent back.
Proof. intros H. eapply inv_net; [exact H|apply on_client_sound, H|done..|]. intros pend. by apply down_ok_ext. Qed.

Lemma inv_cut_down c s h sent back :
  sys_inv (Sys c s) h sent back -> sys_inv (Sys c (on_server cut s)) h sent back.
Proof. intros H. eapply inv_net; [exact H|apply H|done..| |done]. intros pend. by apply up_ok_ext. Qed.

(** ** The parts the model leaves open *)

Context (error_handle_task : forall t, ev_task (error_handle t) = t).
Context (reserve_exact : forall (t t' : T) n m, 0 < n -> reserve_resp_blob t n = (t', Some m) -> m = n).
Context (alloc_i32 : forall n, 0 < n <= I32_MAX -> buffer_alloc n = true).
Context (cid_ok : is_u64 cid).
(** A codec writes the same message whatever the buffer holds, or refuses. *)
Context (encode_req_appends : forall t : T,
  (exists msg, encodes_to t msg) \/ exists f, forall b, encode_req t b = (f b, Err tt)).
(** A dispatcher answers the request it was given, within the limits of the
    wire. *)
Context (answers_ok : forall req m, is_u64 (sq_seq req) -> m ∈ answers dispatch req ->
  exists o, msg_says m (sq_seq req, o) /\ outcome_fits o).

(** *** The server *)

Lemma up_fits_seq i : up_fits cid i -> is_u64 (up_seq (T := T) i).
Proof. destruct i as [t msg|seq]; [|done]. intros (_ & ? & _). done. Qed.

(** The requests the server has read are among those sent. *)
Lemma reqs_sent sys h sent back req :
  sys_inv sys h sent back -> req ∈ h_reqs h ->
  exists i, i ∈ sent /\ req = up_view i /\ is_u64 (sq_seq req).
Proof.
  intros H Hr. destruct (yi_up _ _ _ _ H) as (got & pend & Hs & Hq & _). rewrite Hq in Hr.
  apply list_elem_of_In, in_map_iff in Hr as (i & <- & Hi%list_elem_of_In). exists i.
  assert (Hin : i ∈ sent) by (rewrite Hs, elem_of_app; by left). split; [done|]. split; [done|].
  rewrite up_view_seq. apply up_fits_seq. pose proof (yi_fits _ _ _ _ H) as Hf. rewrite Forall_forall in Hf. auto.
Qed.

Lemma sayable sys h sent back m :
  sys_inv sys h sent back -> m ∈ outstanding (sy_server sys) -> exists i, msg_says m i /\ down_fits i.
Proof using answers_ok.
  intros H Hm. destruct (yi_answers _ _ _ _ H m (or_intror Hm)) as (req & Hr & Ha).
  destruct (reqs_sent _ _ _ _ _ H Hr) as (i & _ & _ & Hu). destruct (answers_ok req m Hu Ha) as (o & Hs & Hf).
  by exists (sq_seq req, o).
Qed.

Lemma inv_server c s s' h sent back reqs outs :
  sys_inv (Sys c s) h sent back -> server_step buffer_alloc dispatch s s' reqs outs ->
  exists back', sys_inv (Sys c s') (h_app h (History [] reqs outs [])) sent back'.
Proof using cid_ok alloc_i32 answers_ok.
  intros H Hst. pose proof H as [Hsd Hci Hf Ht Hn Hl Hun Hre Hli (got & pend & Es & Er & Hu) Ha Hsy Hb (gone & pd & Eb & Hgone & Hd) He].
  cbn [sy_client sy_server] in *.
  assert (Hfp : Forall (up_fits cid) pend) by (rewrite Es in Hf; by apply Forall_app in Hf as [_ ?]).
  destruct (server_effect buffer_alloc dispatch cid cid_ok alloc_i32 s (fun m => sayable (Sys c s) h sent back m H)
    _ pend s' reqs outs Hst Hfp Hu) as ((taken & pend' & -> & -> & Hu') & Hsub & items & Hit & Hif & Hw).
  exists (back ++ items). unfold h_app. constructor; cbn [sy_client sy_server h_tasks h_reqs h_outs h_evs]; rewrite ?app_nil_r; try done.
  - exists (got ++ taken), pend'. rewrite map_app, Er, Es, app_assoc. done.
  - assert (Hreq : forall req, req ∈ h_reqs h -> req ∈ h_reqs h ++ map up_view taken) by (intros; rewrite elem_of_app; auto).
    assert (Hold : forall m, m ∈ h_outs h \/ m ∈ outstanding s ->
      exists req, req ∈ h_reqs h ++ map up_view taken /\ m ∈ answers dispatch req).
    { intros m (req & Hr & Hx)%Ha. exists req. auto. }
    assert (Hnew : forall m, m ∈ outs \/ m ∈ outstanding s' ->
      exists req, req ∈ h_reqs h ++ map up_view taken /\ m ∈ answers dispatch req).
    { intros m [Hm|Hm]%Hsub; [by apply Hold; right|].
      apply list_elem_of_In, in_concat in Hm as (l & (req & <- & Hr)%in_map_iff & Hm). exists req.
      rewrite elem_of_app. split; [right|]; by apply list_elem_of_In. }
    intros m [Hm|Hm]; [|by apply Hnew; right]. apply elem_of_app in Hm as [Hm|Hm]; [by apply Hold; left|by apply Hnew; left].
  - by apply Forall2_app.
  - by apply Forall_app.
  - exists gone, (pd ++ items). rewrite Eb, app_assoc, Hw. split; [done|]. split; [done|].
    eapply (down_ok_keep sent h); [|by apply down_ok_writes].
    unfold extends; cbn. repeat split; intros ?; rewrite ?elem_of_app; auto.
  - eapply settled_extends; [|exact He]. unfold extends; cbn. repeat split; intros ?; rewrite ?elem_of_app; auto.
Qed.

(** *** The client *)

(** Two requests under one number are the same request. *)
Lemma sent_unique (sent : list (up_item (T := T))) i j :
  NoDup (map up_seq sent) -> i ∈ sent -> j ∈ sent -> up_seq i = up_seq j -> i = j.
Proof.
  intros Hn Hi Hj E. apply list_elem_of_lookup_1 in Hi as [a Ha], Hj as [b Hb].
  assert (a = b) as <-; [|congruence].
  eapply (NoDup_lookup _ a b (up_seq i) Hn); (change (map up_seq sent) with (up_seq <$> sent)); rewrite list_lookup_fmap.
  - by rewrite Ha.
  - rewrite Hb. cbn. by rewrite E.
Qed.

(** The response that reaches a waiting task answers its request. *)
Lemma event_served sys h sent back i t :
  sys_inv sys h sent back -> i ∈ back -> (i.1, t) ∈ live (cs_timer (sy_client sys)) ->
  served_answer sent h (outcome_event error_handle i.2 t).
Proof using answers_ok.
  intros H Hi Hl. destruct (yi_live _ _ _ _ H _ _ Hl) as (Hk & msg & Ht).
  destruct (list_elem_of_lookup_1 _ _ Hi) as [n Hn].
  destruct (Forall2_lookup_r _ _ _ _ _ (yi_says _ _ _ _ H) Hn) as (m & Hm & Hs).
  apply list_elem_of_lookup_2 in Hm. destruct (yi_answers _ _ _ _ H m (or_introl Hm)) as (req & Hr & Ha).
  destruct (reqs_sent _ _ _ _ _ H Hr) as (j & Hj & Ej & Hu). destruct (answers_ok req m Hu Ha) as (o & Hs' & _).
  pose proof (msg_says_unique _ _ _ Hs Hs') as Ei. subst i. cbn [fst snd] in *.
  assert (j = UpTask t msg) as ->.
  { apply (sent_unique sent); [apply H|done..|]. rewrite <- up_view_seq, <- Ej. exact Hk. }
  subst req. by exists t, msg, m, o.
Qed.

Lemma served_answered sys h sent back ev : sys_inv sys h sent back -> served_answer sent h ev -> answered h ev.
Proof.
  intros H (t & msg & m & o & Ht & Hr & Ha & Hm & Hs & ->). destruct (yi_tasks _ _ _ _ H _ _ Ht) as (He & t0 & Ht0 & Eset).
  exists t0, (task_seq t), msg, m, o. cbn zeta. rewrite <- Eset. repeat split; done.
Qed.

Lemma event_answered sys h sent back i t :
  sys_inv sys h sent back -> i ∈ back -> (i.1, t) ∈ live (cs_timer (sy_client sys)) ->
  answered h (outcome_event error_handle i.2 t).
Proof using answers_ok. intros H Hi Hl. eapply served_answered; [exact H|by eapply event_served]. Qed.

Lemma inv_client op c c' s h sent back evs :
  sys_inv (Sys c s) h sent back -> stream_step buffer_alloc error_handle op c c' evs -> lossless op ->
  (forall t, t ∈ h_tasks h -> forall k, action_sendable (get_action (set_seq t k))) ->
  exists wr, adds cid wr c c' /\ Forall (fun ev => own_failure error_handle ev \/ served_answer sent h ev) evs /\
    sys_inv (Sys c' s) (h_app h (History (op_task op) [] [] evs)) (sent ++ wr) back.
Proof using ClientTaskOk0 error_handle_task reserve_exact alloc_i32 cid_ok encode_req_appends answers_ok.
  intros H Hst Hll Hsend.
  pose proof H as [Hsd Hci Hf Ht Hn Hl Hun Hre Hli (got & pend & Es & Er & Hu) Ha Hsy Hb (gone & pd & Eb & Hgone & Hd) He].
  cbn [sy_client sy_server] in *.
  assert (Hfp : Forall down_fits pd) by (rewrite Eb in Hb; by apply Forall_app in Hb as [_ ?]).
  assert (Hgood : good_for error_handle (served_answer sent h) pd (cs_timer c)).
  { intros i t Hin Hlv. eapply (event_served (Sys c s)); [exact H| |exact Hlv]. rewrite Eb, elem_of_app. by right. }
  destruct (client_effect buffer_alloc error_handle cid cid_ok encode_req_appends reserve_exact alloc_i32
    (served_answer sent h) op c c' evs (ms_out (stream_of s)) pd Hsd Hci)
    as ((wr & Hadd) & Hes & taken & pd' & -> & Htk & Hd'); [intros t Ht'; by apply Hsend, Hun|done..|].
  destruct (sound_step buffer_alloc error_handle error_handle_task _ _ _ _ Hsd Hst) as (Hsd' & _ & _).
  set (h' := History (op_task op) [] [] evs).
  assert (Hx : extends h (h_app h h')) by apply extends_app.
  assert (Hold : forall t, (exists msg, UpTask t msg ∈ sent) -> exists msg, UpTask t msg ∈ sent ++ wr).
  { intros t [msg Hm]. exists msg. rewrite elem_of_app. by left. }
  pose proof Hadd as (Hwf & Hwt & Hwr & Hws & Hw).
  exists wr. split; [done|]. split; [done|]. constructor; cbn [sy_client sy_server]; try done.
  - by rewrite (client_id_step _ _ _ _ _ _ Hst).
  - by apply Forall_app.
  - intros t msg [Hm|Hm]%elem_of_app.
    + destruct (Ht _ _ Hm) as (? & t0 & ? & ?). split; [done|]. exists t0. split; [by apply Hx|done].
    + destruct (Hwt _ _ Hm) as (? & t0 & Ht0 & ->). split; [done|]. exists t0.
      rewrite task_seq_set_seq. split; [by apply Hx, Hun|done].
  - rewrite map_app, NoDup_app. split; [done|]. destruct Hws as [[-> _]|(i & -> & Hi & _)]; cbn.
    + split; [by intros ? _ ?%elem_of_nil|constructor].
    + split; [|repeat constructor; by intros ?%elem_of_nil]. rewrite Forall_forall in Hl.
      intros k Hk ->%list_elem_of_singleton. specialize (Hl _ Hk). lia.
  - rewrite map_app, Forall_app. destruct Hws as [[-> Hle]|(i & -> & Hi & Hlt)]; cbn.
    + split; [|done]. eapply Forall_impl; [exact Hl|]. cbn. lia.
    + split; [eapply Forall_impl; [exact Hl|]; cbn; lia|]. constructor; [lia|done].
  - intros t [Hin|Hin]%(unsent_step _ _ _ _ _ _ _ Hst); [unfold h_app, h'; cbn; rewrite elem_of_app; by right|].
    by apply Hx, Hun.
  - intros t [Hr|[msg Hm]]%Hwr; [by apply Hold, Hre|]. exists msg. rewrite elem_of_app. by right.
  - intros k t [Hin|[Hr ->]]%(live_step _ _ error_handle_task _ _ _ _ _ _ Hsd Hst).
    + destruct (Hli _ _ Hin) as [-> ?]. auto.
    + split; [done|]. by apply Hold, Hre.
  - exists got, (pend ++ wr). rewrite Es, app_assoc. split; [done|]. cbn. rewrite app_nil_r. split; [done|].
    rewrite Hw. by apply up_ok_write.
  - unfold h_app, h'; cbn. by rewrite !app_nil_r.
  - unfold h_app, h'; cbn. by rewrite app_nil_r.
  - exists (gone ++ taken), pd'. rewrite Eb, app_assoc. split; [done|].
    split; [|by eapply down_ok_later]. intros Hfl.
    destruct (timer_monotone _ _ error_handle_task _ _ _ _ Hsd Hst) as [_ Hfl']. apply Forall_app. split; [|by apply Htk].
    eapply Forall_impl; [apply Hgone, Hfl', Hfl|]. intros i. by apply (past_step _ _ error_handle_task _ _ _ _ _ Hsd Hst).
  - unfold h_app at 2; cbn. apply Forall_app. split; [by eapply settled_extends|].
    eapply settled_extends; [exact Hx|]. eapply Forall_impl; [exact Hes|].
    intros ev [?|Hs]; [by left|right]. by eapply (served_answered (Sys c s)).
Qed.

Lemma inv_sys_step sys sys' h h' sent back :
  sys_inv sys h sent back -> sys_step buffer_alloc error_handle dispatch sys sys' h' ->
  (forall t, t ∈ h_tasks h -> forall k, action_sendable (get_action (set_seq t k))) ->
  exists sent' back', sys_inv sys' (h_app h h') sent' back'.
Proof using ClientTaskOk0 error_handle_task reserve_exact alloc_i32 cid_ok encode_req_appends answers_ok.
  intros H Hst Hsend. destruct Hst; rewrite ?h_app_nil.
  - edestruct inv_client as (wr & _ & _ & ?); [done..|]. by exists (sent ++ wr), back.
  - edestruct inv_server as [back' ?]; [done..|]. by exists sent, back'.
  - exists sent, back. by apply inv_up.
  - exists sent, back. by apply inv_down.
  - exists sent, back. by apply inv_cut_up.
  - exists sent, back. by apply inv_cut_down.
Qed.

Lemma inv_sys_run sys h :
  0 <= timeout -> sys_run buffer_alloc error_handle dispatch cid timeout thr sys h ->
  (forall t, t ∈ h_tasks h -> forall k, action_sendable (get_action (set_seq t k))) ->
  exists sent back, sys_inv sys h sent back.
Proof using ClientTaskOk0 error_handle_task reserve_exact alloc_i32 cid_ok encode_req_appends answers_ok.
  intros Ht. induction 1 as [|sys sys' h h' _ IH Hst]; intros Hsend.
  - exists [], []. by apply sys_start_inv.
  - assert (Hs : forall t, t ∈ h_tasks h -> forall k, action_sendable (get_action (set_seq t k))).
    { intros t Hin. apply Hsend. unfold h_app; cbn. rewrite elem_of_app. by left. }
    destruct (IH Hs) as (sent & back & H). by eapply inv_sys_step.
Qed.

(** *** Every task, at most once *)

Context {K : Type} `{!TaskTag T K}.

Lemma tags_client (c c' : ClientStream mem_stream T) op (ts : list T) (evs evs' : list (event T)) rest :
  sound c -> stream_step buffer_alloc error_handle op c c' evs' ->
  map tag ts ≡ₚ stream_tags c ++ map ev_tag evs ++ rest ->
  exists rest', map tag (ts ++ op_task op) ≡ₚ stream_tags c' ++ map ev_tag (evs ++ evs') ++ rest'.
Proof using ClientTaskOk0 error_handle_task.
  intros (n & l & hd & Hi) Hst Hp. pose proof (step_balanced _ _ error_handle_task _ _ _ _ _ _ _ Hi Hst) as Hb.
  unfold balanced in Hb. exists (map loss_tag (lost_task op c c') ++ rest).
  rewrite !map_app, Hp. rewrite (Permutation_app_comm (stream_tags c ++ _)), app_assoc, Hb. solve_Permutation.
Qed.

Lemma stream_tags_on f c : stream_tags (K := K) (on_client f c) = stream_tags c.
Proof. done. Qed.

Lemma sys_tags sys h :
  0 <= timeout -> sys_run buffer_alloc error_handle dispatch cid timeout thr sys h ->
  sound (sy_client sys) /\
  exists rest, map tag (h_tasks h) ≡ₚ stream_tags (sy_client sys) ++ map ev_tag (h_evs h) ++ rest.
Proof using ClientTaskOk0 error_handle_task.
  intros Ht. induction 1 as [|sys sys' h h' _ [IHs [rest IHt]] Hst].
  - split; [|by exists []]. exists 0, 0, 0. by apply (ClientStream_new_inv (T := T)).
  - destruct Hst as [op c c' s evs Hs Hll|c s s' reqs outs Hs|n c s|n c s|c s|c s];
      unfold h_app, h_nil; cbn [sy_client h_tasks h_evs] in *; rewrite ?app_nil_r;
      try (split; [done || by apply on_client_sound|by exists rest]).
    split; [by apply (sound_step buffer_alloc error_handle error_handle_task _ _ _ _ IHs Hs)|].
    by apply (tags_client _ _ _ _ _ _ _ IHs Hs IHt).
Qed.

(** ** Properties *)

(** C5. No cross-talk, at most once. However the coroutines of a
    client connection and of the server connection at its other end interleave,
    in whatever order the workers finish, and wherever the network delays, cuts
    or breaks the byte streams: a task that is handed back carries a failure of
    the connection (an IO error or a timeout), or the response that the server
    wrote as its answer to exactly the request of that task, decoded as it was
    encoded; and no task is handed back twice.
    (The runs are those of [sys_run]: the read of a header that the close channel
    cuts off half-way, which puts the client out of step, is not followed.) *)
Theorem no_cross_talk sys h :
  0 <= timeout ->
  (forall t, t ∈ h_tasks h -> forall k, action_sendable (get_action (set_seq t k))) ->
  sys_run buffer_alloc error_handle dispatch cid timeout thr sys h ->
  Forall (fun ev => own_failure error_handle ev \/ answered h ev) (h_evs h) /\
  exists rest, map tag (h_tasks h) ≡ₚ map ev_tag (h_evs h) ++ rest.
Proof using ClientTaskOk0 error_handle_task reserve_exact alloc_i32 cid_ok encode_req_appends answers_ok.
  intros Ht Ha Hr. destruct (inv_sys_run sys h Ht Hr Ha) as (sent & back & H). split; [apply (yi_events _ _ _ _ H)|].
  destruct (sys_tags sys h Ht Hr) as [_ [rest Hp]]. exists (stream_tags (sy_client sys) ++ rest).
  rewrite Hp. solve_Permutation.
Qed.

End inv.
