(* ===== verification/SystemCall.v ===== *)
(** * Concurrent calls of the API layer

    Any number of API calls in flight on one connection, served by services and
    methods of any kind: each caller gets what its method returns for its own
    argument, or learns that the connection failed. *)
From Stdlib Require Import ZArith Lia Strings.String.
From stdpp Require Import base list sets.
From S2P Require Import Prelude Errors Codec Task ApiClient Proto BTree Timer TimerInv Net TcpClient ServerTask TcpServer ApiServer EndToEnd Server Stream StreamInv StreamTrace StreamPoll Wire System SystemEnds SystemInv.
Local Open Scope Z_scope.
Local Open Scope rpc_scope.

(** ** Handlers whose answers the wire can carry *)

Definition handler_fits (serve : handler) : Prop :=
  forall req, is_Some (aq_req req) ->
  exists resp o, serve req = Ret resp /\ resp_outcome resp (aq_seq req) o /\ outcome_fits o.

Lemma rpc_error_fits req e :
  exists resp o, Ret (ApiSReq_set_rpc_error req e) = Ret resp /\ resp_outcome resp (aq_seq req) o /\ outcome_fits o.
Proof.
  eexists _, (Err (ERpc e)). split; [done|]. split.
  - apply (ApiSResp_outcome (ApiSReq_set_rpc_error req e) (Err (ERpc e))). done.
  - cbn. pose proof (RpcIntErr_as_bytes_len e). unfold I32_MAX. lia.
Qed.

Lemma service_handler_fits {Rq Rp E} `{!Codec Rq} `{!Codec Rp} `{!RpcErrCodec E}
    (f : Rq -> result Rp (RpcError E)) :
  (forall arg, outcome_fits (result_outcome (f arg))) -> handler_fits (service_handler f).
Proof.
  intros Hf req [b Hb]. destruct (ApiSReq_decode b : result Rq unit) as [arg|e] eqn:Ed.
  - destruct (handler_decoded f req arg b Hb Ed) as (resp & E1 & E2). exists resp, (result_outcome (f arg)). auto.
  - unfold service_handler. rewrite Hb, Ed. apply rpc_error_fits.
Qed.

Lemma service_serve_fits arms :
  Forall (fun a => handler_fits (snd a)) arms -> handler_fits (service_serve arms).
Proof.
  intros H req Hb. unfold service_serve. destruct (match_arms arms (aq_method req)) eqn:E; [|apply rpc_error_fits].
  apply match_arms_in in E. rewrite Forall_forall in H. by apply (H _ E).
Qed.

Lemma mux_struct_fits fields :
  Forall (fun a => handler_fits (snd a)) fields -> handler_fits (mux_struct_serve fields).
Proof.
  intros H req Hb. unfold mux_struct_serve. destruct (match_arms fields (aq_service req)) eqn:E; [|apply rpc_error_fits].
  apply match_arms_in in E. rewrite Forall_forall in H. by apply (H _ E).
Qed.

(** ** The API layer meets what the connection asks for *)

Lemma api_encode_appends (t : APIClientReq) :
  (exists msg, encodes_to t msg) \/ exists f, forall b, encode_req t b = (f b, Err tt).
Proof.
  left. destruct (api_req_msg t) as [msg|] eqn:E; [exists msg; by apply api_encodes_to|].
  exists []. intros buf. cbn. unfold api_encode_req. by rewrite E, app_nil_r.
Qed.

Lemma internal_fits e : outcome_fits (Err (ERpc e)).
Proof. cbn. pose proof (RpcIntErr_as_bytes_len e). unfold I32_MAX. lia. Qed.

Lemma api_answers_ok serve req (m : noti_msg APIServerResp) :
  handler_fits serve -> m ∈ answers (api_dispatch serve) req ->
  exists o, msg_says m (sq_seq req, o) /\ outcome_fits o.
Proof.
  intros Hs. unfold answers. destruct (is_ping req).
  { intros ->%list_elem_of_singleton. exists (Ok ([], None)). split; [done|]. by vm_compute. }
  assert (Hd : forall m : noti_msg APIServerResp, m ∈ [Err (sq_seq req, Some Decode) : noti_msg APIServerResp] ->
    exists o, msg_says m (sq_seq req, o) /\ outcome_fits o).
  { intros m' ->%list_elem_of_singleton. exists (Err (ERpc Decode)). split; [done|apply internal_fits]. }
  unfold api_dispatch, api_dispatch_req. destruct (sq_action req) as [a|n]; [|apply Hd].
  destruct (split_once Byte.x2e a) as [[svc mth]|]; [|apply Hd].
  destruct (Hs (ApiSReq (sq_seq req) svc mth (Some (sq_msg req)))) as (resp & o & E & Ho & Hf); [done|].
  unfold inline_dispatch. rewrite E. cbn. intros ->%list_elem_of_singleton. by exists o.
Qed.

(** The answer to a call of a method. *)
Lemma call_answer {Rq Rp E} `{!Codec Rq} `{!CodecOk Rq} `{!Codec Rp} `{!RpcErrCodec E}
    (f : Rq -> result Rp (RpcError E)) arg b svc m fields arms req (msg : noti_msg APIServerResp) :
  codec_encode arg = Ok b -> sq_action req = AStr (service_method svc m) -> sq_msg req = b -> Byte.x2e ∉ svc ->
  match_arms fields svc = Some (service_serve arms) -> match_arms arms m = Some (service_handler f) ->
  msg ∈ answers (api_dispatch (mux_struct_serve fields)) req ->
  msg_says msg (sq_seq req, result_outcome (f arg)).
Proof.
  intros He Ha Hb Hdot Hf Hm. unfold answers, is_ping. rewrite Ha. unfold api_dispatch.
  rewrite (dispatch_split req svc m Ha Hdot). unfold inline_dispatch, mux_struct_serve. cbn [aq_service]. rewrite Hf.
  unfold service_serve. cbn [aq_method]. rewrite Hm, Hb.
  destruct (handler_outcome f (ApiSReq (sq_seq req) svc m (Some b)) arg b He eq_refl) as (resp & -> & Ho).
  cbn. by intros ->%list_elem_of_singleton.
Qed.

(** The response a task gets leaves its identity alone. *)
Lemma ev_tag_outcome {T K} `{!ClientTask T} `{!TaskTag T K} (error_handle : T -> event T) o t :
  (forall t, ev_task (error_handle t) = t) -> ev_tag (outcome_event error_handle o t) = tag t.
Proof.
  intros Hk. assert (Hf : forall msg t', ev_tag (finish_event error_handle msg t') = tag t').
  { intros msg t'. unfold finish_event, ev_tag. destruct (bool_decide _); [cbn; apply tag_set_ok|].
    destruct (decode_resp t' msg) as [t2|e] eqn:Ed; cbn; [by rewrite tag_set_ok, (tag_decode _ _ _ Ed)|].
    by rewrite Hk, tag_rpc_error. }
  destruct o as [[msg blob]|e]; cbn.
  - destruct (0 <? blob_size blob); [|apply Hf].
    destruct (reserve_resp_blob t _) as [t' [n|]] eqn:Er; apply tag_reserve in Er.
    + by rewrite Hf, tag_fill.
    + unfold ev_tag. by rewrite Hk, tag_rpc_error.
  - unfold ev_tag. rewrite Hk. by destruct (wire_err e); cbn; rewrite ?tag_rpc_error, ?tag_custom_error.
Qed.

(** *** What the caller gets *)
Section call.
Context {Rq Rp E : Type} `{!Codec Rq} `{!CodecOk Rq} `{!Codec Rp} `{!CodecOk Rp} `{!RpcErrCodec E}.

(** The caller of the task handed back by [ev] gets [r]. *)
Definition caller_gets (ev : event APIClientReq) (r : result Rp (RpcError E)) : Prop :=
  exists t, ev = EvDone t /\ forall dflt, exists t', process_res dflt t = Ret (t', r).

Lemma own_failure_gets ev :
  own_failure error_handle_default ev -> caller_gets ev (Err (Rpc IO)) \/ caller_gets ev (Err (Rpc Timeout)).
Proof.
  intros (t & e & He & ->). destruct He as [-> | ->]; [left|right];
    (exists (api_set_rpc_error t IO) + exists (api_set_rpc_error t Timeout));
    (split; [done|]); intros dflt; by eexists.
Qed.

(** Running calls. *)
Context (buffer_alloc : Z -> bool) (alloc_i32 : forall n, 0 < n <= I32_MAX -> buffer_alloc n = true).
Context (cid timeout thr : Z) (cid_ok : is_u64 cid) (timeout_ok : 0 <= timeout).
Context (fields arms : list (bytes * handler)) (fits : handler_fits (mux_struct_serve fields)).

(** C1. Every caller gets the result of its own call. Over one
    connection, with any number of calls of any services, methods and arguments
    in flight, under every interleaving of sender, receiver, server reader,
    workers and writer and every behaviour of the network: a call of [svc.m]
    with the argument [arg], whose task has come back, returns exactly what the
    server's method [f] returns for [arg] (its value, its own error or the
    internal error it raised), or reports that the connection failed (IO) or
    that the answer did not come in time (Timeout).
    (The runs are those of [sys_run]: the read of a header that the close channel
    cuts off half-way, which puts the client out of step, is not followed.) *)
Theorem concurrent_calls (f : Rq -> result Rp (RpcError E)) arg b svc m sys h ev :
  match_arms fields svc = Some (service_serve arms) -> match_arms arms m = Some (service_handler f) ->
  Byte.x2e ∉ svc -> codec_encode arg = Ok b -> result_sendable (f arg) ->
  (forall t, t ∈ h_tasks h -> action_sendable (AStr (api_action t))) ->
  sys_run buffer_alloc error_handle_default (api_dispatch (mux_struct_serve fields)) cid timeout thr sys h ->
  ev ∈ h_evs h -> ev_tag ev = (service_method svc m, Some b) ->
  caller_gets ev (f arg) \/ caller_gets ev (Err (Rpc IO)) \/ caller_gets ev (Err (Rpc Timeout)).
Proof using CodecOk0 CodecOk1 alloc_i32 cid_ok fits timeout_ok.
  intros Hsv Hm Hdot He Hres Hact Hrun Hev Htag.
  destruct (inv_sys_run buffer_alloc error_handle_default (api_dispatch (mux_struct_serve fields)) cid timeout thr
    (fun t => eq_refl) api_no_blob alloc_i32 cid_ok api_encode_appends
    (fun req m _ => api_answers_ok _ req m fits) sys h timeout_ok Hrun) as (sent & back & H).
  { intros t Ht k. exact (Hact t Ht). }
  pose proof (yi_events _ _ _ _ _ _ _ _ H) as Hes. rewrite Forall_forall in Hes.
  destruct (Hes ev Hev) as [Ho|Ha]; [right; by apply own_failure_gets|left].
  destruct Ha as (t0 & k & msg & mm & o & Ht0 & Henc & Hrq & Hans & _ & Hsays & ->). cbn zeta in *.
  set (t := set_seq t0 k) in *.
  assert (Etag : ev_tag (outcome_event error_handle_default o t) = tag t) by (by apply ev_tag_outcome).
  rewrite Etag in Htag. injection Htag as Ea Eb.
  assert (Emsg : msg = b).
  { pose proof (api_encodes_to t b Eb []) as E2. rewrite (Henc []) in E2. by injection E2. }
  subst msg.
  pose proof (call_answer f arg b svc m fields arms (svr_view t b) mm He (f_equal AStr Ea) eq_refl Hdot Hsv Hm Hans) as Hs.
  pose proof (msg_says_unique _ _ _ Hsays Hs) as Eo. injection Eo as ->.
  destruct (process_outcome (f arg) t Hres) as (t1 & -> & Hp). by exists t1.
Qed.

End call.
(** ** Concrete instances *)

Section turns.
Context {T : Type} `{!ClientTask T} {R : Type} `{!ServerTaskEncode R}.
Context (buffer_alloc : Z -> bool) (error_handle : T -> event T) (dispatch : RpcSvrReq -> may (dispatched R)).
Context (cid timeout thr : Z).
Context (c : ClientStream mem_stream T) (s : ServerConn mem_stream R) (h : history T R).
Abbreviation run := (sys_run buffer_alloc error_handle dispatch cid timeout thr).
Context (Hrun : run (Sys c s) h).

Lemma turn_client op c' evs :
  stream_step buffer_alloc error_handle op c c' evs -> lossless op ->
  run (Sys c' s) (h_app h (History (op_task op) [] [] evs)).
Proof using Hrun. intros Hs Hl. eapply sy_snoc; [exact Hrun|]. by apply sy_client_step. Qed.

Lemma turn_server s' reqs outs :
  server_step buffer_alloc dispatch s s' reqs outs -> run (Sys c s') (h_app h (History [] reqs outs [])).
Proof using Hrun. intros Hs. eapply sy_snoc; [exact Hrun|]. by apply sy_server_step. Qed.

Lemma turn_up n :
  run (Sys (on_client (drain n) c) (on_server (feed (take n (ms_out (client_stream c)))) s)) h.
Proof using Hrun. rewrite <- (h_app_nil h). eapply sy_snoc; [exact Hrun|]. apply sy_up. Qed.

Lemma turn_down n :
  run (Sys (on_client (feed (take n (ms_out (stream_of s)))) c) (on_server (drain n) s)) h.
Proof using Hrun. rewrite <- (h_app_nil h). eapply sy_snoc; [exact Hrun|]. apply sy_down. Qed.

End turns.

(** A whole call of [send_task]. *)
Lemma turn_submit {T} `{!ClientTask T} {R} `{!ServerTaskEncode R} ba (eh : T -> event T)
    (d : RpcSvrReq -> may (dispatched R)) cid timeout thr c s (h : history T R) t t' c2 c3 c4 :
  sys_run ba eh d cid timeout thr (Sys c s) h ->
  cs_sender c = SIdle -> pending_task_count (cs_timer c) + 1 < 2 ^ 64 ->
  send_check eh t true (send_start t true c) = (c2, []) -> cs_sender (send_start t true c) = SAnnounced t true ->
  send_request t true c2 = Ret c3 -> cs_sender c2 = SSending t true -> cs_seq c2 + 1 < 2 ^ 64 ->
  send_register t' c3 = Ready c4 -> cs_sender c3 = SReg t' -> cs_sender c4 = SThrottle ->
  sys_run ba eh d cid timeout thr (Sys (upd_sender SIdle c4) s) (h_app h (History [t] [] [] [])).
Proof.
  intros H H1 H2 E1 P1 E2 P2 P2' E3 P3 P4.
  pose proof (turn_client _ _ _ _ _ _ _ _ _ H (SendStart t true) _ [] (st_start _ _ c t true H1 H2) I) as H'.
  apply turn_client with (op := SendCheck) (c' := c2) (evs := []) in H'; [|by apply (st_check _ _ _ t true)|done].
  apply turn_client with (op := SendRequest) (c' := c3) (evs := []) in H'; [|by apply (st_request _ _ _ t true)|done].
  apply turn_client with (op := SendRegister) (c' := c4) (evs := []) in H'; [|by apply (st_register _ _ _ t')|done].
  apply turn_client with (op := SendDone) (c' := upd_sender SIdle c4) (evs := []) in H'; [|by apply st_done|done].
  cbn [op_task] in H'. change (History [] [] [] []) with (h_nil (T := T) (R := R)) in H'.
  by rewrite !h_app_nil in H'.
Qed.

Module SystemWitness.

Definition always (_ : Z) : bool := true.
Definition svc : bytes := str_bytes "Echo"%string.
Definition meth : bytes := str_bytes "repeat"%string.
(** A method with a short answer that depends on its argument. *)
Definition first3 (b : bytes) : result bytes (RpcError (rint U8)) :=
  if bool_decide (take 3 b = []) then Err (User (RInt 3)) else Ok (take 3 b).
Definition arms : list (bytes * handler) :=
  [(meth, @service_handler _ _ _ raw_codec raw_codec _ first3)].
Definition fields : list (bytes * handler) := [(svc, service_serve arms)].
Definition dispatch : RpcSvrReq -> may (dispatched APIServerResp) := api_dispatch (mux_struct_serve fields).

Definition arg1 : bytes := str_bytes "apple"%string.
Definition arg2 : bytes := str_bytes "berry"%string.
Definition call (arg : bytes) (seq : Z) : APIClientReq :=
  APIReq (Common seq) (Some arg) (service_method svc meth) None None true 0 0.
Definition reply (arg : bytes) (seq : Z) : APIServerResp := ApiSResp seq (Some (take 3 arg)) (Some (Ok tt)).
Definition finished (arg : bytes) (seq : Z) : APIClientReq :=
  APIReq (Common seq) (Some arg) (service_method svc meth) (Some (take 3 arg)) (Some (Ok tt)) true 0 0.

(** Two calls sent, read, answered and handed back; the bytes arrive in pieces. *)
Definition submitted (arg : bytes) (seq : Z) (c : ClientStream mem_stream APIClientReq) :=
  let c2 := (send_check error_handle_default (call arg 0) true (send_start (call arg 0) true c)).1 in
  let c3 := match send_request (call arg 0) true c2 with Ret x => x | Panic => c2 end in
  let c4 := match send_register (call arg seq) c3 with Ready x => x | Pending => c3 end in
  (c2, c3, c4).

Definition c0 : ClientStream mem_stream APIClientReq := sy_client (sys_start (R := APIServerResp) 1 3 4).
Definition s0 : ServerConn mem_stream APIServerResp := sy_server (sys_start (T := APIClientReq) 1 3 4).
Definition c1 := upd_sender SIdle (submitted arg1 1 c0).2.
Definition c2 := upd_sender SIdle (submitted arg2 2 c1).2.
Definition n_up : nat := length (ms_out (client_stream c2)).
Definition c3 := on_client (drain 50) c2.
Definition s3 := on_server (feed (take 50 (ms_out (client_stream c2)))) s0.
Definition s4 := ServerWitness.read_once dispatch s3.
Definition c5 := on_client (drain 50) c3.
Definition s5 := on_server (feed (take 50 (ms_out (client_stream c3)))) s4.
Definition s6 := ServerWitness.read_once dispatch s5.
Definition s7 := ServerWitness.write_once s6.
Definition s8 := ServerWitness.write_once s7.
Definition c9 := on_client (feed (take 100 (ms_out (stream_of s8)))) c5.
Definition s9 := on_server (drain 100) s8.
Definition c10 := recv_head c9.
Definition read_head (c : ClientStream mem_stream APIClientReq) := match recv_read always error_handle_default true c with Ret (x, _) => x | Panic => c end.
Definition read_body (c : ClientStream mem_stream APIClientReq) := match cs_recv c with
  | RInBody open head pc => (recv_body always error_handle_default open head pc c).1
  | _ => c
  end.
Definition c11 := read_head c10.
Definition c12 := read_body c11.
Definition c13 := recv_head c12.
Definition c14 := read_head c13.
Definition c15 := read_body c14.

Definition view (arg : bytes) (seq : Z) : RpcSvrReq := SvrReq seq (AStr (service_method svc meth)) arg None.
Definition seen : history APIClientReq APIServerResp :=
  History [call arg1 0; call arg2 0] [view arg1 1; view arg2 2] [Ok (reply arg1 1); Ok (reply arg2 2)]
    [EvDone (finished arg1 1); EvDone (finished arg2 2)].

Abbreviation run := (sys_run always error_handle_default dispatch 1 3 4).

Lemma submit_run arg seq c h :
  let x := submitted arg seq c in
  run (Sys c s0) h -> cs_sender c = SIdle -> pending_task_count (cs_timer c) + 1 < 2 ^ 64 ->
  send_check error_handle_default (call arg 0) true (send_start (call arg 0) true c) = (x.1.1, []) ->
  cs_sender (send_start (call arg 0) true c) = SAnnounced (call arg 0) true ->
  send_request (call arg 0) true x.1.1 = Ret x.1.2 -> cs_sender x.1.1 = SSending (call arg 0) true ->
  cs_seq x.1.1 + 1 < 2 ^ 64 -> send_register (call arg seq) x.1.2 = Ready x.2 ->
  cs_sender x.1.2 = SReg (call arg seq) -> cs_sender x.2 = SThrottle ->
  run (Sys (upd_sender SIdle x.2) s0) (h_app h (History [call arg 0] [] [] [])).
Proof. intros x. apply turn_submit. Qed.

Lemma sent_run : run (Sys c2 s0) (History [call arg1 0; call arg2 0] [] [] []).
Proof.
  assert (H : run (Sys c0 s0) h_nil) by apply sy_nil.
  apply submit_run with (arg := arg1) (seq := 1) in H; [|by vm_compute..]. fold c1 in H.
  apply submit_run with (arg := arg2) (seq := 2) in H; [|by vm_compute..]. fold c2 in H. exact H.
Qed.

Lemma served_run : run (Sys c5 s8) (History [call arg1 0; call arg2 0] [view arg1 1; view arg2 2]
  [Ok (reply arg1 1); Ok (reply arg2 2)] []).
Proof.
  pose proof (turn_up _ _ _ _ _ _ _ _ _ sent_run 50) as H. fold c3 s3 in H.
  apply turn_server with (s' := s4) (reqs := [view arg1 1]) (outs := []) in H.
  2: { apply (sv_read _ _ _ false s4 (Some (view arg1 1))); by vm_compute. }
  pose proof (turn_up _ _ _ _ _ _ _ _ _ H 50) as H'. fold c5 s5 in H'.
  apply turn_server with (s' := s6) (reqs := [view arg2 2]) (outs := []) in H'.
  2: { apply (sv_read _ _ _ false s6 (Some (view arg2 2))); by vm_compute. }
  apply turn_server with (s' := s7) (reqs := []) (outs := [Ok (reply arg1 1)]) in H'.
  2: { apply (sv_write _ _ _ s7 (Some (Ok (reply arg1 1)))); by vm_compute. }
  apply turn_server with (s' := s8) (reqs := []) (outs := [Ok (reply arg2 2)]) in H'.
  2: { apply (sv_write _ _ _ s8 (Some (Ok (reply arg2 2)))); by vm_compute. }
  exact H'.
Qed.

Lemma read_run c h arg seq open :
  run (Sys c s9) h -> cs_recv c = RLoop -> cs_recv (recv_head c) = RReading open -> open = true ->
  recv_read always error_handle_default true (recv_head c) = Ret (read_head (recv_head c), []) ->
  let c' := read_head (recv_head c) in
  match cs_recv c' with
  | RInBody o head pc =>
    recv_body always error_handle_default o head pc c' = (read_body c', [EvDone (finished arg seq)])
  | _ => False
  end -> run (Sys (read_body c') s9) (h_app h (History [] [] [] [EvDone (finished arg seq)])).
Proof.
  intros H Hl Hr -> E. cbn zeta. set (c' := read_head (recv_head c)) in *.
  destruct (cs_recv c') as [| | |o head pc| | |] eqn:Er; try done. intros Eb.
  pose proof (turn_client _ _ _ _ _ _ _ _ _ H RecvHead _ [] (st_head _ _ c Hl) I) as H1.
  apply turn_client with (op := RecvRead) (c' := c') (evs := []) in H1; [|by apply (st_read _ _ _ true)|done].
  cbn [op_task] in H1. change (History [] [] [] []) with (h_nil (T := APIClientReq) (R := APIServerResp)) in H1.
  rewrite !h_app_nil in H1. apply (turn_client _ _ _ _ _ _ _ _ _ H1 RecvBody); [by apply (st_body _ _ _ o head pc)|done].
Qed.

Lemma seen_run : run (Sys c15 s9) seen.
Proof.
  pose proof (turn_down _ _ _ _ _ _ _ _ _ served_run 100) as H. fold c9 s9 in H.
  apply read_run with (arg := arg1) (seq := 1) (open := true) in H; [|by vm_compute..].
  apply read_run with (arg := arg2) (seq := 2) (open := true) in H; [|by vm_compute..]. exact H.
Qed.

Lemma fields_fit : handler_fits (mux_struct_serve fields).
Proof.
  apply mux_struct_fits. constructor; [|constructor]. apply service_serve_fits. constructor; [|constructor].
  apply service_handler_fits. intros b. unfold first3. destruct (bool_decide _); [by vm_compute|].
  change (zlen (take 3 b) + 0 <= I32_MAX). unfold I32_MAX, zlen. rewrite length_take. lia.
Qed.

Lemma calls_sendable t : t ∈ h_tasks seen -> action_sendable (AStr (api_action t)).
Proof.
  intros Ht. repeat (apply elem_of_cons in Ht as [-> |Ht]; [split; by vm_compute|]). by apply elem_of_nil in Ht.
Qed.

Lemma one_u64 : is_u64 1.
Proof. split; vm_compute; congruence. Qed.

Lemma no_cross_talk_witness :
  Forall (fun ev => own_failure error_handle_default ev \/ answered error_handle_default dispatch seen ev)
    [EvDone (finished arg1 1); EvDone (finished arg2 2)].
Proof.
  destruct (no_cross_talk always error_handle_default dispatch 1 3 4 (fun t => eq_refl) api_no_blob
    (fun n _ => eq_refl) one_u64 api_encode_appends (fun req m _ => api_answers_ok _ req m fields_fit)
    (Sys c15 s9) seen) as [H _].
  - lia.
  - intros t Ht k. exact (calls_sendable t Ht).
  - exact seen_run.
  - exact H.
Defined.

Abbreviation gets := (caller_gets (E := rint U8) (Codec1 := raw_codec)).

Lemma concurrent_calls_witness :
  EvDone (finished arg2 2) ∈ h_evs seen /\
  (gets (EvDone (finished arg2 2)) (first3 arg2) \/ gets (EvDone (finished arg2 2)) (Err (Rpc IO)) \/
   gets (EvDone (finished arg2 2)) (Err (Rpc Timeout))).
Proof.
  assert (Hin : EvDone (finished arg2 2) ∈ h_evs seen) by (right; by left).
  split; [exact Hin|].
  apply (concurrent_calls (Codec0 := raw_codec) (Codec1 := raw_codec) always (fun n _ => eq_refl) 1 3 4 one_u64
    ltac:(lia) fields arms fields_fit first3 arg2 arg2 svc meth (Sys c15 s9) seen).
  - reflexivity.
  - reflexivity.
  - vm_compute. intros H. repeat (apply elem_of_cons in H as [H|H]; [discriminate|]). by apply elem_of_nil in H.
  - reflexivity.
  - exists (take 3 arg2). split; [reflexivity|]. split; [discriminate|]. vm_compute. congruence.
  - exact calls_sendable.
  - exact seen_run.
  - exact Hin.
  - reflexivity.
Defined.

End SystemWitness.
