(* ===== verification/SystemRun.v ===== *)
(** * Schedules of the system

    A schedule says who moves next: a call of [send_task], a piece of the
    network's bytes, a turn of the server's reader, worker or writer, a turn of
    the client's receiver. [run_schedule] carries one out; what it reaches is a run of
    [System], so concrete runs need only be computed. *)
From Stdlib Require Import ZArith Lia.
From stdpp Require Import base list.
From S2P Require Import Prelude Errors Task ApiClient Proto BTree Timer Net TcpClient ServerTask TcpServer ApiServer EndToEnd Server Stream StreamInv StreamTrace Wire System SystemEnds SystemInv SystemCall.
Local Open Scope Z_scope.
Local Open Scope rpc_scope.

Inductive turn (T : Type) : Type :=
| TSend (t : T)          (** a whole call of [send_task], flushing *)
| TUp (n : nat)          (** at most [n] bytes reach the server *)
| TServe                 (** the server reads a request *)
| TWork (i : nat)        (** the worker at place [i] is done *)
| TWrite                 (** the server writes a response *)
| TDown (n : nat)        (** at most [n] bytes reach the client *)
| TReceive.              (** the receiver reads a response *)
Arguments TSend {T}.
Arguments TUp {T}.
Arguments TServe {T}.
Arguments TWork {T}.
Arguments TWrite {T}.
Arguments TDown {T}.
Arguments TReceive {T}.

Section schedule.
Context {T : Type} `{!ClientTask T} {R : Type} `{!ServerTaskEncode R}.
Context (buffer_alloc : Z -> bool) (error_handle : T -> event T) (dispatch : RpcSvrReq -> may (dispatched R)).
Context (cid timeout thr : Z).
Local Abbreviation run := (sys_run buffer_alloc error_handle dispatch cid timeout thr).
Implicit Types (c : ClientStream mem_stream T) (s : ServerConn mem_stream R) (h : history T R).

(** A call that is not refused and whose request can be written. *)
Definition send_turn (t : T) c : option (ClientStream mem_stream T) :=
  let c1 := send_start t true c in
  match cs_sender c, cs_sender c1, cs_closed c,
    (pending_task_count (cs_timer c) + 1 <? 2 ^ 64) && (cs_seq c + 1 <? 2 ^ 64) with
  | SIdle, SAnnounced _ nf, false, true =>
    match send_request t nf (upd_sender (SSending t nf) c1) with
    | Ret c3 =>
      match cs_sender c3 with
      | SReg t3 =>
        match send_register t3 c3 with
        | Ready c4 => match cs_sender c4 with SThrottle => Some (upd_sender SIdle c4) | _ => None end
        | Pending => None
        end
      | _ => None
      end
    | Panic => None
    end
  | _, _, _, _ => None
  end.

(** The rest of the body that is being read. *)
Fixpoint body_turn (fuel : nat) c : ClientStream mem_stream T * list (event T) :=
  match fuel, cs_recv c with
  | Datatypes.S fuel', RInBody open head pc =>
    let '(c, evs) := recv_body buffer_alloc error_handle open head pc c in
    let '(c, evs') := body_turn fuel' c in (c, evs ++ evs')
  | _, _ => (c, [])
  end.

Definition receive_turn c : option (ClientStream mem_stream T * list (event T)) :=
  match cs_recv c, cs_recv (recv_head c) with
  | RLoop, RReading open =>
    match recv_read buffer_alloc error_handle open (recv_head c) with
    | Ret (c, evs) => let '(c, evs') := body_turn 2 c in Some (c, evs ++ evs')
    | Panic => None
    end
  | _, _ => None
  end.

Definition serve_turn s : option (ServerConn mem_stream R * option RpcSvrReq) :=
  if sc_reading s
  then match reader_step buffer_alloc dispatch false s with Ret x => Some x | Panic => None end
  else None.

Definition write_turn s : option (ServerConn mem_stream R * option (noti_msg R)) :=
  match writer_step s with Ret (Ready x) => Some x | _ => None end.

(** The history of what a turn shows. *)
Definition saw (ts : list T) (reqs : list RpcSvrReq) (outs : list (noti_msg R)) (evs : list (event T)) : history T R :=
  History ts reqs outs evs.

Definition run_turn (x : turn T) (sys : System T R) : option (System T R * history T R) :=
  let 'Sys c s := sys in
  match x with
  | TSend t => c' ← send_turn t c; Some (Sys c' s, saw [t] [] [] [])
  | TUp n => Some (Sys (on_client (drain n) c) (on_server (feed (take n (ms_out (client_stream c)))) s), h_nil)
  | TServe => y ← serve_turn s; Some (Sys c y.1, saw [] (option_list y.2) [] [])
  | TWork i => s' ← job_step i s; Some (Sys c s', saw [] [] [] [])
  | TWrite => y ← write_turn s; Some (Sys c y.1, saw [] [] (option_list y.2) [])
  | TDown n => Some (Sys (on_client (feed (take n (ms_out (stream_of s)))) c) (on_server (drain n) s), h_nil)
  | TReceive => y ← receive_turn c; Some (Sys y.1 s, saw [] [] [] y.2)
  end.

Fixpoint run_schedule (xs : list (turn T)) (sys : System T R) (h : history T R) : option (System T R * history T R) :=
  match xs with
  | [] => Some (sys, h)
  | x :: xs => y ← run_turn x sys; run_schedule xs y.1 (h_app h y.2)
  end.

(** *** Schedules are runs *)

Lemma send_turn_run t c c' s h :
  send_turn t c = Some c' -> run (Sys c s) h -> run (Sys c' s) (h_app h (saw [t] [] [] [])).
Proof.
  unfold send_turn. cbn [send_start cs_sender upd_sender]. intros H Hr.
  destruct (cs_sender c) eqn:Es; try done. destruct (cs_closed c) eqn:Ec; [done|].
  destruct (_ && _) eqn:Eb; [|done]. apply andb_prop in Eb as [E1%Z.ltb_lt E2%Z.ltb_lt].
  destruct (send_request _ _ _) as [c3|] eqn:E3; [|done]. destruct (cs_sender c3) as [| | | |t3| | |] eqn:P3; try done.
  destruct (send_register t3 c3) as [c4|] eqn:E4; [|done]. destruct (cs_sender c4) eqn:P4; try done.
  assert (Hnf : (if nearly_full (get_inflight_count c) (cs_thresholds c) then true else true) = true)
    by (by destruct (nearly_full _ _)).
  injection H as <-. rewrite Hnf in E3. cbn in E1, E2.
  apply (turn_submit _ _ _ _ _ _ _ _ _ t t3 (upd_sender (SSending t true) (send_start t true c)) c3 c4 Hr); try done.
  - unfold send_check. change (cs_closed (send_start t true c)) with (cs_closed c). by rewrite Ec.
  - cbn. by rewrite Hnf.
Qed.

Lemma h_app_evs h e1 e2 : h_app (h_app h (saw [] [] [] e1)) (saw [] [] [] e2) = h_app h (saw [] [] [] (e1 ++ e2)).
Proof. unfold h_app, saw; cbn. by rewrite !app_nil_r, app_assoc. Qed.

Lemma h_app_saw h : h_app h (saw [] [] [] []) = h.
Proof. apply h_app_nil. Qed.

Lemma body_turn_run fuel c s h c' evs :
  body_turn fuel c = (c', evs) -> run (Sys c s) h -> run (Sys c' s) (h_app h (saw [] [] [] evs)).
Proof.
  revert c h evs. induction fuel as [|fuel IH]; intros c h evs; cbn.
  { intros [= <- <-]. by rewrite h_app_saw. }
  intros H Hr. destruct (cs_recv c) as [| | |open head pc| | |] eqn:Ec;
    try (injection H as <- <-; by rewrite h_app_saw).
  destruct (recv_body _ _ open head pc c) as [c1 e1] eqn:E1. destruct (body_turn fuel c1) as [c2 e2] eqn:E2.
  injection H as <- <-. rewrite <- h_app_evs. eapply IH; [exact E2|].
  apply (turn_client _ _ _ _ _ _ _ _ _ Hr RecvBody); [by apply (st_body _ _ _ open head pc)|done].
Qed.

Lemma run_turn_ok x sys sys' h h' :
  run_turn x sys = Some (sys', h') -> run sys h -> run sys' (h_app h h').
Proof.
  destruct sys as [c s]. intros H Hr. destruct x; cbn in H.
  - destruct (send_turn t c) as [c'|] eqn:E; [|done]. injection H as <- <-. by eapply send_turn_run.
  - injection H as <- <-. rewrite h_app_nil. by apply turn_up.
  - unfold serve_turn in H. destruct (sc_reading s) eqn:Er; [|done].
    destruct (reader_step _ _ _ _) as [[s' o]|] eqn:E; [|done]. injection H as <- <-.
    apply (turn_server _ _ _ _ _ _ _ _ _ Hr). by apply (sv_read _ _ _ false).
  - destruct (job_step i s) as [s'|] eqn:E; [|done]. injection H as <- <-.
    apply (turn_server _ _ _ _ _ _ _ _ _ Hr). by apply (sv_job _ _ _ i).
  - unfold write_turn in H. destruct (writer_step s) as [[[s' o]|]|] eqn:E; try done. injection H as <- <-.
    apply (turn_server _ _ _ _ _ _ _ _ _ Hr). by apply sv_write.
  - injection H as <- <-. rewrite h_app_nil. by apply turn_down.
  - unfold receive_turn in H. destruct (cs_recv c) eqn:Ec; try done.
    destruct (cs_recv (recv_head c)) as [|open| | | | |] eqn:E; try done.
    destruct (recv_read _ _ open (recv_head c)) as [[c' evs]|] eqn:Er; [|done].
    destruct (body_turn 2 c') as [c2 e2] eqn:E2. injection H as <- <-.
    pose proof (turn_client _ _ _ _ _ _ _ _ _ Hr RecvHead _ [] (st_head _ _ c Ec) I) as H1. cbn [op_task] in H1.
    change (History [] [] [] []) with (h_nil (T := T) (R := R)) in H1. rewrite h_app_nil in H1.
    rewrite <- h_app_evs. eapply body_turn_run; [exact E2|].
    apply (turn_client _ _ _ _ _ _ _ _ _ H1 RecvRead); [by apply (st_read _ _ _ open)|done].
Qed.

Lemma run_schedule_ok xs sys h sys' h' :
  run_schedule xs sys h = Some (sys', h') -> run sys h -> run sys' h'.
Proof.
  revert sys h. induction xs as [|x xs IH]; intros sys h H Hr; cbn in H; [by injection H as <- <-|].
  destruct (run_turn x sys) as [[sys1 h1]|] eqn:E; [|done]. cbn in H.
  apply (IH _ _ H). by apply (run_turn_ok x sys).
Qed.

(** From a new connection. *)
Definition schedule_result (xs : list (turn T)) : System T R * history T R :=
  default (sys_start cid timeout thr, h_nil) (run_schedule xs (sys_start cid timeout thr) h_nil).

Lemma schedule_run xs : run (schedule_result xs).1 (schedule_result xs).2.
Proof.
  unfold schedule_result. destruct (run_schedule xs _ _) as [[sys h]|] eqn:E; cbn; [|apply sy_nil].
  eapply run_schedule_ok; [exact E|apply sy_nil].
Qed.

End schedule.
