(* ===== verification/SystemProgress.v ===== *)
(** * Nothing gets stuck

    From every state that a connection may reach, as long as neither end has
    failed or is closing, no call of [send_task] is in progress and no ping has
    been sent since the last request ([working], [serving]), the system can go
    on to hand back every request in flight with the answer to it: no
    interleaving, order of workers or cut of the byte streams has led to a
    deadlock. *)
From Stdlib Require Import ZArith Lia Strings.String.
From stdpp Require Import base list sets.
From S2P Require Import Prelude Errors Codec Task ApiClient Proto BTree Timer TimerInv Net TcpClient ServerTask TcpServer ApiServer EndToEnd Server Stream StreamInv StreamTrace StreamPoll Wire System SystemEnds SystemInv SystemCall.
Local Open Scope Z_scope.
Local Open Scope rpc_scope.

Section progress.
Context {T : Type} `{!ClientTask T} `{!ClientTaskOk T} {R : Type} `{!ServerTaskEncode R}.
Context (buffer_alloc : Z -> bool) (error_handle : T -> event T) (dispatch : RpcSvrReq -> may (dispatched R)).
Context (cid timeout thr : Z).
Implicit Types (sys : System T R) (h : history T R) (c : ClientStream mem_stream T) (s : ServerConn mem_stream R).
Abbreviation step := (sys_step buffer_alloc error_handle dispatch).
Abbreviation run := (sys_run buffer_alloc error_handle dispatch cid timeout thr).

(** ** Runs from a state *)

Inductive sys_steps : System T R -> System T R -> history T R -> Prop :=
| steps_nil sys : sys_steps sys sys h_nil
| steps_snoc sys sys1 sys2 h h' : sys_steps sys sys1 h -> step sys1 sys2 h' -> sys_steps sys sys2 (h_app h h').

Lemma h_app_assoc h1 h2 h3 : h_app h1 (h_app h2 h3) = h_app (h_app h1 h2) h3.
Proof. unfold h_app; cbn. by rewrite !app_assoc. Qed.

Lemma h_nil_app h : h_app h_nil h = h.
Proof. by destruct h. Qed.

Lemma steps_one sys sys' h : step sys sys' h -> sys_steps sys sys' h.
Proof. intros H. rewrite <- (h_nil_app h). eapply steps_snoc; [apply steps_nil|done]. Qed.

Lemma steps_trans sys sys1 sys2 h h' :
  sys_steps sys sys1 h -> sys_steps sys1 sys2 h' -> sys_steps sys sys2 (h_app h h').
Proof.
  intros H H'. revert H. induction H' as [sys1|sys1 sys2 sys3 h1 h2 _ IH Hs]; intros H; [by rewrite h_app_nil|].
  rewrite h_app_assoc. eapply steps_snoc; [by apply IH|done].
Qed.

Lemma run_steps sys sys' h h' : run sys h -> sys_steps sys sys' h' -> run sys' (h_app h h').
Proof.
  intros H Hs. induction Hs as [sys|sys sys1 sys2 h1 h2 _ IH Hs]; [by rewrite h_app_nil|].
  rewrite h_app_assoc. eapply sy_snoc; [by apply IH|done].
Qed.

(** ** The server answers everything it reads *)

Lemma run_server sys h :
  run sys h -> close_inv (sy_server sys) /\
  (writer_failed (sy_server sys) = true \/
   h_outs h ++ outstanding (sy_server sys) ≡ₚ concat (map (answers dispatch) (h_reqs h))).
Proof.
  assert (Hon : forall f s, close_inv s -> close_inv (on_server f s)) by done.
  induction 1 as [|sys sys' h h' _ [IHc IHp] Hst]; [by split; [|right]|].
  destruct Hst as [op c c' s evs Hs Hll|c s s' reqs outs Hs|n c s|n c s|c s|c s];
    unfold h_app, h_nil; cbn [sy_server h_outs h_reqs] in *; rewrite ?app_nil_r; try (by split).
  destruct (step_answers _ _ _ _ _ _ IHc Hs) as [Hc Hp]. split; [done|].
  destruct IHp as [Hf|IHp]; [left; by eapply step_failed|]. destruct Hp as [Hf|Hp]; [by left|right].
  rewrite map_app, concat_app, <- IHp, <- app_assoc, Hp, !app_assoc. done.
Qed.

(** A server that works: it reads, and its writer is there and can write. *)
Record serving s : Prop := Serving {
  sv_reading : sc_reading s = true;
  sv_writer : writer_running s;
  sv_open : ms_open (stream_of s) = true;
}.

Lemma running_open s : writer_running s -> writer_open s = true.
Proof. unfold writer_running, writer_open. by intros [-> | ->]. Qed.

Context (cid_ok : is_u64 cid).
Context (alloc_i32 : forall n, 0 < n <= I32_MAX -> buffer_alloc n = true).
Context (dispatch_total : forall req, exists d, dispatch req = Ret d).

Lemma server_reads_one c s (i : up_item (T := T)) rest :
  serving s -> up_fits cid i -> ms_in (stream_of s) = up_frame cid i ++ rest ->
  exists s', sys_steps (Sys c s) (Sys c s') (History [] [up_view i] [] []) /\ serving s' /\ ms_in (stream_of s') = rest.
Proof using cid_ok alloc_i32 dispatch_total.
  intros [Hr Hw Ho] Hf Hi. pose proof (running_open s Hw) as Hop.
  destruct (up_reads buffer_alloc cid cid_ok alloc_i32 i (sc_conn s) rest Hf Hi) as (conn & E & Hrest).
  pose proof (read_req_out _ _ _ _ _ E) as [_ Hopen]. specialize (Hopen Ho).
  assert (Hx : exists s', reader_step buffer_alloc dispatch false s = Ret (s', Some (up_view i)) /\
    sc_conn s' = conn /\ sc_reading s' = true /\ sc_writer s' = sc_writer s).
  { unfold reader_step. rewrite E. cbn [may_bind]. cbn zeta.
    change (writer_open s) with (writer_open (upd_srv_conn conn s)) in Hop.
    destruct (is_ping (up_view i)); [rewrite send_quick_open by done; by eexists|].
    destruct (dispatch_total (up_view i)) as [d ->]. cbn [may_bind]. rewrite send_now_eq, Hop.
    destruct (dp_res d); [|rewrite send_quick_open by done]; by eexists. }
  destruct Hx as (s' & Es & Ec & Er & Ew). exists s'. split; [|split].
  - apply steps_one, sy_server_step. exact (sv_read _ _ s false s' (Some (up_view i)) Hr Es).
  - split; [done|unfold writer_running in *; by rewrite Ew|unfold stream_of; by rewrite Ec].
  - unfold stream_of. by rewrite Ec.
Qed.

Lemma server_reads c s (pend : list (up_item (T := T))) :
  serving s -> Forall (up_fits cid) pend -> ms_in (stream_of s) = concat (map (up_frame cid) pend) ->
  exists s', sys_steps (Sys c s) (Sys c s') (History [] (map up_view pend) [] []) /\ serving s'.
Proof using cid_ok alloc_i32 dispatch_total.
  intros Hs Hf. revert s Hs. induction Hf as [|i pend Hi _ IH]; intros s Hs Hin.
  - exists s. split; [apply steps_nil|done].
  - destruct (server_reads_one c s i _ Hs Hi Hin) as (s1 & Hx & Hs1 & Hin1).
    destruct (IH s1 Hs1 Hin1) as (s2 & Hx2 & Hs2). exists s2. split; [|done]. exact (steps_trans _ _ _ _ _ Hx Hx2).
Qed.

Lemma server_works c s : serving s -> exists s', sys_steps (Sys c s) (Sys c s') h_nil /\ serving s' /\ sc_jobs s' = [].
Proof.
  remember (length (sc_jobs s)) as n eqn:E. revert s E. induction n as [|n IH]; intros s E Hs.
  - exists s. split; [apply steps_nil|]. split; [done|]. by apply nil_length_inv.
  - destruct (sc_jobs s) as [|r js] eqn:Ej; [done|].
    set (s1 := upd_jobs js (upd_queue (noti_done (writer_open s) r (sc_queue s)) s)).
    assert (Hj : job_step 0 s = Some s1) by (unfold job_step; by rewrite Ej).
    destruct (IH s1) as (s2 & Hx & Hs2 & He); [by injection E|by destruct Hs as [? ? ?]; split|].
    exists s2. split; [|done]. rewrite <- (h_nil_app h_nil).
    eapply steps_trans; [apply steps_one, sy_server_step; exact (sv_job _ _ s 0 s1 Hj)|exact Hx].
Qed.

Lemma server_writes c s :
  serving s -> sc_jobs s = [] -> (forall m, m ∈ sc_queue s -> exists b, msg_frame m b) ->
  exists s' outs, sys_steps (Sys c s) (Sys c s') (History [] [] outs []) /\ serving s' /\ outstanding s' = [].
Proof.
  remember (sc_queue s) as q eqn:Eq. revert s Eq. induction q as [|m q IH]; intros s Eq Hs Hj Hf.
  - exists s, []. split; [apply steps_nil|]. split; [done|]. unfold outstanding. by rewrite <- Eq, Hj.
  - destruct Hs as [Hr Hw Ho]. destruct (Hf m) as [b Hb]; [by left|].
    destruct (writer_step_msg s m b q Hw (eq_sym Eq) Hb) as (s1 & E & Ew & Eq1 & Ej & Er & _ & Ho1); [exact Ho|].
    destruct (IH s1) as (s2 & outs & Hx & Hs2 & He); [by rewrite Eq1|split; [congruence|by right|exact Ho1]|congruence| |].
    { intros m' Hm'. apply Hf. by right. }
    exists s2, (m :: outs). split; [|done].
    eapply (steps_trans _ _ _ (History [] [] [m] []) (History [] [] outs [])); [|exact Hx].
    apply steps_one, sy_server_step. exact (sv_write _ _ s s1 (Some m) E).
Qed.

(** ** The client reads everything it is sent *)

(** A client that works: no call of [send_task] is in progress, the receiver
    reads, and no ping has been sent since the last request. *)
Record working c : Prop := Working {
  hc_idle : cs_sender c = SIdle;
  hc_recv : receiving (cs_recv c) = true;
  hc_open : cs_closed c = false;
  hc_fired : cs_close_fired c = false;
  hc_reg : reg_stopped_flag (cs_timer c) = false;
  hc_pings : cs_seq c = newest (cs_timer c) + 1;
}.

Context (error_handle_task : forall t, ev_task (error_handle t) = t).
Context (reserve_exact : forall (t t' : T) n m, 0 < n -> reserve_resp_blob t n = (t', Some m) -> m = n).

(** What has become of the tasks that waited in [c], after [evs]. *)
Definition handed_on (pend : list down_item) c c' (evs : list (event T)) : Prop :=
  (forall k t, (k, t) ∈ live (cs_timer c) ->
    (exists i, i ∈ pend /\ i.1 = k /\ outcome_event error_handle i.2 t ∈ evs) \/
    (Forall (fun i => i.1 <> k) pend /\ (k, t) ∈ live (cs_timer c'))) /\
  (forall k t, (k, t) ∈ live (cs_timer c') -> (k, t) ∈ live (cs_timer c) /\ Forall (fun i => i.1 <> k) pend).

(** The next frame is there: it is read. *)
Lemma take_ready i tm :
  timer_inv tm -> reg_stopped_flag tm = false -> i <= newest tm ->
  exists o, (take_task i tm).2 = Ready o /\
    live (take_task i tm).1 = bt_without i (live tm) /\ o = bt_lookup i (live tm) /\
    reg_stopped_flag (take_task i tm).1 = false /\ newest (take_task i tm).1 = newest tm.
Proof.
  intros H Hr Hi. destruct (take_task_live i tm H (or_introl Hr)) as (_ & Hl & Ha).
  rewrite take_task_flag, newest_take_task by done. unfold take_answer in Ha.
  exists (bt_lookup i (live tm)). rewrite Ha. split; [|done].
  destruct (bt_lookup i (live tm)); [done|]. by rewrite (proj2 (Z.ltb_ge _ _)).
Qed.

Section reads.
Context (good : event T -> Prop).
Abbreviation down_ok := (down_ok buffer_alloc error_handle good).

(** The receiver at the head of its loop, after a read. *)
Definition read_to (conn : TcpClient mem_stream) tm c : ClientStream mem_stream T :=
  upd_recv RLoop (upd_timer tm (upd_conn conn c)).

(** A body that is all there is read to its end. *)
Lemma body_steps n open hd (conn : TcpClient mem_stream) e (q : body_state T) tm evs rest c s :
  run_ok buffer_alloc error_handle n hd (conn, e, q) evs rest ->
  exists conn' evs', evs = e ++ evs' /\ ms_in (tc_stream conn') = rest /\
    sys_steps (Sys (recv_result open (read_resp_finish hd (conn, e, q) tm).2 (upd_timer tm (upd_conn conn c))) s)
      (Sys (read_to conn' tm c) s) (History [] [] [] evs').
Proof.
  revert conn e q evs. induction n as [|n IH]; intros conn e q evs (c' & E & Hi); destruct q as [r|pc]; try done;
    try (cbn in E; injection E as <- <- ->; exists conn, []; rewrite app_nil_r; split; [done|]; split; [done|];
      apply steps_nil).
  rewrite body_run_read in E. destruct (recv_resp_poll buffer_alloc error_handle hd pc conn) as [[c1 e1] q1] eqn:Ep.
  destruct (body_run _ _ n hd _) as [[[c2 e2] r]|] eqn:Er; cbn [may_bind] in E; [|done]. injection E as -> <- ->.
  destruct (IH c1 e1 q1 e2) as (conn' & evs' & -> & Hin & Hx); [by exists c'|].
  exists conn', (e1 ++ evs'). split; [done|]. split; [done|].
  set (c0 := recv_result open (read_resp_finish hd (conn, e, BRead pc) tm).2 (upd_timer tm (upd_conn conn c))).
  eapply (steps_trans _ _ _ (History [] [] [] e1) (History [] [] [] evs')); [|exact Hx].
  apply steps_one. apply (sy_client_step buffer_alloc error_handle dispatch RecvBody c0 _ s e1); [|done].
  apply (st_body _ _ c0 open hd pc); [done|]. unfold recv_body, read_resp_body. cbn [cs_conn c0 read_resp_finish snd
    recv_result upd_recv upd_timer upd_conn cs_timer]. rewrite Ep. by destruct q1 as [[u|u]|pc1].
Qed.

(** What waits after one response. *)
Lemma handed_frame i c conn' tm o evs :
  timer_inv (cs_timer c) -> down_fits i -> live tm = bt_without i.1 (live (cs_timer c)) ->
  o = bt_lookup i.1 (live (cs_timer c)) ->
  evs = events_for error_handle (outcome_head i.1 i.2) (outcome_body i.2) o -> handed_on [i] c (read_to conn' tm c) evs.
Proof.
  intros Ht [_ Hf] Hl Elk ->.
  assert (Hwo : forall k t, (k, t) ∈ bt_without i.1 (live (cs_timer c)) <-> (k, t) ∈ live (cs_timer c) /\ i.1 <> k).
  { intros k t. unfold bt_without. rewrite !list_elem_of_In, filter_In. cbn. rewrite negb_true_iff, Z.eqb_neq.
    split; intros [? ?]; split; congruence. }
  unfold handed_on. cbn [cs_timer read_to upd_recv upd_timer]. rewrite Hl. split.
  2: { intros k t [Hin' Hne]%Hwo. split; [done|]. by constructor. }
  intros k t Hin'. destruct (decide (i.1 = k)) as [E|E].
  - left. exists i. split; [by left|]. split; [done|].
    rewrite (proj2 (bt_lookup_Some i.1 t _ (inv_sorted _ Ht))) in Elk by (by rewrite E). subst o. cbn.
    rewrite resp_event_outcome by done. by left.
  - right. split; [by constructor|]. by apply Hwo.
Qed.

(** The header has been read, or had been: the task is looked up. *)
Lemma frame_steps op open c s i pend conn :
  working c -> timer_inv (cs_timer c) -> down_fits i -> i.1 <= newest (cs_timer c) ->
  zlen (tc_resp_buf conn) = rs_msg_len (outcome_head i.1 i.2) ->
  ms_in (tc_stream conn) = outcome_body i.2 ++ down_bytes pend -> op_task op = [] -> lossless op ->
  (forall o conn' tm evs r, (take_task i.1 (cs_timer c)).2 = Ready o ->
    (let? y := recv_resp_taken buffer_alloc error_handle (outcome_head i.1 i.2) o conn in
     Ret (read_resp_finish (outcome_head i.1 i.2) y (take_task i.1 (cs_timer c)).1)) = Ret (conn', tm, evs, r) ->
    stream_step buffer_alloc error_handle op c (recv_result open r (upd_timer tm (upd_conn conn' c))) evs) ->
  exists c' evs, sys_steps (Sys c s) (Sys c' s) (History [] [] [] evs) /\ working c' /\ down_ok [] pend c' /\
    newest (cs_timer c') = newest (cs_timer c) /\ handed_on [i] c c' evs /\ recv_body_pc (cs_recv c') = None.
Proof using reserve_exact alloc_i32.
  intros [H1 H2 H3 H4 H5 H6] Ht Hf Hi Hl Hin Hop Hll Hst. destruct (down_sane i Hf) as [Hsane Hlen].
  change (incoming (tc_stream conn) = outcome_body i.2 ++ down_bytes pend) in Hin.
  destruct (take_ready i.1 (cs_timer c) Ht H5 Hi) as (o & Ho & Hlv & Elk & Hg & Hn).
  destruct (recv_resp_taken_ok buffer_alloc error_handle reserve_exact alloc_i32 _ o conn
    (outcome_body i.2) (down_bytes pend) Hsane Hl Hin Hlen) as ([[c1 e1] q] & Ey & Hy).
  specialize (Hst o). rewrite Ey in Hst. cbn [may_bind] in Hst. set (tm := (take_task i.1 (cs_timer c)).1) in *.
  destruct (body_steps 2 open _ c1 e1 q tm _ _ c s Hy) as (conn' & evs' & Eev & Hin' & Hx).
  assert (Hs : stream_step buffer_alloc error_handle op c
    (recv_result open (read_resp_finish (outcome_head i.1 i.2) (c1, e1, q) tm).2 (upd_timer tm (upd_conn c1 c))) e1).
  { apply (Hst _ _ _ _ Ho). by destruct q as [[u|u]|pc]. }
  exists (read_to conn' tm c), (e1 ++ evs'). split; [|split; [|split; [|split; [|split]]]].
  - pose proof (sy_client_step buffer_alloc error_handle dispatch op c _ s _ Hs Hll) as Hy1. rewrite Hop in Hy1.
    exact (steps_trans _ _ _ _ _ (steps_one _ _ _ Hy1) Hx).
  - split; cbn; try done. by rewrite Hn.
  - unfold down_ok, SystemEnds.down_ok; cbn. by rewrite app_nil_r.
  - exact Hn.
  - by apply (handed_frame i c conn' tm o).
  - done.
Qed.

(** No body is half-way. *)
Definition between c : Prop := recv_body_pc (cs_recv c) = None.

Definition reads_frame c s i pend : Prop :=
  exists c' evs, sys_steps (Sys c s) (Sys c' s) (History [] [] [] evs) /\ working c' /\ down_ok [] pend c' /\
    newest (cs_timer c') = newest (cs_timer c) /\ handed_on [i] c c' evs /\ between c'.

Lemma header_steps c s i pend open :
  cs_recv c = RReading open -> sound c -> working c -> down_fits i ->
  i.1 <= newest (cs_timer c) -> down_ok [] (i :: pend) c -> reads_frame c s i pend.
Proof using reserve_exact alloc_i32.
  intros Hr (n & l & hd & Hi) Hw Hf Hle Hd. pose proof (si_timer _ _ _ _ Hi) as Ht.
  unfold SystemEnds.down_ok in Hd. rewrite Hr, app_nil_r, down_bytes_cons in Hd. destruct (down_sane i Hf) as [Hsane Hlen].
  change (incoming (tc_stream (cs_conn c)) =
    RespHead_to_bytes (outcome_head i.1 i.2) ++ outcome_body i.2 ++ down_bytes pend) in Hd.
  destruct (read_resp_head buffer_alloc error_handle _ (cs_conn c) (cs_timer c) _ Hsane Hd)
    as (c1 & E1 & Hl1 & Hin1). rewrite outcome_head_seq in E1.
  eapply (frame_steps RecvRead open); [done..|]. intros o c' tm evs r Ho E.
  apply (st_read _ _ _ open); [done|]. unfold recv_read. rewrite E1.
  destruct (take_task i.1 (cs_timer c)) as [tm1 o1]. cbn [fst snd] in *. subst o1. by rewrite E.
Qed.

Lemma client_reads_one c s i pend :
  sound c -> working c -> between c -> down_fits i -> i.1 <= newest (cs_timer c) -> down_ok [] (i :: pend) c ->
  reads_frame c s i pend.
Proof using reserve_exact alloc_i32.
  intros Hs Hw Hb Hf Hle Hd. pose proof (hc_recv c Hw) as Hr. unfold between in Hb.
  destruct (cs_recv c) as [|open|open hd|open hd pc|f|f|] eqn:Er; try done.
  - assert (Hst : stream_step buffer_alloc error_handle RecvHead c (upd_recv (RReading true) c) []).
    { replace (upd_recv (RReading true) c) with (recv_head c); [by apply st_head|].
      unfold recv_head. by rewrite (hc_open c Hw). }
    destruct (header_steps (upd_recv (RReading true) c) s i pend true) as (c' & evs & Hx & Hrest);
      [done| | |done|done| |].
    + destruct Hs as (n & l & hd & Hi). exists n, l, hd.
      apply (inv_recv n l hd hd c); [done|by left|rewrite Er; cbn; lia].
    + by destruct Hw; split.
    + unfold SystemEnds.down_ok in *. by rewrite Er in Hd.
    + exists c', evs. split; [|exact Hrest].
      pose proof (sy_client_step buffer_alloc error_handle dispatch RecvHead c _ s _ Hst I) as Hy. cbn [op_task] in Hy.
      exact (steps_trans _ _ _ _ _ (steps_one _ _ _ Hy) Hx).
  - by apply (header_steps c s i pend open).
  - destruct Hs as (n & l & hd0 & Hi). pose proof (si_timer _ _ _ _ Hi) as Ht.
    unfold SystemEnds.down_ok in Hd. rewrite Er in Hd. destruct Hd as (i0 & pend0 & [= <- <-] & -> & Hbuf & Hin).
    rewrite app_nil_r in Hin.
    eapply (frame_steps RecvResume open); [done..|]. intros o c' tm evs r Ho E.
    apply (st_resume _ _ _ open (outcome_head i.1 i.2)); [done|]. unfold recv_resume, read_resp_resume.
    rewrite outcome_head_seq, take_task_resume_eq by done.
    destruct (take_task i.1 (cs_timer c)) as [tm1 o1]. cbn [fst snd] in *. subst o1. by rewrite E.
Qed.

(** The body that is half-way first. *)
Lemma client_body c s pend :
  working c -> down_ok [] pend c ->
  exists c' evs, sys_steps (Sys c s) (Sys c' s) (History [] [] [] evs) /\ working c' /\ down_ok [] pend c' /\
    cs_timer c' = cs_timer c /\ between c'.
Proof.
  intros Hw Hd. pose proof (hc_recv c Hw) as Hr. unfold between.
  destruct (cs_recv c) as [|open|open hd|open hd pc|f|f|] eqn:Er; try done;
    try (exists c, []; split; [apply steps_nil|]; by rewrite Er).
  unfold SystemEnds.down_ok in Hd. rewrite Er in Hd. destruct Hd as (evs & Hrun%run_ok_here & _).
  destruct (body_steps 2 open hd (cs_conn c) [] (BRead pc) (cs_timer c) _ _ c s Hrun) as (conn' & evs' & _ & Hin & Hx).
  exists (read_to conn' (cs_timer c) c), evs'. split; [|split; [|split; [|done]]].
  - replace (recv_result open _ _) with c in Hx; [exact Hx|]. destruct c. cbn in *. by rewrite Er.
  - destruct Hw; by split.
  - unfold SystemEnds.down_ok; cbn. by rewrite app_nil_r.
Qed.

Lemma steps_sound sys sys' h : sys_steps sys sys' h -> sound (sy_client sys) -> sound (sy_client sys').
Proof using ClientTaskOk0 error_handle_task.
  induction 1 as [|sys sys1 sys2 h h' _ IH Hst]; [done|]. intros Hs. specialize (IH Hs).
  destruct Hst; cbn in *; try done; try by apply on_client_sound.
  by apply (sound_step buffer_alloc error_handle error_handle_task _ _ _ _ IH H).
Qed.

Lemma client_reads c s pend :
  sound c -> working c -> between c -> Forall (fun i => down_fits i /\ i.1 <= newest (cs_timer c)) pend ->
  down_ok [] pend c ->
  exists c' evs, sys_steps (Sys c s) (Sys c' s) (History [] [] [] evs) /\ handed_on pend c c' evs /\ between c'.
Proof using ClientTaskOk0 error_handle_task reserve_exact alloc_i32.
  revert c. induction pend as [|i pend IH]; intros c Hs Hw Hb Hf Hd.
  - exists c, []. split; [apply steps_nil|]. split; [|done]. split; intros k t Hin; [by right|by split].
  - apply Forall_cons in Hf as [[Hi Hle] Hf].
    destruct (client_reads_one c s i pend Hs Hw Hb Hi Hle Hd) as (c1 & e1 & Hx1 & Hw1 & Hd1 & Hn & [H1 H1'] & Hb1).
    destruct (IH c1) as (c2 & e2 & Hx2 & [H2 H2'] & Hb2); [exact (steps_sound _ _ _ Hx1 Hs)|done|done|by rewrite Hn|done|].
    exists c2, (e1 ++ e2). split; [exact (steps_trans _ _ _ _ _ Hx1 Hx2)|]. split; [|done]. split.
    2: { intros k t [Hin Hne]%H2'. apply H1' in Hin as [Hin Hne1]. apply Forall_cons in Hne1 as [Hne1 _].
      split; [done|by constructor]. }
    intros k t Hin. destruct (H1 k t Hin) as [(j & Hj & Ek & Hev)|[Hne Hin1]].
    + left. apply list_elem_of_singleton in Hj as ->. exists i. split; [by left|]. split; [done|].
      apply elem_of_app. by left.
    + apply Forall_cons in Hne as [Hne _].
      destruct (H2 k t Hin1) as [(j & Hj & Ek & Hev)|[Hne' Hin2]].
      * left. exists j. split; [by right|]. split; [done|]. apply elem_of_app. by right.
      * right. split; [by constructor|done].
Qed.

(** ... and then everything else. *)
Lemma client_finishes c s pend :
  sound c -> working c -> Forall (fun i => down_fits i /\ i.1 <= newest (cs_timer c)) pend -> down_ok [] pend c ->
  exists c' evs, sys_steps (Sys c s) (Sys c' s) (History [] [] [] evs) /\ handed_on pend c c' evs /\ between c'.
Proof using ClientTaskOk0 error_handle_task reserve_exact alloc_i32.
  intros Hs Hw Hf Hd. destruct (client_body c s pend Hw Hd) as (c1 & e1 & Hx1 & Hw1 & Hd1 & Et & Hb1).
  destruct (client_reads c1 s pend (steps_sound _ _ _ Hx1 Hs) Hw1 Hb1) as (c2 & e2 & Hx2 & [H2 H2'] & Hb2);
    [by rewrite Et|done|]. rewrite Et in H2, H2'.
  exists c2, (e1 ++ e2). split; [exact (steps_trans _ _ _ _ _ Hx1 Hx2)|]. split; [|done]. split; [|exact H2'].
  intros k t Hin. destruct (H2 k t Hin) as [(i & Hi & Ek & Hev)|?]; [left|by right].
  exists i. split; [done|]. split; [done|]. apply elem_of_app. by right.
Qed.

End reads.

(** ** Putting the phases together *)

Context (encode_req_appends : forall t : T,
  (exists msg, encodes_to t msg) \/ exists f, forall b, encode_req t b = (f b, Err tt)).
Context (answers_ok : forall req m, is_u64 (sq_seq req) -> m ∈ answers dispatch req ->
  exists o, msg_says m (sq_seq req, o) /\ outcome_fits o).

Lemma inv_steps sys sys' h h' sent back :
  sys_inv buffer_alloc error_handle dispatch cid sys h sent back -> sys_steps sys sys' h' ->
  (forall t, t ∈ h_tasks (h_app h h') -> forall k, action_sendable (get_action (set_seq t k))) ->
  exists sent' back', sys_inv buffer_alloc error_handle dispatch cid sys' (h_app h h') sent' back'.
Proof using ClientTaskOk0 error_handle_task reserve_exact alloc_i32 cid_ok encode_req_appends answers_ok.
  intros H Hs. induction Hs as [sys|sys sys1 sys2 h1 h2 _ IH Hst]; intros Ha.
  - exists sent, back. by rewrite h_app_nil.
  - assert (Ha' : forall t, t ∈ h_tasks (h_app h h1) -> forall k, action_sendable (get_action (set_seq t k))).
    { intros t Hin. apply Ha. rewrite h_app_assoc. unfold h_app at 1; cbn. rewrite elem_of_app. by left. }
    destruct (IH H Ha') as (sent' & back' & H'). rewrite h_app_assoc.
    by eapply (inv_sys_step buffer_alloc error_handle dispatch cid).
Qed.

(** ... when no task is added. *)
Lemma inv_steps_same sys sys' h h' sent back :
  sys_inv buffer_alloc error_handle dispatch cid sys h sent back -> sys_steps sys sys' h' -> h_tasks h' = [] ->
  (forall t, t ∈ h_tasks h -> forall k, action_sendable (get_action (set_seq t k))) ->
  exists sent' back', sys_inv buffer_alloc error_handle dispatch cid sys' (h_app h h') sent' back'.
Proof using ClientTaskOk0 error_handle_task reserve_exact alloc_i32 cid_ok encode_req_appends answers_ok.
  intros H Hs E Ha. eapply inv_steps; [exact H|exact Hs|]. unfold h_app; cbn. by rewrite E, app_nil_r.
Qed.

Context (answers_some : forall req, answers dispatch req <> []).

(** Everything sent reaches the server, and its answers are on their way. *)
Lemma server_catches_up c s h sent back :
  sys_inv buffer_alloc error_handle dispatch cid (Sys c s) h sent back -> serving s ->
  (forall t, t ∈ h_tasks h -> forall k, action_sendable (get_action (set_seq t k))) ->
  exists s' h', sys_steps (Sys c s) (Sys (on_client (drain (length (ms_out (client_stream c)))) c) s') h' /\
    h_tasks h' = [] /\ serving s' /\ outstanding s' = [] /\
    forall i, i ∈ sent -> up_view i ∈ h_reqs (h_app h h').
Proof using ClientTaskOk0 error_handle_task reserve_exact encode_req_appends cid_ok alloc_i32 dispatch_total answers_ok.
  intros H Hs Hsend. set (x := ms_out (client_stream c)). set (c1 := on_client (drain (length x)) c).
  set (s1 := on_server (feed (take (length x) x)) s).
  assert (H1 : sys_inv buffer_alloc error_handle dispatch cid (Sys c1 s1) h sent back) by apply (inv_up buffer_alloc error_handle dispatch cid), H.
  assert (Hx1 : sys_steps (Sys c s) (Sys c1 s1) h_nil) by (apply steps_one, sy_up).
  assert (Hs1 : serving s1) by (by destruct Hs).
  destruct (yi_up _ _ _ _ _ _ _ _ H1) as (got & pend & Esent & Ereq & Hu).
  assert (Hin : ms_in (stream_of s1) = concat (map (up_frame cid) pend)).
  { rewrite <- (Hu (sv_reading _ Hs1)). cbn. by rewrite drop_all, app_nil_r. }
  assert (Hf : Forall (up_fits cid) pend).
  { pose proof (yi_fits _ _ _ _ _ _ _ _ H1) as Hf. rewrite Esent in Hf. by apply Forall_app in Hf as [_ ?]. }
  destruct (server_reads c1 s1 pend Hs1 Hf Hin) as (s2 & Hx2 & Hs2).
  destruct (server_works c1 s2 Hs2) as (s3 & Hx3 & Hs3 & Hj).
  pose proof (steps_trans _ _ _ _ _ (steps_trans _ _ _ _ _ Hx1 Hx2) Hx3) as Hx. rewrite h_app_nil, h_nil_app in Hx.
  assert (Hsay : forall m, m ∈ sc_queue s3 -> exists b, msg_frame m b).
  { destruct (inv_steps_same _ _ _ _ _ _ H1 (steps_trans _ _ _ _ _ Hx2 Hx3) eq_refl Hsend) as (st3 & b3 & H3).
    intros m Hm.
    destruct (sayable buffer_alloc error_handle dispatch cid answers_ok _ _ _ _ m H3) as (i & Hi & Hfi).
    - unfold outstanding. rewrite elem_of_app. by left.
    - exists (down_frame i). by apply msg_says_frame. }
  destruct (server_writes c1 s3 Hs3 Hj Hsay) as (s4 & outs & Hx4 & Hs4 & Ho).
  exists s4, (h_app (History [] (map up_view pend) [] []) (History [] [] outs [])).
  split; [exact (steps_trans _ _ _ _ _ Hx Hx4)|]. split; [done|]. split; [done|]. split; [done|].
  intros i Hi. unfold h_app; cbn. rewrite Ereq, app_nil_r, <- map_app, <- Esent.
  apply list_elem_of_In, in_map, list_elem_of_In, Hi.
Qed.

(** The answer to a waiting task is among the responses not read yet. *)
Lemma answer_pending c s h sent back pend gone k t req :
  sys_inv buffer_alloc error_handle dispatch cid (Sys c s) h sent back -> back = gone ++ pend ->
  done_with (cs_timer c) gone -> reg_stopped_flag (cs_timer c) = false ->
  h_outs h ++ outstanding s ≡ₚ concat (map (answers dispatch) (h_reqs h)) -> outstanding s = [] ->
  (k, t) ∈ live (cs_timer c) -> req ∈ h_reqs h -> sq_seq req = k -> exists i, i ∈ pend /\ i.1 = k.
Proof using answers_ok answers_some.
  intros H -> Hgone Hfl Hp Ho Hin Hr Hk. rewrite Ho, app_nil_r in Hp.
  assert (Hm : exists m, m ∈ answers dispatch req).
  { destruct (answers dispatch req) as [|m l] eqn:E; [by destruct (answers_some req)|]. exists m. by left. }
  destruct Hm as [m Hm].
  assert (Hout : m ∈ h_outs h).
  { rewrite Hp. apply list_elem_of_In, in_concat. exists (answers dispatch req).
    split; [apply in_map|]; by apply list_elem_of_In. }
  destruct (list_elem_of_lookup_1 _ _ Hout) as [n Hn].
  destruct (Forall2_lookup_l _ _ _ _ _ (yi_says _ _ _ _ _ _ _ _ H) Hn) as (j & Hj & Hs).
  apply list_elem_of_lookup_2 in Hj.
  destruct (reqs_sent buffer_alloc error_handle dispatch cid _ _ _ _ _ H Hr) as (_ & _ & _ & Hu).
  destruct (answers_ok req m Hu Hm) as (o & Hs' & _). pose proof (msg_says_unique _ _ _ Hs Hs') as ->.
  exists (sq_seq req, o). split; [|done]. apply elem_of_app in Hj as [Hj|Hj]; [exfalso|done].
  specialize (Hgone Hfl). rewrite Forall_forall in Hgone. destruct (Hgone _ Hj) as [_ Hl]. cbn in Hl. rewrite Hk in Hl.
  apply bt_lookup_None in Hl. by apply bt_in_keys in Hin.
Qed.

(** A response that is on its way answers a number already given out. *)
Lemma back_low sys h sent back i :
  sys_inv buffer_alloc error_handle dispatch cid sys h sent back -> i ∈ back -> i.1 < cs_seq (sy_client sys).
Proof using answers_ok.
  intros H Hi. destruct (list_elem_of_lookup_1 _ _ Hi) as [n Hn].
  destruct (Forall2_lookup_r _ _ _ _ _ (yi_says _ _ _ _ _ _ _ _ H) Hn) as (m & Hm & Hs).
  apply list_elem_of_lookup_2 in Hm. destruct (yi_answers _ _ _ _ _ _ _ _ H m (or_introl Hm)) as (req & Hr & Ha).
  destruct (reqs_sent buffer_alloc error_handle dispatch cid _ _ _ _ _ H Hr) as (j & Hj & Ej & Hu).
  destruct (answers_ok req m Hu Ha) as (o & Hs' & _). pose proof (msg_says_unique _ _ _ Hs Hs') as ->. cbn.
  rewrite Ej, up_view_seq. pose proof (yi_low _ _ _ _ _ _ _ _ H) as Hl. rewrite Forall_forall in Hl.
  apply Hl, list_elem_of_In, in_map, list_elem_of_In, Hj.
Qed.

(** ** Properties *)

(** C3. Nothing gets stuck. Take a state that a client connection and its
    server connection reach together, in which the client's sender is between
    two calls of [send_task] and no ping has been sent since its last request,
    its receiver reads, nothing has been closed or has failed at either end, and
    the server reads and writes. Whatever has happened before, however the byte
    streams are cut and wherever the receiver and the server's coroutines are,
    the system can go on, without a new request or a failure, to a state in
    which no task waits any more and none is in the future that reads its
    response, and each task that waited has been handed back with the server's
    answer to its own request. (A ping sent since the last request can hold all
    the answers up: [PingStall].) *)
Theorem calls_can_complete sys h :
  0 <= timeout ->
  (forall t, t ∈ h_tasks h -> forall k, action_sendable (get_action (set_seq t k))) ->
  run sys h -> working (sy_client sys) -> serving (sy_server sys) ->
  exists sys' h', sys_steps sys sys' h' /\ h_tasks h' = [] /\ live (cs_timer (sy_client sys')) = [] /\
    recv_tasks (cs_recv (sy_client sys')) = [] /\
    forall k t, (k, t) ∈ live (cs_timer (sy_client sys)) ->
    exists o, outcome_event error_handle o t ∈ h_evs h' /\
      answered error_handle dispatch (h_app h h') (outcome_event error_handle o t).
Proof.
  intros Ht Hsend Hrun Hw Hsv. destruct (inv_sys_run buffer_alloc error_handle dispatch cid timeout thr
    error_handle_task reserve_exact alloc_i32 cid_ok encode_req_appends answers_ok sys h Ht Hrun Hsend) as (sent & back & H).
  destruct sys as [c s]. cbn [sy_client sy_server] in *.
  destruct (server_catches_up c s h sent back H Hsv Hsend) as (s1 & h1 & Hx1 & Eh1 & Hs1 & Ho & Hreqs).
  set (c1 := on_client (drain (length (ms_out (client_stream c)))) c) in *. set (out := ms_out (stream_of s1)).
  set (c2 := on_client (feed (take (length out) out)) c1). set (s2 := on_server (drain (length out)) s1).
  assert (Hx2 : sys_steps (Sys c s) (Sys c2 s2) h1).
  { rewrite <- (h_app_nil h1). eapply steps_snoc; [exact Hx1|apply sy_down]. }
  destruct (inv_steps_same _ _ _ _ _ _ H Hx2 Eh1 Hsend) as (sent2 & back2 & H2).
  destruct (yi_down _ _ _ _ _ _ _ _ H2) as (gone & pend & Eb & Hgone & Hd). cbn [sy_client sy_server] in *.
  assert (Hw2 : working c2) by (by destruct Hw; split).
  assert (Hout : ms_out (stream_of s2) = []) by (apply drop_all). rewrite Hout in Hd.
  assert (Hpend : Forall (fun i => down_fits i /\ i.1 <= newest (cs_timer c2)) pend).
  { apply Forall_forall. intros i Hi. assert (Hib : i ∈ back2) by (rewrite Eb, elem_of_app; by right). split.
    - pose proof (yi_back _ _ _ _ _ _ _ _ H2) as Hf. rewrite Forall_forall in Hf. auto.
    - pose proof (back_low _ _ _ _ _ H2 Hib) as Hl.
      change (i.1 < cs_seq c2) in Hl. rewrite (hc_pings _ Hw2) in Hl. lia. }
  destruct (client_finishes _ c2 s2 pend (yi_sound _ _ _ _ _ _ _ _ H2) Hw2 Hpend Hd) as (c3 & evs & Hx3 & [Hon Hlv] & Hb3).
  pose proof (steps_trans _ _ _ _ _ Hx2 Hx3) as Hx.
  assert (Hpa : forall k t, (k, t) ∈ live (cs_timer c) -> exists i, i ∈ pend /\ i.1 = k).
  { intros k t Hin. destruct (yi_live _ _ _ _ _ _ _ _ H k t Hin) as (Hk & msg & Hsent).
    destruct (run_server _ _ (run_steps _ _ _ _ Hrun Hx2)) as [_ Hp]. cbn in Hp.
    eapply (answer_pending c2 s2 (h_app h h1)); [exact H2|exact Eb|exact Hgone|apply Hw2| |exact Ho|exact Hin|
      apply (Hreqs (UpTask t msg) Hsent)|by rewrite up_view_seq].
    destruct Hp as [Hf|Hp]; [|exact Hp]. destruct (sv_writer _ Hs1) as [Ew|Ew]; unfold writer_failed in Hf; cbn in Hf;
      by rewrite Ew in Hf. }
  exists (Sys c3 s2), (h_app h1 (History [] [] [] evs)). split; [exact Hx|]. split; [unfold h_app; cbn; by rewrite Eh1|].
  split.
  - cbn. destruct (live (cs_timer c3)) as [|[k t] l] eqn:El; [done|]. exfalso.
    destruct (Hlv k t) as [Hin Hne]; [left|]. destruct (Hpa k t Hin) as (i & Hi & Ei).
    rewrite Forall_forall in Hne. by apply (Hne i).
  - split; [cbn; unfold recv_tasks; by rewrite Hb3|]. intros k t Hin. destruct (Hon k t Hin) as [(i & Hi & Ek & Hev)|[Hne _]].
    + exists i.2. split; [unfold h_app; cbn; rewrite elem_of_app; by right|]. rewrite h_app_assoc.
      apply (answered_extends _ _ (h_app h h1)); [apply extends_app|].
      apply (event_answered buffer_alloc error_handle dispatch cid answers_ok (Sys c2 s2) _ sent2 back2); [exact H2| |].
      * rewrite Eb, elem_of_app. by right.
      * by rewrite Ek.
    + destruct (Hpa k t Hin) as (i & Hi & Ei). rewrite Forall_forall in Hne. by destruct (Hne i Hi).
Qed.

End progress.

(** ** The API layer meets what this asks for, too *)

Lemma api_dispatch_total serve req : handler_fits serve -> exists d, api_dispatch serve req = Ret d.
Proof.
  intros Hs. unfold api_dispatch, api_dispatch_req. destruct (sq_action req) as [a|n]; [|by eexists].
  destruct (split_once Byte.x2e a) as [[svc m]|]; [|by eexists].
  destruct (Hs (ApiSReq (sq_seq req) svc m (Some (sq_msg req)))) as (resp & o & E & _); [done|].
  unfold inline_dispatch. rewrite E. by eexists.
Qed.

Lemma api_answers_some serve req : handler_fits serve -> answers (api_dispatch serve) req <> [].
Proof.
  intros Hs. unfold answers. destruct (is_ping req); [done|].
  unfold api_dispatch, api_dispatch_req. destruct (sq_action req) as [a|n]; [|done].
  destruct (split_once Byte.x2e a) as [[svc m]|]; [|done].
  destruct (Hs (ApiSReq (sq_seq req) svc m (Some (sq_msg req)))) as (resp & o & E & _); [done|].
  unfold inline_dispatch. by rewrite E.
Qed.

(** ** Concrete instances *)

Module ProgressWitness.
Import SystemWitness.

(** Two calls in flight, nothing delivered yet. *)
Definition inflight : history APIClientReq APIServerResp := History [call arg1 0; call arg2 0] [] [] [].

Lemma c2_working : working c2.
Proof. split; vm_compute; reflexivity. Qed.

Lemma s0_serving : serving s0.
Proof. split; [reflexivity|by left|reflexivity]. Qed.

Lemma calls_can_complete_witness :
  exists sys' h', sys_steps always error_handle_default dispatch (Sys c2 s0) sys' h' /\
    live (cs_timer (sy_client sys')) = [] /\
    exists o, outcome_event error_handle_default o (call arg2 2) ∈ h_evs h' /\
      answered error_handle_default dispatch (h_app inflight h') (outcome_event error_handle_default o (call arg2 2)).
Proof.
  destruct (calls_can_complete always error_handle_default dispatch 1 3 4 one_u64 (fun n _ => eq_refl)
    (fun req => api_dispatch_total _ req fields_fit) (fun t => eq_refl) api_no_blob api_encode_appends
    (fun req m _ => api_answers_ok _ req m fields_fit) (fun req => api_answers_some _ req fields_fit)
    (Sys c2 s0) inflight) as (sys' & h' & Hx & _ & Hl & _ & Ha).
  - lia.
  - intros t Ht k. exact (calls_sendable t Ht).
  - exact sent_run.
  - exact c2_working.
  - exact s0_serving.
  - exists sys', h'. split; [exact Hx|]. split; [exact Hl|]. apply (Ha 2). vm_compute. right. left.
Defined.

End ProgressWitness.
