(* ===== verification/SystemSpec.v ===== *)
(** * What a connection promises: an abstract service, and the refinement

    The promise of a client connection and of the server connection at its
    other end, without coroutines, byte streams, buffers, timers or clocks: an
    [rpc_service] takes tasks, puts their requests in a queue, serves them in
    order and once each, says each answer at most once, and gives a task back at most
    once, with an answer that was said to its own request or with a failure.
    Every trace of [System] is one of the service. *)
From Stdlib Require Import ZArith Lia Strings.String.
From stdpp Require Import base list sets.
From S2P Require Import Prelude Errors Codec Task ApiClient Proto BTree Timer TimerInv Net TcpClient ServerTask TcpServer ApiServer EndToEnd Server Stream StreamInv StreamTrace StreamPoll Wire System SystemEnds SystemInv SystemCall SystemProgress.
Local Open Scope Z_scope.
Local Open Scope rpc_scope.

(** ** The service *)

(** [sv_open]: the tasks taken and not yet given back. [sv_served] and
    [sv_coming]: the requests served, and those still in the queue. [sv_owed]
    and [sv_said]: the answers still to be said, and those said. *)
Record rpc_service (T R K : Type) : Type := Service {
  sv_open : list K;
  sv_served : list (up_item (T := T));
  sv_coming : list (up_item (T := T));
  sv_owed : list (noti_msg R);
  sv_said : list (noti_msg R);
}.
Arguments Service {T R K}.
Arguments sv_open {T R K}.
Arguments sv_served {T R K}.
Arguments sv_coming {T R K}.
Arguments sv_owed {T R K}.
Arguments sv_said {T R K}.

Section spec.
Context {T : Type} `{!ClientTask T} {R : Type} `{!ServerTaskEncode R} {K : Type} `{!TaskTag T K}.
Context (error_handle : T -> event T) (dispatch : RpcSvrReq -> may (dispatched R)).
Implicit Types (v : rpc_service T R K) (h : history T R) (i : up_item (T := T)).

(** The request of a task is the encoding of a task that is open; a ping needs
    none. *)
Definition callable (open : list K) i : Prop :=
  match i with UpTask t msg => encodes_to t msg /\ tag t ∈ open | UpPing _ => True end.

Inductive service_step : rpc_service T R K -> rpc_service T R K -> history T R -> Prop :=
| sp_submit t open served coming owed said :
    service_step (Service open served coming owed said) (Service (open ++ [tag t]) served coming owed said)
      (History [t] [] [] [])
| sp_call i open served coming owed said :
    callable open i -> up_seq i ∉ map up_seq (served ++ coming) ->
    service_step (Service open served coming owed said) (Service open served (coming ++ [i]) owed said) h_nil
| sp_serve i open served coming owed said :
    service_step (Service open served (i :: coming) owed said)
      (Service open (served ++ [i]) coming (owed ++ answers dispatch (up_view i)) said)
      (History [] [up_view i] [] [])
| sp_say m open served coming owed owed' said :
    owed ≡ₚ m :: owed' ->
    service_step (Service open served coming owed said) (Service open served coming owed' (said ++ [m]))
      (History [] [] [m] [])
| sp_answer t msg m o open open' served coming owed said :
    UpTask t msg ∈ served -> m ∈ said -> m ∈ answers dispatch (svr_view t msg) -> msg_says m (task_seq t, o) ->
    open ≡ₚ tag t :: open' ->
    service_step (Service open served coming owed said) (Service open' served coming owed said)
      (History [] [] [] [outcome_event error_handle o t])
| sp_fail ev open open' served coming owed said :
    own_failure error_handle ev -> open ≡ₚ ev_tag ev :: open' ->
    service_step (Service open served coming owed said) (Service open' served coming owed said)
      (History [] [] [] [ev]).

(** Several steps, observed together. *)
Inductive service_steps : rpc_service T R K -> rpc_service T R K -> history T R -> Prop :=
| sps_nil v : service_steps v v h_nil
| sps_cons v v1 v2 h h' : service_step v v1 h -> service_steps v1 v2 h' -> service_steps v v2 (h_app h h').

(** A trace of the service: what is observed of it, in order. *)
Inductive service_trace : rpc_service T R K -> list (history T R) -> Prop :=
| spt_nil : service_trace (Service [] [] [] [] []) []
| spt_snoc v v' tr h : service_trace v tr -> service_steps v v' h -> service_trace v' (tr ++ [h]).

(** All that was observed in a trace. *)
Definition observed (tr : list (history T R)) : history T R := foldl h_app h_nil tr.

(** ** What the service guarantees *)

(** Requests are served in the order and at most once, each answer is said at
    most once, and each task given back at most once. *)
Record service_ok v h : Prop := ServiceOk {
  so_once : NoDup (map up_seq (sv_served v ++ sv_coming v));
  so_reqs : h_reqs h = map up_view (sv_served v);
  so_said : h_outs h = sv_said v;
  so_outs : sv_said v ++ sv_owed v ≡ₚ concat (map (answers dispatch) (h_reqs h));
  so_open : map tag (h_tasks h) ≡ₚ map ev_tag (h_evs h) ++ sv_open v;
}.

(** *** Runs of steps *)

Lemma service_steps_app v v1 v2 h h' :
  service_steps v v1 h -> service_steps v1 v2 h' -> service_steps v v2 (h_app h h').
Proof.
  intros H. revert v2 h'. induction H as [|v v1 v3 h h1 H1 _ IH]; intros v2 h' H2; [by rewrite h_nil_app|].
  rewrite <- h_app_assoc. eapply sps_cons; [exact H1|]. by apply IH.
Qed.

Lemma serve_all taken open served coming owed said :
  service_steps (Service open served (taken ++ coming) owed said)
    (Service open (served ++ taken) coming (owed ++ concat (map (answers dispatch) (map up_view taken))) said)
    (History [] (map up_view taken) [] []).
Proof.
  revert served owed. induction taken as [|i taken IH]; intros served owed; cbn; [rewrite !app_nil_r; constructor|].
  specialize (IH (served ++ [i]) (owed ++ answers dispatch (up_view i))). rewrite <- !app_assoc in IH.
  eapply (sps_cons _ _ _ (History [] [up_view i] [] []) (History [] (map up_view taken) [] [])); [apply sp_serve|exact IH].
Qed.

Lemma say_all outs open served coming owed left said :
  owed ≡ₚ outs ++ left ->
  exists owed', owed' ≡ₚ left /\
    service_steps (Service open served coming owed said) (Service open served coming owed' (said ++ outs))
      (History [] [] outs []).
Proof.
  revert owed said. induction outs as [|m outs IH]; intros owed said Hp; cbn in Hp.
  { exists owed. rewrite app_nil_r. split; [done|constructor]. }
  destruct (IH (outs ++ left) (said ++ [m])) as (owed' & Hl & Hs); [done|]. rewrite <- app_assoc in Hs.
  exists owed'. split; [done|].
  eapply (sps_cons _ _ _ (History [] [] [m] []) (History [] [] outs [])); [by apply sp_say|exact Hs].
Qed.

Lemma call_all wr open served coming owed said :
  Forall (callable open) wr -> NoDup (map up_seq ((served ++ coming) ++ wr)) ->
  service_steps (Service open served coming owed said) (Service open served (coming ++ wr) owed said) h_nil.
Proof.
  revert coming. induction wr as [|i wr IH]; intros coming Hc Hn; [rewrite app_nil_r; constructor|].
  apply Forall_cons in Hc as [Hi Hc]. replace (coming ++ i :: wr) with ((coming ++ [i]) ++ wr) by (by rewrite <- app_assoc).
  assert (Hn' : NoDup (map up_seq ((served ++ coming ++ [i]) ++ wr))) by (by rewrite (app_assoc served), <- (app_assoc _ [i])).
  rewrite <- (h_app_nil h_nil). eapply sps_cons; [apply sp_call; [exact Hi|]|].
  - rewrite map_app, NoDup_app in Hn. destruct Hn as (_ & Hx & _). intros Hin. apply (Hx _ Hin). by left.
  - by apply IH.
Qed.

(** An event the service may show for an open task. *)
Definition sayable_event (served : list (up_item (T := T))) (said : list (noti_msg R)) (ev : event T) : Prop :=
  own_failure error_handle ev \/
  exists t msg m o, UpTask t msg ∈ served /\ m ∈ said /\ m ∈ answers dispatch (svr_view t msg) /\
    msg_says m (task_seq t, o) /\ ev = outcome_event error_handle o t.

Context (error_handle_task : forall t, ev_task (error_handle t) = t).

Lemma events_all evs open left served coming owed said :
  Forall (sayable_event served said) evs -> open ≡ₚ map ev_tag evs ++ left ->
  exists open', open' ≡ₚ left /\
    service_steps (Service open served coming owed said) (Service open' served coming owed said)
      (History [] [] [] evs).
Proof using error_handle_task.
  revert open. induction evs as [|ev evs IH]; intros open Hf Hp; cbn in Hp.
  { exists open. split; [done|constructor]. }
  apply Forall_cons in Hf as [He Hf]. destruct (IH (map ev_tag evs ++ left) Hf) as (open' & Hl & Hs); [done|].
  exists open'. split; [done|]. eapply (sps_cons _ _ _ (History [] [] [] [ev]) (History [] [] [] evs)); [|exact Hs].
  destruct He as [He|(t & msg & m & o & Ht & Hm & Ha & Hsay & ->)]; [by apply sp_fail|].
  eapply sp_answer; [done..|]. by rewrite (ev_tag_outcome error_handle) in Hp.
Qed.

(** *** The guarantees *)

Lemma service_step_ok v v' h h' : service_ok v h -> service_step v v' h' -> service_ok v' (h_app h h').
Proof using error_handle_task.
  intros [H1 H2 H3 H4 H5] Hs. destruct Hs; unfold h_app, h_nil in *;
    cbn [sv_open sv_served sv_coming sv_owed sv_said h_tasks h_reqs h_outs h_evs] in *;
    (constructor; cbn [sv_open sv_served sv_coming sv_owed sv_said h_tasks h_reqs h_outs h_evs];
     rewrite ?app_nil_r; try done).
  - rewrite !map_app, H5. cbn. by rewrite app_assoc.
  - rewrite app_assoc, map_app, NoDup_app. split; [done|]. split; [|by apply NoDup_singleton].
    intros k Hk Hin. apply list_elem_of_singleton in Hin as ->. done.
  - by rewrite <- app_assoc.
  - by rewrite map_app, H2.
  - rewrite map_app, concat_app, app_assoc, H4. cbn. by rewrite app_nil_r.
  - by rewrite H3.
  - rewrite <- H4, H. cbn. by rewrite <- app_assoc.
  - rewrite map_app, H5, H8. cbn. rewrite (ev_tag_outcome error_handle) by done. by rewrite <- app_assoc.
  - rewrite map_app, H5, H0. cbn. by rewrite <- app_assoc.
Qed.

Lemma service_steps_ok v v' h h' : service_ok v h -> service_steps v v' h' -> service_ok v' (h_app h h').
Proof using error_handle_task.
  intros H Hs. revert h H. induction Hs as [|v v1 v2 h1 h2 H1 _ IH]; intros h H; [by rewrite h_app_nil|].
  rewrite h_app_assoc. apply IH. by eapply service_step_ok.
Qed.

Lemma observed_snoc (tr : list (history T R)) h : observed (tr ++ [h]) = h_app (observed tr) h.
Proof. unfold observed. by rewrite foldl_app. Qed.

Lemma service_trace_ok v tr : service_trace v tr -> service_ok v (observed tr).
Proof using error_handle_task.
  induction 1 as [|v v' tr h _ IH Hs]; [constructor; done || constructor|].
  rewrite observed_snoc. by eapply service_steps_ok.
Qed.

End spec.

(** ** The server loses answers, but makes none up *)
Section losing.
Context {S : Type} `{!AsyncStream S} {R : Type} `{!ServerTaskEncode R}.
Context (buffer_alloc : Z -> bool) (dispatch : RpcSvrReq -> may (dispatched R)).
Implicit Types st : ServerConn S R.

(** Without its writer the connection drops what it is told. *)
Lemma send_quick_shut seq err st :
  writer_open st = false -> send_quick_resp seq err st = stop_reading st.
Proof. intros H. unfold send_quick_resp, noti_send_err. rewrite H. by destruct st. Qed.

Lemma reader_loses cancelled st st' o :
  writer_open st = false -> reader_step buffer_alloc dispatch cancelled st = Ret (st', o) ->
  exists lost, outstanding st ++ concat (map (answers dispatch) (option_list o)) ≡ₚ outstanding st' ++ lost.
Proof.
  intros Ho. unfold reader_step. destruct (read_req buffer_alloc cancelled (sc_conn st)) as [[c r]|];
    cbn [may_bind]; [|done].
  destruct r as [req|e]; [|intros [= <- <-]; by exists []].
  assert (Hone : concat (map (answers dispatch) (option_list (Some req))) = answers dispatch req)
    by (cbn; by rewrite app_nil_r).
  unfold answers in Hone at 2. cbn zeta. destruct (is_ping req).
  { rewrite send_quick_shut by done. intros [= <- <-]. rewrite Hone. by eexists. }
  destruct (dispatch req) as [d|]; cbn [may_bind]; [|done].
  rewrite send_now_eq. change (writer_open (upd_srv_conn c st)) with (writer_open st). rewrite Ho.
  set (late := match dp_res d with Ok _ => [] | Err _ => [Err (sq_seq req, Some Decode)] end) in Hone.
  assert (Hj : outstanding st ++ map Ok (dp_now d ++ dp_later d) ++ late ≡ₚ
    (sc_queue st ++ map Ok (sc_jobs st ++ dp_later d)) ++ map Ok (dp_now d) ++ late).
  { unfold outstanding. rewrite !map_app. solve_Permutation. }
  rewrite <- Hone in Hj.
  destruct (dp_res d) as [u|u]; [|rewrite send_quick_shut by done]; intros [= <- <-]; eexists; exact Hj.
Qed.

Lemma job_loses i st st' : job_step i st = Some st' -> exists lost, outstanding st ≡ₚ outstanding st' ++ lost.
Proof.
  destruct (writer_open st) eqn:Ho; intros H.
  - destruct (job_step_keeps i st st' Ho H) as [_ E]. exists []. by rewrite app_nil_r, E.
  - unfold job_step in H. destruct (sc_jobs st !! i) as [r|] eqn:Ei; [|done]. injection H as <-.
    exists [Ok r]. unfold outstanding, noti_done. rewrite Ho. cbn.
    rewrite (Permutation_map Ok (delete_Permutation (sc_jobs st) i r Ei)). cbn. solve_Permutation.
Qed.

Lemma writer_loses st st' o :
  writer_step st = Ret (Ready (st', o)) -> exists lost, outstanding st ≡ₚ option_list o ++ outstanding st' ++ lost.
Proof.
  assert (Hp : forall msg q, sc_queue st = msg :: q ->
    (let? r := writer_process msg q st in Ret (Ready r)) = Ret (Ready (st', o)) ->
    exists lost, outstanding st ≡ₚ option_list o ++ outstanding st' ++ lost).
  { intros msg q Eq. unfold writer_process, outstanding. rewrite Eq.
    destruct (process msg (sc_conn st)) as [[c [u|u]]|]; cbn; intros [= <- <-]; cbn; [exists []|exists [msg]];
      rewrite ?app_nil_r; solve_Permutation. }
  assert (Hn : o = None -> outstanding st' = outstanding st ->
    exists lost, outstanding st ≡ₚ option_list o ++ outstanding st' ++ lost).
  { intros -> ->. exists []. by rewrite app_nil_r. }
  unfold writer_step. destruct (sc_writer st) as [| |x]; [| |done];
    (destruct (sc_queue st) as [|msg q] eqn:Eq; [|by apply Hp]).
  - destruct (has_senders st); [done|]. intros [= <- <-]. by apply Hn.
  - destruct (flush_resp (sc_conn st)) as [c [u|u]]; intros [= <- <-]; by apply Hn.
Qed.

Lemma server_loses st st' reqs outs :
  server_step buffer_alloc dispatch st st' reqs outs ->
  exists lost, outstanding st ++ concat (map (answers dispatch) reqs) ≡ₚ outs ++ outstanding st' ++ lost.
Proof.
  intros [s c s' o _ Hs|s i s' Hs|s s' o Hs].
  - destruct (writer_open s) eqn:Ho; [|by apply (reader_loses c)].
    destruct (reader_step_answers buffer_alloc dispatch c s s' o Ho Hs) as [_ E]. exists []. by rewrite app_nil_r, E.
  - rewrite app_nil_r. by apply (job_loses i).
  - rewrite app_nil_r. by apply writer_loses.
Qed.

End losing.

(** ** The connection refines the service *)
Section refine.
Context {T : Type} `{!ClientTask T} `{!ClientTaskOk T} {R : Type} `{!ServerTaskEncode R}.
Context {K : Type} `{!TaskTag T K}.
Context (buffer_alloc : Z -> bool) (error_handle : T -> event T) (dispatch : RpcSvrReq -> may (dispatched R)).
Context (cid timeout thr : Z).
Context (error_handle_task : forall t, ev_task (error_handle t) = t).
Context (reserve_exact : forall (t t' : T) n m, 0 < n -> reserve_resp_blob t n = (t', Some m) -> m = n).
Context (alloc_i32 : forall n, 0 < n <= I32_MAX -> buffer_alloc n = true).
Context (cid_ok : is_u64 cid).
Context (encode_req_appends : forall t : T,
  (exists msg, encodes_to t msg) \/ exists f, forall b, encode_req t b = (f b, Err tt)).
Context (answers_ok : forall req m, is_u64 (sq_seq req) -> m ∈ answers dispatch req ->
  exists o, msg_says m (sq_seq req, o) /\ outcome_fits o).
Implicit Types (sys : System T R) (h : history T R) (v : rpc_service T R K).
Abbreviation sys_inv := (sys_inv buffer_alloc error_handle dispatch cid).
Abbreviation steps := (service_steps error_handle dispatch).

(** The state of a connection as one of the service: what is owed includes what
    the server still has, the tasks that are open those that the client still
    has, and both may hold more, that has been lost. *)
Record refines sys h v : Prop := Refines {
  rf_inv : exists back, sys_inv sys h (sv_served v ++ sv_coming v) back;
  rf_reqs : h_reqs h = map up_view (sv_served v);
  rf_said : h_outs h = sv_said v;
  rf_owed : exists lost, sv_owed v ≡ₚ outstanding (sy_server sys) ++ lost;
  rf_open : exists lost, sv_open v ≡ₚ stream_tags (sy_client sys) ++ lost;
}.

(** The requests read since are the next ones in the queue. *)
Lemma prefix_split {A B} (f : A -> B) (served coming got pend : list A) (new : list B) :
  served ++ coming = got ++ pend -> map f got = map f served ++ new ->
  exists taken, coming = taken ++ pend /\ got = served ++ taken /\ new = map f taken.
Proof.
  intros E Em. assert (Hl : (length served <= length got)%nat).
  { apply (f_equal length) in Em. rewrite length_app, !length_map in Em. lia. }
  assert (Eg : got = served ++ drop (length served) got).
  { rewrite <- (take_drop (length served) got) at 1. f_equal.
    apply (f_equal (take (length served))) in E. rewrite take_app_length, take_app_le in E by done. done. }
  exists (drop (length served) got). rewrite Eg in E, Em. rewrite <- app_assoc in E. apply app_inv_head in E.
  rewrite map_app in Em. apply app_inv_head in Em. done.
Qed.

Lemma refines_server c s s' h v reqs outs :
  refines (Sys c s) h v -> server_step buffer_alloc dispatch s s' reqs outs ->
  exists v', steps v v' (History [] reqs outs []) /\ refines (Sys c s') (h_app h (History [] reqs outs [])) v'.
Proof using alloc_i32 answers_ok cid_ok.
  intros [[back H] Hr Hs [lost Ho] [gone Hg]] Hst. destruct v as [open served coming owed said].
  cbn [sv_open sv_served sv_coming sv_owed sv_said sy_client sy_server] in *.
  destruct (inv_server buffer_alloc error_handle dispatch cid alloc_i32 cid_ok answers_ok _ _ _ _ _ _ _ _ H Hst)
    as [back' H'].
  destruct (yi_up _ _ _ _ _ _ _ _ H') as (got & pend & Eg & Er & _). cbn [h_app h_reqs] in Er. rewrite Hr in Er.
  destruct (prefix_split _ _ _ _ _ _ Eg (eq_sym Er)) as (taken & -> & -> & ->).
  destruct (server_loses _ _ _ _ _ _ Hst) as [more Hm].
  destruct (say_all error_handle dispatch outs open (served ++ taken) pend
    (owed ++ concat (map (answers dispatch) (map up_view taken))) (outstanding s' ++ more ++ lost) said)
    as (owed' & Hleft & Hsay).
  { rewrite Ho, (Permutation_app_comm _ lost), <- app_assoc, Hm. solve_Permutation. }
  exists (Service open (served ++ taken) pend owed' (said ++ outs)). split.
  { eapply (service_steps_app _ _ _ _ _ (History [] (map up_view taken) [] []) (History [] [] outs [])) in Hsay;
      [|apply serve_all]. unfold h_app in Hsay; cbn in Hsay. by rewrite app_nil_r in Hsay. }
  constructor; cbn [h_app h_reqs h_outs sv_open sv_served sv_coming sv_owed sv_said sy_client sy_server].
  - exists back'. by rewrite Eg in H'.
  - by rewrite Hr, map_app.
  - by rewrite Hs.
  - by exists (more ++ lost).
  - by exists gone.
Qed.

(** What a client hands back, the service can show. *)
Lemma client_sayable sys h served coming said back evs :
  sys_inv sys h (served ++ coming) back -> h_reqs h = map up_view served -> h_outs h = said ->
  Forall (fun ev => own_failure error_handle ev \/ served_answer error_handle dispatch (served ++ coming) h ev) evs ->
  Forall (sayable_event error_handle dispatch served said) evs.
Proof.
  intros H Hr Hs He. eapply Forall_impl; [exact He|]. intros ev [?|(t & msg & m & o & Ht & Hq & Ha & Hm & Hsay & ->)];
    [by left|right]. exists t, msg, m, o. rewrite <- Hs. split; [|done].
  rewrite Hr in Hq. apply list_elem_of_In, in_map_iff in Hq as (j & Ej & Hj%list_elem_of_In).
  assert (j = UpTask t msg) as <-; [|done]. apply (sent_unique (served ++ coming)); [apply H| |done|].
  - rewrite elem_of_app. by left.
  - by rewrite <- !up_view_seq, Ej.
Qed.

Lemma client_callable wr c c' (open : list K) :
  adds cid wr c c' -> (forall k, k ∈ stream_tags c -> k ∈ open) -> Forall (callable open) wr.
Proof.
  intros (_ & Hw & _) Hin. apply Forall_forall. intros i Hi. destruct i as [t msg|seq]; [|done].
  destruct (Hw _ _ Hi) as (He & t0 & Ht0 & ->). split; [done|]. rewrite tag_set_seq. apply Hin. unfold stream_tags.
  rewrite !elem_of_app. right. left. apply list_elem_of_In, in_map, list_elem_of_In.
  unfold unsent in Ht0. unfold sender_tasks. destruct (cs_sender c); try done; by apply elem_of_nil in Ht0.
Qed.

Lemma submit_all ts open served coming owed said :
  steps (Service open served coming owed said) (Service (open ++ map tag ts) served coming owed said) (History ts [] [] []).
Proof.
  revert open. induction ts as [|t ts IH]; intros open; cbn; [rewrite app_nil_r; constructor|].
  refine (sps_cons _ _ _ _ _ (History [t] [] [] []) (History ts [] [] []) _ _); [apply sp_submit|].
  specialize (IH (open ++ [tag t])). by rewrite <- app_assoc in IH.
Qed.

Lemma refines_client op c c' s h v evs :
  refines (Sys c s) h v -> stream_step buffer_alloc error_handle op c c' evs -> lossless op ->
  (forall t, t ∈ h_tasks h -> forall k, action_sendable (get_action (set_seq t k))) ->
  exists v', steps v v' (History (op_task op) [] [] evs) /\
    refines (Sys c' s) (h_app h (History (op_task op) [] [] evs)) v'.
Proof using ClientTaskOk0 error_handle_task reserve_exact alloc_i32 cid_ok encode_req_appends answers_ok.
  intros [[back H] Hr Hs Ho [gone Hg]] Hst Hll Hsend. destruct v as [open served coming owed said].
  cbn [sv_open sv_served sv_coming sv_owed sv_said sy_client sy_server] in *.
  edestruct inv_client as (wr & Hadd & Hes & H'); [done..|].
  pose proof (client_sayable _ _ _ _ _ _ _ H Hr Hs Hes) as Hsay.
  destruct (yi_sound _ _ _ _ _ _ _ _ H) as (n & l & hd & Hi). cbn [sy_client] in Hi.
  pose proof (step_balanced _ _ error_handle_task _ _ _ _ _ _ _ Hi Hst) as Hb. unfold balanced in Hb.
  set (open1 := open ++ map tag (op_task op)).
  destruct (events_all error_handle dispatch error_handle_task evs open1
    (stream_tags c' ++ map loss_tag (lost_task op c c') ++ gone) served (coming ++ wr) owed said Hsay) as (open' & Hleft & Hev).
  { unfold open1. rewrite Hg, (Permutation_app_comm _ (map tag _)), app_assoc, Hb. solve_Permutation. }
  exists (Service open' served (coming ++ wr) owed said). split.
  - eapply (service_steps_app _ _ _ _ _ h_nil (History [] [] [] evs)) in Hev;
      [|apply call_all; [eapply client_callable; [exact Hadd|]|]].
    + eapply (service_steps_app _ _ _ _ _ (History (op_task op) [] [] []) _) in Hev; [|apply submit_all].
      unfold h_app, h_nil in Hev; cbn in Hev. by rewrite app_nil_r in Hev.
    + intros k Hk. unfold open1. rewrite elem_of_app. left. rewrite Hg, elem_of_app. by left.
    + apply (yi_seqs _ _ _ _ _ _ _ _ H').
  - constructor; cbn [h_app h_reqs h_outs sv_open sv_served sv_coming sv_owed sv_said sy_client sy_server];
      rewrite ?app_nil_r; [|done..|].
    + exists back. by rewrite app_assoc.
    + by exists (map loss_tag (lost_task op c c') ++ gone).
Qed.

(** Every step of the connection is some steps of the service, with the same
    observation. *)
Lemma refines_step sys sys' h h' v :
  refines sys h v -> sys_step buffer_alloc error_handle dispatch sys sys' h' ->
  (forall t, t ∈ h_tasks h -> forall k, action_sendable (get_action (set_seq t k))) ->
  exists v', steps v v' h' /\ refines sys' (h_app h h') v'.
Proof using ClientTaskOk0 error_handle_task reserve_exact alloc_i32 cid_ok encode_req_appends answers_ok.
  intros Hrf Hst Hsend. assert (Hnet : forall c c' s s', Sys c s = sys -> Sys c' s' = sys' ->
    stream_tags c' = stream_tags (K := K) c -> outstanding s' = outstanding s ->
    (forall sent back, sys_inv (Sys c s) h sent back -> sys_inv (Sys c' s') h sent back) ->
    exists v', steps v v' h_nil /\ refines sys' (h_app h h_nil) v').
  { intros c c' s s' <- <- Et Eo Hi. exists v. split; [constructor|]. rewrite h_app_nil.
    destruct Hrf as [[back H] Hr Hs Ho Hg]. cbn [sy_client sy_server] in *.
    constructor; cbn [sy_client sy_server]; rewrite ?Et, ?Eo; try done. exists back. auto. }
  destruct Hst as [op c c' s evs Hs Hll|c s s' reqs outs Hs|n c s|n c s|c s|c s].
  - by apply (refines_client op c c').
  - by apply (refines_server c s s').
  - eapply Hnet; [done..|]. intros sent back. apply inv_up.
  - eapply Hnet; [done..|]. intros sent back. apply inv_down.
  - eapply Hnet; [done..|]. intros sent back. apply inv_cut_up.
  - eapply Hnet; [done..|]. intros sent back. apply inv_cut_down.
Qed.

(** What is observed of the steps of a connection, in order. *)
Inductive sys_trace : System T R -> list (history T R) -> Prop :=
| syt_nil : sys_trace (sys_start cid timeout thr) []
| syt_snoc sys sys' tr h :
    sys_trace sys tr -> sys_step buffer_alloc error_handle dispatch sys sys' h -> sys_trace sys' (tr ++ [h]).

Lemma run_trace sys h :
  sys_run buffer_alloc error_handle dispatch cid timeout thr sys h ->
  exists tr, sys_trace sys tr /\ observed tr = h.
Proof.
  induction 1 as [|sys sys' h h' _ (tr & Htr & <-) Hst]; [exists []; split; [constructor|done]|].
  exists (tr ++ [h']). split; [by eapply syt_snoc|apply observed_snoc].
Qed.

(** ** Properties *)

(** C4. A connection implements the abstract service: whatever its four
    coroutines and the network do, what is observed of it, step by step (the
    tasks submitted, the requests the server reads, the messages it writes, the
    tasks handed back), is a trace of the service. And in every trace of the
    service, requests are served in the order they were sent and at most once,
    every answer a dispatcher gives is written at most once and no other, and
    every task comes back at most once.
    (The runs are those of [sys_run]: the read of a header that the close channel
    cuts off half-way, which puts the client out of step, is not followed.) *)
Theorem connection_refines_service sys tr :
  0 <= timeout ->
  (forall t, t ∈ h_tasks (observed tr) -> forall k, action_sendable (get_action (set_seq t k))) ->
  sys_trace sys tr ->
  exists v : rpc_service T R K, service_trace error_handle dispatch v tr /\ service_ok dispatch v (observed tr).
Proof using ClientTaskOk0 error_handle_task reserve_exact alloc_i32 cid_ok encode_req_appends answers_ok.
  intros Ht Hsend Hr.
  assert (H : exists v, service_trace error_handle dispatch v tr /\ refines sys (observed tr) v).
  { induction Hr as [|sys sys' tr h _ IH Hst].
    - exists (Service [] [] [] [] []). split; [constructor|]. constructor; try done.
      + exists []. by apply sys_start_inv.
      + by exists [].
      + by exists [].
    - destruct IH as (v & Hv & Hrf).
      { intros t Hin. apply Hsend. rewrite observed_snoc. unfold h_app; cbn. rewrite elem_of_app. by left. }
      destruct (refines_step sys sys' (observed tr) h v Hrf Hst) as (v' & Hx & Hrf').
      { intros t Hin. apply Hsend. rewrite observed_snoc. unfold h_app; cbn. rewrite elem_of_app. by left. }
      exists v'. split; [by eapply spt_snoc|]. by rewrite observed_snoc. }
  destruct H as (v & Hv & _). exists v. split; [done|]. by eapply service_trace_ok.
Qed.

End refine.

(** ** A concrete instance: the two concurrent calls of [SystemWitness] *)
Module SpecWitness.
Import SystemWitness.

Lemma connection_refines_service_witness :
  exists tr, observed tr = seen /\
    exists v : rpc_service APIClientReq APIServerResp (bytes * option bytes),
      service_trace error_handle_default dispatch v tr /\ service_ok dispatch v (observed tr).
Proof.
  destruct (run_trace always error_handle_default dispatch 1 3 4 _ _ seen_run) as (tr & Htr & E).
  exists tr. split; [exact E|].
  apply (connection_refines_service always error_handle_default dispatch 1 3 4 (fun t => eq_refl) api_no_blob
    (fun n _ => eq_refl) one_u64 api_encode_appends (fun req m _ => api_answers_ok _ req m fields_fit)
    (Sys c15 s9) tr).
  - lia.
  - rewrite E. intros t Ht k. exact (calls_sendable t Ht).
  - exact Htr.
Defined.

End SpecWitness.
