(* ===== verification/PingStall.v ===== *)
(** * A ping that overtakes

    The number of a ping is never registered with the timer, yet its response
    is looked up there ([take_task], stream/src/client/timer.rs). When it
    overtakes the response of an earlier request, the receiver suspends until
    some later request is registered, and reads nothing meanwhile. *)
From Stdlib Require Import ZArith Lia Strings.String.
From stdpp Require Import base list sets.
From S2P Require Import Prelude Errors Task ApiClient Proto BTree Timer TimerInv Net TcpClient ServerTask TcpServer ApiServer EndToEnd Server Stream StreamInv StreamTrace StreamPoll Wire System SystemEnds SystemInv SystemCall.
Local Open Scope Z_scope.
Local Open Scope rpc_scope.

Section stall.
Context {S : Type} `{!AsyncStream S} {T : Type} `{!ClientTask T} `{!ClientTaskOk T}.
Context (buffer_alloc : Z -> bool) (error_handle : T -> event T).
Context (error_handle_task : forall t, ev_task (error_handle t) = t).
Implicit Types (st : ClientStream S T) (tm : ClientTaskTimer T).
Abbreviation step := (stream_step buffer_alloc error_handle).
Abbreviation exec := (stream_exec buffer_alloc error_handle).

(** The receiver has read the head of a response to a number beyond the last
    registered request. *)
Record overtaken (open : bool) (head : RespHead) st : Prop := Overtaken {
  ov_recv : cs_recv st = RWaiting open head;
  ov_newer : newest (cs_timer st) < rs_seq head;
  ov_reg : reg_stopped_flag (cs_timer st) = false;
  ov_fine : cs_has_err st = false;
}.

(** What goes on while no request is sent: pings, and the polls of the
    receiver's future; the sending side does not fail and is not dropped. *)
Definition idle_op (op : stream_op (T := T)) : bool :=
  match op with Ping | RecvResume | RecvTick | RecvPollSent | RecvHasErr => true | _ => false end.

Definition late (t : T) : event T := error_handle (set_rpc_error t Timeout).

Lemma take_task_overtaken k tm :
  timer_inv tm -> newest tm < k -> reg_stopped_flag tm = false -> (take_task k tm).2 = Pending.
Proof.
  intros H Hk Hr. destruct (take_task_live k tm H (or_introl Hr)) as (_ & _ & ->). unfold take_answer.
  destruct (bt_lookup k (live tm)) as [t|] eqn:E.
  - apply bt_lookup_is_key in E. destruct (newest_max _ H) as [_ Hm]. rewrite Forall_forall in Hm.
    specialize (Hm _ E). lia.
  - by rewrite (proj2 (Z.ltb_lt _ _)).
Qed.

(** The task of [k] has failed, or is [n] ticks old. *)
Definition ages k t (n : nat) (evs : list (event T)) tm : Prop :=
  late t ∈ evs \/ (held k t n tm /\ Z.of_nat n <= task_timeout tm).

Definition older (op : stream_op (T := T)) (n : nat) : nat := if is_recv_tick op then Datatypes.S n else n.

(** Nothing but a timeout happens, and the receiver stays where it is. *)
Lemma overtaken_step open head op st st' evs :
  sound st -> overtaken open head st -> idle_op op = true -> step op st st' evs ->
  overtaken open head st' /\ Forall (fun ev => exists t, ev = late t) evs /\
  task_timeout (cs_timer st') = task_timeout (cs_timer st) /\
  forall k t n, held k t n (cs_timer st) -> Z.of_nat n <= task_timeout (cs_timer st) ->
    ages k t (older op n) evs (cs_timer st').
Proof using ClientTaskOk0.
  intros (a & b & d & Hi) [Hr Hn Hf He] Hop Hs. pose proof (si_timer _ _ _ _ Hi) as Ht.
  assert (Hsame : forall st1, cs_timer st1 = cs_timer st -> cs_recv st1 = cs_recv st -> cs_has_err st1 = cs_has_err st ->
    is_recv_tick op = false -> overtaken open head st1 /\ Forall (fun ev => exists t, ev = late t) [] /\
    task_timeout (cs_timer st1) = task_timeout (cs_timer st) /\
    forall k t n, held k t n (cs_timer st) -> Z.of_nat n <= task_timeout (cs_timer st) ->
    ages k t (older op n) [] (cs_timer st1)).
  { intros st1 E1 E2 E3 Hti. split; [split; by rewrite ?E1, ?E2, ?E3|]. split; [constructor|]. split; [by rewrite E1|].
    intros k t n Hh Hle. right. unfold older. by rewrite Hti, E1. }
  destruct Hs as [| | | | | | | |st st' r _ _ Hp| | | | | |st op' h st' evs Hr' E| |st st' evs _ E|st _|st _| |]; try done;
    try (by rewrite Hr in *; congruence).
  - apply Hsame; try done; unfold send_ping_req, seq_update in Hp; destruct (cs_closed st); simplify_eq; try done;
      (destruct (ReqHead_encode_ping _ _ _); cbn in Hp; [|done]);
      by destruct (write_req _ _ _ _) as [c [u|u]]; simplify_eq.
  - rewrite Hr' in Hr. injection Hr as -> ->. unfold recv_resume, read_resp_resume in E.
    rewrite take_task_resume_eq in E by done. pose proof (take_task_overtaken _ _ Ht Hn Hf) as Hp.
    pose proof (take_task_flag (rs_seq head) (cs_timer st)) as Hfl.
    pose proof (newest_take_task (rs_seq head) (cs_timer st) Ht) as Hnw.
    pose proof (take_task_timeout (rs_seq head) (cs_timer st)) as Hto.
    destruct (take_task (rs_seq head) (cs_timer st)) as [tm p] eqn:Et. cbn in Hp, Hfl, Hnw, Hto. subst p.
    cbn in E. injection E as <- <-. split; [split; cbn; congruence || lia|]. split; [constructor|]. split; [done|].
    intros k t n Hh Hle. right. cbn. rewrite Hto. split; [|done].
    pose proof (held_take k (rs_seq head) t n (cs_timer st) Ht) as Hk. rewrite Et in Hk. apply Hk; [|done].
    intros ->. apply held_live in Hh. destruct (newest_max _ Ht) as [_ Hm]. rewrite Forall_forall in Hm.
    specialize (Hm _ (bt_in_keys _ _ _ Hh)). lia.
  - unfold time_reach in E. rewrite adjust_task_queue_eq in E by done. injection E as <- <-.
    split; [by split|]. split.
    { apply Forall_forall. intros ev Hev. apply list_elem_of_fmap in Hev as ([k t] & -> & _). by exists t. }
    split; [done|]. intros k t n Hh Hle. pose proof (held_tick k t n _ Ht Hh) as Hk. cbn.
    destruct (Z.ltb_spec (Z.of_nat n) (task_timeout (cs_timer st))); [right; split; [done|cbn; lia]|left].
    apply list_elem_of_fmap. by exists (k, t).
  - unfold recv_poll_sent, poll_sent_task. split.
    { split; cbn; [done|by rewrite newest_recv|by rewrite (recv_pending_eq _ Ht)|done]. }
    split; [constructor|]. split; [cbn; by rewrite (recv_pending_eq _ Ht)|]. intros k t n Hh Hle. right. split.
    + by apply held_recv.
    + cbn. by rewrite (recv_pending_eq _ Ht).
  - unfold recv_has_err. rewrite He. by apply Hsame.
Qed.

Lemma overtaken_exec open head ops outs st st' :
  exec ops outs st st' -> sound st -> overtaken open head st -> Forall (fun op => idle_op op = true) ops ->
  overtaken open head st' /\ Forall (fun ev => exists t, ev = late t) outs /\
  forall k t n, held k t n (cs_timer st) -> Z.of_nat n <= task_timeout (cs_timer st) ->
    task_timeout (cs_timer st) < Z.of_nat n + recv_ticks ops -> late t ∈ outs.
Proof using ClientTaskOk0 error_handle_task.
  induction 1 as [st|op ops evs outs st st1 st2 Hs Hx IH]; intros Hg Ho Hid.
  - split; [done|]. split; [constructor|]. intros k t n _ Hle. unfold recv_ticks; cbn. rewrite zlen_nil. lia.
  - apply Forall_cons in Hid as [Hop Hid].
    destruct (overtaken_step _ _ _ _ _ _ Hg Ho Hop Hs) as (Ho1 & He & Hto & Hag).
    destruct (sound_step _ _ error_handle_task _ _ _ _ Hg Hs) as (Hg1 & _ & _).
    destruct (IH Hg1 Ho1 Hid) as (Ho2 & He2 & Hh2). split; [done|]. split; [by apply Forall_app|].
    intros k t n Hh Hle Hlt. apply elem_of_app. destruct (Hag k t n Hh Hle) as [Hin|[Hh1 Hle1]]; [by left|right].
    apply (Hh2 k t (older op n) Hh1 Hle1). rewrite Hto. rewrite recv_ticks_cons in Hlt. unfold older.
    destruct (is_recv_tick op); lia.
Qed.

(** Every task taken in from the channel has some age. *)
Lemma received_age k t tm : (k, t) ∈ received tm -> exists n, held k t n tm.
Proof.
  unfold received. rewrite concat_rev_perm, elem_of_app. intros [Hr|Hr].
  - apply list_elem_of_In, in_concat in Hr as (b & Hb & Hr).
    apply list_elem_of_In, list_elem_of_lookup_1 in Hb as [n Hb]. exists (Datatypes.S n), b.
    split; [done|]. by apply list_elem_of_In.
  - by exists 0%nat, (sent_tasks tm).
Qed.

(** ** Properties *)

(** C6. A ping that overtakes a slow request costs it its answer. Once the
    receiver has read the head of a response whose number is beyond the last
    registered request, as the response to a ping is when requests are still
    being worked on, then as long as no other request is sent, the sending side
    does not fail and the stream is not dropped, it reads nothing more: whatever
    is pinged and whatever arrives, each request in flight fails with Timeout
    after [task_timeout] ticks, and nothing else is handed back. *)
Theorem overtaken_requests_time_out (conn : TcpClient S) cid timeout thr started lost outs0 st
    open head ops outs st' k t :
  0 <= timeout ->
  stream_run buffer_alloc error_handle started lost outs0 (ClientStream_new conn cid timeout thr) st ->
  overtaken open head st -> Forall (fun op => idle_op op = true) ops -> exec ops outs st st' ->
  (k, t) ∈ received (cs_timer st) -> timeout < recv_ticks ops ->
  error_handle (set_rpc_error t Timeout) ∈ outs /\
  Forall (fun ev => exists t, ev = error_handle (set_rpc_error t Timeout)) outs /\
  cs_recv st' = RWaiting open head.
Proof using ClientTaskOk0 error_handle_task.
  intros Ht Hr Ho Hid Hx Hin Hlate. pose proof (ClientStream_new_inv (T := T) conn cid timeout thr Ht) as H0.
  pose proof (run_timeout _ _ error_handle_task _ _ _ _ _ H0 Hr) as Eto. cbn in Eto.
  pose proof (inv_run _ _ error_handle_task _ _ _ _ _ H0 Hr) as Hi.
  assert (Hg : sound st) by (by eexists _, _, _).
  destruct (overtaken_exec _ _ _ _ _ _ Hx Hg Ho Hid) as (Ho' & He & Hh).
  destruct (received_age _ _ _ Hin) as [n Hn].
  split; [|split; [exact He|apply Ho']]. apply (Hh k t n Hn).
  - exact (held_bound _ _ _ _ (si_timer _ _ _ _ Hi) Hn).
  - rewrite Eto. lia.
Qed.

End stall.
(** ** Concrete instances *)

Module PingWitness.
Import StreamWitness.

(** What the server sends: the answer to the ping, then the slow one. *)
Definition input : bytes := resp_frame_ok 2 [] None ++ resp_frame_ok 1 (str_bytes "pong"%string) None.
Definition slow : TcpClient mem_stream := TcpC (MemStream input [] true) [].
Definition task : APIClientReq := sample_task 0.

(** One request and one ping are sent; the head of the ping's answer is read. *)
Definition q0 : ClientStream mem_stream APIClientReq := ClientStream_new slow 1 3 4.
Definition q1 := send_start task true q0.
Definition q2 := (send_check error_handle_default task true q1).1.
Definition q3 := match send_request task true q2 with Ret s => s | Panic => q2 end.
Definition q4 := match send_register (set_seq task 1) q3 with Ready s => s | Pending => q3 end.
Definition q5 := upd_sender SIdle q4.
Definition q6 := match send_ping_req q5 with Ret (s, _) => s | Panic => q5 end.
Definition q7 := recv_head q6.
Definition q8 := match recv_read always error_handle_default true q7 with Ret (s, _) => s | Panic => q7 end.
Definition head : RespHead := ok_head 2 [] None.

Lemma q8_run : stream_run always error_handle_default 1 0 [] q0 q8.
Proof.
  eapply (srun_snoc _ _ 1 0 [] RecvRead q0 q7 q8 []); [|apply (st_read _ _ _ true); vm_compute; reflexivity].
  eapply (srun_snoc _ _ 1 0 [] RecvHead q0 q6 q7 []); [|apply st_head; vm_compute; reflexivity].
  eapply (srun_snoc _ _ 1 0 [] Ping q0 q5 q6 []); [|apply (st_ping _ _ _ _ (Ok tt)); vm_compute; reflexivity].
  eapply (srun_snoc _ _ 1 0 [] SendDone q0 q4 q5 []); [|apply st_done; vm_compute; reflexivity].
  eapply (srun_snoc _ _ 1 0 [] SendRegister q0 q3 q4 []); [|apply (st_register _ _ _ (set_seq task 1)); vm_compute; reflexivity].
  eapply (srun_snoc _ _ 1 0 [] SendRequest q0 q2 q3 []); [|apply (st_request _ _ _ task true); vm_compute; reflexivity].
  eapply (srun_snoc _ _ 1 0 [] SendCheck q0 q1 q2 []); [|apply (st_check _ _ _ task true); vm_compute; reflexivity].
  eapply (srun_snoc _ _ 0 0 [] (SendStart task true) q0 q0 q1 []); [|apply st_start; vm_compute; reflexivity].
  apply srun_nil.
Qed.

(** Four ticks later. *)
Definition q9 := (poll_ticks error_handle_default 4 q8).1.
Definition too_late : APIClientReq := api_set_rpc_error (set_seq task 1) Timeout.

Lemma q9_exec : stream_exec always error_handle_default (replicate 4 RecvTick) [EvDone too_late] q8 q9.
Proof. apply (poll_ticks_exec always error_handle_default 4 q8 q9); vm_compute; reflexivity. Qed.

(** The answer has been there all the time. *)
Example answer_arrived : ms_in (client_stream q8) = resp_frame_ok 1 (str_bytes "pong"%string) None.
Proof. vm_compute. reflexivity. Qed.

(** The server does send its answers in this order: a worker takes its time. *)
Definition srv0 : ServerConn mem_stream RpcSvrResp :=
  server_conn (MemStream (ms_out (client_stream q6)) [] true).
Definition srv1 := ServerWitness.read_once ServerWitness.pong_dispatch srv0.
Definition srv2 := ServerWitness.read_once ServerWitness.pong_dispatch srv1.
Definition srv3 := ServerWitness.write_once srv2.
Definition srv4 := ServerWitness.work 0 srv3.
Definition srv5 := ServerWitness.write_once srv4.

Example server_overtakes : sc_jobs srv2 = [ServerWitness.pong 1] /\ ms_out (stream_of srv5) = input.
Proof. split; vm_compute; reflexivity. Qed.

Lemma overtaken_requests_time_out_witness :
  ms_in (client_stream q8) = resp_frame_ok 1 (str_bytes "pong"%string) None /\
  EvDone too_late ∈ [EvDone too_late] /\ cs_recv q9 = RWaiting true head.
Proof.
  split; [exact answer_arrived|].
  destruct (overtaken_requests_time_out always error_handle_default stream_keep_task slow 1 3 4 1 0 [] q8
    true head (replicate 4 RecvTick) [EvDone too_late] q9 1 (set_seq task 1)) as (Hin & _ & Hr).
  - lia.
  - exact q8_run.
  - split; vm_compute; reflexivity.
  - repeat constructor.
  - exact q9_exec.
  - vm_compute. left.
  - vm_compute. reflexivity.
  - split; [exact Hin|exact Hr].
Defined.

End PingWitness.
