(* ===== verification/Client.v ===== *)
(** * The client of one address: the pool with its connections

    [Pool] treats a connection as what it answers in a turn, [Stream] treats
    one connection alone. Here the workers of the pool own connections
    (pool.rs, the variable [stream] of [run]): what a turn is told is what the
    worker's connection answers, a call of [send_task] spans the steps of the
    connection between its first and its last, and a connection whose worker
    drops it lives on until its receiver exits. *)
From Stdlib Require Import ZArith Lia Strings.String.
From stdpp Require Import base list sets sorting.
From S2P Require Import Prelude Errors Task ApiClient Proto BTree Timer TimerInv Net TcpClient Stream StreamTrace Pool.
Local Open Scope Z_scope.
Local Open Scope rpc_scope.

(** Where a worker is in its call of [send_task]. *)
Inductive call_state : Type :=
| CNone             (** no call *)
| CBusy
| CBack (ok : bool) (** the call has returned, the worker has not looked yet *).

(** What a worker has in [stream]. *)
Inductive link (S T : Type) : Type :=
| NoConn
| Conn (st : ClientStream S T) (c : call_state).
Arguments NoConn {S T}.
Arguments Conn {S T}.

Record Client (S T : Type) : Type := MkClient {
  cl_pool : ConnPool T;
  cl_links : list (link S T);          (** of the workers, in their order *)
  cl_old : list (ClientStream S T);    (** dropped, with their receivers *)
}.
Arguments MkClient {S T}.
Arguments cl_pool {S T}.
Arguments cl_links {S T}.
Arguments cl_old {S T}.

Section client.
Context {S : Type} `{!AsyncStream S} {T : Type} `{!ClientTask T}.
Context (buffer_alloc : Z -> bool) (error_handle : T -> event T).
(** [ClientFacts::get_client_id] and [get_config]. *)
Context (client_id task_timeout thresholds : Z).
Implicit Types (st : ClientStream S T) (l : link S T) (c : Client S T).

(** The last argument of [send_task]: a monitor flushes at once. *)
Definition sending (pc : worker_pc T) : option (T * bool) :=
  match pc with WSend t => Some (t, true) | WRunSend t => Some (t, false) | _ => None end.

(** A turn that does not call the connection. *)
Definition local_pc (pc : worker_pc T) : bool :=
  match pc with WMonitor | WRecvTimer | WIdle | WBatch => true | _ => false end.

Definition is_ok {A E} (r : result A E) : bool := match r with Ok _ => true | Err _ => false end.

(** What the connection of a worker at [pc] answers in a turn, and the
    connection afterwards. *)
Inductive conn_answers : worker_pc T -> link S T -> outcome -> link S T -> Prop :=
| ca_connect (conn : TcpClient S) oc :
    oc_ok oc = true ->
    conn_answers WConnect NoConn oc (Conn (ClientStream_new conn client_id task_timeout thresholds) CNone)
| ca_refused oc : oc_ok oc = false -> conn_answers WConnect NoConn oc NoConn
| ca_local pc st oc :
    local_pc pc = true -> oc_inflight oc = get_inflight_count st ->
    conn_answers pc (Conn st CNone) oc (Conn st CNone)
| ca_return pc x st oc :
    sending pc = Some x -> conn_answers pc (Conn st (CBack (oc_ok oc))) oc (Conn st CNone)
| ca_ping alone st st' r oc :
    cs_seq st + 1 < 2 ^ 64 -> send_ping_req st = Ret (st', r) -> oc_ok oc = is_ok r ->
    conn_answers (WPing alone) (Conn st CNone) oc (Conn st' CNone)
| ca_flush st st' r oc :
    stream_flush_req st = (st', r) -> oc_ok oc = is_ok r ->
    conn_answers WFlush (Conn st CNone) oc (Conn st' CNone)
| ca_flush_end st st' r oc :
    stream_flush_req st = (st', r) -> oc_ok oc = is_ok r ->
    conn_answers WFlushEnd (Conn st CNone) oc (Conn st' CNone).

(** [stream] goes out of scope when the worker is back at ['CONN_LOOP] or gone. *)
Definition leaves (pc : worker_pc T) : bool := match pc with WConnect | WGone => true | _ => false end.
Definition release (pc : worker_pc T) l : link S T * list (ClientStream S T) :=
  match l with
  | Conn st _ => if leaves pc then (NoConn, [stream_drop st]) else (l, [])
  | NoConn => (NoConn, [])
  end.

Definition pc_at (i : nat) (p : ConnPool T) : worker_pc T :=
  match pl_workers p !! i with Some w => wk_pc w | None => WGone end.

(** Workers spawned in a turn have no connection yet. *)
Definition pad_links (p : ConnPool T) (ls : list (link S T)) : list (link S T) :=
  ls ++ replicate (length (pl_workers p) - length ls) NoConn.

(** The steps of a connection that are not the calls of its owner. *)
Definition inner_op (op : stream_op (T := T)) : bool :=
  match op with SendStart _ _ | Flush | Ping | ErrorExit | DropStream => false | _ => true end.

(** [send_task] returns. *)
Definition call_after (op : stream_op (T := T)) st' (cs : call_state) : call_state :=
  match op with
  | SendDone => CBack true
  | SendUndo | SendFailed => CBack false
  | SendRequest => match cs_sender st' with SIdle => CBack false | _ => cs end
  | _ => cs
  end.

(** The tasks a turn hands to [error_handle]. *)
Definition fails (outs : list (pool_out T)) : list (event T) :=
  omap (fun o => match o with PoFail e => Some e | PoSend _ => None end) outs.

Definition Client_new (channel_size : Z) : Client S T :=
  MkClient (ConnPool_new thresholds channel_size) [NoConn] [].

(** The tasks submitted, those that got lost ([StreamTrace.loss]), those handed
    back. *)
Inductive client_step : Client S T -> Client S T -> list T -> list (loss (T := T)) -> list (event T) -> Prop :=
| cl_submit p p' ls old t :
    pl_tx_open p = true -> pool_send_req t p = Ready p' ->
    client_step (MkClient p ls old) (MkClient p' ls old) [t] [] []
| cl_spawn p ls old :
    pl_tx_open p = true -> pl_worker_count p + 1 < 2 ^ 64 ->
    client_step (MkClient p ls old) (MkClient (pool_spawn p) (ls ++ [NoConn]) old) [] [] []
| cl_close p ls old : client_step (MkClient p ls old) (MkClient (close_tx p) ls old) [] [] []
| cl_drop p p' ls old outs :
    pool_unused p = true -> cleanup error_handle p = (p', outs) ->
    client_step (MkClient p ls old) (MkClient p' ls old) [] [] (fails outs)
| cl_turn p p' ls old oc i l l1 l2 gone outs :
    pl_connected p + 1 < 2 ^ 64 -> ls !! i = Some l -> conn_answers (pc_at i p) l oc l1 ->
    worker_turn error_handle oc i p = Some (p', outs) -> release (pc_at i p') l1 = (l2, gone) ->
    client_step (MkClient p ls old) (MkClient p' (pad_links p' (<[i := l2]> ls)) (old ++ gone))
      [] [] (fails outs)
| cl_call p ls old i st st' t nf evs :
    ls !! i = Some (Conn st CNone) -> sending (pc_at i p) = Some (t, nf) ->
    stream_step buffer_alloc error_handle (SendStart t nf) st st' evs ->
    client_step (MkClient p ls old) (MkClient p (<[i := Conn st' CBusy]> ls) old) [] [] evs
| cl_inner p ls old i st st' cs op evs :
    ls !! i = Some (Conn st cs) -> inner_op op = true ->
    stream_step buffer_alloc error_handle op st st' evs ->
    client_step (MkClient p ls old) (MkClient p (<[i := Conn st' (call_after op st' cs)]> ls) old)
      [] (lost_task op st st') evs
| cl_rest p ls old j st st' op evs :
    old !! j = Some st -> inner_op op = true ->
    stream_step buffer_alloc error_handle op st st' evs ->
    client_step (MkClient p ls old) (MkClient p ls (<[j := st']> old)) [] (lost_task op st st') evs.

Inductive client_run (c0 : Client S T) : Client S T -> list T -> list (loss (T := T)) -> list (event T) -> Prop :=
| crun_nil : client_run c0 c0 [] [] []
| crun_snoc c c' ts lost outs ts' lost' outs' :
    client_run c0 c ts lost outs -> client_step c c' ts' lost' outs' ->
    client_run c0 c' (ts ++ ts') (lost ++ lost') (outs ++ outs').

End client.
