(* ===== verification/ClientInv.v ===== *)
(** * Where the requests submitted to a pool are

    The invariant of [Client]: what each worker's connection is doing agrees
    with where the worker is, and the tasks submitted are, as a multiset of
    tags, those in the channel, in the hands of workers, in connections, lost
    there ([loss]) or handed back. A turn keeps it by the conservation results of [Pool],
    a step of a connection by those of [StreamTrace]. *)
From Stdlib Require Import ZArith Lia Strings.String.
From stdpp Require Import base list sets sorting.
From S2P Require Import Prelude Errors Task ApiClient Proto BTree Timer TimerInv Net TcpClient Stream StreamInv StreamTrace Pool Client.
Local Open Scope Z_scope.
Local Open Scope rpc_scope.

(** ** A turn of a worker *)

Section turns.
Context {T : Type} `{!ClientTask T} (error_handle : T -> event T).
Implicit Types p : ConnPool T.

Definition sends (outs : list (pool_out T)) : list T :=
  omap (fun o => match o with PoSend t => Some t | PoFail _ => None end) outs.

Lemma sends_fails sent (failed : list T) :
  sends (map PoSend sent ++ map (fail_out error_handle) failed) = sent /\
  fails (map PoSend sent ++ map (fail_out error_handle) failed) =
    map (fun t => error_handle (set_rpc_error t Unreachable)) failed.
Proof.
  unfold sends, fails. induction sent as [|t sent [IH1 IH2]]; cbn in *.
  - induction failed as [|t failed [IH1 IH2]]; cbn in *; [done|]. by rewrite IH1, IH2.
  - by rewrite IH1, IH2.
Qed.

Lemma sends_cleanup p : sends (cleanup error_handle p).2 = [].
Proof. exact (proj1 (sends_fails [] (pl_queue p))). Qed.

(** What a turn does to the list of workers and gives to the connection. *)
Lemma turn_shape oc i p p' outs :
  worker_turn error_handle oc i p = Some (p', outs) ->
  sends outs = pc_held (pc_at i p) /\
  (pc_at i p = WConnect -> oc_ok oc = false -> pc_at i p' = WConnect) /\
  exists w' new, pl_workers p' = <[i := w']> (pl_workers p) ++ new /\
    Forall (fun w => wk_pc w = WConnect) new.
Proof.
  unfold worker_turn, pc_at at 1 2. destruct (pl_workers p !! i) as [[id pc]|] eqn:Hi; [|done].
  assert (Hat : forall (q : ConnPool T) w', pl_workers q = <[i := w']> (pl_workers p) -> pc_at i q = wk_pc w').
  { intros q w' E. unfold pc_at. rewrite E, list_lookup_insert_eq; [done|]. by apply lookup_lt_Some in Hi. }
  unfold run_worker_end, run_worker_start, worker_exit, spawn_worker.
  intros H; destruct pc as [| |[]| | | | | | | |]; cbn in H; try done;
    repeat (case_match; simplify_eq/=);
    repeat match goal with E : cleanup _ _ = _ |- _ => injection E as <- <- end.
  all: split; [first [done|apply (sends_cleanup p)|f_equal; apply (sends_cleanup p)]|];
    split; [intros ? ?; first [done|by erewrite Hat by reflexivity]|].
  all: first
    [ eexists _, [Worker 0 WConnect]; split; [reflexivity|by constructor]
    | eexists _, []; split; [rewrite app_nil_r; reflexivity|done] ].
Qed.

End turns.

Section facts.
Context {S : Type} `{!AsyncStream S} {T : Type} `{!ClientTask T} `{!ClientTaskOk T}.
Context {K : Type} `{!TaskTag T K}.
Context (buffer_alloc : Z -> bool) (error_handle : T -> event T).
Context (error_handle_task : forall t, ev_task (error_handle t) = t).
Context (client_id task_timeout thresholds : Z) (timeout_ok : 0 <= task_timeout).
Implicit Types (st : ClientStream S T) (l : link S T) (c : Client S T) (p : ConnPool T).
Abbreviation step := (client_step buffer_alloc error_handle client_id task_timeout thresholds).
Abbreviation run := (client_run buffer_alloc error_handle client_id task_timeout thresholds).
Abbreviation answers := (conn_answers client_id task_timeout thresholds).

(** ** What the client is responsible for *)

Definition link_tags l : list K := match l with NoConn => [] | Conn st _ => stream_tags st end.
(** The task of a call under way is the connection's. *)
Definition call_tasks (w : worker T) l : list T :=
  match l with NoConn | Conn _ CNone => [] | Conn _ _ => pc_held (wk_pc w) end.

Definition conn_tags c : list K :=
  concat (map link_tags (cl_links c)) ++ concat (map stream_tags (cl_old c)).
Definition calls c : list T := concat (zip_with call_tasks (pl_workers (cl_pool c)) (cl_links c)).

(** ** The invariant *)

Definition stream_good st : Prop := exists started lost handed, stream_inv started lost handed st.

(** Where a worker is, and what its connection is doing. *)
Definition link_ok (pc : worker_pc T) l : Prop :=
  match l with
  | NoConn => leaves pc = true
  | Conn st cs => stream_good st /\
    match cs with
    | CNone => leaves pc = false /\ cs_sender st = SIdle
    | CBusy => is_Some (sending pc) /\ cs_sender st <> SIdle
    | CBack _ => is_Some (sending pc) /\ cs_sender st = SIdle
    end
  end.

Definition old_ok st : Prop := stream_good st /\ cs_sender st = SGone.

Record client_inv c : Prop := ClientInv {
  ci_len : length (cl_links c) = length (pl_workers (cl_pool c));
  ci_links : forall i l, cl_links c !! i = Some l -> link_ok (pc_at i (cl_pool c)) l;
  ci_old : Forall old_ok (cl_old c);
}.

Lemma good_step op st st' evs :
  stream_good st -> stream_step buffer_alloc error_handle op st st' evs -> stream_good st'.
Proof using error_handle_task ClientTaskOk0.
  intros (s & lo & h & H) Hs. eexists _, _, _. by eapply inv_step.
Qed.

(** Operations the owner calls between its calls of [send_task]. *)
Lemma idle_step op st st' evs :
  stream_good st -> cs_sender st = SIdle -> op = Flush \/ op = Ping ->
  stream_step buffer_alloc error_handle op st st' evs ->
  stream_good st' /\ cs_sender st' = SIdle /\ evs = [] /\ stream_tags st ≡ₚ stream_tags st'.
Proof using error_handle_task ClientTaskOk0 TaskTag0.
  intros Hg Hi Hop Hs. split; [by eapply good_step|].
  destruct Hg as (s & lo & h & Hg).
  pose proof (step_balanced _ _ error_handle_task _ _ _ _ _ _ _ Hg Hs) as Hb. unfold balanced in Hb.
  assert (E : cs_sender st' = SIdle /\ evs = []).
  { destruct Hop as [-> | ->]; inversion Hs; subst; (split; [|done]).
    - unfold stream_flush_req in *. by destruct (flush_req (cs_conn st)) as [? []]; simplify_eq.
    - unfold send_ping_req, seq_update in *. destruct (cs_closed st); simplify_eq; [done|].
      destruct (ReqHead_encode_ping _ _ _); cbn in *; [|done].
      by destruct (write_req _ _ _ _) as [? []]; simplify_eq. }
  destruct E as [E ->]. split; [done|]. split; [done|].
  destruct Hop as [-> | ->]; unfold lost_task in Hb; cbn in Hb; by rewrite app_nil_r in Hb.
Qed.

(** A connection that is ready for its worker's next turn. *)
Definition link_ready l : Prop :=
  match l with NoConn => True | Conn st cs => cs = CNone /\ cs_sender st = SIdle /\ stream_good st end.

(** The answers of a connection, and the worker they are given to. *)
Lemma answers_facts pc l oc l' :
  answers pc l oc l' -> link_ok pc l ->
  link_ready l' /\ link_tags l ≡ₚ link_tags l' /\
  (l' = NoConn -> pc = WConnect /\ oc_ok oc = false) /\
  (forall w, wk_pc w = pc -> call_tasks w l = pc_held pc).
Proof using error_handle_task ClientTaskOk0 timeout_ok buffer_alloc.
  intros H Hok. destruct H as [conn oc Ho|oc Ho|pc st oc Hl Hi|pc [t nf] st oc Hs|alone st st' r oc Hb Hp Ho
    |st st' r oc Hf Ho|st st' r oc Hf Ho]; cbn in Hok |- *.
  - split; [|done]. split; [done|]. split; [done|]. eexists _, _, _. by apply ClientStream_new_inv.
  - done.
  - destruct Hok as [Hg [_ Hid]]. split; [done|]. split; [done|]. split; [done|]. by destruct pc.
  - destruct Hok as [Hg [_ Hid]]. split; [done|]. split; [done|]. split; [done|].
    intros w ->. by destruct pc.
  - destruct Hok as [Hg [_ Hid]].
    destruct (idle_step Ping st st' [] Hg Hid) as (? & ? & _ & ?); [by right|by eapply st_ping|done].
  - destruct Hok as [Hg [_ Hid]].
    destruct (idle_step Flush st st' [] Hg Hid) as (? & ? & _ & ?); [by left|by eapply st_flush|done].
  - destruct Hok as [Hg [_ Hid]].
    destruct (idle_step Flush st st' [] Hg Hid) as (? & ? & _ & ?); [by left|by eapply st_flush|done].
Qed.

(** Leaving the scope of [stream]. *)
Lemma release_facts pc l l' gone :
  release pc l = (l', gone) -> link_ready l -> (l = NoConn -> leaves pc = true) ->
  link_ok pc l' /\ Forall old_ok gone /\ link_tags l ≡ₚ link_tags l' ++ concat (map stream_tags gone) /\
  (forall w, call_tasks w l' = []).
Proof using AsyncStream0 buffer_alloc error_handle_task ClientTaskOk0.
  unfold release. intros H Hr Hn. destruct l as [|st cs].
  - simplify_eq. split; [by apply Hn|]. by split; [constructor|].
  - destruct Hr as (-> & Hid & Hg). destruct (leaves pc) eqn:El; simplify_eq/=.
    + split; [done|]. split; [|split; [|done]].
      * constructor; [|done]. split; [|done]. eapply good_step; [done|]. by apply st_drop.
      * rewrite app_nil_r. unfold stream_tags, stream_drop; cbn. by rewrite Hid.
    + split; [done|]. split; [constructor|]. by rewrite app_nil_r.
Qed.

(** ** Every step keeps the balance *)

Definition balance c c' (ts : list T) (lost : list (loss (T := T))) (evs : list (event T)) : Prop :=
  map tag (ts ++ inside (cl_pool c) ++ calls c') ++ conn_tags c ≡ₚ
  map tag (inside (cl_pool c') ++ calls c) ++ conn_tags c' ++ map ev_tag evs ++ map loss_tag lost.

Lemma pc_at_old i p p' ws new :
  (i < length (pl_workers p))%nat -> pl_workers p' = ws ++ new -> ws !! i = pl_workers p !! i ->
  pc_at i p' = pc_at i p.
Proof.
  intros Hi E Hw. unfold pc_at. rewrite E, lookup_app_l, Hw; [done|].
  apply lookup_lt_is_Some. rewrite Hw. by apply lookup_lt_is_Some.
Qed.

Lemma pc_at_new i p' ws new :
  (length ws <= i < length ws + length new)%nat -> pl_workers p' = ws ++ new ->
  Forall (fun w : worker T => wk_pc w = WConnect) new -> pc_at i p' = WConnect.
Proof.
  intros Hi E Hn. unfold pc_at. rewrite E, lookup_app_r by lia.
  destruct (new !! (i - length ws)%nat) as [w|] eqn:Ew.
  - exact (Forall_lookup_1 _ _ _ _ Hn Ew).
  - apply lookup_ge_None in Ew. lia.
Qed.

(** Links of workers that have just been spawned. *)
Lemma links_grow p p' ws new (ls : list (link S T)) :
  length ws = length (pl_workers p) -> pl_workers p' = ws ++ new ->
  Forall (fun w : worker T => wk_pc w = WConnect) new -> length ls = length (pl_workers p) ->
  pad_links p' ls = ls ++ replicate (length new) NoConn /\
  length (pad_links p' ls) = length (pl_workers p') /\
  (forall i l, (length (pl_workers p) <= i)%nat -> pad_links p' ls !! i = Some l ->
     link_ok (pc_at i p') l) /\
  concat (zip_with call_tasks (pl_workers p') (pad_links p' ls)) = concat (zip_with call_tasks ws ls).
Proof.
  intros Hw E Hn Hl.
  assert (Ep : pad_links p' ls = ls ++ replicate (length new) NoConn).
  { unfold pad_links. rewrite E, length_app, Hw, Hl. do 2 f_equal. lia. }
  split; [done|]. rewrite Ep. split; [rewrite E, !length_app, length_replicate; lia|]. split.
  - intros i l Hi Hli. rewrite lookup_app_r in Hli by lia.
    apply lookup_replicate in Hli as [-> Hlt]. cbn.
    rewrite (pc_at_new i p' ws new); [done|lia|done..].
  - rewrite E, zip_with_app by lia. rewrite concat_app.
    rewrite (concat_nil_all (zip_with call_tasks new _)); [by rewrite app_nil_r|].
    apply Forall_lookup. intros i x Hx. rewrite lookup_zip_with in Hx.
    destruct (new !! i) as [w|]; cbn in Hx; [|done].
    destruct (replicate (length new) (NoConn (S := S)) !! i) as [l|] eqn:El; cbn in Hx; [|done].
    apply lookup_replicate in El as [-> _]. by simplify_eq.
Qed.

Lemma calls_insert (ws : list (worker T)) (ls : list (link S T)) i w l w' l' :
  ws !! i = Some w -> ls !! i = Some l ->
  concat (zip_with call_tasks ws ls) ++ call_tasks w' l' ≡ₚ
    concat (zip_with call_tasks (<[i := w']> ws) (<[i := l']> ls)) ++ call_tasks w l.
Proof.
  intros Hw Hl. rewrite <- insert_zip_with. apply concat_insert.
  by rewrite lookup_zip_with, Hw; cbn; rewrite Hl.
Qed.

Lemma turn_step p p' ls old oc i l l1 l2 gone outs :
  client_inv (MkClient p ls old) -> ls !! i = Some l -> answers (pc_at i p) l oc l1 ->
  worker_turn error_handle oc i p = Some (p', outs) -> release (pc_at i p') l1 = (l2, gone) ->
  client_inv (MkClient p' (pad_links p' (<[i := l2]> ls)) (old ++ gone)) /\
  balance (MkClient p ls old) (MkClient p' (pad_links p' (<[i := l2]> ls)) (old ++ gone)) [] [] (fails outs).
Proof using buffer_alloc error_handle_task ClientTaskOk0 timeout_ok.
  intros [Hlen Hlinks Hold] Hi Ha Ht Hr. cbn [cl_pool cl_links cl_old] in *.
  destruct (turn_shape _ _ _ _ _ _ Ht) as (Hs & Hc & w' & new & Ew & Hn).
  assert (Hil : (i < length (pl_workers p))%nat) by (rewrite <- Hlen; by apply lookup_lt_Some in Hi).
  destruct (lookup_lt_is_Some_2 _ _ Hil) as [w Hw].
  assert (Epc : pc_at i p = wk_pc w) by (unfold pc_at; by rewrite Hw).
  destruct (answers_facts _ _ _ _ Ha (Hlinks i l Hi)) as (Hready & Htags & Hno & Hcall).
  destruct (release_facts _ _ _ _ Hr Hready) as (Hok & Hgone & Hrel & Hcall2).
  { intros ->. destruct (Hno eq_refl) as [E1 E2]. by rewrite (Hc E1 E2). }
  destruct (links_grow p p' (<[i := w']> (pl_workers p)) new (<[i := l2]> ls)) as (Epad & Hplen & Hpnew & Hpcalls);
    [by rewrite length_insert|done|done|by rewrite length_insert|].
  split.
  - split; cbn [cl_pool cl_links cl_old]; [done| |by apply Forall_app].
    intros j lj Hj. destruct (decide (j < length (pl_workers p))%nat) as [Hlt|Hge];
      [|by apply Hpnew; [lia|]].
    rewrite Epad, lookup_app_l in Hj by (rewrite length_insert; lia).
    destruct (decide (i = j)) as [<-|Hne].
    + rewrite list_lookup_insert_eq in Hj by lia. by simplify_eq.
    + rewrite list_lookup_insert_ne in Hj by done.
      rewrite (pc_at_old j p p' (<[i := w']> (pl_workers p)) new); [by apply Hlinks|done|done|].
      by rewrite list_lookup_insert_ne.
  - destruct (turn_conserves _ _ _ _ _ _ Ht) as (sent & failed & Eo & Hp).
    destruct (sends_fails error_handle sent failed) as [Es Ef]. rewrite <- Eo in Es, Ef.
    rewrite Es in Hs. subst sent. rewrite Ef.
    pose proof (calls_insert (pl_workers p) ls i w l w' l2 Hw Hi) as Hz.
    rewrite Hcall2, app_nil_r, (Hcall w (eq_sym Epc)) in Hz. rewrite Epc in *.
    pose proof (concat_map_insert link_tags ls i l l2 Hi) as Hz2. rewrite Htags, Hrel in Hz2.
    unfold balance, calls, conn_tags. cbn [cl_pool cl_links cl_old].
    rewrite Hpcalls, Epad, Hz, Hp, !map_app, !concat_app, (concat_nil_all (map link_tags (replicate _ _))).
    2: { apply Forall_map, Forall_replicate. done. }
    rewrite map_map.
    rewrite (map_ext (fun t => ev_tag (error_handle _)) tag).
    2: { intros t. unfold ev_tag. by rewrite error_handle_task, tag_rpc_error. }
    cbn. rewrite !app_nil_r.
    assert (Hz3 : concat (map link_tags ls) ≡ₚ
      concat (map link_tags (<[i:=l2]> ls)) ++ concat (map stream_tags gone)).
    { apply (Permutation_app_inv_r (link_tags l2)). rewrite Hz2. solve_Permutation. }
    rewrite Hz3. solve_Permutation.
Qed.

(** What an inner step does to the sender: nothing between calls, and inside a
    call the sender is at rest exactly when the call has returned. *)
Definition idle_pc (s : sender_pc T) : bool := match s with SIdle | SGone => true | _ => false end.

Lemma inner_sender op st st' evs :
  inner_op op = true -> stream_step buffer_alloc error_handle op st st' evs ->
  if idle_pc (cs_sender st)
  then cs_sender st' = cs_sender st /\ forall cs, call_after op st' cs = cs
  else (cs_sender st' = SIdle /\ exists ok, forall cs, call_after op st' cs = CBack ok) \/
       (idle_pc (cs_sender st') = false /\ forall cs, call_after op st' cs = cs).
Proof.
  intros Hi Hs. pose proof (sender_next _ _ _ _ _ _ Hs) as Hn.
  destruct op; try done; cbn [call_after]; try (rewrite Hn; destruct (cs_sender st); cbn; auto; fail).
  - destruct Hn as (t & nf & -> & [-> | ->]); cbn; auto.
  - destruct Hn as [-> ->]. cbn. left. eauto.
  - destruct Hn as (t & nf & -> & [-> |(t' & [-> | ->])]); cbn; auto. left. eauto.
  - destruct Hn as (t & -> & ->). cbn. auto.
  - destruct Hn as (t & -> & ->). cbn. left. eauto.
  - destruct Hn as [-> ->]. cbn. left. eauto.
Qed.

(** A step of the connection of worker [i]. *)
Lemma link_step p ls old i st st' cs cs' op evs :
  client_inv (MkClient p ls old) -> ls !! i = Some (Conn st cs) ->
  stream_step buffer_alloc error_handle op st st' evs -> link_ok (pc_at i p) (Conn st' cs') ->
  (forall w, wk_pc w = pc_at i p -> call_tasks w (Conn st' cs') = op_task op ++ call_tasks w (Conn st cs)) ->
  client_inv (MkClient p (<[i := Conn st' cs']> ls) old) /\
  balance (MkClient p ls old) (MkClient p (<[i := Conn st' cs']> ls) old) [] (lost_task op st st') evs.
Proof using error_handle_task ClientTaskOk0.
  intros [Hlen Hlinks Hold] Hi Hs Hok Hcall. cbn [cl_pool cl_links cl_old] in *.
  assert (Hil : (i < length (pl_workers p))%nat) by (rewrite <- Hlen; by apply lookup_lt_Some in Hi).
  destruct (lookup_lt_is_Some_2 _ _ Hil) as [w Hw].
  assert (Epc : pc_at i p = wk_pc w) by (unfold pc_at; by rewrite Hw).
  split.
  - split; cbn [cl_pool cl_links cl_old]; [by rewrite length_insert| |done].
    intros j lj Hj. destruct (decide (i = j)) as [<-|Hne].
    + rewrite list_lookup_insert_eq in Hj by (rewrite Hlen; lia). by simplify_eq.
    + rewrite list_lookup_insert_ne in Hj by done. by apply Hlinks.
  - destruct (Hlinks i _ Hi) as [(s & lo & h & Hg) _].
    pose proof (step_balanced _ _ error_handle_task _ _ _ _ _ _ _ Hg Hs) as Hb. unfold balanced in Hb.
    pose proof (calls_insert (pl_workers p) ls i w _ w (Conn st' cs') Hw Hi) as Hz.
    rewrite (Hcall w (eq_sym Epc)), (list_insert_id (pl_workers p) i w Hw) in Hz.
    pose proof (concat_map_insert link_tags ls i _ (Conn st' cs') Hi) as Hz2. cbn [link_tags] in Hz2.
    unfold balance, calls, conn_tags. cbn [cl_pool cl_links cl_old app].
    assert (Hz3 : concat (zip_with call_tasks (pl_workers p) (<[i := Conn st' cs']> ls)) ≡ₚ
      concat (zip_with call_tasks (pl_workers p) ls) ++ op_task op).
    { apply (Permutation_app_inv_r (call_tasks w (Conn st cs))). rewrite <- Hz. solve_Permutation. }
    rewrite Hz3, !map_app.
    apply (Permutation_app_inv_r (stream_tags st')).
    assert (E : forall X Y A B C D E' : list K, X ++ D ≡ₚ E' ++ Y -> A ++ Y ≡ₚ D ++ B ++ C ->
      (A ++ X) ++ D ≡ₚ (E' ++ D) ++ B ++ C).
    { intros X Y A B C D E' H1 H2. rewrite <- app_assoc, H1.
      transitivity (E' ++ (A ++ Y)); [solve_Permutation|]. by rewrite H2, app_assoc. }
    specialize (E _ _ _ _ _ _ _ Hz2 Hb).
    transitivity ((map tag (op_task op) ++ concat (map link_tags ls)) ++ stream_tags st' ++
      (map tag (inside p) ++ map tag (concat (zip_with call_tasks (pl_workers p) ls)) ++
       concat (map stream_tags old))); [solve_Permutation|].
    rewrite app_assoc, E. solve_Permutation.
Qed.

Lemma call_step p ls old i st st' t nf evs :
  client_inv (MkClient p ls old) -> ls !! i = Some (Conn st CNone) -> sending (pc_at i p) = Some (t, nf) ->
  stream_step buffer_alloc error_handle (SendStart t nf) st st' evs ->
  client_inv (MkClient p (<[i := Conn st' CBusy]> ls) old) /\
  balance (MkClient p ls old) (MkClient p (<[i := Conn st' CBusy]> ls) old) [] [] evs.
Proof using error_handle_task ClientTaskOk0.
  intros H Hi Hp Hs. pose proof (ci_links _ H i _ Hi) as [Hg _].
  apply (link_step p ls old i st st' CNone CBusy (SendStart t nf) evs); [done..| |].
  - split; [by eapply good_step|]. split; [by rewrite Hp|]. by inversion Hs; subst.
  - intros w Ew. cbn. rewrite Ew. by destruct (pc_at i p); simplify_eq/=.
Qed.

Lemma inner_step p ls old i st st' cs op evs :
  client_inv (MkClient p ls old) -> ls !! i = Some (Conn st cs) -> inner_op op = true ->
  stream_step buffer_alloc error_handle op st st' evs ->
  client_inv (MkClient p (<[i := Conn st' (call_after op st' cs)]> ls) old) /\
  balance (MkClient p ls old) (MkClient p (<[i := Conn st' (call_after op st' cs)]> ls) old)
    [] (lost_task op st st') evs.
Proof using error_handle_task ClientTaskOk0.
  intros H Hi Ho Hs. pose proof (ci_links _ H i _ Hi) as [Hg Hcs].
  assert (Hop : op_task op = []) by (by destruct op).
  pose proof (inner_sender _ _ _ _ Ho Hs) as Hin.
  eapply link_step; [done|done|done| |].
  - split; [by eapply good_step|]. destruct cs as [| |ok].
    + destruct Hcs as [Hl E]. rewrite E in Hin. cbn in Hin. destruct Hin as [E' Hc].
      by rewrite Hc, E'.
    + destruct Hcs as [Hw E]. destruct (idle_pc (cs_sender st)) eqn:Ei.
      * destruct Hin as [E' Hc]. by rewrite Hc, E'.
      * destruct Hin as [[E' [ok Hc]]|[E' Hc]]; rewrite Hc; [done|]. split; [done|].
        by destruct (cs_sender st').
    + destruct Hcs as [Hw E]. rewrite E in Hin. cbn in Hin. destruct Hin as [E' Hc].
      by rewrite Hc, E'.
  - intros w _. rewrite Hop. cbn [app]. destruct cs as [| |ok].
    + destruct Hcs as [_ E]. rewrite E in Hin. by destruct Hin as [_ ->].
    + destruct (idle_pc (cs_sender st)); [by destruct Hin as [_ ->]|].
      by destruct Hin as [[_ [ok ->]]|[_ ->]].
    + destruct Hcs as [_ E]. rewrite E in Hin. by destruct Hin as [_ ->].
Qed.

(** A dropped connection: only its receiver runs. *)
Lemma rest_step p ls old j st st' op evs :
  client_inv (MkClient p ls old) -> old !! j = Some st -> inner_op op = true ->
  stream_step buffer_alloc error_handle op st st' evs ->
  client_inv (MkClient p ls (<[j := st']> old)) /\
  balance (MkClient p ls old) (MkClient p ls (<[j := st']> old)) [] (lost_task op st st') evs.
Proof using error_handle_task ClientTaskOk0.
  intros [Hlen Hlinks Hold] Hj Ho Hs. cbn [cl_pool cl_links cl_old] in *.
  destruct (Forall_lookup_1 _ _ _ _ Hold Hj) as [Hg E].
  pose proof (inner_sender _ _ _ _ Ho Hs) as Hin. rewrite E in Hin. cbn in Hin. destruct Hin as [E' _].
  split.
  - split; [done|done|]. cbn. apply Forall_insert; [done|]. split; [by eapply good_step|done].
  - destruct Hg as (s & lo & h & Hg).
    pose proof (step_balanced _ _ error_handle_task _ _ _ _ _ _ _ Hg Hs) as Hb. unfold balanced in Hb.
    assert (Hop : op_task op = []) by (by destruct op). rewrite Hop in Hb. cbn in Hb.
    pose proof (concat_map_insert stream_tags old j st st' Hj) as Hz.
    unfold balance, calls, conn_tags. cbn [cl_pool cl_links cl_old app].
    rewrite !map_app. apply (Permutation_app_inv_r (stream_tags st')).
    assert (X : forall A B C D E' F : list K, B ++ C ≡ₚ D ++ E' -> E' ≡ₚ C ++ F ->
      (A ++ B) ++ C ≡ₚ (A ++ D ++ F) ++ C).
    { intros A B C D E0 F H1 H2. rewrite <- app_assoc, H1, H2. solve_Permutation. }
    rewrite app_assoc, (X _ _ _ _ _ _ Hz Hb). solve_Permutation.
Qed.

Lemma step_keeps c c' ts lost evs :
  client_inv c -> step c c' ts lost evs -> client_inv c' /\ balance c c' ts lost evs.
Proof using error_handle_task ClientTaskOk0 timeout_ok.
  intros H Hs. destruct Hs as [p p' ls old t Ho Hq|p ls old Ho Hb|p ls old|p p' ls old outs Hu Hc
    |p p' ls old oc i l l1 l2 gone outs Hb Hi Ha Ht Hr|p ls old i st st' t nf evs Hi Hp Hs
    |p ls old i st st' cs op evs Hi Ho Hs|p ls old j st st' op evs Hj Ho Hs].
  - unfold pool_send_req in Hq. case_match; simplify_eq. split; [by destruct H; split|].
    unfold balance, inside, calls, conn_tags; cbn. rewrite !map_app. cbn. solve_Permutation.
  - destruct H as [Hlen Hlinks Hold]. cbn [cl_pool cl_links cl_old] in *.
    set (w := Worker (pl_worker_count p) WConnect : worker T).
    assert (Ew : pl_workers (pool_spawn p) = pl_workers p ++ [w]) by done.
    destruct (links_grow p (pool_spawn p) (pl_workers p) [w] ls) as (Epad & Hplen & Hpnew & Hpcalls);
      [done|done|by constructor|done|]. cbn in Epad. rewrite Epad in *.
    split; [split; cbn [cl_pool cl_links cl_old]; [done| |done]|].
    + intros i l Hi. destruct (decide (i < length (pl_workers p))%nat) as [Hlt|Hge]; [|by apply Hpnew; [lia|]].
      rewrite lookup_app_l in Hi by lia. rewrite (pc_at_old i p _ (pl_workers p) [w]) by done. by apply Hlinks.
    + unfold balance, calls, conn_tags. cbn [cl_pool cl_links cl_old]. rewrite Hpcalls.
      unfold inside, held_tasks. rewrite Ew, !map_app, !concat_app. cbn. rewrite !app_nil_r. done.
  - split; [by destruct H; split|]. unfold balance. cbn. by rewrite app_nil_r.
  - injection Hc as <- <-. split; [by destruct H; split|].
    destruct (sends_fails error_handle [] (pl_queue p)) as [_ Ef]. cbn [map app] in Ef. unfold fail_out in Ef.
    rewrite Ef. unfold balance, inside, calls, conn_tags; cbn.
    rewrite map_map, (map_ext (fun t => ev_tag (error_handle _)) tag).
    2: { intros t. unfold ev_tag. by rewrite error_handle_task, tag_rpc_error. }
    rewrite !map_app. solve_Permutation.
  - by eapply turn_step.
  - by eapply call_step.
  - by apply inner_step.
  - by apply rest_step.
Qed.

Lemma Client_new_inv n : client_inv (Client_new (S := S) (T := T) thresholds n).
Proof. split; [done| |constructor]. intros [|i] l Hi; cbn in Hi; by simplify_eq. Qed.

(** ** The tasks that could not be encoded *)

Definition stream_lost st : Z :=
  pending_task_count (cs_timer st) - zlen (pending_tasks (cs_timer st)) - sender_count (cs_sender st).
Definition link_lost l : Z := match l with NoConn => 0 | Conn st _ => stream_lost st end.
Definition client_lost c : Z := zsum link_lost (cl_links c) + zsum stream_lost (cl_old c).

Lemma stream_lost_eq started lost handed st : stream_inv started lost handed st -> stream_lost st = lost.
Proof. intros H. unfold stream_lost. pose proof (si_count _ _ _ _ H). lia. Qed.

Lemma lost_step op st st' evs :
  stream_good st -> stream_step buffer_alloc error_handle op st st' evs ->
  stream_lost st' = stream_lost st + zlen (unencoded (lost_task op st st')).
Proof using error_handle_task ClientTaskOk0.
  intros (s & lo & h & H) Hs. rewrite (lost_task_count _ _ _ _ _ _ Hs), (stream_lost_eq _ _ _ _ H).
  eapply stream_lost_eq. by eapply inv_step.
Qed.

Lemma answers_lost pc l oc l' : answers pc l oc l' -> link_ok pc l -> link_lost l' = link_lost l.
Proof using error_handle_task ClientTaskOk0 buffer_alloc.
  intros H Hok. destruct H as [conn oc Ho|oc Ho|pc st oc Hl Hi|pc x st oc Hs|alone st st' r oc Hb Hp Ho
    |st st' r oc Hf Ho|st st' r oc Hf Ho]; cbn in Hok |- *; try done; destruct Hok as [Hg [_ Hid]].
  - rewrite (lost_step Ping st st' []); [by cbn; rewrite Z.add_0_r|done|by eapply st_ping].
  - rewrite (lost_step Flush st st' []); [by cbn; rewrite Z.add_0_r|done|by eapply st_flush].
  - rewrite (lost_step Flush st st' []); [by cbn; rewrite Z.add_0_r|done|by eapply st_flush].
Qed.

Lemma release_lost pc l l' gone :
  release pc l = (l', gone) -> link_ready l -> link_lost l = link_lost l' + zsum stream_lost gone.
Proof.
  unfold release. intros H Hr. destruct l as [|st cs]; [by simplify_eq|].
  destruct Hr as (-> & Hid & _). destruct (leaves pc); simplify_eq/=; [|lia].
  unfold stream_lost, stream_drop; cbn. rewrite Hid. cbn. lia.
Qed.

Lemma pad_lost p (ls : list (link S T)) : zsum link_lost (pad_links p ls) = zsum link_lost ls.
Proof. unfold pad_links. rewrite zsum_app. rewrite (zsum_zero link_lost (replicate _ _)); [lia|by apply Forall_replicate]. Qed.

Lemma step_lost c c' ts lost evs :
  client_inv c -> step c c' ts lost evs -> client_lost c' = client_lost c + zlen (unencoded lost).
Proof using error_handle_task ClientTaskOk0 timeout_ok TaskTag0.
  intros H Hs. destruct Hs as [p p' ls old t Ho Hq|p ls old Ho Hb|p ls old|p p' ls old outs Hu Hc
    |p p' ls old oc i l l1 l2 gone outs Hb Hi Ha Ht Hr|p ls old i st st' t nf evs Hi Hp Hs
    |p ls old i st st' cs op evs Hi Ho Hs|p ls old j st st' op evs Hj Ho Hs];
    unfold client_lost; cbn [cl_links cl_old unencoded omap list_omap]; rewrite ?zlen_nil; try lia.
  - rewrite zsum_app. cbn. lia.
  - pose proof (ci_links _ H i _ Hi) as Hok. cbn [cl_pool] in Hok.
    destruct (answers_facts _ _ _ _ Ha Hok) as (Hready & _).
    rewrite pad_lost, zsum_app, (zsum_insert _ _ _ _ _ Hi).
    pose proof (answers_lost _ _ _ _ Ha Hok). pose proof (release_lost _ _ _ _ Hr Hready). lia.
  - destruct (ci_links _ H i _ Hi) as [Hg _]. rewrite (zsum_insert _ _ _ _ _ Hi). cbn [link_lost].
    rewrite (lost_step _ _ _ _ Hg Hs). cbn. rewrite zlen_nil. lia.
  - destruct (ci_links _ H i _ Hi) as [Hg _]. rewrite (zsum_insert _ _ _ _ _ Hi). cbn [link_lost].
    rewrite (lost_step _ _ _ _ Hg Hs). lia.
  - destruct (Forall_lookup_1 _ _ _ _ (ci_old _ H) Hj) as [Hg _]. rewrite (zsum_insert _ _ _ _ _ Hj).
    rewrite (lost_step _ _ _ _ Hg Hs). lia.
Qed.

(** ** The tasks that were dropped: one for each receiver that [has_err] has
    stopped, at most *)

Definition link_dropped l : Z := match l with NoConn => 0 | Conn st _ => drop_room st end.
Definition client_dropped c : Z := zsum link_dropped (cl_links c) + zsum drop_room (cl_old c).

Lemma good_drop_step op st st' evs :
  stream_good st -> stream_step buffer_alloc error_handle op st st' evs ->
  drop_room st + zlen (dropped (lost_task op st st')) <= drop_room st'.
Proof. intros (s & lo & h & H) Hs. by eapply drop_step. Qed.

Lemma answers_dropped pc l oc l' : answers pc l oc l' -> link_ok pc l -> link_dropped l <= link_dropped l'.
Proof using buffer_alloc error_handle.
  intros H Hok. destruct H as [conn oc Ho|oc Ho|pc st oc Hl Hi|pc x st oc Hs|alone st st' r oc Hb Hp Ho
    |st st' r oc Hf Ho|st st' r oc Hf Ho]; cbn in Hok |- *; try done; destruct Hok as [Hg [_ Hid]].
  - pose proof (good_drop_step Ping st st' [] Hg ltac:(by eapply st_ping)) as Hd. cbn in Hd. rewrite zlen_nil in Hd. lia.
  - pose proof (good_drop_step Flush st st' [] Hg ltac:(by eapply st_flush)) as Hd. cbn in Hd. rewrite zlen_nil in Hd. lia.
  - pose proof (good_drop_step Flush st st' [] Hg ltac:(by eapply st_flush)) as Hd. cbn in Hd. rewrite zlen_nil in Hd. lia.
Qed.

Lemma release_dropped pc l l' gone :
  release pc l = (l', gone) -> link_dropped l <= link_dropped l' + zsum drop_room gone.
Proof.
  unfold release. intros H. destruct l as [|st cs]; [by simplify_eq|].
  destruct (leaves pc); simplify_eq/=; [|lia]. unfold drop_room, stopped, stream_drop; cbn. lia.
Qed.

Lemma pad_dropped p (ls : list (link S T)) : zsum link_dropped (pad_links p ls) = zsum link_dropped ls.
Proof.
  unfold pad_links. rewrite zsum_app. rewrite (zsum_zero link_dropped (replicate _ _)); [lia|by apply Forall_replicate].
Qed.

Lemma step_dropped c c' ts lost evs :
  client_inv c -> step c c' ts lost evs -> client_dropped c + zlen (dropped lost) <= client_dropped c'.
Proof using error_handle_task ClientTaskOk0 timeout_ok TaskTag0.
  intros H Hs. destruct Hs as [p p' ls old t Ho Hq|p ls old Ho Hb|p ls old|p p' ls old outs Hu Hc
    |p p' ls old oc i l l1 l2 gone outs Hb Hi Ha Ht Hr|p ls old i st st' t nf evs Hi Hp Hs
    |p ls old i st st' cs op evs Hi Ho Hs|p ls old j st st' op evs Hj Ho Hs];
    unfold client_dropped; cbn [cl_links cl_old dropped omap list_omap]; rewrite ?zlen_nil; try lia.
  - rewrite zsum_app. cbn. lia.
  - pose proof (ci_links _ H i _ Hi) as Hok. cbn [cl_pool] in Hok.
    rewrite pad_dropped, zsum_app, (zsum_insert _ _ _ _ _ Hi).
    pose proof (answers_dropped _ _ _ _ Ha Hok). pose proof (release_dropped _ _ _ _ Hr). lia.
  - destruct (ci_links _ H i _ Hi) as [Hg _]. rewrite (zsum_insert _ _ _ _ _ Hi). cbn [link_dropped].
    pose proof (good_drop_step _ _ _ _ Hg Hs) as Hd. cbn in Hd. rewrite zlen_nil in Hd. lia.
  - destruct (ci_links _ H i _ Hi) as [Hg _]. rewrite (zsum_insert _ _ _ _ _ Hi). cbn [link_dropped].
    pose proof (good_drop_step _ _ _ _ Hg Hs). lia.
  - destruct (Forall_lookup_1 _ _ _ _ (ci_old _ H) Hj) as [Hg _]. rewrite (zsum_insert _ _ _ _ _ Hj).
    pose proof (good_drop_step _ _ _ _ Hg Hs). lia.
Qed.

(** ** Runs *)

Record accounted c (ts : list T) (lost : list (loss (T := T))) (outs : list (event T)) : Prop := Accounted {
  ac_inv : client_inv c;
  ac_tags : map tag (ts ++ calls c) ≡ₚ
    map tag (inside (cl_pool c)) ++ conn_tags c ++ map ev_tag outs ++ map loss_tag lost;
  ac_lost : client_lost c = zlen (unencoded lost);
  ac_dropped : zlen (dropped lost) <= client_dropped c;
}.

Lemma run_accounted n c ts lost outs :
  run (Client_new thresholds n) c ts lost outs -> accounted c ts lost outs.
Proof using error_handle_task ClientTaskOk0 timeout_ok.
  induction 1 as [|c c' ts lost outs ts' lost' outs' _ [IH Hb Hl Hd] Hs].
  { split; [apply Client_new_inv|done|done|done]. }
  destruct (step_keeps _ _ _ _ _ IH Hs) as [H' Hb']. split; [done| | |].
  - unfold balance in Hb'. rewrite !map_app in *.
    apply (Permutation_app_inv_r (map tag (calls c) ++ map tag (inside (cl_pool c)) ++ conn_tags c)).
    transitivity ((map tag ts ++ map tag (calls c)) ++
      ((map tag ts' ++ map tag (inside (cl_pool c)) ++ map tag (calls c')) ++ conn_tags c));
      [solve_Permutation|].
    rewrite Hb, Hb'. solve_Permutation.
  - rewrite (step_lost _ _ _ _ _ IH Hs), Hl, unencoded_app, zlen_app. lia.
  - pose proof (step_dropped _ _ _ _ _ IH Hs). rewrite dropped_app, zlen_app. lia.
Qed.

(** Everything has ended: the channel is empty, no worker is left and the
    receiver of every connection has returned. *)
Definition client_ended c : Prop :=
  pl_queue (cl_pool c) = [] /\ Forall (fun w => wk_pc w = WGone) (pl_workers (cl_pool c)) /\
  Forall (fun st => cs_recv st = RExit) (cl_old c).

Lemma ended_links c : client_inv c -> client_ended c -> Forall (fun l => l = NoConn) (cl_links c).
Proof.
  intros H (_ & Hw & _). apply Forall_lookup. intros i l Hi.
  pose proof (ci_links _ H i l Hi) as Hok.
  assert (Hpc : pc_at i (cl_pool c) = WGone).
  { unfold pc_at. destruct (pl_workers (cl_pool c) !! i) as [w|] eqn:E; [|done]. exact (Forall_lookup_1 _ _ _ _ Hw E). }
  rewrite Hpc in Hok. destruct l as [|st [| |]]; [done|by destruct Hok as [_ [? _]]|..];
    by destruct Hok as [_ [[? ?] _]].
Qed.

(** A connection whose receiver has returned has nothing left. *)
Lemma exited_empty st : old_ok st -> cs_recv st = RExit -> stream_tags (K := K) st = [] /\ stream_lost st = 0.
Proof.
  intros [(s & lo & h & H) Hs] Hr. destruct (si_exit _ _ _ _ H Hr) as (Hp & _ & Hl).
  rewrite (stream_lost_eq _ _ _ _ H). split; [|done].
  unfold stream_tags, timer_tags, live. rewrite (si_clean _ _ _ _ H) by auto. by rewrite Hp, Hs, Hr.
Qed.

Lemma ended_empty c : client_inv c -> client_ended c ->
  inside (cl_pool c) = [] /\ conn_tags c = [] /\ calls c = [] /\ client_lost c = 0.
Proof.
  intros H He. pose proof (ended_links c H He) as Hl. destruct He as (Hq & Hw & Hr).
  assert (Hold : Forall (fun st => stream_tags (K := K) st = [] /\ stream_lost st = 0) (cl_old c)).
  { apply Forall_lookup. intros j st Hj.
    apply exited_empty; [exact (Forall_lookup_1 _ _ _ _ (ci_old _ H) Hj)|exact (Forall_lookup_1 _ _ _ _ Hr Hj)]. }
  split; [|split; [|split]].
  - unfold inside. rewrite Hq. apply concat_nil_all, Forall_map. eapply Forall_impl; [exact Hw|].
    intros w Ew. cbn in *. by rewrite Ew.
  - unfold conn_tags. rewrite !concat_nil_all; [done|..]; apply Forall_map.
    + eapply Forall_impl; [exact Hold|]. by intros st [? _].
    + eapply Forall_impl; [exact Hl|]. by intros l ->.
  - unfold calls. apply concat_nil_all, Forall_lookup. intros i x Hx. rewrite lookup_zip_with in Hx.
    destruct (pl_workers (cl_pool c) !! i) as [w|]; cbn in Hx; [|done].
    destruct (cl_links c !! i) as [l|] eqn:El; cbn in Hx; [|done].
    pose proof (Forall_lookup_1 _ _ _ _ Hl El) as E. cbn in E. by subst l; simplify_eq/=.
  - unfold client_lost. rewrite !zsum_zero; [done| |].
    + eapply Forall_impl; [exact Hold|]. by intros st [_ ?].
    + eapply Forall_impl; [exact Hl|]. by intros l ->.
Qed.

(** ** Properties *)

(** C7. Where every request of the client of one address is. In every
    interleaving of submissions, workers, connections and dropped connections,
    each task submitted is in the channel, in the hands of a worker, in a
    connection, or was given up because it could not be encoded, or was dropped
    with the future that read its response, or has been handed back, and it is
    so exactly once. No more tasks have been dropped than there are connections
    whose receiver [has_err] has stopped, one for each at most. When everything has ended, the tasks handed back are exactly those submitted, less
    those dropped. *)
Theorem client_hands_back n c ts lost outs :
  run (Client_new thresholds n) c ts lost outs ->
  map tag (ts ++ calls c) ≡ₚ
    map tag (pl_queue (cl_pool c) ++ held_tasks (pl_workers (cl_pool c))) ++ conn_tags c ++
    map ev_tag outs ++ map loss_tag lost /\
  zlen (dropped lost) <= client_dropped c /\
  (client_ended c -> unencoded lost = [] /\ map tag ts ≡ₚ map ev_tag outs ++ map tag (dropped lost)).
Proof using error_handle_task ClientTaskOk0 timeout_ok.
  intros Hr. destruct (run_accounted _ _ _ _ _ Hr) as [Hi Ht Hl Hd]. split; [exact Ht|]. split; [exact Hd|].
  intros He. destruct (ended_empty c Hi He) as (E1 & E2 & E3 & E4).
  rewrite E4 in Hl. symmetry in Hl. apply zlen_nil_iff in Hl. split; [done|].
  rewrite E1, E2, E3, loss_tags_split, Hl in Ht. cbn in Ht. by rewrite app_nil_r in Ht.
Qed.

(** The pool inside a client is a pool: its properties are the client's. *)
Theorem client_refines_pool n c ts lost outs :
  run (Client_new thresholds n) c ts lost outs ->
  exists pouts, pool_run error_handle (ConnPool_new thresholds n) (cl_pool c) ts pouts.
Proof.
  induction 1 as [|c c' ts lost outs ts' lost' outs' _ [pouts IH] Hs]; [exists []; apply pr_nil|].
  assert (Hp : (cl_pool c' = cl_pool c /\ ts' = []) \/
    exists o, pool_step error_handle (cl_pool c) (cl_pool c') ts' o).
  { destruct Hs; cbn; try (by left); right.
    - exists []. by apply pp_submit.
    - exists []. by apply pp_spawn.
    - exists []. apply pp_close.
    - exists outs0. by apply pp_drop.
    - exists outs0. by eapply pp_turn. }
  destruct Hp as [[-> ->]|[o Hp]]; [exists pouts; by rewrite app_nil_r|].
  exists (pouts ++ o). by eapply pr_snoc.
Qed.

End facts.

(** ** Concrete instances *)

Module ClientWitness.
Import StreamWitness.

Definition eh : APIClientReq -> event APIClientReq := error_handle_default.
Definition client := Client mem_stream APIClientReq.
Definition crun : client -> list APIClientReq -> list (loss (T := APIClientReq)) -> list (event APIClientReq) -> Prop :=
  client_run always eh 1 3 4 (Client_new 4 0).

Definition good : outcome := Outcome true false 0.
Definition turn_of (oc : outcome) (l1 : link mem_stream APIClientReq) (c : client) : client :=
  match worker_turn eh oc 0 (cl_pool c) with
  | Some (p', _) =>
    let '(l2, gone) := release (pc_at 0 p') l1 in
    MkClient p' (pad_links p' (<[0%nat := l2]> (cl_links c))) (cl_old c ++ gone)
  | None => c
  end.
Definition with_link (l : link mem_stream APIClientReq) (c : client) : client :=
  MkClient (cl_pool c) (<[0%nat := l]> (cl_links c)) (cl_old c).
Definition with_old (st : ClientStream mem_stream APIClientReq) (c : client) : client :=
  MkClient (cl_pool c) (cl_links c) (<[0%nat := st]> (cl_old c)).

(** A task is submitted, sent on the first connection, and fails when that
    connection is dropped with the last handle of the pool. *)
Definition task : APIClientReq := sample_task 0.
Definition c0 : client := Client_new 4 0.
Definition c1 : client := match pool_send_req task (cl_pool c0) with
  | Ready p => MkClient p (cl_links c0) (cl_old c0) | Pending => c0 end.
Definition c2 : client := turn_of good (Conn start CNone) c1.
Definition c3 : client := turn_of good (Conn start CNone) c2.
Definition c4 : client := turn_of good (Conn start CNone) c3.
Definition c5 : client := with_link (Conn st1 CBusy) c4.
Definition c6 : client := with_link (Conn st2 CBusy) c5.
Definition c7 : client := with_link (Conn st3 CBusy) c6.
Definition c8 : client := with_link (Conn st4 CBusy) c7.
Definition c9 : client := with_link (Conn st5 (CBack true)) c8.
Definition c10 : client := turn_of good (Conn st5 CNone) c9.
Definition c11 : client := MkClient (close_tx (cl_pool c10)) (cl_links c10) (cl_old c10).
Definition busy : outcome := Outcome true false 1.
Definition c12 : client := turn_of busy (Conn st5 CNone) c11.
Definition c13 : client := turn_of busy (Conn st5 CNone) c12.
Definition d0 := stream_drop st5.
Definition d1 := recv_head d0.
Definition d2 := match recv_read always eh false d1 with Ret (s, _) => s | Panic => d1 end.
Definition d3 := match recv_clean eh None d2 with Ret (s, _) => s | Panic => d2 end.
Definition d4 := match recv_check eh None d3 with Ret (s, _) => s | Panic => d3 end.
Definition c14 : client := with_old d1 c13.
Definition c15 : client := with_old d2 c14.
Definition c16 : client := with_old d3 c15.
Definition c17 : client := with_old d4 c16.

Section extend.
Context (c : client) (ts : list APIClientReq) (lost : list (loss (T := APIClientReq))) (outs : list (event APIClientReq)).
Context (H : crun c ts lost outs).
Implicit Types st : ClientStream mem_stream APIClientReq.

Lemma client_turn oc l l1 :
  pl_connected (cl_pool c) + 1 < 2 ^ 64 -> cl_links c !! 0%nat = Some l ->
  conn_answers 1 3 4 (pc_at 0 (cl_pool c)) l oc l1 ->
  bool_decide (is_Some (worker_turn eh oc 0 (cl_pool c))) = true ->
  crun (turn_of oc l1 c) ts lost
    (outs ++ fails match worker_turn eh oc 0 (cl_pool c) with Some (_, o) => o | None => [] end).
Proof using H.
  intros Hc Hl Ha [[p' o] Ht]%bool_decide_eq_true. rewrite <- (app_nil_r ts), <- (app_nil_r lost).
  eapply crun_snoc; [exact H|]. unfold turn_of. rewrite Ht.
  destruct (release (pc_at 0 p') l1) as [l2 gone] eqn:Er. destruct c as [p ls old].
  by eapply cl_turn.
Qed.

Lemma client_call st st' t nf evs :
  cl_links c !! 0%nat = Some (Conn st CNone) -> sending (pc_at 0 (cl_pool c)) = Some (t, nf) ->
  stream_step always eh (SendStart t nf) st st' evs ->
  crun (with_link (Conn st' CBusy) c) ts lost (outs ++ evs).
Proof using H.
  intros Hl Hp Hs. rewrite <- (app_nil_r ts), <- (app_nil_r lost). eapply crun_snoc; [exact H|].
  destruct c as [p ls old]. by eapply cl_call.
Qed.

Lemma client_inner st st' cs op evs :
  cl_links c !! 0%nat = Some (Conn st cs) -> inner_op op = true ->
  stream_step always eh op st st' evs ->
  crun (with_link (Conn st' (call_after op st' cs)) c) ts (lost ++ lost_task op st st') (outs ++ evs).
Proof using H.
  intros Hl Hi Hs. rewrite <- (app_nil_r ts).
  eapply crun_snoc; [exact H|]. destruct c as [p ls old]. by apply cl_inner.
Qed.

Lemma client_rest st st' op evs :
  cl_old c !! 0%nat = Some st -> inner_op op = true ->
  stream_step always eh op st st' evs -> crun (with_old st' c) ts (lost ++ lost_task op st st') (outs ++ evs).
Proof using H.
  intros Hl Hi Hs. rewrite <- (app_nil_r ts).
  eapply crun_snoc; [exact H|]. destruct c as [p ls old]. by apply cl_rest.
Qed.

End extend.

Lemma crun1 : crun c1 [task] [] [].
Proof. apply (crun_snoc _ _ _ _ _ _ c0 c1 [] [] [] [task] [] []); [apply crun_nil|by apply cl_submit]. Qed.

Lemma crun4 : crun c4 [task] [] [].
Proof.
  apply (client_turn c3 [task] [] [] ltac:(
    apply (client_turn c2 [task] [] [] ltac:(
      apply (client_turn c1 [task] [] [] crun1 good NoConn); [done|done|by apply ca_connect|done])
    good (Conn start CNone)); [done|done|by apply ca_local|done])
  good (Conn start CNone)); [done|done|by apply ca_local|done].
Qed.

Lemma crun7 : crun c7 [task] [] [].
Proof.
  apply (client_inner c6 [task] [] [] ltac:(
    apply (client_inner c5 [task] [] [] ltac:(
      apply (client_call c4 [task] [] [] crun4 start st1 task true []);
        [done|done|by apply st_start])
    st1 st2 CBusy SendCheck []); [done|done|apply (st_check _ _ _ task true); vm_compute; reflexivity])
  st2 st3 CBusy SendRequest []); [done|done|apply (st_request _ _ _ task true); vm_compute; reflexivity].
Qed.

Lemma crun10 : crun c10 [task] [] [].
Proof.
  apply (client_turn c9 [task] [] [] ltac:(
    apply (client_inner c8 [task] [] [] ltac:(
      apply (client_inner c7 [task] [] [] crun7 st3 st4 CBusy SendRegister []);
        [done|done|apply (st_register _ _ _ (set_seq task 1)); vm_compute; reflexivity])
    st4 st5 CBusy SendDone []); [done|done|apply st_done; vm_compute; reflexivity])
  good (Conn st5 (CBack true))); [done|done|by eapply (ca_return _ _ _ _ _ _ good)|done].
Qed.

Lemma crun13 : crun c13 [task] [] [].
Proof.
  assert (H11 : crun c11 [task] [] []).
  { apply (crun_snoc _ _ _ _ _ _ c10 c11 [task] [] [] [] [] [] crun10). apply cl_close. }
  apply (client_turn c12 [task] [] [] ltac:(
    apply (client_turn c11 [task] [] [] H11 busy (Conn st5 CNone)); [done|done|by apply ca_local|done])
  busy (Conn st5 CNone)); [done|done|by apply ca_local|done].
Qed.

Lemma crun17 : crun c17 [task] [] [EvDone failed_task].
Proof.
  assert (H15 : crun c15 [task] [] []).
  { apply (client_rest c14 [task] [] [] ltac:(
      apply (client_rest c13 [task] [] [] crun13 d0 d1 RecvHead []);
        [done|done|apply st_head; vm_compute; reflexivity])
    d1 d2 RecvRead []); [done|done|apply (st_read _ _ _ false); vm_compute; reflexivity]. }
  apply (client_rest c16 [task] [] [EvDone failed_task] ltac:(
    apply (client_rest c15 [task] [] [] H15 d2 d3 RecvClean [EvDone failed_task]);
      [done|done|apply (st_clean _ _ _ None); vm_compute; reflexivity])
  d3 d4 RecvCheck []); [done|done|apply (st_rcheck _ _ _ None); vm_compute; reflexivity].
Qed.

Lemma client_hands_back_witness :
  client_ended c17 /\ map tag [task] ≡ₚ map ev_tag [EvDone failed_task].
Proof.
  assert (He : client_ended c17).
  { split; [vm_compute; reflexivity|]. split; repeat constructor; vm_compute; reflexivity. }
  split; [exact He|].
  destruct (client_hands_back always eh stream_keep_task 1 3 4 ltac:(lia) 0 c17 [task] []
    [EvDone failed_task] crun17) as (_ & _ & H).
  exact (proj2 (H He)).
Defined.

End ClientWitness.
