(* ===== verification/FailoverClient.v ===== *)
(** * The failover client: cluster, pools and connections together

    [Failover] sees a pool through its address and its health; here every pool
    of the cluster is a [Client], with its workers and connections
    (stream/src/client/failover.rs over pool.rs and stream.rs). The health that
    routing reads is the pool's own, a task that fails on a connection goes
    where [FailoverFacts::error_handle] sends it, and the retry worker takes it
    from there. *)
From Stdlib Require Import ZArith Lia Strings.String.
From stdpp Require Import base list sets.
From S2P Require Import Prelude Errors Task ApiClient Proto BTree Timer TimerInv Net TcpClient Stream StreamInv StreamTrace Pool Client ClientInv Failover.
Local Open Scope Z_scope.
Local Open Scope rpc_scope.

Record FoClient (S T : Type) : Type := MkFo {
  fc_pool : FailoverPool;
  fc_clients : list (Client S (FailoverTask T));     (** by the identity of the pool *)
  fc_sending : list (nat * FailoverTask T);          (** in [pool.send_req] of a caller *)
  fc_retry : list (FailoverTask T);                  (** the retry channel *)
  fc_worker : option (nat * FailoverTask T);         (** the same, of the retry worker *)
  fc_alive : bool;                                   (** [FailoverPoolInner] is there *)
}.
Arguments MkFo {S T}.
Arguments fc_pool {S T}.
Arguments fc_clients {S T}.
Arguments fc_sending {S T}.
Arguments fc_retry {S T}.
Arguments fc_worker {S T}.
Arguments fc_alive {S T}.

Section failover.
Context {S : Type} `{!AsyncStream S} {T : Type} `{!ClientTask T}.
Context (buffer_alloc : Z -> bool) (client_id task_timeout thresholds pool_channel_size : Z).
Implicit Types (f : FoClient S T) (cs : list (Client S (FailoverTask T))).

(** [is_healthy] of the pools of the cluster. *)
Definition client_health cs (q : conn_pool) : conn_pool :=
  match cs !! Z.to_nat (cp_id q) with
  | Some c => CPool (cp_id q) (cp_addr q) (pl_is_ok (cl_pool c))
  | None => q
  end.
Definition refresh cs (p : FailoverPool) : FailoverPool :=
  fp_set_cluster (Cluster (map (client_health cs) (cl_pools (fp_cluster p))) (cl_ver (fp_cluster p))) p.

(** [ConnPool::new] for the pools that have been added. *)
Definition add_clients (p : FailoverPool) cs : list (Client S (FailoverTask T)) :=
  cs ++ replicate (Z.to_nat (fp_fresh p) - length cs) (Client_new thresholds pool_channel_size).

Definition FoClient_new (addrs : list bytes) (stateless : bool) (retry_limit : Z) : FoClient S T :=
  let p := FailoverPool_new addrs stateless retry_limit in
  MkFo p (add_clients p []) [] [] None true.

(** What becomes of a task that has been routed. *)
Definition out_sending (o : fo_out T) : list (nat * FailoverTask T) :=
  match o with FoSend q t => [(Z.to_nat (cp_id q), t)] | FoDone _ => [] end.
Definition out_done (o : fo_out T) : list T := match o with FoSend _ _ => [] | FoDone t => [t] end.

(** [done] of a wrapped task, and the retry channel. *)
Definition dones (evs : list (event (FailoverTask T))) : list T :=
  omap (fun e => match e with EvDone t => Some (fo_inner t) | EvRetry _ => None end) evs.
Definition retries (evs : list (event (FailoverTask T))) : list (FailoverTask T) :=
  omap (fun e => match e with EvRetry t => Some t | EvDone _ => None end) evs.

(** Somebody has a handle of the pool [j]. *)
Definition referenced (j : nat) f : bool :=
  (fc_alive f && bool_decide (Z.of_nat j ∈ map cp_id (cl_pools (fp_cluster (fc_pool f))))) ||
  bool_decide (j ∈ map fst (fc_sending f)) ||
  match fc_worker f with Some (k, _) => Nat.eqb k j | None => false end.

(** The retry worker lives as long as a pool can send to it. *)
Definition handle (p : FailoverPool) : FailoverTask T -> event (FailoverTask T) :=
  fo_error_handle (fp_retry_limit p) true.
Abbreviation cstep p := (client_step buffer_alloc (handle p) client_id task_timeout thresholds).

(** The requests submitted, those that got lost in a connection, and the tasks
    whose [done] is called. *)
Inductive fo_step : FoClient S T -> FoClient S T -> list T -> list (loss (T := FailoverTask T)) -> list T -> Prop :=
| fs_send p cs snd rt w t o p' :
    fo_send_req t (refresh cs p) = (o, p') ->
    fo_step (MkFo p cs snd rt w true) (MkFo p' cs (snd ++ out_sending o) rt w true) [t] [] (out_done o)
| fs_resubmit p cs snd rt w t addr_or_retry retry_count max_retries o p' :
    resubmit t addr_or_retry retry_count max_retries (refresh cs p) = (o, p') ->
    fo_step (MkFo p cs snd rt w true) (MkFo p' (add_clients p' cs) (snd ++ out_sending o) rt w true)
      [t] [] (out_done o)
| fs_update p cs snd rt w addrs :
    fo_step (MkFo p cs snd rt w true)
      (MkFo (update_addrs addrs (refresh cs p)) (add_clients (update_addrs addrs (refresh cs p)) cs) snd rt w true)
      [] [] []
| fs_deliver p cs snd rt w al k j t c c' lost evs :
    snd !! k = Some (j, t) -> cs !! j = Some c -> cstep p c c' [t] lost evs ->
    fo_step (MkFo p cs snd rt w al) (MkFo p (<[j := c']> cs) (delete k snd) (rt ++ retries evs) w al)
      [] lost (dones evs)
| fs_client p cs snd rt w al j c c' lost evs :
    cs !! j = Some c -> cstep p c c' [] lost evs ->
    (pl_tx_open (cl_pool c') = pl_tx_open (cl_pool c) \/ referenced j (MkFo p cs snd rt w al) = false) ->
    fo_step (MkFo p cs snd rt w al) (MkFo p (<[j := c']> cs) snd (rt ++ retries evs) w al) [] lost (dones evs)
| fs_retry p cs snd t rt al o p' :
    retry_worker_step al t (refresh cs p) = (o, p') ->
    fo_step (MkFo p cs snd (t :: rt) None al) (MkFo p' cs snd rt (head (out_sending o)) al) [] [] (out_done o)
| fs_redeliver p cs snd rt al j t c c' lost evs :
    cs !! j = Some c -> cstep p c c' [t] lost evs ->
    fo_step (MkFo p cs snd rt (Some (j, t)) al) (MkFo p (<[j := c']> cs) snd (rt ++ retries evs) None al)
      [] lost (dones evs)
| fs_drop p cs rt : fo_step (MkFo p cs [] rt None true) (MkFo p cs [] rt None false) [] [] [].

Inductive fo_run (f0 : FoClient S T) : FoClient S T -> list T -> list (loss (T := FailoverTask T)) -> list T -> Prop :=
| frun_nil : fo_run f0 f0 [] [] []
| frun_snoc f f' ts lost dn ts' lost' dn' :
    fo_run f0 f ts lost dn -> fo_step f f' ts' lost' dn' ->
    fo_run f0 f' (ts ++ ts') (lost ++ lost') (dn ++ dn').

End failover.

(** ** The identity of a wrapped task is that of the task inside *)

Section wrapped.
Context {T : Type} `{!ClientTask T} {K : Type} `{!TaskTag T K}.
Implicit Types t : FailoverTask T.

#[global] Instance FailoverTask_ok `{!ClientTaskOk T} : ClientTaskOk (FailoverTask T).
Proof.
  split; [intros t s; apply (task_seq_set_seq (T := T))|]. intros t e. cbn. unfold fo_set_rpc_error.
  destruct (RpcIntErr_ltb e Method); apply (task_seq_set_rpc_error (T := T)).
Qed.

Definition fo_tag t : K := tag (fo_inner t).

Lemma fo_tag_rpc t e : fo_tag (fo_set_rpc_error t e) = fo_tag t.
Proof. unfold fo_tag, fo_set_rpc_error. destruct (RpcIntErr_ltb e Method); apply tag_rpc_error. Qed.

Lemma fo_tag_decode t b t' : decode_resp t b = Ok t' -> fo_tag t' = fo_tag t.
Proof.
  cbn. destruct (decode_resp (fo_inner t) b) as [i|] eqn:E; [|done]. intros [= <-]. by eapply tag_decode.
Qed.

Lemma fo_tag_reserve t n t' o : reserve_resp_blob t n = (t', o) -> fo_tag t' = fo_tag t.
Proof.
  cbn. destruct (reserve_resp_blob (fo_inner t) n) as [i r] eqn:E. intros [= <- _]. by eapply tag_reserve.
Qed.

#[global] Instance FailoverTask_tag : TaskTag (FailoverTask T) K := {|
  tag := fo_tag;
  tag_set_seq t s := tag_set_seq (fo_inner t) s;
  tag_rpc_error := fo_tag_rpc;
  tag_custom_error t e _ _ := tag_custom_error (fo_inner t) e (fo_last_index t) (fo_config_ver t);
  tag_set_ok t := tag_set_ok (fo_inner t);
  tag_decode := fo_tag_decode;
  tag_reserve := fo_tag_reserve;
  tag_fill t b := tag_fill (fo_inner t) b;
|}.

Lemma handle_task p t : ev_task (handle p t) = t.
Proof. unfold handle, fo_error_handle. by destruct (fo_should_retry t && _). Qed.

Lemma dones_retries (evs : list (event (FailoverTask T))) :
  map ev_tag evs ≡ₚ map tag (dones evs) ++ map tag (retries evs).
Proof.
  unfold dones, retries. induction evs as [|[t|t] evs IH]; cbn; [done| |].
  - by rewrite IH.
  - rewrite IH. apply Permutation_middle.
Qed.

(** Routing hands the task on, or back. *)
Definition out_tags (o : fo_out T) : list K := map tag (map snd (out_sending o)) ++ map tag (out_done o).

Lemma send_req_tags (t : T) p : out_tags (fo_send_req t p).1 = [tag t].
Proof.
  unfold fo_send_req. destruct (select _ _ _ _) as [[[q i]|] n]; [done|].
  unfold out_tags; cbn. by rewrite tag_rpc_error.
Qed.

Lemma resubmit_tags (t : T) a n m p : out_tags (resubmit t a n m p).1 = [tag t].
Proof.
  unfold resubmit. destruct a as [addr|last].
  - by destruct (get_or_add_addr addr p) as [[[q i] v] p'].
  - destruct (select _ _ _ _) as [[[q i]|] k]; [done|]. unfold out_tags; cbn. by rewrite tag_rpc_error.
Qed.

Lemma retry_tags al t p : out_tags (retry_worker_step al t p).1 = [tag t].
Proof.
  unfold retry_worker_step. destruct al; [|done].
  destruct (cl_ver (fp_cluster p) =? fo_config_ver t); by destruct (select _ _ _ _) as [[[q i]|] n].
Qed.

Lemma out_sending_head (o : fo_out T) : option_list (head (out_sending o)) = out_sending o.
Proof. by destruct o. Qed.

End wrapped.

(** ** Every request is accounted for *)

Section facts.
Context {S : Type} `{!AsyncStream S} {T : Type} `{!ClientTask T} `{!ClientTaskOk T}.
Context {K : Type} `{!TaskTag T K}.
Context (buffer_alloc : Z -> bool) (client_id task_timeout thresholds pool_channel_size : Z).
Context (timeout_ok : 0 <= task_timeout).
Implicit Types (f : FoClient S T) (c : Client S (FailoverTask T)) (cs : list (Client S (FailoverTask T))).
Abbreviation cstep p := (client_step buffer_alloc (handle p) client_id task_timeout thresholds).
Abbreviation step := (fo_step buffer_alloc client_id task_timeout thresholds pool_channel_size).
Abbreviation run := (fo_run buffer_alloc client_id task_timeout thresholds pool_channel_size).
Abbreviation grow := (add_clients thresholds pool_channel_size).

(** What a client holds, less the tasks of the calls under way. *)
Definition client_tags c : list K := map tag (inside (cl_pool c)) ++ conn_tags c.
Definition call_tags c : list K := map tag (calls c).

Definition waiting_tags f : list K :=
  map tag (map snd (fc_sending f)) ++ map tag (fc_retry f) ++
  map tag (map snd (option_list (fc_worker f))).
Definition held_tags f : list K := waiting_tags f ++ concat (map client_tags (fc_clients f)).
Definition busy_tags f : list K := concat (map call_tags (fc_clients f)).

(** A step of one of the clients. *)
Lemma clients_step p cs j c c' (ts : list (FailoverTask T)) lost evs :
  cs !! j = Some c -> Forall client_inv cs -> cstep p c c' ts lost evs ->
  Forall client_inv (<[j := c']> cs) /\
  zsum client_lost (<[j := c']> cs) = zsum client_lost cs + zlen (unencoded lost) /\
  zsum client_dropped cs + zlen (dropped lost) <= zsum client_dropped (<[j := c']> cs) /\
  map tag ts ++ concat (map client_tags cs) ++ concat (map call_tags (<[j := c']> cs)) ≡ₚ
    concat (map client_tags (<[j := c']> cs)) ++ concat (map call_tags cs) ++
    map tag (dones evs) ++ map tag (retries evs) ++ map loss_tag lost.
Proof using timeout_ok TaskTag0 ClientTaskOk0.
  intros Hj Hi Hs. pose proof (Forall_lookup_1 _ _ _ _ Hi Hj) as Hc.
  destruct (step_keeps _ _ (handle_task p) _ _ _ timeout_ok _ _ _ _ _ Hc Hs) as [Hc' Hb].
  split; [by apply Forall_insert|]. split.
  { rewrite (zsum_insert _ _ _ _ _ Hj), (step_lost _ _ (handle_task p) _ _ _ timeout_ok _ _ _ _ _ Hc Hs). lia. }
  split.
  { rewrite (zsum_insert _ _ _ _ _ Hj).
    pose proof (step_dropped _ _ (handle_task p) _ _ _ timeout_ok _ _ _ _ _ Hc Hs). lia. }
  unfold balance in Hb. rewrite !map_app in Hb. rewrite dones_retries in Hb.
  pose proof (concat_map_insert client_tags cs j c c' Hj) as H1.
  pose proof (concat_map_insert call_tags cs j c c' Hj) as H2.
  change (client_tags c) with (map tag (inside (cl_pool c)) ++ conn_tags c) in H1.
  change (client_tags c') with (map tag (inside (cl_pool c')) ++ conn_tags c') in H1.
  change (call_tags c) with (map tag (calls c)) in H2. change (call_tags c') with (map tag (calls c')) in H2.
  apply (Permutation_app_inv_r ((map tag (inside (cl_pool c')) ++ conn_tags c') ++ map tag (calls c))).
  transitivity (map tag ts ++ (concat (map client_tags cs) ++ map tag (inside (cl_pool c')) ++ conn_tags c') ++
    (concat (map call_tags (<[j := c']> cs)) ++ map tag (calls c))); [solve_Permutation|].
  rewrite H1, <- H2.
  transitivity (((map tag ts ++ map tag (inside (cl_pool c)) ++ map tag (calls c')) ++ conn_tags c) ++
    concat (map client_tags (<[j := c']> cs)) ++ concat (map call_tags cs)); [solve_Permutation|].
  rewrite Hb. solve_Permutation.
Qed.

(** Pools that have just been created hold nothing. *)
Lemma grow_clients p cs :
  Forall client_inv cs ->
  Forall client_inv (grow p cs) /\ zsum client_lost (grow p cs) = zsum client_lost cs /\
  zsum client_dropped (grow p cs) = zsum client_dropped cs /\
  concat (map client_tags (grow p cs)) = concat (map client_tags cs) /\
  concat (map call_tags (grow p cs)) = concat (map call_tags cs).
Proof.
  intros H. unfold add_clients. set (n := (Z.to_nat (fp_fresh p) - length cs)%nat).
  split; [apply Forall_app; split; [done|]; apply Forall_replicate, Client_new_inv|].
  split; [rewrite zsum_app, (zsum_zero client_lost (replicate _ _)); [lia|by apply Forall_replicate]|].
  split; [rewrite zsum_app, (zsum_zero client_dropped (replicate _ _)); [lia|by apply Forall_replicate]|].
  rewrite !map_app, !concat_app, !(concat_nil_all (map _ (replicate _ _))); [by rewrite !app_nil_r|..];
    apply Forall_map, Forall_replicate; done.
Qed.

Record fo_accounted f (ts : list T) (lost : list (loss (T := FailoverTask T))) (dn : list T) : Prop := FoAccounted {
  fa_clients : Forall client_inv (fc_clients f);
  fa_tags : map tag ts ++ busy_tags f ≡ₚ held_tags f ++ map tag dn ++ map loss_tag lost;
  fa_lost : zsum client_lost (fc_clients f) = zlen (unencoded lost);
  fa_dropped : zlen (dropped lost) <= zsum client_dropped (fc_clients f);
}.

(** The arithmetic of the two kinds of steps: a task is routed, a client moves. *)
Lemma perm_routed {A} (ts b w cl dn lo os od n : list A) :
  ts ++ b ≡ₚ (w ++ cl) ++ dn ++ lo -> os ++ od = n -> (ts ++ n) ++ b ≡ₚ ((w ++ os) ++ cl) ++ (dn ++ od) ++ lo.
Proof.
  intros H <-. transitivity ((ts ++ b) ++ os ++ od); [solve_Permutation|]. rewrite H. solve_Permutation.
Qed.

Lemma perm_moved {A} (ts b b' n w cl cl' dn lo d r l : list A) :
  ts ++ b ≡ₚ ((n ++ w) ++ cl) ++ dn ++ lo -> n ++ cl ++ b' ≡ₚ cl' ++ b ++ d ++ r ++ l ->
  ts ++ b' ≡ₚ ((w ++ r) ++ cl') ++ (dn ++ d) ++ lo ++ l.
Proof.
  intros H1 H2. apply (Permutation_app_inv_r b).
  transitivity ((ts ++ b) ++ b'); [solve_Permutation|]. rewrite H1.
  transitivity ((n ++ cl ++ b') ++ w ++ dn ++ lo); [solve_Permutation|]. rewrite H2. solve_Permutation.
Qed.

Lemma step_accounted f f' ts lost dn ts' lost' dn' :
  fo_accounted f ts lost dn -> step f f' ts' lost' dn' ->
  fo_accounted f' (ts ++ ts') (lost ++ lost') (dn ++ dn').
Proof using timeout_ok ClientTaskOk0.
  intros [Hc Ht Hl Hd] Hs. unfold held_tags, busy_tags, waiting_tags in Ht.
  destruct Hs as [p cs sq rt w t o p' E|p cs sq rt w t a n m o p' E|p cs sq rt w addrs
    |p cs sq rt w al k j t c c' lost' evs Hk Hj Hs|p cs sq rt w al j c c' lost' evs Hj Hs Hr
    |p cs sq t rt al o p' E|p cs sq rt al j t c c' lost' evs Hj Hs|p cs rt]; cbn [fc_pool fc_clients fc_sending fc_retry fc_worker] in Hc, Ht, Hl, Hd;
    rewrite ?app_nil_r.
  - pose proof (send_req_tags t (refresh cs p)) as Eo. rewrite E in Eo. split; [done| |done|done].
    unfold held_tags, busy_tags, waiting_tags; cbn [fc_pool fc_clients fc_sending fc_retry fc_worker]. rewrite !map_app.
    rewrite (perm_routed _ _ _ _ _ _ _ _ _ Ht Eo). solve_Permutation.
  - pose proof (resubmit_tags t a n m (refresh cs p)) as Eo. rewrite E in Eo.
    destruct (grow_clients p' cs Hc) as (Hg & Hgl & Hgd & Hgt & Hgc). split; [done| |by rewrite <- Hl|cbn [fc_clients]; by rewrite Hgd].
    unfold held_tags, busy_tags, waiting_tags; cbn [fc_pool fc_clients fc_sending fc_retry fc_worker]. rewrite Hgt, Hgc, !map_app.
    rewrite (perm_routed _ _ _ _ _ _ _ _ _ Ht Eo). solve_Permutation.
  - set (p' := update_addrs addrs (refresh cs p)).
    destruct (grow_clients p' cs Hc) as (Hg & Hgl & Hgd & Hgt & Hgc). split; [done| |by rewrite <- Hl|cbn [fc_clients]; by rewrite Hgd].
    unfold held_tags, busy_tags, waiting_tags; cbn [fc_pool fc_clients fc_sending fc_retry fc_worker]. by rewrite Hgt, Hgc.
  - destruct (clients_step _ _ _ _ _ _ _ _ Hj Hc Hs) as (Hc' & Hl' & Hd' & Hb).
    split; [done| |cbn; rewrite unencoded_app, zlen_app; lia|cbn; rewrite dropped_app, zlen_app; lia].
    unfold held_tags, busy_tags, waiting_tags; cbn [fc_pool fc_clients fc_sending fc_retry fc_worker]. rewrite !map_app.
    pose proof (Permutation_map tag (Permutation_map snd (delete_Permutation _ _ _ Hk))) as Hdel.
    change (map snd ((j, t) :: delete k sq)) with ([t] ++ map snd (delete k sq)) in Hdel.
    rewrite map_app in Hdel. rewrite Hdel in Ht.
    etransitivity; [eapply (perm_moved _ _ _ _
      (map tag (map snd (delete k sq)) ++ map tag rt ++ map tag (map snd (option_list w)))
      _ _ (map tag dn) (map loss_tag lost)); [|exact Hb]|];
      [rewrite Ht|]; solve_Permutation.
  - destruct (clients_step _ _ _ _ _ _ _ _ Hj Hc Hs) as (Hc' & Hl' & Hd' & Hb).
    split; [done| |cbn; rewrite unencoded_app, zlen_app; lia|cbn; rewrite dropped_app, zlen_app; lia].
    unfold held_tags, busy_tags, waiting_tags; cbn [fc_pool fc_clients fc_sending fc_retry fc_worker]. rewrite !map_app.
    rewrite (perm_moved _ _ _ [] _ _ _ _ _ _ _ _ Ht Hb). solve_Permutation.
  - pose proof (retry_tags al t (refresh cs p)) as Eo. rewrite E in Eo. split; [done| |done|done].
    unfold held_tags, busy_tags, waiting_tags; cbn [fc_pool fc_clients fc_sending fc_retry fc_worker]. rewrite out_sending_head, !map_app.
    unfold out_tags in Eo. cbn [fst] in Eo.
    change (map tag (t :: rt)) with ([tag t] ++ map tag rt) in Ht.
    change (map tag (map snd (option_list None))) with (@nil K) in Ht.
    rewrite <- Eo in Ht. rewrite Ht. solve_Permutation.
  - destruct (clients_step _ _ _ _ _ _ _ _ Hj Hc Hs) as (Hc' & Hl' & Hd' & Hb).
    split; [done| |cbn; rewrite unencoded_app, zlen_app; lia|cbn; rewrite dropped_app, zlen_app; lia].
    unfold held_tags, busy_tags, waiting_tags; cbn [fc_pool fc_clients fc_sending fc_retry fc_worker]. rewrite !map_app.
    etransitivity; [eapply (perm_moved _ _ _ _ (map tag (map snd sq) ++ map tag rt)
      _ _ (map tag dn) (map loss_tag lost)); [|exact Hb]|];
      [rewrite Ht; change (map snd (option_list (Some (j, t)))) with [t]|
       change (map snd (option_list None)) with (@nil (FailoverTask T))]; [solve_Permutation|].
    change (map tag (@nil (FailoverTask T))) with (@nil K). solve_Permutation.
  - split; done.
Qed.

Lemma new_accounted addrs stateless limit :
  fo_accounted (FoClient_new thresholds pool_channel_size addrs stateless limit) [] [] [].
Proof.
  unfold FoClient_new. set (p := FailoverPool_new addrs stateless limit).
  destruct (grow_clients p [] ltac:(constructor)) as (Hg & Hl & Hd & Ht & Hc).
  split; [exact Hg| |exact Hl|cbn [fc_clients]; by rewrite Hd]. unfold held_tags, busy_tags, waiting_tags; cbn [fc_clients fc_sending fc_retry fc_worker].
  by rewrite Ht, Hc.
Qed.

Lemma run_fo_accounted addrs stateless limit f ts lost dn :
  run (FoClient_new thresholds pool_channel_size addrs stateless limit) f ts lost dn ->
  fo_accounted f ts lost dn.
Proof using timeout_ok ClientTaskOk0.
  induction 1 as [|f f' ts lost dn ts' lost' dn' _ IH Hs]; [apply new_accounted|by eapply step_accounted].
Qed.

(** Nobody is sending, the retry channel is empty, and every pool has ended. *)
Definition fo_ended f : Prop :=
  fc_sending f = [] /\ fc_retry f = [] /\ fc_worker f = None /\ Forall client_ended (fc_clients f).

Lemma fo_ended_empty f : Forall client_inv (fc_clients f) -> fo_ended f ->
  held_tags f = [] /\ busy_tags f = [] /\ zsum client_lost (fc_clients f) = 0.
Proof.
  intros Hi (E1 & E2 & E3 & He).
  assert (H : Forall (fun c => inside (cl_pool c) = [] /\ conn_tags c = [] /\ calls c = [] /\ client_lost c = 0)
      (fc_clients f)).
  { apply Forall_lookup. intros j c Hj.
    apply ended_empty; [exact (Forall_lookup_1 _ _ _ _ Hi Hj)|exact (Forall_lookup_1 _ _ _ _ He Hj)]. }
  unfold held_tags, waiting_tags, busy_tags. rewrite E1, E2, E3. split; [|split].
  - apply concat_nil_all, Forall_map. eapply Forall_impl; [exact H|].
    intros c (Hin & Hc & _). cbn. unfold client_tags. by rewrite Hin, Hc.
  - apply concat_nil_all, Forall_map. eapply Forall_impl; [exact H|].
    intros c (_ & _ & Hc & _). cbn. unfold call_tags. by rewrite Hc.
  - apply zsum_zero. eapply Forall_impl; [exact H|]. by intros c (_ & _ & _ & ?).
Qed.

(** C8. Where every request of the failover client is. In every interleaving
    of submissions, resubmissions, changes of the address list, the retry worker
    and the pools with their connections, each request is waiting to be sent or
    retried, in a pool or one of its connections, was given up because it could
    not be encoded or dropped with the future that read its response, or is done,
    and it is so exactly once: failing over never copies one, and drops none of
    its own. No more have been dropped than there are connections whose receiver
    [has_err] has stopped. When everything has ended, the requests done are exactly those submitted, less those dropped. *)
Theorem failover_hands_back addrs stateless limit f ts lost dn :
  run (FoClient_new thresholds pool_channel_size addrs stateless limit) f ts lost dn ->
  map tag ts ++ busy_tags f ≡ₚ held_tags f ++ map tag dn ++ map loss_tag lost /\
  zlen (dropped lost) <= zsum client_dropped (fc_clients f) /\
  (fo_ended f -> unencoded lost = [] /\ map tag ts ≡ₚ map tag dn ++ map tag (dropped lost)).
Proof using timeout_ok ClientTaskOk0.
  intros Hr. destruct (run_fo_accounted _ _ _ _ _ _ _ Hr) as [Hi Ht Hl Hd]. split; [exact Ht|]. split; [exact Hd|].
  intros He. destruct (fo_ended_empty f Hi He) as (E1 & E2 & E3).
  rewrite E3 in Hl. symmetry in Hl. apply zlen_nil_iff in Hl. split; [done|].
  rewrite E1, E2, loss_tags_split, Hl in Ht. cbn in Ht. by rewrite app_nil_r in Ht.
Qed.

End facts.

(** ** A concrete run *)

Module FailoverClientWitness.
Import StreamWitness.

Definition fo_task := FailoverTask APIClientReq.
Definition fclient := FoClient mem_stream APIClientReq.
Definition one : list bytes := [str_bytes "10.0.0.1:80"%string].
Definition fclient0 : fclient := FoClient_new 4 0 one true 3.
Definition fcrun : fclient -> list APIClientReq -> list (loss (T := fo_task)) -> list APIClientReq -> Prop :=
  fo_run always 1 3 4 0 fclient0.
Definition task : APIClientReq := sample_task 0.

Definition cfg : FailoverPool := fc_pool fclient0.
Definition eh : fo_task -> event fo_task := handle cfg.
Definition good : outcome := Outcome true false 0.
Definition refused : outcome := Outcome false false 0.
Definition opened : ClientStream mem_stream fo_task := ClientStream_new conn 1 3 4.

(** One worker of a client moves, with [l1] what its connection has become. *)
Definition turn_client (oc : outcome) (l1 : link mem_stream fo_task) (c : Client mem_stream fo_task) :
    Client mem_stream fo_task * list (event fo_task) :=
  match worker_turn eh oc 0 (cl_pool c) with
  | Some (p', outs) =>
    let '(l2, gone) := release (pc_at 0 p') l1 in
    (MkClient p' (pad_links p' (<[0%nat := l2]> (cl_links c))) (cl_old c ++ gone), fails outs)
  | None => (c, [])
  end.

Definition sent : fo_out APIClientReq * FailoverPool := fo_send_req task (refresh (fc_clients fclient0) cfg).
Definition wrapped : fo_task := match sent.1 with FoSend _ t => t | FoDone t => FoTask 0 0 t 0 false 0 end.

(** The pool's client: the task is in its channel, the connection is refused,
    the last handle goes away, the worker connects once more and leaves, and
    the receiver of that connection returns. *)
Definition k0 : Client mem_stream fo_task := Client_new 4 0.
Definition k1 : Client mem_stream fo_task :=
  match pool_send_req wrapped (cl_pool k0) with Ready p => MkClient p (cl_links k0) [] | Pending => k0 end.
Definition k2 := (turn_client refused NoConn k1).1.
Definition k3 : Client mem_stream fo_task := MkClient (close_tx (cl_pool k2)) (cl_links k2) (cl_old k2).
Definition k4 := (turn_client good (Conn opened CNone) k3).1.
Definition k5 := (turn_client good (Conn opened CNone) k4).1.
Definition k6 := (turn_client good (Conn opened CNone) k5).1.
Definition d0 := stream_drop opened.
Definition d1 := recv_head d0.
Definition d2 := match recv_clean eh None d1 with Ret (s, _) => s | Panic => d1 end.
Definition d3 := match recv_check eh None d2 with Ret (s, _) => s | Panic => d2 end.
Definition with_old (st : ClientStream mem_stream fo_task) (c : Client mem_stream fo_task) :=
  MkClient (cl_pool c) (cl_links c) [st].

Definition k7 := with_old d1 k6.
Definition k8 := with_old d2 k7.
Definition k9 := with_old d3 k8.

Definition retried : fo_task := fo_set_rpc_error wrapped Unreachable.
Definition routed : FailoverPool := sent.2.
Definition gave_up : fo_out APIClientReq * FailoverPool := retry_worker_step true retried (refresh [k2] routed).

Definition at_client (p : FailoverPool) (alive : bool) (c : Client mem_stream fo_task) : fclient :=
  MkFo p [c] [] [] None alive.

(** The pools after the retry. *)
Definition cluster : FailoverPool := gave_up.2.
Definition given : APIClientReq := match gave_up.1 with FoDone t => t | FoSend _ t => fo_inner t end.

Lemma after_retry : fcrun (at_client cluster true k2) [task] [] [given].
Proof.
  eapply (frun_snoc _ _ _ _ _ _ (MkFo routed [k2] [] [retried] None true) _ [task] [] [] [] [] [given]);
    [|by apply (fs_retry _ _ _ _ _ routed [k2] [] retried [] true (FoDone given) cluster)].
  eapply (frun_snoc _ _ _ _ _ _ (MkFo routed [k1] [] [] None true) _ [task] [] [] [] [] []).
  - eapply (frun_snoc _ _ _ _ _ _ (MkFo routed [k0] [(0%nat, wrapped)] [] None true) _ [task] [] [] [] [] []).
    + eapply (frun_snoc _ _ _ _ _ _ fclient0 _ [] [] [] [task] [] []); [apply frun_nil|].
      exact (fs_send _ _ _ _ _ cfg [k0] [] [] None task sent.1 routed eq_refl).
    + apply (fs_deliver _ _ _ _ _ routed [k0] [(0%nat, wrapped)] [] None true 0 0 wrapped k0 k1 [] []); [done..|].
      by apply cl_submit.
  - apply (fs_client _ _ _ _ _ routed [k1] [] [] None true 0 k1 k2 [] [EvRetry retried]); [done| |by left].
    assert (Ht : worker_turn eh refused 0 (cl_pool k1) = Some (cl_pool k2, [PoFail (EvRetry retried)]))
      by (vm_compute; reflexivity).
    exact (cl_turn always eh 1 3 4 (cl_pool k1) (cl_pool k2) [NoConn] [] refused 0 NoConn NoConn NoConn []
      [PoFail (EvRetry retried)] eq_refl eq_refl (ca_refused _ _ _ refused eq_refl) Ht eq_refl).
Qed.

Lemma after_drop : fcrun (at_client cluster false k2) [task] [] [given].
Proof.
  eapply (frun_snoc _ _ _ _ _ _ (at_client cluster true k2) _ [task] [] [given] [] [] []);
    [exact after_retry|apply fs_drop].
Qed.

(** Steps of the client when the pool has been dropped. *)
Lemma fc_inner c c' :
  fcrun (at_client cluster false c) [task] [] [given] -> client_step always eh 1 3 4 c c' [] [] [] ->
  fcrun (at_client cluster false c') [task] [] [given].
Proof.
  intros H Hs. eapply (frun_snoc _ _ _ _ _ _ (at_client cluster false c) _ [task] [] [given] [] [] []); [exact H|].
  apply (fs_client _ _ _ _ _ cluster [c] [] [] None false 0 c c' [] []); [done|exact Hs|by right].
Qed.

Lemma fc_turn c l l1 :
  fcrun (at_client cluster false c) [task] [] [given] ->
  pl_connected (cl_pool c) + 1 < 2 ^ 64 -> cl_links c !! 0%nat = Some l ->
  conn_answers 1 3 4 (pc_at 0 (cl_pool c)) l good l1 ->
  bool_decide (is_Some (worker_turn eh good 0 (cl_pool c))) = true -> (turn_client good l1 c).2 = [] ->
  fcrun (at_client cluster false (turn_client good l1 c).1) [task] [] [given].
Proof.
  intros H Hb Hl Ha Ht He. apply (fc_inner c); [exact H|]. revert He. unfold turn_client.
  destruct (worker_turn eh good 0 (cl_pool c)) as [[p' o]|] eqn:E; [|done].
  destruct (release (pc_at 0 p') l1) as [l2 gone] eqn:Er. cbn [fst snd]. intros <-.
  destruct c as [p ls old]. by eapply cl_turn.
Qed.

Lemma fc_rest c st st' op :
  fcrun (at_client cluster false c) [task] [] [given] ->
  cl_old c = [st] -> inner_op op = true -> lost_task op st st' = [] -> stream_step always eh op st st' [] ->
  fcrun (at_client cluster false (with_old st' c)) [task] [] [given].
Proof.
  intros H Ho Hi Hl Hs. apply (fc_inner c); [exact H|]. destruct c as [p ls old]. cbn in Ho. subst old.
  pose proof (cl_rest always eh 1 3 4 p ls [st] 0 st st' op [] eq_refl Hi Hs) as Hc.
  rewrite Hl in Hc. exact Hc.
Qed.

Lemma after_worker : fcrun (at_client cluster false k6) [task] [] [given].
Proof.
  assert (H3 : fcrun (at_client cluster false k3) [task] [] [given]).
  { apply (fc_inner k2); [exact after_drop|apply cl_close]. }
  assert (H4 : fcrun (at_client cluster false k4) [task] [] [given]).
  { by apply (fc_turn k3 NoConn (Conn opened CNone) H3); [..|apply ca_connect|vm_compute|]. }
  assert (H5 : fcrun (at_client cluster false k5) [task] [] [given]).
  { by apply (fc_turn k4 (Conn opened CNone) (Conn opened CNone) H4); [..|apply ca_local|vm_compute|]. }
  by apply (fc_turn k5 (Conn opened CNone) (Conn opened CNone) H5); [..|apply ca_local|vm_compute|].
Qed.

Definition fclient_end : fclient := at_client cluster false k9.

Lemma fcrun_end : fcrun fclient_end [task] [] [given].
Proof.
  assert (H7 : fcrun (at_client cluster false k7) [task] [] [given]).
  { apply (fc_rest k6 d0 d1 RecvHead after_worker); [done..|]. apply st_head; vm_compute; reflexivity. }
  assert (H8 : fcrun (at_client cluster false k8) [task] [] [given]).
  { apply (fc_rest k7 d1 d2 RecvClean H7); [done..|]. apply (st_clean _ _ _ None); vm_compute; reflexivity. }
  apply (fc_rest k8 d2 d3 RecvCheck H8); [done..|]. apply (st_rcheck _ _ _ None); vm_compute; reflexivity.
Qed.

Lemma failover_hands_back_witness :
  fo_ended fclient_end /\ map tag [task] ≡ₚ map tag [given].
Proof.
  assert (He : fo_ended fclient_end).
  { split; [done|]. split; [done|]. split; [done|]. repeat constructor; vm_compute; reflexivity. }
  split; [exact He|].
  destruct (failover_hands_back always 1 3 4 0 ltac:(lia) one true 3 fclient_end [task] [] [given] fcrun_end)
    as (_ & _ & H).
  exact (proj2 (H He)).
Defined.

End FailoverClientWitness.
