(* ===== verification/Facts.v ===== *)
(** * Configuration, facts, and making connections

    The plugins through which an application configures the framework
    (stream/src/client/mod.rs, stream/src/server/mod.rs, src/client/mod.rs):
    [ClientFacts] and [ServerFacts] are classes, their provided methods the
    defaults; and how a connection, a pool and a failover client come to be from
    them, which is where the parameters of the other files get their values. *)
From Stdlib Require Import ZArith Lia Strings.String.
From stdpp Require Import base list sets.
From S2P Require Import Prelude Errors Codec Task ApiClient Proto BTree Timer TimerInv Net TcpClient ServerTask TcpServer Server RpcServer Failover Pool Stream StreamInv StreamTrace StreamPoll Throttle Wire System SystemEnds Client ClientInv FailoverClient.
Local Open Scope Z_scope.
Local Open Scope rpc_scope.

(** ** Configurations: times in seconds *)

Record ClientConfig : Type := CliConfig {
  cc_task_timeout : Z;
  cc_read_timeout : Z;
  cc_write_timeout : Z;
  cc_idle_timeout : Z;
  cc_connect_timeout : Z;
  cc_thresholds : Z;
  cc_stream_buf_size : Z;
}.

Definition ClientConfig_default : ClientConfig := CliConfig 20 5 5 120 10 128 0.

Record ServerConfig : Type := SvrConfig {
  sg_read_timeout : Z;
  sg_write_timeout : Z;
  sg_idle_timeout : Z;
  sg_server_close_wait : Z;
  sg_stream_buf_size : Z;
}.

Definition ServerConfig_default : ServerConfig := SvrConfig 5 5 120 90 0.

#[global] Instance ClientConfig_eq_dec : EqDecision ClientConfig.
Proof. solve_decision. Defined.
#[global] Instance ServerConfig_eq_dec : EqDecision ServerConfig.
Proof. solve_decision. Defined.

(** The fields are unsigned. *)
Definition config_ok (c : ClientConfig) : Prop :=
  is_usize (cc_task_timeout c) /\ is_usize (cc_thresholds c) /\ is_usize (cc_stream_buf_size c).

(** ** Facts *)

Class ClientFacts (F T : Type) : Type := {
  get_config : F -> ClientConfig;
  facts_error_handle : F -> T -> event T;
  get_client_id : F -> Z;
}.

(** The provided [ClientFacts::get_client_id]. *)
Definition get_client_id_default : Z := 0.

Class ServerFacts (F : Type) : Type := { get_server_config : F -> ServerConfig }.

(** [ClientDefault] and [ServerDefault]. *)
Record ClientDefault : Type := ClientDefault_new { cd_config : ClientConfig }.
Record ServerDefault : Type := ServerDefault_new { sd_config : ServerConfig }.

#[global] Instance ClientDefault_facts T : ClientFacts ClientDefault T := {|
  get_config := cd_config;
  facts_error_handle _ := error_handle_default;
  get_client_id _ := get_client_id_default;
|}.
#[global] Instance ServerDefault_facts : ServerFacts ServerDefault := {| get_server_config := sd_config |}.

(** The facts of the API client. *)
Record APIFact : Type := APIFact_new { af_config : ClientConfig }.

#[global] Instance APIFact_facts : ClientFacts APIFact APIClientReq := {|
  get_config := af_config;
  facts_error_handle _ := error_handle_default;
  get_client_id _ := get_client_id_default;
|}.

(** What a failover pool wraps around the facts of the user. [get_client_id]
    is the provided one. *)
Record FailoverFacts (F : Type) : Type := MkFoFacts {
  ff_facts : F;
  ff_retry_open : bool;
  ff_retry_limit : Z;
}.
Arguments MkFoFacts {F}.
Arguments ff_facts {F}.
Arguments ff_retry_open {F}.
Arguments ff_retry_limit {F}.

#[global] Instance FailoverFacts_facts {F T} `{!ClientTask T} `{!ClientFacts F T} :
    ClientFacts (FailoverFacts F) (FailoverTask T) := {|
  get_config f := get_config (T := T) (ff_facts f);
  facts_error_handle f := fo_error_handle (ff_retry_limit f) (ff_retry_open f);
  get_client_id _ := get_client_id_default;
|}.

(** ** Connections *)
Section connect.
Context {S : Type} `{!AsyncStream S}.

(** Outside the repository: connecting a socket, and the buffers of orb. *)
Context {Socket : Type} (connect_timeout : bytes -> Z -> result Socket unit).
Context (AsyncBufStream_new : Socket -> Z -> S).

Definition CLIENT_DEFAULT_BUF_SIZE : Z := 8 * 1024.

(** [TcpClient::connect]. *)
Definition TcpClient_connect (addr : bytes) (config : ClientConfig) : result (TcpClient S) RpcIntErr :=
  match connect_timeout addr (cc_connect_timeout config) with
  | Err _ => Err Unreachable
  | Ok stream =>
    let buf_size := cc_stream_buf_size config in
    let buf_size := if buf_size =? 0 then CLIENT_DEFAULT_BUF_SIZE else buf_size in
    Ok (TcpC (AsyncBufStream_new stream buf_size) [])
  end.

Context {F T : Type} `{!ClientTask T} `{!ClientFacts F T}.

(** [ClientStream::connect]: the receiver is started with the connection. *)
Definition ClientStream_connect (facts : F) (addr : bytes) : result (ClientStream S T) RpcIntErr :=
  let client_id := get_client_id (T := T) facts in
  let config := get_config (T := T) facts in
  match TcpClient_connect addr config with
  | Err e => Err e
  | Ok conn => Ok (ClientStream_new conn client_id (cc_task_timeout config) (cc_thresholds config))
  end.

(** A connection that cannot be made is an error that fails over. *)
Lemma connect_error facts addr e :
  ClientStream_connect facts addr = Err e <->
  e = Unreachable /\ is_ok (connect_timeout addr (cc_connect_timeout (get_config (T := T) facts))) = false.
Proof.
  unfold ClientStream_connect, TcpClient_connect. destruct (connect_timeout _ _) as [s|u]; cbn; [naive_solver|].
  split; [by intros [= <-]|by intros [-> _]].
Qed.

Lemma connect_retriable facts addr e : ClientStream_connect facts addr = Err e -> retriable e = true.
Proof. by intros [-> _]%connect_error. Qed.

(** A new connection is idle, with nothing in its window, and is configured by
    the facts; a width of 0 stands for the default. *)
Lemma connect_fresh facts addr st :
  config_ok (get_config (T := T) facts) -> ClientStream_connect facts addr = Ok st ->
  stream_inv 0 0 0 st /\ cs_client_id st = get_client_id (T := T) facts /\
  task_timeout (cs_timer st) = cc_task_timeout (get_config (T := T) facts) /\ 0 < cs_thresholds st /\
  (cc_thresholds (get_config (T := T) facts) <> 0 -> cs_thresholds st = cc_thresholds (get_config (T := T) facts)).
Proof.
  intros (Ht & Hth & _). unfold ClientStream_connect, TcpClient_connect. destruct (connect_timeout _ _) as [s|u]; [|done].
  intros [= <-]. split; [apply ClientStream_new_inv; unfold is_usize in Ht; lia|]. unfold is_usize in Hth. cbn.
  split; [done|]. split; [done|]. destruct (Z.eqb_spec (cc_thresholds (get_config facts)) 0); split; lia.
Qed.

End connect.

(** ** Pools *)
Section pools.
Context {S T F : Type} `{!ClientTask T} `{!ClientFacts F T}.

(** [ConnPool::new], [FailoverPool::new]. *)
Definition conn_pool_of (facts : F) (channel_size : Z) : ConnPool T :=
  ConnPool_new (cc_thresholds (get_config (T := T) facts)) channel_size.
Definition failover_of (facts : F) (addrs : list bytes) (stateless : bool) (retry_limit pool_channel_size : Z)
    : FoClient S T :=
  let facts := MkFoFacts facts true retry_limit in
  FoClient_new (cc_thresholds (get_config (T := FailoverTask T) facts)) pool_channel_size addrs stateless
    (ff_retry_limit facts).

(** The channel of a pool holds as many tasks as a connection keeps in flight,
    or more if asked to, and at least one. *)
Lemma conn_pool_of_cap facts channel_size :
  config_ok (get_config (T := T) facts) -> 0 <= channel_size ->
  0 < pl_cap (conn_pool_of facts channel_size) /\
  cc_thresholds (get_config (T := T) facts) <= pl_cap (conn_pool_of facts channel_size) /\
  channel_size <= pl_cap (conn_pool_of facts channel_size).
Proof.
  intros (_ & Ht & _) Hc. unfold is_usize in Ht. unfold conn_pool_of, ConnPool_new, pool_spawn, pool_cap. cbn.
  destruct (Z.ltb_spec 0 (cc_thresholds (get_config facts))).
  - destruct (Z.ltb_spec channel_size (cc_thresholds (get_config facts))); lia.
  - destruct (Z.eqb_spec channel_size 0); lia.
Qed.

End pools.

(** [APIFact::new_conn_pool] and [APIFact::new_failover]. *)
Definition new_conn_pool (f : APIFact) : ConnPool APIClientReq := conn_pool_of f 0.
Definition new_failover {S} (f : APIFact) (addrs : list bytes) (stateless : bool) (retry_limit : Z)
    : FoClient S APIClientReq := failover_of f addrs stateless retry_limit 0.

(** ** The identity of a client *)
Section identity.
Context {Socket : Type} (connect_timeout : bytes -> Z -> result Socket unit).
Context (AsyncBufStream_new : Socket -> Z -> mem_stream) (buffer_alloc : Z -> bool).
Context {F T : Type} `{!ClientTask T} `{!ClientFacts F T}.
Implicit Types f : F.

Lemma run_client_id {F' T'} `{!ClientTask T'} `{!ClientFacts F' T'} (f : F') addr
    (eh : T' -> event T') n lost outs (st st' : ClientStream mem_stream T') :
  ClientStream_connect connect_timeout AsyncBufStream_new f addr = Ok st ->
  stream_run buffer_alloc eh n lost outs st st' -> cs_client_id st' = get_client_id (T := T') f.
Proof.
  intros Hc Hr. assert (E : cs_client_id st' = cs_client_id st).
  { induction Hr as [|n lost outs op st st1 st2 evs _ IH Hs]; [done|]. rewrite (client_id_step _ _ _ _ _ _ Hs). auto. }
  rewrite E. unfold ClientStream_connect in Hc. destruct (TcpClient_connect _ _ _ _); by simplify_eq.
Qed.

(** A connection of a pool always gives the identity its facts assign, and a
    connection of a failover pool never does: it says 0. *)
Lemma failover_client_id f limit open addr n lost outs (st st' : ClientStream mem_stream (FailoverTask T)) :
  ClientStream_connect connect_timeout AsyncBufStream_new (MkFoFacts f open limit) addr = Ok st ->
  stream_run buffer_alloc (facts_error_handle (MkFoFacts f open limit)) n lost outs st st' ->
  cs_client_id st' = 0.
Proof. intros Hc Hr. exact (run_client_id _ _ _ _ _ _ _ _ Hc Hr). Qed.

End identity.
