(* ===== verification/MacroSyntax.v ===== *)
(** * Syntax trees seen by the procedural macros

    The macros of [stream/macros] and [macros] read items through the [syn]
    crate. This file has the fragment of its syntax trees they inspect, with
    the constructors of [syn] 1.0, the accessors they call on it, and the
    outcome of a macro: the expansion, a reported syntax error, or a panic of
    the compiler. The parser that builds the trees from source text is [syn]'s
    and not modelled. *)
From Stdlib Require Import ZArith Lia Strings.String.
From stdpp Require Import base list gmap strings.
From S2P Require Import Prelude.
Local Open Scope Z_scope.
Local Open Scope rpc_scope.

(** ** Outcome of a macro *)

Inductive expansion (A : Type) : Type :=
| Expand (a : A)
| SyntaxError
| MacroPanic.
Arguments Expand {A} a.
Arguments SyntaxError {A}.
Arguments MacroPanic {A}.

Definition exp_bind {A B} (m : expansion A) (k : A -> expansion B) : expansion B :=
  match m with Expand a => k a | SyntaxError => SyntaxError | MacroPanic => MacroPanic end.

Notation "'let!' x := m 'in' k" := (exp_bind m (fun x => k))
  (at level 10, x pattern, m at level 100, k at level 200) : rpc_scope.

(** [Option::expect] in a macro. *)
Definition expect {A} (o : option A) : expansion A :=
  match o with Some a => Expand a | None => MacroPanic end.

(** [if c { panic!(..) }]. *)
Definition panic_if (c : bool) : expansion unit := if c then MacroPanic else Expand tt.

Lemma exp_bind_Expand {A B} (m : expansion A) (k : A -> expansion B) b :
  exp_bind m k = Expand b <-> exists a, m = Expand a /\ k a = Expand b.
Proof. destruct m; simpl; naive_solver. Qed.

Lemma expect_Expand {A} (o : option A) a : expect o = Expand a <-> o = Some a.
Proof. destruct o; simpl; naive_solver. Qed.

Lemma panic_if_Expand c u : panic_if c = Expand u <-> c = false.
Proof. destruct c, u; simpl; naive_solver. Qed.

(** Turn every [let!] of a hypothesis that expands into the equations of its
    steps. *)
Ltac inv_exp :=
  repeat match goal with
  | H : exp_bind _ _ = Expand _ |- _ => apply exp_bind_Expand in H as (? & ? & ?)
  | H : expect _ = Expand _ |- _ => apply expect_Expand in H
  | H : panic_if _ = Expand _ |- _ => apply panic_if_Expand in H
  | H : Expand _ = Expand _ |- _ => injection H as H
  | H : SyntaxError = Expand _ |- _ => discriminate H
  | H : MacroPanic = Expand _ |- _ => discriminate H
  end.

(** ** Types and paths *)

(** [Ident]; comparison with a string literal is equality of the text. *)
Abbreviation ident := String.string.

(** [syn::Type] with [PathArguments], [GenericArgument] and
    [TypeParamBound]. A type the macros do not look into keeps its tokens. *)
Inductive SynType : Type :=
| TyPath (qself : bool) (leading_colon : bool) (segments : list segment)
| TyTuple (elems : list SynType)
| TyImplTrait (bounds : list bound)
| TyOther (tokens : String.string)
with segment : Type :=
| Seg (name : ident) (arguments : path_arguments)
with path_arguments : Type :=
| ArgsNone
| ArgsAngle (args : list generic_argument)
| ArgsParen
with generic_argument : Type :=
| GType (ty : SynType)
| GBinding (name : ident) (ty : SynType)
| GOther
with bound : Type :=
| BTrait (segments : list segment)
| BLifetime.

Definition seg_ident (s : segment) : ident := let 'Seg n _ := s in n.
Definition seg_args (s : segment) : path_arguments := let 'Seg _ a := s in a.

(** The last segment of a type that is a path: [if let Type::Path(p) = ty],
    then [p.path.segments.last()]. *)
Definition type_last_segment (ty : SynType) : option segment :=
  match ty with TyPath _ _ segs => last segs | _ => None end.

(** [segment.ident == name], with its arguments in angle brackets. *)
Definition angle_args (name : ident) (s : segment) : option (list generic_argument) :=
  if decide (seg_ident s = name)
  then match seg_args s with ArgsAngle args => Some args | _ => None end
  else None.

(** [args.first()], a type. *)
Definition first_type (args : list generic_argument) : option SynType :=
  match args with GType ty :: _ => Some ty | _ => None end.

(** The argument of a type [.. ::name<T, ..>]. *)
Definition arg_of (name : ident) (ty : SynType) : option SynType :=
  match type_last_segment ty with
  | Some s => match angle_args name s with Some args => first_type args | None => None end
  | None => None
  end.

(** ** Attributes *)

(** [syn::Path], as attributes and enum values use it. *)
Record SynPath : Type := MkPath { path_leading : bool; path_segs : list segment }.

(** [Path::get_ident]: the only segment, without arguments. *)
Definition get_ident (p : SynPath) : option ident :=
  if path_leading p then None
  else match path_segs p with [Seg n ArgsNone] => Some n | _ => None end.

Definition is_ident (name : ident) (p : SynPath) : bool :=
  bool_decide (get_ident p = Some name).

Definition ident_path (n : ident) : SynPath := MkPath false [Seg n ArgsNone].

(** [syn::Lit]: strings and integers, an integer by the value of its digits. *)
Inductive SynLit : Type :=
| LitStr (s : String.string)
| LitInt (n : Z)
| LitOther.

(** [syn::Meta] and [syn::NestedMeta]. *)
Inductive SynMeta : Type :=
| MPath (p : SynPath)
| MList (p : SynPath) (nested : list nested_meta)
| MNameValue (p : SynPath) (l : SynLit)
with nested_meta : Type :=
| NMeta (m : SynMeta)
| NLit (l : SynLit).

(** [syn::Attribute]; [attr_meta] is what [parse_meta] gives, if it succeeds. *)
Record SynAttr : Type := Attr { attr_path : SynPath; attr_meta : option SynMeta }.

(** [if let Ok(Meta::List(l)) = attr.parse_meta()]: the nested arguments. *)
Definition meta_list (a : SynAttr) : option (list nested_meta) :=
  match attr_meta a with Some (MList _ nested) => Some nested | _ => None end.

(** [LitInt::base10_parse::<i32>]. *)
Definition base10_parse_i32 (n : Z) : option Z :=
  if (- 2 ^ 31 <=? n) && (n <? 2 ^ 31) then Some n else None.

Lemma base10_parse_i32_Some n m : base10_parse_i32 n = Some m <-> m = n /\ is_i32 n.
Proof.
  unfold base10_parse_i32, is_i32.
  destruct (Z.leb_spec (- 2 ^ 31) n), (Z.ltb_spec n (2 ^ 31)); cbn [andb]; split; intros;
    simplify_eq; try done; try (split; [done|lia]); destruct_and?; subst; try done; lia.
Qed.

(** ** Items *)

Record syn_field : Type := Field {
  f_ident : ident;
  f_ty : SynType;
  f_attrs : list SynAttr;
}.

Record syn_variant : Type := Variant {
  v_ident : ident;
  v_fields : option (list SynType);  (** [Fields::Unnamed], else [None] *)
  v_attrs : list SynAttr;
}.

Inductive syn_data : Type :=
| DStruct (fields : list syn_field)  (** a struct with named fields *)
| DEnum (variants : list syn_variant)
| DOther.

Record DeriveInput : Type := Derive { d_ident : ident; d_data : syn_data }.

(** [Fields::Unnamed(fields) if fields.unnamed.len() == 1], or the panic of
    both enum macros. *)
Definition single_field (v : syn_variant) : expansion SynType :=
  match v_fields v with Some [ty] => Expand ty | _ => MacroPanic end.

Definition variant_type (v : syn_variant) : option SynType :=
  match v_fields v with Some [ty] => Some ty | _ => None end.

Lemma single_field_spec v ty : single_field v = Expand ty <-> variant_type v = Some ty.
Proof. unfold single_field, variant_type. destruct (v_fields v) as [[|? [|]]|]; naive_solver. Qed.

(** [attrs.retain(|attr| !attr.path.is_ident(name))]. *)
Definition strip_attrs (name : ident) (attrs : list SynAttr) : list SynAttr :=
  List.filter (fun a => negb (is_ident name (attr_path a))) attrs.

(** ** Attribute arguments as tokens

    The enum macros parse their arguments from a token stream. [syn]'s parser of
    types is a parameter of those macros. *)
Inductive token : Type :=
| TkIdent (s : ident)
| TkEq
| TkComma
| TkOther.

Definition type_parser : Type := list token -> option (SynType * list token).

(** [input.parse::<Token![=]>()?], then [input.parse::<Type>()?]. *)
Definition parse_eq_type (parse_type : type_parser) (toks : list token)
    : expansion (SynType * list token) :=
  match toks with
  | TkEq :: rest => match parse_type rest with Some r => Expand r | None => SyntaxError end
  | _ => SyntaxError
  end.

(** The [HashMap<String, usize>] both enum macros count inner types with, by
    their printed form. *)
Definition type_counts : Type := gmap String.string nat.

Definition count_type (name : String.string) (counts : type_counts) : type_counts :=
  <[name := S (default 0%nat (counts !! name))]> counts.

Lemma count_type_eq n counts : count_type n counts !! n = Some (S (default 0%nat (counts !! n))).
Proof. apply (lookup_insert_eq (M := gmap String.string)). Qed.

Lemma count_type_ne n m counts : n <> m -> count_type n counts !! m = counts !! m.
Proof. apply (lookup_insert_ne (M := gmap String.string)). Qed.

(** Counting a list of names gives each its number of occurrences. *)
Lemma count_type_spec (l : list String.string) (counts : type_counts) k :
  default 0%nat (foldl (fun m n => count_type n m) counts l !! k) =
  (default 0%nat (counts !! k) + length (List.filter (fun n => bool_decide (n = k)) l))%nat.
Proof.
  revert counts. induction l as [|n l IH]; intros counts; simpl; [lia|].
  rewrite IH. case_bool_decide as H.
  - subst. rewrite count_type_eq. simpl. lia.
  - by rewrite count_type_ne.
Qed.

Lemma filter_eq_In (l : list String.string) k :
  k ∈ l -> (1 <= length (List.filter (fun n => bool_decide (n = k)) l))%nat.
Proof.
  induction l as [|n l IH]; [by intros ?%elem_of_nil|]. intros [<-|H]%elem_of_cons; simpl.
  - rewrite bool_decide_true by done. simpl. lia.
  - specialize (IH H). case_bool_decide; simpl; lia.
Qed.

(** Names all counted once are distinct. *)
Lemma filter_eq_NoDup (l : list String.string) :
  NoDup l <-> forall k, k ∈ l -> length (List.filter (fun n => bool_decide (n = k)) l) = 1%nat.
Proof.
  induction l as [|n l IH]; [split; [by intros _ ? ?%elem_of_nil|constructor]|]. split.
  - intros [Hn Hl]%NoDup_cons k Hk. simpl. case_bool_decide as E.
    + subst. simpl. destruct (List.filter _ l) as [|x r] eqn:Ef; [done|].
      assert (Hin : In x (List.filter (fun n => bool_decide (n = k)) l)) by (rewrite Ef; by left).
      apply List.filter_In in Hin as [Hin ->%bool_decide_eq_true]. by apply list_elem_of_In in Hin.
    + apply elem_of_cons in Hk as [->|Hk]; [done|]. by apply IH.
  - intros H. apply NoDup_cons. split.
    + intros Hn. specialize (H n ltac:(left)). simpl in H. rewrite bool_decide_true in H by done.
      pose proof (filter_eq_In l n Hn). simpl in H. lia.
    + apply IH. intros k Hk. specialize (H k ltac:(by right)). simpl in H. pose proof (filter_eq_In l k Hk).
      case_bool_decide; simpl in H; [lia|done].
Qed.

(** ** Building types in examples *)

Definition ty_path1 (n : ident) (args : path_arguments) : SynType := TyPath false false [Seg n args].
Definition ty_named (n : ident) : SynType := ty_path1 n ArgsNone.
Definition ty_app (n : ident) (tys : list SynType) : SynType := ty_path1 n (ArgsAngle (GType <$> tys)).
