(* ===== verification/ClientMacro.v ===== *)
(** * The client_task macro (stream/macros/src/client_task.rs)

    [client_task_impl] reads an annotated struct and writes the impls of the
    client task traits. Here is the macro itself, from syntax trees to the
    pieces of generated code ([client_task_code]), its panics included, and
    exactly which structs it accepts. What the generated code does is in
    [ClientGen]. *)
From Stdlib Require Import ZArith Lia Strings.String.
From stdpp Require Import base list strings.
From S2P Require Import Prelude MacroSyntax.
Local Open Scope Z_scope.
Local Open Scope rpc_scope.

(** ** The macro *)

(** [check_option_inner_type]: the path is [Option], alone, with one type. *)
Definition check_option_inner_type (ty : SynType) : bool :=
  match ty with
  | TyPath false false [Seg n (ArgsAngle [GType _])] => bool_decide (n = "Option"%string)
  | _ => false
  end.

(** The loop over the arguments of [#[client_task(..)]]. *)
Definition is_debug (arg : nested_meta) : bool :=
  match arg with NMeta (MPath p) => is_ident "debug" p | _ => false end.

Fixpoint client_args (args : list nested_meta) (gen_debug : bool)
    (static_action : option nested_meta) : expansion (bool * option nested_meta) :=
  match args with
  | [] => Expand (gen_debug, static_action)
  | arg :: args =>
    if is_debug arg then
      let! _ := panic_if gen_debug in client_args args true static_action
    else
      let! _ := panic_if (bool_decide (is_Some static_action)) in
      client_args args gen_debug (Some arg)
  end.

(** The fields found so far. *)
Record field_roles : Type := Roles {
  common_field : option (ident * SynType);
  req_field : option ident;
  resp_field : option (ident * SynType);
  req_blob_field : option ident;
  resp_blob_field : option (ident * SynType);
  field_action : option (ident * SynType);
  res_field : option (ident * SynType);
  noti_field : option (ident * SynType);
}.

Definition no_roles : field_roles := Roles None None None None None None None None.

(** The [match ident.to_string().as_str()]. *)
Definition assign_role (role f_name : ident) (f_type : SynType) (r : field_roles)
    : expansion field_roles :=
  let '(Roles c q p qb pb a s n) := r in
  let fld := Some (f_name, f_type) in
  if decide (role = "common"%string) then Expand (Roles fld q p qb pb a s n)
  else if decide (role = "req"%string) then Expand (Roles c (Some f_name) p qb pb a s n)
  else if decide (role = "resp"%string) then Expand (Roles c q fld qb pb a s n)
  else if decide (role = "req_blob"%string) then Expand (Roles c q p (Some f_name) pb a s n)
  else if decide (role = "resp_blob"%string) then Expand (Roles c q p qb fld a s n)
  else if decide (role = "action"%string) then
    let! _ := panic_if (bool_decide (is_Some a)) in Expand (Roles c q p qb pb fld s n)
  else if decide (role = "res"%string) then Expand (Roles c q p qb pb a fld n)
  else if decide (role = "noti"%string) then Expand (Roles c q p qb pb a s fld)
  else Expand r.

(** [for nested in meta_list.nested.iter()]. *)
Fixpoint scan_nested (nested : list nested_meta) (f : syn_field) (r : field_roles)
    : expansion field_roles :=
  match nested with
  | [] => Expand r
  | NMeta (MPath p) :: rest =>
    let! r := match get_ident p with
              | Some role => assign_role role (f_ident f) (f_ty f) r
              | None => Expand r
              end in
    scan_nested rest f r
  | _ :: rest => scan_nested rest f r
  end.

(** [for attr in &field.attrs]: the roles, and the attributes that stay. *)
Fixpoint scan_attrs (attrs : list SynAttr) (f : syn_field) (r : field_roles)
    (new_attrs : list SynAttr) : expansion (field_roles * list SynAttr) :=
  match attrs with
  | [] => Expand (r, new_attrs)
  | attr :: rest =>
    if is_ident "field" (attr_path attr) then
      let! r := match meta_list attr with
                | Some nested => scan_nested nested f r
                | None => Expand r
                end in
      scan_attrs rest f r new_attrs
    else scan_attrs rest f r (new_attrs ++ [attr])
  end.

(** [for field in fields.named.iter_mut()]. *)
Fixpoint scan_fields (fields : list syn_field) (r : field_roles)
    : expansion (field_roles * list syn_field) :=
  match fields with
  | [] => Expand (r, [])
  | f :: fields =>
    let! (r, attrs) := scan_attrs (f_attrs f) f r [] in
    let! (r, rest) := scan_fields fields r in
    Expand (r, Field (f_ident f) (f_ty f) attrs :: rest)
  end.

(** *** Generated code *)

(** The body of [get_action]. *)
Inductive action_code : Type :=
| ActFieldStr (f : ident) (ty : SynType)  (** [RpcAction::Str(&self.f)] *)
| ActFieldNum (f : ident) (ty : SynType)  (** [RpcAction::Num(self.f as i32)] *)
| ActStr (s : String.string)
| ActNum (n : Z)
| ActPath (p : SynPath).                  (** [RpcAction::Num(p as i32)] *)

Definition field_action_code (f : ident * SynType) : expansion action_code :=
  match snd f with
  | TyPath _ _ segs =>
    match last segs with
    | Some seg =>
      Expand (if decide (seg_ident seg = "String"%string)
              then ActFieldStr (fst f) (snd f) else ActFieldNum (fst f) (snd f))
    | None => MacroPanic
    end
  | _ => MacroPanic
  end.

Definition static_action_code (a : nested_meta) : expansion action_code :=
  match a with
  | NLit (LitStr s) => Expand (ActStr s)
  | NLit (LitInt i) => let! n := expect (base10_parse_i32 i) in Expand (ActNum n)
  | NMeta (MPath p) => Expand (ActPath p)
  | _ => MacroPanic
  end.

(** [let p = if let Type::Path(p) = ty ..; p.path.segments.last().expect(..)]. *)
Definition path_last (ty : SynType) : expansion segment :=
  match ty with TyPath _ _ segs => expect (last segs) | _ => MacroPanic end.

(** The checks on a segment that has to be [name<..>]. *)
Definition named_args (name : ident) (seg : segment) : expansion (list generic_argument) :=
  let! _ := panic_if (bool_decide (seg_ident seg <> name)) in
  match seg_args seg with ArgsAngle args => Expand args | _ => MacroPanic end.

(** The error type of a [res] field: [E] of [Option<Result<(), RpcError<E>>>]. *)
Definition res_error_type (res_field_type : SynType) : expansion SynType :=
  let! seg := path_last res_field_type in
  let! args := named_args "Option" seg in
  let! option_inner_type := expect (first_type args) in
  let! seg := path_last option_inner_type in
  let! result_args := named_args "Result" seg in
  let! _ := panic_if (negb (length result_args =? 2)%nat) in
  let! _ := match result_args with
            | GType (TyTuple []) :: _ => Expand tt
            | _ => MacroPanic
            end in
  let! rpc_error_type := match result_args with
                         | _ :: GType ty :: _ => Expand ty
                         | _ => MacroPanic
                         end in
  let! seg := path_last rpc_error_type in
  let! args := named_args "RpcError" seg in
  expect (first_type args).

(** The queue of a [noti] field: [Q] of [Option<MTx<Q>>]. *)
Definition noti_inner_type (noti_full_type : SynType) : expansion SynType :=
  let! seg := path_last noti_full_type in
  let! args := named_args "Option" seg in
  let! inner_option_type := expect (first_type args) in
  let! seg := path_last inner_option_type in
  let! args := named_args "MTx" seg in
  expect (first_type args).

(** The impls of [ClientTaskGetResult] and [ClientTaskDone]. *)
Record done_code : Type := DoneCode {
  dn_res : ident * SynType;
  dn_error : SynType;
  dn_noti : ident * SynType;
  dn_queue : SynType;
}.

Record client_task_code : Type := ClientCode {
  ct_ast : list syn_field;
  ct_debug : bool;
  ct_common : ident * SynType;
  ct_req : ident;
  ct_resp : ident * SynType;
  ct_req_blob : option ident;
  ct_resp_blob : option (ident * SynType);
  ct_action : option action_code;
  ct_done : option done_code;
}.

Definition client_action_impl (r : field_roles) (static_action : option nested_meta)
    : expansion (option action_code) :=
  match field_action r with
  | Some f => let! a := field_action_code f in Expand (Some a)
  | None =>
    match static_action with
    | Some s => let! a := static_action_code s in Expand (Some a)
    | None => Expand None
    end
  end.

Definition client_done_impl (r : field_roles) : expansion (option done_code) :=
  match res_field r, noti_field r with
  | Some res, Some noti =>
    let! error_type := res_error_type (snd res) in
    let! queue := noti_inner_type (snd noti) in
    Expand (Some (DoneCode res error_type noti queue))
  | _, _ => Expand None
  end.

Definition client_task_impl (attr : list nested_meta) (input : DeriveInput)
    : expansion client_task_code :=
  let! (gen_debug, static_action) := client_args attr false None in
  let! (r, ast) := match d_data input with
                   | DStruct fields => scan_fields fields no_roles
                   | _ => Expand (no_roles, [])
                   end in
  let! _ := panic_if (bool_decide (is_Some (field_action r) /\ is_Some static_action)) in
  let! _ := panic_if (xorb (bool_decide (is_Some (res_field r))) (bool_decide (is_Some (noti_field r)))) in
  let! common := expect (common_field r) in
  let! req := expect (req_field r) in
  let! resp := expect (resp_field r) in
  let! _ := panic_if (negb (check_option_inner_type (snd resp))) in
  let! action := client_action_impl r static_action in
  let! done := client_done_impl r in
  Expand (ClientCode ast gen_debug common req resp (req_blob_field r) (resp_blob_field r) action done).

(** ** What the macro accepts

    The roles given by [#[field(..)]] in the order of the source, and the
    fields that are given one of them. *)
Definition nested_roles (nested : list nested_meta) : list ident :=
  omap (fun n => match n with NMeta (MPath p) => get_ident p | _ => None end) nested.

Definition attr_roles (a : SynAttr) : list ident :=
  if is_ident "field" (attr_path a)
  then match meta_list a with Some nested => nested_roles nested | None => [] end
  else [].

Definition role_list (fields : list syn_field) : list (ident * (ident * SynType)) :=
  concat ((fun f => (fun role => (role, (f_ident f, f_ty f))) <$> concat (attr_roles <$> f_attrs f))
    <$> fields).

Definition tagged (role : ident) (l : list (ident * (ident * SynType))) : list (ident * SynType) :=
  snd <$> List.filter (fun x => bool_decide (fst x = role)) l.

(** A later field takes the role of an earlier one. *)
Definition roles_of (l : list (ident * (ident * SynType))) : field_roles :=
  let at_ role := last (tagged role l) in
  Roles (at_ "common"%string) (fst <$> at_ "req"%string) (at_ "resp"%string)
    (fst <$> at_ "req_blob"%string) (at_ "resp_blob"%string) (at_ "action"%string)
    (at_ "res"%string) (at_ "noti"%string).

(** [Option<Result<(), RpcError<E>>>] and [Option<MTx<Q>>]. *)
Definition is_result_of (ty ety : SynType) : Prop :=
  exists s, type_last_segment ty = Some s /\ angle_args "Result" s = Some [GType (TyTuple []); GType ety].

Definition is_res_type (ty E : SynType) : Prop :=
  exists r ety, arg_of "Option" ty = Some r /\ is_result_of r ety /\ arg_of "RpcError" ety = Some E.

Definition is_noti_type (ty Q : SynType) : Prop :=
  exists m, arg_of "Option" ty = Some m /\ arg_of "MTx" m = Some Q.

Definition static_ok (a : nested_meta) : Prop :=
  match a with
  | NLit (LitStr _) | NMeta (MPath _) => True
  | NLit (LitInt n) => is_i32 n
  | _ => False
  end.

Definition static_actions (args : list nested_meta) : list nested_meta :=
  List.filter (fun a => negb (is_debug a)) args.

(** The rules the macro checks: those of its documentation, but for the type
    of a [resp_blob] field, which it does not look at. *)
Record client_task_wf (args : list nested_meta) (fields : list syn_field) : Prop := {
  wf_debug : (length (List.filter is_debug args) <= 1)%nat;
  wf_static : (length (static_actions args) <= 1)%nat;
  wf_field_action : (length (tagged "action" (role_list fields)) <= 1)%nat;
  wf_one_action : tagged "action" (role_list fields) = [] \/ static_actions args = [];
  wf_res_noti : tagged "res" (role_list fields) = [] <-> tagged "noti" (role_list fields) = [];
  wf_common : tagged "common" (role_list fields) <> [];
  wf_req : tagged "req" (role_list fields) <> [];
  wf_resp : exists f, last (tagged "resp" (role_list fields)) = Some f /\
    check_option_inner_type (snd f) = true;
  wf_action_type : forall f, tagged "action" (role_list fields) = [f] ->
    is_Some (type_last_segment (snd f));
  wf_static_ok : forall a, static_actions args = [a] -> static_ok a;
  wf_res_type : forall f, last (tagged "res" (role_list fields)) = Some f ->
    exists E, is_res_type (snd f) E;
  wf_noti_type : forall f, last (tagged "noti" (role_list fields)) = Some f ->
    exists Q, is_noti_type (snd f) Q;
}.

(** ** Lemmas on the macro *)

Lemma tagged_app role l k : tagged role (l ++ k) = tagged role l ++ tagged role k.
Proof. unfold tagged. by rewrite List.filter_app, fmap_app. Qed.

Lemma tagged_one role x :
  tagged role [x] = if decide (fst x = role) then [snd x] else [].
Proof. unfold tagged. simpl. case_decide as H; case_bool_decide; done. Qed.

Fixpoint assign_all (l : list (ident * (ident * SynType))) (r : field_roles) : expansion field_roles :=
  match l with
  | [] => Expand r
  | (role, (n, ty)) :: l => let! r := assign_role role n ty r in assign_all l r
  end.

Lemma exp_bind_assoc {A B C} (m : expansion A) (k : A -> expansion B) (h : B -> expansion C) :
  exp_bind (exp_bind m k) h = exp_bind m (fun a => exp_bind (k a) h).
Proof. by destruct m. Qed.

Lemma assign_all_app l k r :
  assign_all (l ++ k) r = exp_bind (assign_all l r) (assign_all k).
Proof.
  revert r. induction l as [|[role [n ty]] l IH]; intros r; [done|]. cbn [app assign_all].
  destruct (assign_role role n ty r); [apply IH|done|done].
Qed.

Lemma scan_nested_all nested f r :
  scan_nested nested f r =
    assign_all ((fun role => (role, (f_ident f, f_ty f))) <$> nested_roles nested) r.
Proof.
  revert r. induction nested as [|[[p|p l|p l]|l] nested IH]; intros r; try done; try apply IH.
  cbn. destruct (get_ident p); cbn; [|apply IH].
  destruct (assign_role _ _ _ r); [apply IH|done|done].
Qed.

Lemma scan_attrs_all attrs f r acc :
  scan_attrs attrs f r acc =
    let! r := assign_all ((fun role => (role, (f_ident f, f_ty f))) <$> concat (attr_roles <$> attrs)) r in
    Expand (r, acc ++ strip_attrs "field" attrs).
Proof.
  revert r acc. induction attrs as [|a attrs IH]; intros r acc.
  { cbn. by rewrite app_nil_r. }
  cbn [scan_attrs fmap list_fmap concat]. unfold attr_roles at 1, strip_attrs. cbn [List.filter].
  destruct (is_ident "field" (attr_path a)); cbn [negb].
  - rewrite fmap_app, assign_all_app, exp_bind_assoc. destruct (meta_list a) as [nested|]; cbn [exp_bind].
    + rewrite scan_nested_all. destruct (assign_all _ r); [apply IH|done|done].
    + cbn. apply IH.
  - cbn [app]. rewrite IH, <-app_assoc. done.
Qed.

Lemma scan_fields_all fields r :
  scan_fields fields r =
    let! r := assign_all (role_list fields) r in
    Expand (r, (fun f => Field (f_ident f) (f_ty f) (strip_attrs "field" (f_attrs f))) <$> fields).
Proof.
  revert r. induction fields as [|f fields IH]; intros r; [done|].
  cbn [scan_fields]. rewrite scan_attrs_all. unfold role_list. cbn [fmap list_fmap concat].
  rewrite assign_all_app, !exp_bind_assoc.
  destruct (assign_all _ r) as [r'| |]; [|done|done]. cbn [exp_bind]. rewrite IH, exp_bind_assoc.
  unfold role_list. destruct (assign_all _ r'); done.
Qed.

Lemma last_snoc_if {A} (P : Prop) `{!Decision P} (l : list A) x :
  last (l ++ (if decide P then [x] else [])) = if decide P then Some x else last l.
Proof. case_decide; [apply last_snoc|by rewrite app_nil_r]. Qed.

Lemma assign_role_snoc role n ty l :
  (length (tagged "action" (l ++ [(role, (n, ty))])) <= 1)%nat ->
  assign_role role n ty (roles_of l) = Expand (roles_of (l ++ [(role, (n, ty))])).
Proof.
  unfold roles_of. cbv zeta. rewrite !tagged_app, !tagged_one. cbn [fst snd]. intros Ha.
  rewrite !last_snoc_if. unfold assign_role. repeat (case_decide; subst; simplify_eq; try done).
  rewrite length_app in Ha. simpl in Ha. destruct (tagged "action" l); [done|simpl in Ha; lia].
Qed.

Lemma assign_role_panic role n ty l :
  (length (tagged "action" l) <= 1)%nat ->
  (1 < length (tagged "action" (l ++ [(role, (n, ty))])))%nat ->
  assign_role role n ty (roles_of l) = MacroPanic.
Proof.
  rewrite tagged_app, tagged_one, length_app. cbn [fst snd]. intros Hl Ha.
  case_decide as Hr; simpl in Ha; [|lia]. subst role. unfold roles_of, assign_role. cbv zeta.
  destruct (tagged "action" l) as [|f [|]]; simpl in *; try lia. done.
Qed.

Lemma assign_all_spec l l0 :
  (length (tagged "action" l0) <= 1)%nat ->
  assign_all l (roles_of l0) =
    if decide (length (tagged "action" (l0 ++ l)) <= 1)%nat then Expand (roles_of (l0 ++ l)) else MacroPanic.
Proof.
  revert l0. induction l as [|[role [n ty]] l IH]; intros l0 H0.
  { rewrite app_nil_r. by rewrite decide_True. }
  cbn [assign_all]. rewrite cons_middle, app_assoc.
  destruct (decide (length (tagged "action" (l0 ++ [(role, (n, ty))])) <= 1)%nat) as [H1|H1].
  - rewrite assign_role_snoc by done. apply IH. done.
  - rewrite assign_role_panic by (done || lia). cbn.
    rewrite decide_False; [done|]. rewrite tagged_app, length_app. lia.
Qed.

(** The scan of the fields, in one equation. *)
Lemma scan_fields_spec fields :
  scan_fields fields no_roles =
    if decide (length (tagged "action" (role_list fields)) <= 1)%nat
    then Expand (roles_of (role_list fields),
      (fun f => Field (f_ident f) (f_ty f) (strip_attrs "field" (f_attrs f))) <$> fields)
    else MacroPanic.
Proof.
  rewrite scan_fields_all. change no_roles with (roles_of []).
  rewrite assign_all_spec by (simpl; lia). cbn [app]. by case_decide.
Qed.

Definition option_list {A} (o : option A) : list A := match o with Some a => [a] | None => [] end.

Lemma client_args_inv args d s a : client_args args d s = Expand a ->
  (length (List.filter is_debug args) <= 1 - (if d then 1 else 0))%nat /\
  (length (static_actions args) <= 1 - length (option_list s))%nat.
Proof.
  revert d s. induction args as [|x args IH]; intros d s H; [simpl; lia|].
  cbn [client_args static_actions List.filter] in *. unfold static_actions in *. cbn [List.filter].
  destruct (is_debug x); cbn [negb length] in *.
  - destruct d; [done|]. cbn in H. apply IH in H. lia.
  - destruct s; [done|]. cbn in H. apply IH in H. simpl in *. lia.
Qed.

Lemma client_args_ok args (d : bool) s :
  (length (List.filter is_debug args) <= 1 - (if d then 1 else 0))%nat ->
  (length (static_actions args) <= 1 - length (option_list s))%nat ->
  client_args args d s = Expand (d || negb (bool_decide (List.filter is_debug args = [])),
    last (option_list s ++ static_actions args)).
Proof.
  revert d s. induction args as [|x args IH]; intros d s Hd Hs.
  { cbn. rewrite orb_false_r. by destruct s. }
  unfold static_actions in *. cbn [client_args List.filter] in *.
  destruct (is_debug x); cbn [negb length] in *.
  - destruct d; [lia|]. cbn. rewrite IH; [done|lia..].
  - destruct s; [simpl in Hs; lia|]. cbn. rewrite IH; [done|done|simpl in *; lia].
Qed.

Lemma path_last_spec ty s : path_last ty = Expand s <-> type_last_segment ty = Some s.
Proof. destruct ty; simpl; try naive_solver. apply expect_Expand. Qed.

Lemma named_args_spec n s args : named_args n s = Expand args <-> angle_args n s = Some args.
Proof.
  unfold named_args, angle_args. case_decide as H; case_bool_decide; try done; cbn.
  destruct (seg_args s); naive_solver.
Qed.

(** The argument of a type, by its three checks. *)
Lemma generic_arg_spec {A} n ty (k : SynType -> expansion A) a :
  (let! seg := path_last ty in let! args := named_args n seg in
   let! t := expect (first_type args) in k t) = Expand a <->
  exists t, arg_of n ty = Some t /\ k t = Expand a.
Proof.
  unfold arg_of. split.
  - intros H. inv_exp. rewrite path_last_spec in *. rewrite named_args_spec in *.
    repeat match goal with H : _ = Some _ |- _ => rewrite H; clear H end. eauto.
  - intros (t & Ht & Hk). destruct (type_last_segment ty) as [s|] eqn:Es; [|done].
    apply path_last_spec in Es. rewrite Es. cbn.
    destruct (angle_args n s) as [args|] eqn:E; [|done]. apply named_args_spec in E.
    rewrite E. cbn. by rewrite Ht.
Qed.

Lemma exp_bind_ret {A} (m : expansion A) : exp_bind m Expand = m.
Proof. by destruct m. Qed.

Lemma generic_arg_end n ty t :
  (let! seg := path_last ty in let! args := named_args n seg in expect (first_type args)) = Expand t <->
  arg_of n ty = Some t.
Proof.
  transitivity (exists t', arg_of n ty = Some t' /\ Expand t' = Expand t); [|naive_solver].
  rewrite <-generic_arg_spec. destruct (path_last ty) as [s| |]; cbn; [|done..].
  destruct (named_args n s); cbn; [|done..]. by rewrite exp_bind_ret.
Qed.

(** The two arguments of [Result]. *)
Lemma result_args_spec {A} (args : list generic_argument) (k : SynType -> expansion A) a :
  (let! _ := panic_if (negb (length args =? 2)%nat) in
   let! _ := match args with GType (TyTuple []) :: _ => Expand tt | _ => MacroPanic end in
   let! t := match args with _ :: GType ty :: _ => Expand ty | _ => MacroPanic end in k t) = Expand a <->
  exists ety, args = [GType (TyTuple []); GType ety] /\ k ety = Expand a.
Proof.
  split.
  - destruct args as [|x [|y [|]]]; try done; cbn.
    destruct x as [[| [|] | |]| |]; try done. destruct y; try done. eauto.
  - by intros (ety & -> & Hk).
Qed.

Lemma res_error_type_spec ty E : res_error_type ty = Expand E <-> is_res_type ty E.
Proof.
  unfold res_error_type, is_res_type, is_result_of. rewrite generic_arg_spec. split.
  - intros (r & Hr & H). apply exp_bind_Expand in H as (s & Hs & H).
    apply exp_bind_Expand in H as (args & Ha & H). apply result_args_spec in H as (ety & -> & H).
    apply path_last_spec in Hs. apply named_args_spec in Ha. apply generic_arg_end in H. naive_solver.
  - intros (r & ety & Hr & (s & Hs & Ha) & H). exists r. split; [done|].
    apply path_last_spec in Hs. apply named_args_spec in Ha. rewrite Hs. cbn [exp_bind]. rewrite Ha.
    cbn [exp_bind length Nat.eqb negb panic_if]. by apply generic_arg_end.
Qed.

Lemma noti_inner_type_spec ty Q : noti_inner_type ty = Expand Q <-> is_noti_type ty Q.
Proof.
  unfold noti_inner_type, is_noti_type. rewrite generic_arg_spec. by setoid_rewrite generic_arg_end.
Qed.

(** What the expansion of an accepted struct is made of. *)
Record expands (args : list nested_meta) (fields : list syn_field) (g : client_task_code) : Prop := {
  ex_debug_one : (length (List.filter is_debug args) <= 1)%nat;
  ex_static_one : (length (static_actions args) <= 1)%nat;
  ex_action_one : (length (tagged "action" (role_list fields)) <= 1)%nat;
  ex_exclusive : ~ (is_Some (last (tagged "action" (role_list fields))) /\
                    is_Some (last (static_actions args)));
  ex_together : is_Some (last (tagged "res" (role_list fields))) <->
                is_Some (last (tagged "noti" (role_list fields)));
  ex_common : last (tagged "common" (role_list fields)) = Some (ct_common g);
  ex_req : fst <$> last (tagged "req" (role_list fields)) = Some (ct_req g);
  ex_resp : last (tagged "resp" (role_list fields)) = Some (ct_resp g);
  ex_resp_option : check_option_inner_type (snd (ct_resp g)) = true;
  ex_req_blob : ct_req_blob g = fst <$> last (tagged "req_blob" (role_list fields));
  ex_resp_blob : ct_resp_blob g = last (tagged "resp_blob" (role_list fields));
  ex_action : client_action_impl (roles_of (role_list fields)) (last (static_actions args)) =
    Expand (ct_action g);
  ex_done : client_done_impl (roles_of (role_list fields)) = Expand (ct_done g);
  ex_ast : ct_ast g = (fun f => Field (f_ident f) (f_ty f) (strip_attrs "field" (f_attrs f))) <$> fields;
  ex_debug : ct_debug g = negb (bool_decide (List.filter is_debug args = []));
}.

Lemma xorb_false_iff (P Q : Prop) `{!Decision P, !Decision Q} :
  xorb (bool_decide P) (bool_decide Q) = false <-> (P <-> Q).
Proof. do 2 case_bool_decide; simpl; split; try done; tauto. Qed.

(** The expansion of a struct whose fields are scanned. *)
Lemma client_task_impl_scanned args fields name :
  (length (List.filter is_debug args) <= 1)%nat -> (length (static_actions args) <= 1)%nat ->
  (length (tagged "action" (role_list fields)) <= 1)%nat ->
  let r := roles_of (role_list fields) in
  let static_action := last (static_actions args) in
  client_task_impl args (Derive name (DStruct fields)) =
    let! _ := panic_if (bool_decide (is_Some (field_action r) /\ is_Some static_action)) in
    let! _ := panic_if (xorb (bool_decide (is_Some (res_field r))) (bool_decide (is_Some (noti_field r)))) in
    let! common := expect (common_field r) in
    let! req := expect (req_field r) in
    let! resp := expect (resp_field r) in
    let! _ := panic_if (negb (check_option_inner_type (snd resp))) in
    let! action := client_action_impl r static_action in
    let! done := client_done_impl r in
    Expand (ClientCode ((fun f => Field (f_ident f) (f_ty f) (strip_attrs "field" (f_attrs f))) <$> fields)
      (negb (bool_decide (List.filter is_debug args = []))) common req resp (req_blob_field r)
      (resp_blob_field r) action done).
Proof.
  intros Hd Hs Ha r st. unfold client_task_impl. cbn [d_data].
  rewrite (client_args_ok args false None) by (simpl; lia). cbn [exp_bind orb option_list app].
  rewrite scan_fields_spec, decide_True by done. reflexivity.
Qed.

Lemma client_task_impl_spec args input g :
  client_task_impl args input = Expand g <->
  exists fields, d_data input = DStruct fields /\ expands args fields g.
Proof.
  destruct input as [name data]. split.
  - intros H. pose proof H as H'. unfold client_task_impl in H'. cbn [d_data] in H'.
    apply exp_bind_Expand in H' as ([d st] & Ha & H'). apply client_args_inv in Ha as [Hd Hs].
    cbn in Hd, Hs. apply exp_bind_Expand in H' as ([r ast] & Hr & H').
    destruct data as [fields| |]; [|inv_exp; simplify_eq; by destruct (panic_if _)..].
    rewrite scan_fields_spec in Hr. case_decide as Hone; [|done]. clear H'.
    rewrite client_task_impl_scanned in H by done. inv_exp.
    exists fields. split; [done|]. simplify_eq.
    rewrite xorb_false_iff in *. rewrite bool_decide_eq_false in *. rewrite negb_false_iff in *.
    by split.
  - intros (fields & [= ->] & [Hd Hs Ha Hx Ht Hc Hq Hp Hpo Hqb Hpb Hac Hdo Hast Hdb]).
    rewrite client_task_impl_scanned by done.
    rewrite (proj2 (panic_if_Expand _ tt)) by (by apply bool_decide_eq_false). cbn [exp_bind].
    rewrite (proj2 (panic_if_Expand _ tt)) by (by apply xorb_false_iff). cbn [exp_bind].
    unfold roles_of at 1 2 3. cbn [common_field req_field resp_field].
    rewrite Hc, Hq, Hp. cbn [expect exp_bind]. rewrite Hpo. cbn [negb panic_if exp_bind].
    rewrite Hac, Hdo. cbn [exp_bind]. destruct g. cbn in *. subst. done.
Qed.

Lemma field_action_code_ok f :
  (exists a, field_action_code f = Expand a) <-> is_Some (type_last_segment (snd f)).
Proof.
  unfold field_action_code, type_last_segment. destruct (snd f); try (split; [by intros []|by intros []]).
  destruct (last segments); split; [eauto|eauto|by intros []|by intros []].
Qed.

Lemma static_action_code_ok a : (exists c, static_action_code a = Expand c) <-> static_ok a.
Proof.
  destruct a as [[p|p l|p l]|[s|n|]]; cbn; try (split; [by intros []|done]); try (split; eauto; done).
  split.
  - intros [c H]. inv_exp. by apply base10_parse_i32_Some in H as [-> ?].
  - intros H. assert (base10_parse_i32 n = Some n) as -> by (by apply base10_parse_i32_Some). cbn. eauto.
Qed.

Lemma client_done_impl_ok l :
  (is_Some (last (tagged "res" l)) <-> is_Some (last (tagged "noti" l))) ->
  (exists o, client_done_impl (roles_of l) = Expand o) <->
  (forall f, last (tagged "res" l) = Some f -> exists E, is_res_type (snd f) E) /\
  (forall f, last (tagged "noti" l) = Some f -> exists Q, is_noti_type (snd f) Q).
Proof.
  intros Hiff. unfold client_done_impl, roles_of. cbv zeta. cbn [res_field noti_field].
  destruct (last (tagged "res" l)) as [res|], (last (tagged "noti" l)) as [noti|];
    [|destruct (proj1 Hiff); [eauto|done]|destruct (proj2 Hiff); [eauto|done]|naive_solver].
  split.
  - intros [o H]. inv_exp. rewrite res_error_type_spec in *. rewrite noti_inner_type_spec in *. naive_solver.
  - intros [H1 H2]. destruct (H1 res eq_refl) as [E HE], (H2 noti eq_refl) as [Q HQ].
    apply res_error_type_spec in HE. apply noti_inner_type_spec in HQ. rewrite HE, HQ. cbn. eauto.
Qed.

Lemma last_both {A B} (l : list A) (k : list B) :
  (is_Some (last l) <-> is_Some (last k)) <-> (l = [] <-> k = []).
Proof. rewrite !last_is_Some. destruct l, k; split; intros [H1 H2]; split; try done; naive_solver. Qed.

Lemma short_cases {A} (l : list A) : (length l <= 1)%nat -> l = [] \/ exists a, l = [a].
Proof. destruct l as [|a [|]]; simpl; [eauto|eauto|lia]. Qed.

Lemma client_action_impl_ok l st :
  (length (tagged "action" l) <= 1)%nat -> (length st <= 1)%nat ->
  (exists o, client_action_impl (roles_of l) (last st) = Expand o) <->
  (forall f, tagged "action" l = [f] -> is_Some (type_last_segment (snd f))) /\
  (tagged "action" l = [] -> forall a, st = [a] -> static_ok a).
Proof.
  intros Hl Hs. unfold client_action_impl, roles_of. cbv zeta. cbn [field_action].
  assert (Hbind : forall A (m : expansion A), (exists o, (let! a := m in Expand (Some a)) = Expand o) <->
    exists a, m = Expand a) by (intros A []; cbn; naive_solver).
  destruct (short_cases _ Hl) as [->|[f ->]]; cbn [last].
  - destruct (short_cases _ Hs) as [->|[a ->]]; cbn [last]; [naive_solver|].
    rewrite Hbind, static_action_code_ok. naive_solver.
  - rewrite Hbind, field_action_code_ok. naive_solver.
Qed.

Lemma client_task_expands_iff args input :
  (exists g, client_task_impl args input = Expand g) <->
  exists fields, d_data input = DStruct fields /\ client_task_wf args fields.
Proof.
  split.
  - intros [g (fields & Hf & [])%client_task_impl_spec]. exists fields. split; [done|].
    set (l := role_list fields) in *.
    destruct (proj1 (client_action_impl_ok l _ ex_action_one0 ex_static_one0)) as [Ha1 Ha2]; [eauto|].
    destruct (proj1 (client_done_impl_ok l ex_together0)) as [Hd1 Hd2]; [eauto|].
    assert (Hone : tagged "action" l = [] \/ static_actions args = []).
    { destruct (tagged "action" l), (static_actions args); auto.
      destruct ex_exclusive0. split; by apply last_is_Some. }
    split; [exact ex_debug_one0|exact ex_static_one0|exact ex_action_one0|exact Hone
           |by apply last_both| | |eexists; split; [exact ex_resp0|exact ex_resp_option0]
           |exact Ha1| |exact Hd1|exact Hd2].
    + fold l. apply last_is_Some. eauto.
    + fold l. intros Hn. by rewrite Hn in ex_req0.
    + intros a Ha. apply Ha2; [|done]. destruct Hone as [|Hn]; [done|]. by rewrite Hn in Ha.
  - intros (fields & Hf & []). set (l := role_list fields) in *.
    destruct (last_is_Some (tagged "common" l)) as [_ [common Hc]]; [done|].
    destruct (last_is_Some (tagged "req" l)) as [_ [req Hq]]; [done|].
    destruct wf_resp0 as (resp & Hp & Hpo).
    assert (Htog : is_Some (last (tagged "res" l)) <-> is_Some (last (tagged "noti" l))).
    { by apply last_both. }
    destruct (proj2 (client_action_impl_ok l (static_actions args) wf_field_action0 wf_static0)) as [a Ha];
      [naive_solver|].
    destruct (proj2 (client_done_impl_ok l Htog)) as [d Hd]; [naive_solver|].
    eexists. apply client_task_impl_spec. exists fields. split; [done|].
    eapply (Build_expands args fields (ClientCode _ _ common (fst req) resp _ _ a d)); cbn; fold l;
      rewrite ?Hq; try done.
    rewrite !last_is_Some. tauto.
Qed.

(** The macro reads syntax that is parsed already: it expands or it panics. *)
Definition no_syntax_error {A} (m : expansion A) : Prop := m <> SyntaxError.

Lemma exp_bind_parsed {A B} (m : expansion A) (k : A -> expansion B) :
  no_syntax_error m -> (forall a, no_syntax_error (k a)) -> no_syntax_error (exp_bind m k).
Proof. unfold no_syntax_error. destruct m; simpl; naive_solver. Qed.

Lemma expect_parsed {A} (o : option A) : no_syntax_error (expect o).
Proof. by destruct o. Qed.

Lemma panic_if_parsed c : no_syntax_error (panic_if c).
Proof. by destruct c. Qed.

Lemma Expand_parsed {A} (a : A) : no_syntax_error (Expand a).
Proof. done. Qed.

Lemma MacroPanic_parsed {A} : no_syntax_error (A := A) MacroPanic.
Proof. done. Qed.

Create HintDb parsed.
#[local] Hint Resolve expect_parsed panic_if_parsed Expand_parsed MacroPanic_parsed : parsed.

Ltac parsed :=
  repeat first
    [ apply exp_bind_parsed; [|intros ?]
    | solve [eauto with parsed]
    | case_match ].

Lemma client_args_parsed args d st : no_syntax_error (client_args args d st).
Proof. revert d st. induction args; intros d st; cbn [client_args]; parsed. Qed.

Lemma scan_fields_parsed fields : no_syntax_error (scan_fields fields no_roles).
Proof. rewrite scan_fields_spec. parsed. Qed.

Lemma named_args_parsed n s : no_syntax_error (named_args n s).
Proof. unfold named_args. parsed. Qed.

Lemma path_last_parsed ty : no_syntax_error (path_last ty).
Proof. unfold path_last. parsed. Qed.

#[local] Hint Resolve client_args_parsed scan_fields_parsed named_args_parsed path_last_parsed : parsed.

Lemma client_task_impl_parsed args input : no_syntax_error (client_task_impl args input).
Proof.
  unfold client_task_impl, client_action_impl, client_done_impl, field_action_code,
    static_action_code, res_error_type, noti_inner_type. parsed.
Qed.

(** ** Properties *)

