(* ===== verification/ClientGen.v ===== *)
(** * The code generated by client_task

    The meaning of the code [client_task_impl] writes, on values of the
    annotated struct: a map from field names to values. A field used at the
    wrong type gives [None], which the type soundness theorem excludes. Traits
    of the fields' own types (serialization, [AllocateBuf], [RpcErrCodec]) are
    the class [TaskEnv]. The generated impls make a [ClientTask]. *)
From Stdlib Require Import ZArith Lia Strings.String.
From stdpp Require Import base list gmap strings.
From S2P Require Import Prelude Errors Codec Task MacroSyntax ClientMacro.
Local Open Scope Z_scope.
Local Open Scope rpc_scope.

(** ** Values of the struct's fields *)

Section values.
Context {M Er : Type}.

(** A value: the types the generated code looks into have a constructor each,
    a value of any other type is [VData]. *)
Inductive val : Type :=
| VCommon (seq : Z)                            (** [ClientTaskCommon] *)
| VStr (s : bytes)                             (** [String] *)
| VInt (n : Z)                                 (** numbers, fieldless enums *)
| VData (m : M)
| VOpt (o : option val)                        (** [Option] *)
| VRes (r : result unit (RpcError Er))         (** [Result<(), RpcError<E>>] *)
| VSender.                                     (** [MTx] *)

(** A value of the struct: what each field holds. *)
Definition struct_val : Type := gmap String.string val.

(** The impls of other traits the generated code calls, each at the type the
    compiler infers. *)
Class TaskEnv : Type := {
  env_encode_into : val -> bytes -> bytes * result Z unit;
  env_decode : SynType -> bytes -> result val unit;
  env_as_ref : val -> bytes;
  env_reserve : val -> Z -> val * option Z;
  env_fill : val -> bytes -> val;
  env_err_decode : SynType -> result Z bytes -> result Er unit;
  env_path_i32 : SynPath -> Z;
  (** The types of the remaining values. *)
  env_data_ty : M -> SynType -> bool;
  env_int_ty : SynType -> bool;
  env_err_ty : Er -> SynType -> bool;
}.

Context `{!TaskEnv}.
Implicit Types v : struct_val.

(** *** [impl ClientTaskAction] *)
Definition gen_get_action (a : action_code) v : option RpcAction :=
  match a with
  | ActFieldStr f _ => match v !! f with Some (VStr s) => Some (AStr s) | _ => None end
  | ActFieldNum f _ => match v !! f with Some (VInt n) => Some (ANum (as_i32 n)) | _ => None end
  | ActStr s => Some (AStr (str_bytes s))
  | ActNum n => Some (ANum n)
  | ActPath p => Some (ANum (env_path_i32 p))
  end.

(** *** [impl Deref], and the fields of the target *)
Definition gen_seq (g : client_task_code) v : option Z :=
  match v !! fst (ct_common g) with Some (VCommon seq) => Some seq | _ => None end.

Definition gen_set_seq (g : client_task_code) v (seq : Z) : struct_val :=
  <[fst (ct_common g) := VCommon seq]> v.

(** *** [impl ClientTaskEncode] *)
Definition gen_encode_req (g : client_task_code) v (buf : bytes) : option (bytes * result Z unit) :=
  req ← v !! ct_req g; Some (env_encode_into req buf).

Definition gen_get_req_blob (g : client_task_code) v : option (option bytes) :=
  match ct_req_blob g with
  | Some f => b ← v !! f; Some (Some (env_as_ref b))
  | None => Some None
  end.

(** *** [impl ClientTaskDecode]: decoding is at [T], where [resp : Option<T>] *)
Definition gen_decode_resp (g : client_task_code) v (buffer : bytes) : option (result struct_val unit) :=
  ty ← arg_of "Option" (snd (ct_resp g));
  match env_decode ty buffer with
  | Err e => Some (Err e)
  | Ok resp => Some (Ok (<[fst (ct_resp g) := VOpt (Some resp)]> v))
  end.

Definition gen_reserve_resp_blob (g : client_task_code) v (size : Z)
    : option (struct_val * option Z) :=
  match ct_resp_blob g with
  | Some (f, _) =>
    b ← v !! f;
    let '(b, lent) := env_reserve b size in Some (<[f := b]> v, lent)
  | None => Some (v, None)
  end.

(** The transport writes the bytes it receives into the slice lent. *)
Definition gen_fill_resp_blob (g : client_task_code) v (blob : bytes) : option struct_val :=
  match ct_resp_blob g with
  | Some (f, _) => b ← v !! f; Some (<[f := env_fill b blob]> v)
  | None => Some v
  end.

(** *** [impl ClientTaskGetResult] *)
Definition gen_get_result (d : done_code) v : option (result unit (RpcError Er)) :=
  match v !! fst (dn_res d) with
  | Some (VOpt (Some (VRes r))) => Some r
  | Some (VOpt None) => Some (Err (Rpc Internal))
  | _ => None
  end.

(** *** [impl ClientTaskDone] *)
Definition custom_error (d : done_code) (res : EncodedErr) : RpcError Er :=
  let decoded r := match env_err_decode (dn_error d) r with Ok e => User e | Err _ => Rpc Decode end in
  match res with
  | ERpc e => Rpc e
  | ENum n => decoded (Ok (as_u32 n))
  | EStatic s => decoded (Err s)
  | EBuf b => decoded (Err b)
  end.

Definition gen_set_res (d : done_code) v (r : result unit (RpcError Er)) : struct_val :=
  <[fst (dn_res d) := VOpt (Some (VRes r))]> v.

Definition gen_set_custom_error (d : done_code) v (res : EncodedErr) (_last_index _conf_ver : Z)
    : struct_val := gen_set_res d v (Err (custom_error d res)).

Definition gen_set_rpc_error (d : done_code) v (e : RpcIntErr) : struct_val :=
  gen_set_res d v (Err (Rpc e)).

Definition gen_set_ok (d : done_code) v : struct_val := gen_set_res d v (Ok tt).

(** [done]: the task as it is sent, when there is a sender: [take] leaves
    [None] in its own [noti] field. *)
Definition gen_done (d : done_code) v : option (option struct_val) :=
  match v !! fst (dn_noti d) with
  | Some (VOpt (Some VSender)) => Some (Some (<[fst (dn_noti d) := VOpt None]> v))
  | Some (VOpt None) => Some None
  | _ => None
  end.

End values.
Arguments val : clear implicits.
Arguments struct_val : clear implicits.
Arguments TaskEnv : clear implicits.

(** ** Types of values *)

Definition type_name (ty : SynType) : option ident := seg_ident <$> type_last_segment ty.

(** The types with a constructor of [val] of their own. *)
Definition builtin_types : list ident :=
  ["ClientTaskCommon"; "String"; "Option"; "Result"; "MTx"]%string.

Section typing.
Context {M Er : Type} `{!TaskEnv M Er}.
Implicit Types v : struct_val M Er.

(** [Result<(), RpcError<E>>], on an error [e] of type [E]. *)
Definition res_has_ty (r : result unit (RpcError Er)) (ty : SynType) : bool :=
  match type_last_segment ty with
  | Some s =>
    match angle_args "Result" s with
    | Some [GType (TyTuple []); GType ety] =>
      match arg_of "RpcError" ety with
      | Some E => match r with Err (User e) => env_err_ty e E | _ => true end
      | None => false
      end
    | _ => false
    end
  | None => false
  end.

(** A name means what the standard library, crossfire and razor_stream export
    under it. *)
Fixpoint has_ty (x : val M Er) (ty : SynType) : bool :=
  match x with
  | VCommon _ => bool_decide (type_name ty = Some "ClientTaskCommon"%string)
  | VStr _ => bool_decide (type_name ty = Some "String"%string)
  | VInt _ => env_int_ty ty
  | VData m => env_data_ty m ty
  | VOpt o =>
    match arg_of "Option" ty with
    | Some ty => match o with Some x => has_ty x ty | None => true end
    | None => false
    end
  | VRes r => res_has_ty r ty
  | VSender => bool_decide (is_Some (arg_of "MTx" ty))
  end.

(** What the compiler guarantees of the other types and their impls: a named
    type is not two types at once, and the impls keep to their signatures. *)
Class TaskEnvOk : Prop := {
  env_data_builtin m ty : env_data_ty m ty = true ->
    env_int_ty ty = false /\ forall n, type_name ty = Some n -> n ∉ builtin_types;
  env_int_builtin ty n : env_int_ty ty = true -> type_name ty = Some n -> n ∉ builtin_types;
  env_decode_typed ty b x : env_decode ty b = Ok x -> has_ty x ty = true;
  env_reserve_typed x n x' lent ty : env_reserve x n = (x', lent) -> has_ty x ty = true ->
    has_ty x' ty = true;
  env_fill_typed x b ty : has_ty x ty = true -> has_ty (env_fill x b) ty = true;
  env_err_typed E b e : env_err_decode E b = Ok e -> env_err_ty e E = true;
}.

(** A value of the struct: every field holds a value of its type. *)
Definition struct_typed (fields : list syn_field) v : Prop :=
  Forall (fun f => exists x, v !! f_ident f = Some x /\ has_ty x (f_ty f) = true) fields.

(** The rest of what the compiler checks on the expansion: [common] is a
    [ClientTaskCommon] (a [ClientTask] derefs to it), and an action field that
    is no [String] can be cast with [as i32]. *)
Definition rustc_accepts (g : client_task_code) : Prop :=
  type_name (snd (ct_common g)) = Some "ClientTaskCommon"%string /\
  match ct_action g with Some (ActFieldNum _ ty) => env_int_ty ty = true | _ => True end.

Lemma arg_of_name n ty t : arg_of n ty = Some t -> type_name ty = Some n.
Proof.
  unfold arg_of, type_name, angle_args. destruct (type_last_segment ty) as [s|]; [|done]. cbn.
  case_decide; [|done]. by subst.
Qed.

Lemma res_has_ty_name r ty : res_has_ty r ty = true -> type_name ty = Some "Result"%string.
Proof.
  unfold res_has_ty, type_name, angle_args. destruct (type_last_segment ty) as [s|]; [|done]. cbn.
  case_decide; [|done]. intros _. by f_equal.
Qed.

(** The type name of a typed value. *)
Lemma has_ty_name x ty : has_ty x ty = true ->
  match x with
  | VCommon _ => type_name ty = Some "ClientTaskCommon"%string
  | VStr _ => type_name ty = Some "String"%string
  | VInt _ => env_int_ty ty = true
  | VData m => env_data_ty m ty = true
  | VOpt _ => type_name ty = Some "Option"%string
  | VRes _ => type_name ty = Some "Result"%string
  | VSender => type_name ty = Some "MTx"%string
  end.
Proof.
  destruct x; cbn; intros H; try done; try by apply bool_decide_eq_true in H.
  - destruct (arg_of "Option" ty) eqn:E; [|done]. by eapply arg_of_name.
  - by eapply res_has_ty_name.
  - apply bool_decide_eq_true in H as [t Ht]. by eapply arg_of_name.
Qed.

Context {env_ok : TaskEnvOk}.

(** Canonical forms: the constructor of a typed value follows from the name
    of its type. *)
Lemma canonical x ty n :
  has_ty x ty = true -> type_name ty = Some n -> n ∈ builtin_types ->
  match x with
  | VCommon _ => n = "ClientTaskCommon"%string
  | VStr _ => n = "String"%string
  | VInt _ | VData _ => False
  | VOpt _ => n = "Option"%string
  | VRes _ => n = "Result"%string
  | VSender => n = "MTx"%string
  end.
Proof.
  intros Hx%has_ty_name Hn Hb. destruct x; try congruence.
  - by apply (env_int_builtin ty n Hx Hn).
  - destruct (env_data_builtin _ _ Hx) as [_ Hnb]. by apply (Hnb n Hn).
Qed.

Lemma canonical_int x ty : has_ty x ty = true -> env_int_ty ty = true -> exists n, x = VInt n.
Proof.
  intros Hx%has_ty_name Hi. destruct x; eauto; exfalso;
    try (eapply (env_int_builtin ty); [done..|]; unfold builtin_types; set_solver).
  destruct (env_data_builtin _ _ Hx) as [? _]. congruence.
Qed.

(** *** Reading and assigning a field *)

Definition declares (fields : list syn_field) (f : ident * SynType) : Prop :=
  exists x, x ∈ fields /\ f = (f_ident x, f_ty x).


Lemma tagged_declares fields role f :
  last (tagged role (role_list fields)) = Some f -> declares fields f.
Proof.
  intros Hl%last_Some_elem_of. unfold tagged in Hl.
  apply list_elem_of_fmap in Hl as ([role' f'] & -> & Hin). cbn.
  apply list_elem_of_In, List.filter_In in Hin as [Hin _].
  unfold role_list in Hin. apply List.in_concat in Hin as (l & Hl & Hf).
  apply list_elem_of_In, list_elem_of_fmap in Hl as (x & -> & Hx).
  apply list_elem_of_In, list_elem_of_fmap in Hf as (r & [= -> ->] & _). by exists x.
Qed.

Lemma struct_lookup fields v f : struct_typed fields v -> declares fields f ->
  exists x, v !! fst f = Some x /\ has_ty x (snd f) = true.
Proof. intros Hv (x & Hx & ->). unfold struct_typed in Hv. rewrite Forall_forall in Hv. by apply Hv. Qed.

Lemma NoDup_fmap_eq {A B} (g : A -> B) l x y : NoDup (g <$> l) -> x ∈ l -> y ∈ l -> g x = g y -> x = y.
Proof.
  induction l as [|a l IH]; [by intros _ ?%elem_of_nil|]. cbn. intros [Ha Hn]%NoDup_cons Hx Hy E.
  apply elem_of_cons in Hx as [->|Hx]; apply elem_of_cons in Hy as [->|Hy]; auto;
    destruct Ha; [rewrite E|rewrite <-E]; by apply list_elem_of_fmap_2.
Qed.

Lemma struct_val_eq v n x : (<[n := x]> v : struct_val M Er) !! n = Some x.
Proof. apply (lookup_insert_eq (M := gmap String.string)). Qed.

Lemma struct_val_ne v n m x : n <> m -> (<[n := x]> v : struct_val M Er) !! m = v !! m.
Proof. apply (lookup_insert_ne (M := gmap String.string)). Qed.

Lemma struct_insert fields v f x :
  NoDup (f_ident <$> fields) -> struct_typed fields v -> declares fields f ->
  has_ty x (snd f) = true -> struct_typed fields (<[fst f := x]> v).
Proof.
  intros Hnd Hv (d & Hd & ->) Hx. cbn in *. unfold struct_typed in *.
  rewrite Forall_forall in *. intros e He. destruct (decide (f_ident e = f_ident d)) as [E|E].
  - assert (e = d) as -> by (by eapply (NoDup_fmap_eq f_ident)). exists x. by rewrite struct_val_eq.
  - rewrite struct_val_ne by done. by apply Hv.
Qed.

(** *** The generated impls, one group at a time *)

Section sound.
Context (attr : list nested_meta) (fields : list syn_field) (g : client_task_code) (v : struct_val M Er).
Context (Hg : expands attr fields g) (Hnd : NoDup (f_ident <$> fields)).
Context (Hrc : rustc_accepts g) (Hv : struct_typed fields v).

Lemma check_option_arg ty : check_option_inner_type ty = true -> is_Some (arg_of "Option" ty).
Proof.
  destruct ty as [[] [] [|[n [|[|[] []]|]] []]| | |]; try done. cbn. intros ->%bool_decide_eq_true.
  unfold arg_of, angle_args. cbn. eauto.
Qed.

Lemma sound_common : (exists seq, gen_seq g v = Some seq) /\
  forall seq, struct_typed fields (gen_set_seq g v seq).
Proof using All.
  destruct Hrc as [Hc _]. pose proof (tagged_declares _ _ _ (ex_common _ _ _ Hg)) as Hd.
  split.
  - destruct (struct_lookup _ _ _ Hv Hd) as (x & Hx & Ht). unfold gen_seq. rewrite Hx.
    pose proof (canonical _ _ _ Ht Hc ltac:(unfold builtin_types; set_solver)) as Hcan.
    destruct x; try done. eauto.
  - intros seq. apply struct_insert; try done. cbn. by apply bool_decide_eq_true.
Qed.

Lemma sound_encode : (forall buf, is_Some (gen_encode_req g v buf)) /\ is_Some (gen_get_req_blob g v).
Proof using Hg Hv.
  pose proof (ex_req _ _ _ Hg) as Hq. pose proof (ex_req_blob _ _ _ Hg) as Hb. split.
  - intros buf. apply fmap_Some in Hq as ([n ty] & Hl & E). cbn in E. unfold gen_encode_req. rewrite E.
    destruct (struct_lookup _ _ _ Hv (tagged_declares _ _ _ Hl)) as (x & Hx & _). cbn in Hx.
    rewrite Hx. cbn. eauto.
  - unfold gen_get_req_blob. rewrite Hb. destruct (last (tagged "req_blob" (role_list fields))) as [[n ty]|] eqn:Hl; cbn; [|eauto].
    destruct (struct_lookup _ _ _ Hv (tagged_declares _ _ _ Hl)) as (x & Hx & _). cbn in Hx.
    rewrite Hx. cbn. eauto.
Qed.

Lemma sound_decode b : exists r, gen_decode_resp g v b = Some r /\
  forall v', r = Ok v' -> struct_typed fields v'.
Proof using All.
  unfold gen_decode_resp. destruct (check_option_arg _ (ex_resp_option _ _ _ Hg)) as [t Ht]. rewrite Ht. cbn.
  destruct (env_decode t b) as [x|e] eqn:E; (eexists; split; [done|]); intros v' [= <-].
  apply struct_insert; try done.
  - apply (tagged_declares _ _ _ (ex_resp _ _ _ Hg)).
  - cbn. rewrite Ht. by eapply env_decode_typed.
Qed.

Lemma sound_blob :
  (forall n, exists v' lent, gen_reserve_resp_blob g v n = Some (v', lent) /\ struct_typed fields v') /\
  (forall b, exists v', gen_fill_resp_blob g v b = Some v' /\ struct_typed fields v').
Proof using All.
  unfold gen_reserve_resp_blob, gen_fill_resp_blob. rewrite (ex_resp_blob _ _ _ Hg).
  destruct (last (tagged "resp_blob" (role_list fields))) as [[n ty]|] eqn:Hl;
    [|split; [intros n; by exists v, None|intros b; by exists v]].
  pose proof (tagged_declares _ _ _ Hl) as Hd.
  destruct (struct_lookup _ _ _ Hv Hd) as (x & Hx & Ht). cbn in Hx, Ht. rewrite Hx. cbn. split.
  - intros k. destruct (env_reserve x k) as [x' lent] eqn:E. do 2 eexists. split; [done|].
    apply (struct_insert fields v (n, ty)); try done. by eapply env_reserve_typed.
  - intros b. eexists. split; [done|]. apply (struct_insert fields v (n, ty)); try done.
    by apply env_fill_typed.
Qed.

Lemma sound_action a : ct_action g = Some a -> is_Some (gen_get_action a v).
Proof using All.
  intros Ha. destruct Hrc as [_ Hint]. rewrite Ha in Hint. pose proof (ex_action _ _ _ Hg) as Hac.
  rewrite Ha in Hac. unfold client_action_impl, roles_of in Hac. cbv zeta in Hac. cbn [field_action] in Hac.
  destruct (last (tagged "action" (role_list fields))) as [f|] eqn:Hf; inv_exp; simplify_eq.
  - destruct (struct_lookup _ _ _ Hv (tagged_declares _ _ _ Hf)) as (x & Hx & Ht).
    unfold field_action_code in *. destruct (snd f) as [q lead segs| | |] eqn:Ef; try done.
    destruct (last segs) as [seg|] eqn:Es; [|done]. simplify_eq. case_decide as Hs; cbn; rewrite Hx.
    + assert (type_name (TyPath q lead segs) = Some "String"%string) as Hn
        by (unfold type_name; cbn; rewrite Es; cbn; by f_equal).
      pose proof (canonical _ _ _ Ht Hn ltac:(unfold builtin_types; set_solver)) as Hcan.
      by destruct x.
    + destruct (canonical_int _ _ Ht Hint) as [n ->]. eauto.
  - destruct (last (static_actions attr)) as [s|]; [|done]. inv_exp. simplify_eq.
    unfold static_action_code in *. destruct s as [[]|[]]; inv_exp; simplify_eq; cbn; eauto.
Qed.

Lemma done_declares d : ct_done g = Some d ->
  declares fields (dn_res d) /\ is_res_type (snd (dn_res d)) (dn_error d) /\
  declares fields (dn_noti d) /\ is_noti_type (snd (dn_noti d)) (dn_queue d).
Proof using Hg.
  intros Hd. pose proof (ex_done _ _ _ Hg) as Hdo. rewrite Hd in Hdo. unfold client_done_impl, roles_of in Hdo.
  cbv zeta in Hdo. cbn [res_field noti_field] in Hdo.
  destruct (last (tagged "res" (role_list fields))) as [res|] eqn:Hr; [|done].
  destruct (last (tagged "noti" (role_list fields))) as [noti|] eqn:Hn; [|done]. inv_exp. simplify_eq. cbn.
  rewrite res_error_type_spec in *. rewrite noti_inner_type_spec in *.
  repeat split; try done; by eapply tagged_declares.
Qed.

Lemma res_typed d r : ct_done g = Some d ->
  (forall e, r = Err (User e) -> env_err_ty e (dn_error d) = true) ->
  struct_typed fields (gen_set_res d v r).
Proof using All.
  intros Hd Hr. destruct (done_declares d Hd) as (Hdec & (rt & ety & Ho & (s & Hs & Ha) & He) & _).
  apply struct_insert; try done. cbn. rewrite Ho. cbn. unfold res_has_ty. rewrite Hs, Ha, He.
  destruct r as [|[e|]]; try done. by apply Hr.
Qed.

Lemma custom_error_typed d res e : custom_error d res = User e -> env_err_ty e (dn_error d) = true.
Proof using env_ok.
  unfold custom_error. destruct res; try done; destruct (env_err_decode _ _) eqn:E; try done;
    intros [= ->]; by eapply env_err_typed.
Qed.

Lemma sound_done d : ct_done g = Some d ->
  is_Some (gen_get_result d v) /\
  (forall res i c, struct_typed fields (gen_set_custom_error d v res i c)) /\
  (forall e, struct_typed fields (gen_set_rpc_error d v e)) /\
  struct_typed fields (gen_set_ok d v) /\
  exists o, gen_done d v = Some o /\ forall v', o = Some v' -> struct_typed fields v'.
Proof using All.
  intros Hd. destruct (done_declares d Hd) as (Hres & (rt & ety & Ho & (s & Hs & Ha) & He) & Hn & (m & Hm & Hq)).
  assert (Hb : "Option"%string ∈ builtin_types) by (unfold builtin_types; set_solver).
  repeat split.
  - destruct (struct_lookup _ _ _ Hv Hres) as (x & Hx & Ht). unfold gen_get_result. rewrite Hx.
    pose proof (canonical _ _ _ Ht (arg_of_name _ _ _ Ho) Hb) as Hcan.
    destruct x as [| | | |[y|]| |]; try done. cbn in Ht. rewrite Ho in Ht.
    pose proof (canonical y rt "Result"%string Ht) as Hy. unfold type_name in Hy. rewrite Hs in Hy.
    assert (seg_ident s = "Result"%string) as Hseg by (unfold angle_args in Ha; by case_decide).
    cbn in Hy. rewrite Hseg in Hy. specialize (Hy eq_refl ltac:(unfold builtin_types; set_solver)).
    by destruct y.
  - intros res i c. apply res_typed; [done|]. intros e [= H]. by eapply custom_error_typed.
  - intros e. by apply res_typed.
  - by apply res_typed.
  - destruct (struct_lookup _ _ _ Hv Hn) as (x & Hx & Ht). unfold gen_done. rewrite Hx.
    pose proof (canonical _ _ _ Ht (arg_of_name _ _ _ Hm) Hb) as Hcan.
    destruct x as [| | | |[y|]| |]; try done; [|by eexists].
    cbn in Ht. rewrite Hm in Ht. pose proof (canonical y m "MTx"%string Ht (arg_of_name _ _ _ Hq)
      ltac:(unfold builtin_types; set_solver)) as Hy.
    destruct y; try done. eexists. split; [done|]. intros v' [= <-].
    apply struct_insert; try done. cbn. by rewrite Hm.
Qed.

End sound.

(** C20. The code generated by the client_task macro is well typed:
    what the macro checks of the annotated types is enough for every generated
    method to run on a value of the struct without a field used at a wrong
    type, and to give a value of the struct back. *)
Theorem client_task_type_sound attr input fields g v :
  client_task_impl attr input = Expand g -> d_data input = DStruct fields ->
  NoDup (f_ident <$> fields) -> rustc_accepts g -> struct_typed fields v ->
  ((exists seq, gen_seq g v = Some seq) /\ forall seq, struct_typed fields (gen_set_seq g v seq)) /\
  ((forall buf, is_Some (gen_encode_req g v buf)) /\ is_Some (gen_get_req_blob g v)) /\
  (forall b, exists r, gen_decode_resp g v b = Some r /\ forall v', r = Ok v' -> struct_typed fields v') /\
  ((forall n, exists v' lent, gen_reserve_resp_blob g v n = Some (v', lent) /\ struct_typed fields v') /\
   (forall b, exists v', gen_fill_resp_blob g v b = Some v' /\ struct_typed fields v')) /\
  (forall a, ct_action g = Some a -> is_Some (gen_get_action a v)) /\
  (forall d, ct_done g = Some d ->
    is_Some (gen_get_result d v) /\
    (forall res i c, struct_typed fields (gen_set_custom_error d v res i c)) /\
    (forall e, struct_typed fields (gen_set_rpc_error d v e)) /\
    struct_typed fields (gen_set_ok d v) /\
    exists o, gen_done d v = Some o /\ forall v', o = Some v' -> struct_typed fields v').
Proof using env_ok.
  intros (fields' & Hf & Hg)%client_task_impl_spec Hd Hnd Hrc Hv. rewrite Hd in Hf. injection Hf as <-.
  split; [by eapply sound_common|]. split; [by eapply sound_encode|].
  split; [by eapply sound_decode|]. split; [by eapply sound_blob|].
  split; [by eapply sound_action|by eapply sound_done].
Qed.
End typing.

(** ** The generated task as a [ClientTask]

    The impls the macro leaves to the user ([ClientTaskAction] without an
    action, [ClientTaskDone] without [res] and [noti]) are parameters. The
    defaults stand for ill-typed accesses, which cannot happen. *)
Section instance.
Context {M Er : Type} `{!TaskEnv M Er}.
Local Abbreviation sval := (struct_val M Er).

Record user_impls : Type := UserImpls {
  ui_get_action : sval -> RpcAction;
  ui_set_custom_error : sval -> EncodedErr -> Z -> Z -> sval;
  ui_set_rpc_error : sval -> RpcIntErr -> sval;
  ui_set_ok : sval -> sval;
}.

Context (g : client_task_code) (user : user_impls).

Definition task_get_action (v : sval) : RpcAction :=
  match ct_action g with
  | Some a => default (ANum 0) (gen_get_action a v)
  | None => ui_get_action user v
  end.

Definition task_set_custom_error (v : sval) (res : EncodedErr) (last_index conf_ver : Z) : sval :=
  match ct_done g with
  | Some d => gen_set_custom_error d v res last_index conf_ver
  | None => ui_set_custom_error user v res last_index conf_ver
  end.

Definition task_set_rpc_error (v : sval) (e : RpcIntErr) : sval :=
  match ct_done g with
  | Some d => gen_set_rpc_error d v e
  | None => ui_set_rpc_error user v e
  end.

Definition task_set_ok (v : sval) : sval :=
  match ct_done g with Some d => gen_set_ok d v | None => ui_set_ok user v end.

Definition generated_task : ClientTask sval := {|
  task_seq v := default 0 (gen_seq g v);
  set_seq := gen_set_seq g;
  get_action := task_get_action;
  encode_req v buf := default (buf, Err tt) (gen_encode_req g v buf);
  get_req_blob v := default None (gen_get_req_blob g v);
  decode_resp v b := default (Err tt) (gen_decode_resp g v b);
  reserve_resp_blob v n := default (v, None) (gen_reserve_resp_blob g v n);
  fill_resp_blob v b := default v (gen_fill_resp_blob g v b);
  set_custom_error := task_set_custom_error;
  set_rpc_error := task_set_rpc_error;
  set_ok := task_set_ok;
|}.

Context {env_ok : TaskEnvOk}.

(** Assigning [res] leaves the common field alone. *)
Lemma set_res_seq attr fields d (v : sval) r :
  expands attr fields g -> NoDup (f_ident <$> fields) -> rustc_accepts g -> ct_done g = Some d ->
  gen_seq g (gen_set_res d v r) = gen_seq g v.
Proof using Type.
  intros Hg Hnd [Hc _] Hd. unfold gen_seq, gen_set_res.
  destruct (done_declares _ _ _ Hg d Hd) as ((x & Hx & Ex) & (rt & ety & Ho & _) & _).
  destruct (tagged_declares _ _ _ (ex_common _ _ _ Hg)) as (y & Hy & Ey).
  rewrite struct_val_ne; [done|]. rewrite Ex, Ey. cbn. intros E.
  assert (x = y) as -> by (by eapply (NoDup_fmap_eq f_ident)).
  rewrite Ex in Ho. rewrite Ey in Hc. cbn in *. apply arg_of_name in Ho. congruence.
Qed.

Lemma get_result_set d (v : sval) r : gen_get_result d (gen_set_res d v r) = Some r.
Proof. unfold gen_get_result, gen_set_res. by rewrite struct_val_eq. Qed.

(** The request of a typed task is the encoding of its [req] field. *)
Lemma generated_encodes attr fields (v : sval) msg :
  expands attr fields g -> struct_typed fields v ->
  (forall req buf, v !! ct_req g = Some req -> env_encode_into req buf = (buf ++ msg, Ok (zlen msg))) ->
  @encodes_to sval generated_task v msg.
Proof using Type.
  intros Hg Hv He buf. cbn. unfold gen_encode_req.
  pose proof (ex_req _ _ _ Hg) as ([n ty] & Hl & E)%fmap_Some. cbn in E.
  destruct (struct_lookup _ _ _ Hv (tagged_declares _ _ _ Hl)) as (x & Hx & _). cbn in Hx.
  rewrite <-E in Hx. rewrite Hx. cbn. by rewrite (He x buf Hx).
Qed.

(** C26. The generated task keeps the contract the client layers rely
    on: it has the sequence number given last, whatever outcome is recorded
    after it; the request it sends is what the codec makes of the [req] field;
    and [get_result] gives the outcome recorded last, success, the internal
    error, or the decoded error of the server, and [Internal] before any. *)
Theorem generated_task_contract attr input fields d :
  client_task_impl attr input = Expand g -> d_data input = DStruct fields ->
  NoDup (f_ident <$> fields) -> rustc_accepts g -> ct_done g = Some d ->
  @ClientTaskOk sval generated_task /\
  (forall v msg, struct_typed fields v ->
    (forall req buf, v !! ct_req g = Some req -> env_encode_into req buf = (buf ++ msg, Ok (zlen msg))) ->
    @encodes_to sval generated_task v msg) /\
  (forall v, gen_get_result d (@set_ok _ generated_task v) = Some (Ok tt)) /\
  (forall v e, gen_get_result d (@set_rpc_error _ generated_task v e) = Some (Err (Rpc e))) /\
  (forall v x i c, gen_get_result d (@set_custom_error _ generated_task v x i c) =
     Some (Err (custom_error d x))) /\
  (forall v : sval, v !! fst (dn_res d) = Some (VOpt None) -> gen_get_result d v = Some (Err (Rpc Internal))).
Proof using env_ok.
  intros (fields' & Hf & Hg)%client_task_impl_spec Hi Hnd Hrc Hd. rewrite Hi in Hf. injection Hf as <-.
  split; [split|split].
  - intros v s. cbn. unfold gen_seq, gen_set_seq. by rewrite struct_val_eq.
  - intros v e. cbn. unfold task_set_rpc_error. rewrite Hd. unfold gen_set_rpc_error.
    by rewrite (set_res_seq attr fields).
  - intros v msg Hv He. by eapply generated_encodes.
  - cbn. unfold task_set_ok, task_set_rpc_error, task_set_custom_error. rewrite Hd.
    split; [intros; apply get_result_set|]. split; [intros; apply get_result_set|].
    split; [intros; apply get_result_set|]. intros v Hv. unfold gen_get_result. by rewrite Hv.
Qed.

End instance.
Arguments user_impls : clear implicits.

(** ** Concrete instances: [FileReadTask] of the macro's documentation *)
Module ClientGenWitness.

Definition role (r : ident) : SynAttr :=
  Attr (ident_path "field") (Some (MList (ident_path "field") [NMeta (MPath (ident_path r))])).
Definition ty_res : SynType :=
  ty_app "Option" [ty_app "Result" [TyTuple []; ty_app "RpcError" [ty_named "Errno"]]].
Definition ty_noti : SynType := ty_app "Option" [ty_app "MTx" [ty_app "List" [ty_named "Self"]]].
Definition file_fields : list syn_field := [
  Field "common" (ty_named "ClientTaskCommon") [role "common"];
  Field "req" (ty_named "FileReadReq") [role "req"];
  Field "resp" (ty_app "Option" [ty_named "FileReadResp"]) [role "resp"];
  Field "res" ty_res [role "res"];
  Field "noti" ty_noti [role "noti"]].
Definition file_task : DeriveInput := Derive "FileReadTask" (DStruct file_fields).
Definition file_args : list nested_meta := [NLit (LitInt 1); NMeta (MPath (ident_path "debug"))].
Definition file_code : client_task_code := ClientCode
  ((fun f => Field (f_ident f) (f_ty f) []) <$> file_fields) true
  ("common"%string, ty_named "ClientTaskCommon") "req" ("resp"%string, ty_app "Option" [ty_named "FileReadResp"])
  None None (Some (ActNum 1))
  (Some (DoneCode ("res"%string, ty_res) (ty_named "Errno") ("noti"%string, ty_noti)
    (ty_app "List" [ty_named "Self"]))).

Example file_task_expands : client_task_impl file_args file_task = Expand file_code.
Proof. vm_compute. reflexivity. Qed.

(** Messages are byte strings, encoded as they are; errors are [u8] codes. *)
Definition data_ty (ty : SynType) : bool :=
  match type_name ty with
  | Some n => bool_decide (n ∈ ["FileReadReq"; "FileReadResp"]%string)
  | None => false
  end.

#[global] Instance file_env : TaskEnv bytes (rint U8) := {|
  env_encode_into x buf := match x with VData m => (buf ++ m, Ok (zlen m)) | _ => (buf, Err tt) end;
  env_decode ty b := if data_ty ty then Ok (VData b) else Err tt;
  env_as_ref x := match x with VData m => m | _ => [] end;
  env_reserve x _ := (x, None);
  env_fill x _ := x;
  env_err_decode E r := if bool_decide (type_name E = Some "Errno"%string) then num_decode r else Err tt;
  env_path_i32 _ := 0;
  env_data_ty _ := data_ty;
  env_int_ty ty := bool_decide (type_name ty = Some "i32"%string);
  env_err_ty _ E := bool_decide (type_name E = Some "Errno"%string);
|}.

#[global] Instance file_env_ok : @TaskEnvOk bytes (rint U8) file_env.
Proof.
  split; cbn; unfold data_ty.
  - intros m ty H. destruct (type_name ty) as [n|]; [|done]. apply bool_decide_eq_true in H.
    split; [apply bool_decide_eq_false; intros [= ->]; set_solver|].
    intros n' [= <-]. unfold builtin_types. set_solver.
  - intros ty n ->%bool_decide_eq_true [= <-]. unfold builtin_types. set_solver.
  - intros ty b x H. unfold data_ty in H. destruct (type_name ty) eqn:E; [|done].
    case_bool_decide as Hn; [|done]. injection H as <-. cbn. unfold data_ty. rewrite E.
    by apply bool_decide_eq_true.
  - by intros x n x' lent ty [= <- <-].
  - done.
  - intros E b e H. by case_bool_decide.
Qed.

Definition file_value : struct_val bytes (rint U8) :=
  <["common"%string := VCommon 0]> (<["req"%string := VData (str_bytes "/tmp/f")]>
  (<["resp"%string := VOpt None]> (<["res"%string := VOpt None]>
  (<["noti"%string := VOpt (Some VSender)]> ∅)))).

Lemma file_value_typed : struct_typed file_fields file_value.
Proof.
  repeat (apply Forall_cons; split; [eexists; split; vm_compute; reflexivity|]). apply Forall_nil. done.
Qed.

Lemma client_task_type_sound_witness :
  exists r, gen_decode_resp file_code file_value (str_bytes "42") = Some r /\
    forall v', r = Ok v' -> struct_typed file_fields v'.
Proof.
  destruct (client_task_type_sound file_args file_task file_fields file_code file_value)
    as (_ & _ & Hd & _).
  - exact file_task_expands.
  - reflexivity.
  - apply (bool_decide_unpack _). vm_compute. exact I.
  - split; vm_compute; reflexivity.
  - exact file_value_typed.
  - exact (Hd (str_bytes "42")).
Defined.

Definition no_user : user_impls bytes (rint U8) :=
  UserImpls (fun _ => ANum 0) (fun v _ _ _ => v) (fun v _ => v) (fun v => v).

Definition file_done : done_code :=
  DoneCode ("res"%string, ty_res) (ty_named "Errno") ("noti"%string, ty_noti) (ty_app "List" [ty_named "Self"]).

Lemma generated_task_contract_witness :
  gen_get_result file_done (@set_custom_error _ (generated_task file_code no_user) file_value (ENum 5) 0 0)
    = Some (Err (User (RInt 5))).
Proof.
  destruct (generated_task_contract file_code no_user file_args file_task file_fields file_done)
    as (_ & _ & _ & _ & Hc & _).
  - exact file_task_expands.
  - reflexivity.
  - apply (bool_decide_unpack _). vm_compute. exact I.
  - split; vm_compute; reflexivity.
  - reflexivity.
  - exact (Hc file_value (ENum 5) 0 0).
Defined.

End ClientGenWitness.
