(* ===== verification/ClientEnumMacro.v ===== *)
(** * The client_task_enum macro (stream/macros/src/client_task_enum.rs)

    The macro reads an enum whose variants hold client tasks and writes the
    impls that delegate to them. A value of the enum is a variant with the task
    it holds; the generated [match]es are on the variant. The printed form of a
    type ([quote!{#ty}.to_string()]) is a parameter. *)
From Stdlib Require Import ZArith Lia Strings.String.
From stdpp Require Import base list gmap strings.
From S2P Require Import Prelude Errors Task MacroSyntax.
Local Open Scope Z_scope.
Local Open Scope rpc_scope.

(** ** The macro *)

(** What [get_action_attribute] returns, as a [Meta]: a literal under the name
    [action], or the path of an enum value. *)
Inductive client_action : Type :=
| CALit (l : SynLit)
| CAPath (p : SynPath).

Fixpoint client_action_attribute (attrs : list SynAttr) : expansion (option client_action) :=
  match attrs with
  | [] => Expand None
  | attr :: rest =>
    if is_ident "action" (attr_path attr) then
      match meta_list attr with
      | Some (NLit lit :: more) =>
        let! _ := panic_if (negb (bool_decide (more = []))) in Expand (Some (CALit lit))
      | Some (NMeta (MPath path) :: _) => Expand (Some (CAPath path))
      | _ => client_action_attribute rest
      end
    else client_action_attribute rest
  end.

(** The parser of [#[client_task_enum(error = ..)]]; tokens left over are an
    error of [parse_macro_input]. *)
Definition client_enum_attr (parse_type : type_parser) (toks : list token)
    : expansion (option SynType) :=
  let! (error_ty, rest) :=
    match toks with
    | TkIdent id :: rest =>
      if decide (id = "error"%string) then
        let! (ty, rest) := parse_eq_type parse_type rest in Expand (Some ty, rest)
      else Expand (None, rest)
    | _ => Expand (None, toks)
    end in
  match rest with [] => Expand error_ty | _ => SyntaxError end.

(** An arm of the generated [get_action]. *)
Inductive action_arm : Type :=
| ArmNum (n : Z)
| ArmStr (s : String.string)
| ArmPath (p : SynPath)
| ArmInner.

Definition client_action_arm (a : option client_action) : expansion action_arm :=
  match a with
  | Some (CALit (LitInt n)) => Expand (ArmNum n)
  | Some (CALit (LitStr s)) => Expand (ArmStr s)
  | Some (CALit LitOther) => MacroPanic
  | Some (CAPath p) => Expand (ArmPath p)
  | None => Expand ArmInner
  end.

(** One variant of the expansion: [From<ce_inner>], and its arms. *)
Record client_enum_variant : Type := CEnumVariant {
  ce_variant : ident;
  ce_inner : SynType;
  ce_action : action_arm;
  ce_attrs : list SynAttr;
}.

Record client_enum_code : Type := CEnumCode {
  ce_name : ident;
  ce_error : SynType;
  ce_variants : list client_enum_variant;
}.

Section macro.
Context (parse_type : type_parser) (type_string : SynType -> String.string).

(** [for variant in variants.iter_mut()]. *)
Fixpoint client_enum_variants (variants : list syn_variant) (counts : type_counts)
    : expansion (list client_enum_variant) :=
  match variants with
  | [] => Expand []
  | v :: rest =>
    let! ty := single_field v in
    let counts := count_type (type_string ty) counts in
    let! _ := panic_if (1 <? default 0%nat (counts !! type_string ty))%nat in
    let! action := client_action_attribute (v_attrs v) in
    let! arm := client_action_arm action in
    let! rest := client_enum_variants rest counts in
    Expand (CEnumVariant (v_ident v) ty arm (strip_attrs "action" (v_attrs v)) :: rest)
  end.

Definition client_task_enum_impl (attr : list token) (input : DeriveInput)
    : expansion client_enum_code :=
  let! error_ty := client_enum_attr parse_type attr in
  let! error_type := expect error_ty in
  match d_data input with
  | DEnum variants =>
    let! vs := client_enum_variants variants ∅ in
    Expand (CEnumCode (d_ident input) error_type vs)
  | _ => MacroPanic
  end.

End macro.

(** ** The generated impls *)
Section values.
(** The task type of each variant, and the value of [p as i32]. *)
Context {Inner : ident -> Type} {inner_task : forall v, ClientTask (Inner v)}.
Context (path_i32 : SynPath -> Z) (code : client_enum_code).

Definition enum_task : Type := { v : ident & Inner v }.

(** [impl From<inner>]. *)
Definition enum_from (v : ident) (task : Inner v) : enum_task := existT v task.

(** The arms of a [match self]: the first of the variant's name. *)
Fixpoint variant_arm (vs : list client_enum_variant) (v : ident) : option action_arm :=
  match vs with
  | [] => None
  | x :: vs => if decide (ce_variant x = v) then Some (ce_action x) else variant_arm vs v
  end.

Definition enum_get_action (t : enum_task) : RpcAction :=
  let 'existT v inner := t in
  match variant_arm (ce_variants code) v with
  | Some (ArmNum n) => ANum n
  | Some (ArmStr s) => AStr (str_bytes s)
  | Some (ArmPath p) => ANum (path_i32 p)
  | Some ArmInner | None => get_action inner
  end.

(** Every other method calls the same method of the task inside; the value
    stays in its variant. *)
Definition enum_seq (t : enum_task) : Z := let 'existT v inner := t in task_seq inner.

Definition enum_set_seq (t : enum_task) (s : Z) : enum_task :=
  let 'existT v inner := t in existT v (set_seq inner s).

Definition enum_encode_req (t : enum_task) (buf : bytes) : bytes * result Z unit :=
  let 'existT v inner := t in encode_req inner buf.

Definition enum_get_req_blob (t : enum_task) : option bytes :=
  let 'existT v inner := t in get_req_blob inner.

Definition enum_decode_resp (t : enum_task) (buffer : bytes) : result enum_task unit :=
  let 'existT v inner := t in
  match decode_resp inner buffer with Ok inner => Ok (existT v inner) | Err e => Err e end.

Definition enum_reserve_resp_blob (t : enum_task) (size : Z) : enum_task * option Z :=
  let 'existT v inner := t in
  let '(inner, lent) := reserve_resp_blob inner size in (existT v inner, lent).

Definition enum_fill_resp_blob (t : enum_task) (blob : bytes) : enum_task :=
  let 'existT v inner := t in existT v (fill_resp_blob inner blob).

Definition enum_set_custom_error (t : enum_task) (res : EncodedErr) (last_index conf_ver : Z) : enum_task :=
  let 'existT v inner := t in existT v (set_custom_error inner res last_index conf_ver).

Definition enum_set_rpc_error (t : enum_task) (e : RpcIntErr) : enum_task :=
  let 'existT v inner := t in existT v (set_rpc_error inner e).

Definition enum_set_ok (t : enum_task) : enum_task :=
  let 'existT v inner := t in existT v (set_ok inner).

Definition client_enum_task : ClientTask enum_task := {|
  task_seq := enum_seq;
  set_seq := enum_set_seq;
  get_action := enum_get_action;
  encode_req := enum_encode_req;
  get_req_blob := enum_get_req_blob;
  decode_resp := enum_decode_resp;
  reserve_resp_blob := enum_reserve_resp_blob;
  fill_resp_blob := enum_fill_resp_blob;
  set_custom_error := enum_set_custom_error;
  set_rpc_error := enum_set_rpc_error;
  set_ok := enum_set_ok;
|}.

(** The enum is a client task as good as its variants. *)
Lemma client_enum_task_ok :
  (forall v, ClientTaskOk (Inner v)) -> @ClientTaskOk enum_task client_enum_task.
Proof.
  intros H. split; intros [v t]; cbn; [apply task_seq_set_seq|apply task_seq_set_rpc_error].
Qed.

Lemma client_enum_encodes v (t : Inner v) msg :
  encodes_to t msg -> @encodes_to enum_task client_enum_task (existT v t) msg.
Proof. intros H buf. cbn. apply H. Qed.

End values.

(** ** What the macro accepts *)

Section accepts.
Context (parse_type : type_parser) (type_string : SynType -> String.string).

(** The first [#[action(..)]] whose first argument is a literal or a path. *)
Definition action_arg (a : SynAttr) : option (nested_meta * list nested_meta) :=
  if is_ident "action" (attr_path a) then
    match meta_list a with
    | Some (NLit l :: more) => Some (NLit l, more)
    | Some (NMeta (MPath p) :: more) => Some (NMeta (MPath p), more)
    | _ => None
    end
  else None.

Definition client_arm_of (attrs : list SynAttr) : option action_arm :=
  match omap action_arg attrs with
  | [] => Some ArmInner
  | (NLit (LitInt n), []) :: _ => Some (ArmNum n)
  | (NLit (LitStr s), []) :: _ => Some (ArmStr s)
  | (NMeta (MPath p), _) :: _ => Some (ArmPath p)
  | _ => None
  end.

Lemma client_arm_of_spec attrs arm :
  (let! action := client_action_attribute attrs in client_action_arm action) = Expand arm <->
  client_arm_of attrs = Some arm.
Proof.
  unfold client_arm_of. induction attrs as [|a attrs IH]; [cbn; naive_solver|].
  cbn [client_action_attribute omap list_omap]. unfold action_arg at 1.
  destruct (is_ident "action" (attr_path a)); [|apply IH].
  destruct (meta_list a) as [[|[[p|p l|p l]|l] more]|]; try apply IH; cbn; [naive_solver|].
  destruct more; cbn; destruct l; cbn; naive_solver.
Qed.

(** The variants of the expansion, and what makes them legal. *)
Definition variant_expands (v : syn_variant) (x : client_enum_variant) : Prop :=
  ce_variant x = v_ident v /\ variant_type v = Some (ce_inner x) /\
  client_arm_of (v_attrs v) = Some (ce_action x) /\ ce_attrs x = strip_attrs "action" (v_attrs v).

Lemma client_enum_variants_spec vs counts xs :
  client_enum_variants type_string vs counts = Expand xs <->
  Forall2 variant_expands vs xs /\ NoDup (type_string ∘ ce_inner <$> xs) /\
  Forall (fun x => default 0%nat (counts !! type_string (ce_inner x)) = 0%nat) xs.
Proof.
  revert counts xs. induction vs as [|v vs IH]; intros counts xs; cbn [client_enum_variants].
  { split; [intros [= <-]; repeat constructor|].
    intros (H & _). by apply Forall2_nil_inv_l in H as ->. }
  split.
  - intros H. apply exp_bind_Expand in H as (ty & Hty%single_field_spec & H). cbv zeta in H.
    apply exp_bind_Expand in H as ([] & Hc%panic_if_Expand & H). rewrite count_type_eq in Hc.
    apply Nat.ltb_ge in Hc. cbn in Hc.
    apply exp_bind_Expand in H as (a & Ha & H). apply exp_bind_Expand in H as (arm & Harm & H).
    apply exp_bind_Expand in H as (rest & Hrest%IH & [= <-]). destruct Hrest as (Hf & Hn & H0).
    split; [|split].
    + constructor; [|done]. split; [done|]. split; [done|]. split; [|done].
      apply client_arm_of_spec. by rewrite Ha.
    + cbn. constructor; [|done]. rewrite list_elem_of_fmap. intros (x & E & Hx).
      rewrite Forall_forall in H0. specialize (H0 x Hx). cbn in E. rewrite <-E, count_type_eq in H0. done.
    + constructor; [cbn; lia|]. rewrite Forall_forall in *. intros x Hx. specialize (H0 x Hx).
      destruct (decide (type_string ty = type_string (ce_inner x))) as [E|E].
      * by rewrite <-E, count_type_eq in H0.
      * by rewrite count_type_ne in H0.
  - intros (Hf & Hn & H0). apply Forall2_cons_inv_l in Hf as (x & xs' & (E1 & E2 & E3 & E4) & Hf & ->).
    apply Forall_cons in H0 as [Hx H0]. cbn in Hn. apply NoDup_cons in Hn as [Hni Hn].
    rewrite (proj2 (single_field_spec _ _) E2). cbn [exp_bind]. cbv zeta. rewrite count_type_eq, Hx. cbn.
    apply client_arm_of_spec, exp_bind_Expand in E3 as (a & -> & E3). cbn. rewrite E3. cbn.
    rewrite (proj2 (IH (count_type (type_string (ce_inner x)) counts) xs')).
    + cbn. destruct x. cbn in *. by subst.
    + split; [done|]. split; [done|]. rewrite Forall_forall in *. intros y Hy. specialize (H0 y Hy).
      rewrite count_type_ne; [done|]. intros E. apply Hni, list_elem_of_fmap. by exists y.
Qed.

Lemma client_enum_attr_spec attr E :
  client_enum_attr parse_type attr = Expand (Some E) <->
  exists toks, attr = TkIdent "error" :: TkEq :: toks /\ parse_type toks = Some (E, []).
Proof.
  unfold client_enum_attr. split.
  - intros H. apply exp_bind_Expand in H as ([ty rest] & H & Hr). destruct rest; [|done].
    destruct attr as [|[id| | |] toks]; try (injection H as <-; done). case_decide as Hid; [|naive_solver].
    subst id. apply exp_bind_Expand in H as ([ty' rest] & H & [= <- <-]). injection Hr as <-.
    destruct toks as [|[] toks]; try done. cbn in H. exists toks. split; [done|].
    by destruct (parse_type toks); simplify_eq.
  - intros (toks & -> & Hp). cbn. by rewrite Hp.
Qed.

(** The client_task_enum macro accepts exactly the enums with an
    [error = <Type>] argument whose variants are tuples of one task each, of
    pairwise different types (so that the [From] impls do not overlap), and
    whose [#[action]]s are of a supported form; each variant then gets the
    action of its first usable attribute, and without one the action of the
    task inside. Of several paths in one attribute the first is taken. *)
Theorem client_enum_accepts_iff attr input code :
  client_task_enum_impl parse_type type_string attr input = Expand code <->
  exists variants toks, d_data input = DEnum variants /\ ce_name code = d_ident input /\
    attr = TkIdent "error" :: TkEq :: toks /\ parse_type toks = Some (ce_error code, []) /\
    Forall2 variant_expands variants (ce_variants code) /\
    NoDup (type_string ∘ ce_inner <$> ce_variants code).
Proof.
  unfold client_task_enum_impl. split.
  - intros H. apply exp_bind_Expand in H as (o & Ho & H). apply exp_bind_Expand in H as (E & He & H).
    apply expect_Expand in He as ->. apply client_enum_attr_spec in Ho as (toks & -> & Hp).
    destruct (d_data input) as [|vs|]; try done.
    apply exp_bind_Expand in H as (xs & (Hf & Hn & _)%client_enum_variants_spec & [= <-]).
    exists vs, toks. done.
  - intros (vs & toks & Hd & Hnm & Ha & Hp & Hf & Hn). rewrite Hd.
    rewrite (proj2 (client_enum_attr_spec attr (ce_error code))) by eauto. cbn.
    rewrite (proj2 (client_enum_variants_spec vs ∅ (ce_variants code))); [cbn; destruct code; cbn in *; by subst|].
    split; [done|]. split; [done|]. apply Forall_forall. intros x _. done.
Qed.

End accepts.

(** The arm of a variant of the enum. *)
Lemma variant_arm_in vs x :
  NoDup (ce_variant <$> vs) -> x ∈ vs -> variant_arm vs (ce_variant x) = Some (ce_action x).
Proof.
  induction vs as [|y vs IH]; [by intros _ ?%elem_of_nil|]. cbn. intros [Hy Hn]%NoDup_cons Hx.
  apply elem_of_cons in Hx as [->|Hx]; [by rewrite decide_True|].
  rewrite decide_False; [by apply IH|]. intros E. apply Hy. rewrite E. by apply list_elem_of_fmap_2.
Qed.

(** ** A concrete instance: [FileTask] of the macro's documentation *)
Module ClientEnumWitness.

Definition action (args : list nested_meta) : SynAttr :=
  Attr (ident_path "action") (Some (MList (ident_path "action") args)).
Definition path2 (a b : ident) : SynPath := MkPath false [Seg a ArgsNone; Seg b ArgsNone].
Definition type1 : type_parser := fun toks =>
  match toks with TkIdent id :: rest => Some (ty_named id, rest) | _ => None end.
Definition type_str (ty : SynType) : String.string := default ""%string (seg_ident <$> type_last_segment ty).
Definition file_enum : DeriveInput := Derive "FileTask" (DEnum [
  Variant "Open" (Some [ty_named "FileOpenTask"]) [action [NMeta (MPath (path2 "FileAction" "Open"))]];
  Variant "Close" (Some [ty_named "FileCloseTask"]) []]).
Definition file_code : client_enum_code := CEnumCode "FileTask" (ty_named "Errno") [
  CEnumVariant "Open" (ty_named "FileOpenTask") (ArmPath (path2 "FileAction" "Open")) [];
  CEnumVariant "Close" (ty_named "FileCloseTask") ArmInner []].

Example client_file_expands : client_task_enum_impl type1 type_str
  [TkIdent "error"; TkEq; TkIdent "Errno"] file_enum = Expand file_code.
Proof. vm_compute. reflexivity. Qed.

(** Two variants of one type are refused. *)
Example duplicate_refused : client_task_enum_impl type1 type_str
  [TkIdent "error"; TkEq; TkIdent "Errno"] (Derive "T" (DEnum [
    Variant "A" (Some [ty_named "TaskA"]) []; Variant "B" (Some [ty_named "TaskA"]) []])) = MacroPanic.
Proof. vm_compute. reflexivity. Qed.

End ClientEnumWitness.
