(* ===== verification/ServerMacro.v ===== *)
(** * The server_task_enum macro (stream/macros/src/server_task_enum.rs)

    The macro reads an enum whose variants hold server tasks and writes the
    decoder that routes a request to a variant by its action, and the impls
    that delegate to the task inside. *)
From Stdlib Require Import ZArith Lia Strings.String.
From stdpp Require Import base list gmap strings.
From S2P Require Import Prelude Errors Task ServerTask MacroSyntax.
Local Open Scope Z_scope.
Local Open Scope rpc_scope.

(** ** The arguments *)

Record server_enum_attrs : Type := SrvAttrs {
  sa_req : bool;
  sa_resp : bool;
  sa_resp_type : option SynType;
  sa_error : SynType;
}.

(** The variables of [ServerTaskEnumAttrs::parse]. *)
Record attrs_state : Type := AttrsSt {
  as_req : bool;
  as_resp : bool;
  as_resp_type : option SynType;
  as_error : option SynType;
}.

(** The arm of an action: a literal pattern, or a guard on an enum value. *)
Inductive action_pat : Type :=
| PStr (s : String.string)
| PNum (n : Z)
| PPath (p : SynPath).

Record server_enum_variant : Type := SEnumVariant {
  se_variant : ident;
  se_inner : SynType;
  se_actions : list action_pat;
  se_attrs : list SynAttr;
}.

Record server_enum_code : Type := SEnumCode {
  se_name : ident;
  se_error : SynType;
  se_resp_type : SynType;
  se_has_req : bool;
  se_has_resp : bool;
  se_variants : list server_enum_variant;
}.

(** [get_action_attribute]: the arguments of the first [#[action(..)]] that
    has any. *)
Fixpoint server_actions (attrs : list SynAttr) : list nested_meta :=
  match attrs with
  | [] => []
  | attr :: rest =>
    if is_ident "action" (attr_path attr) then
      match meta_list attr with
      | Some (a :: more) => a :: more
      | _ => server_actions rest
      end
    else server_actions rest
  end.

Definition server_action_pat (a : nested_meta) : expansion action_pat :=
  match a with
  | NLit (LitStr s) => Expand (PStr s)
  | NLit (LitInt i) => let! n := expect (base10_parse_i32 i) in Expand (PNum n)
  | NMeta (MPath p) => Expand (PPath p)
  | _ => MacroPanic
  end.

Fixpoint server_action_pats (l : list nested_meta) : expansion (list action_pat) :=
  match l with
  | [] => Expand []
  | a :: l => let! p := server_action_pat a in let! ps := server_action_pats l in Expand (p :: ps)
  end.

Section macro.
Context (parse_type : type_parser) (type_string : SynType -> String.string).

(** [while !input.is_empty()]; every turn takes a token or more. *)
Fixpoint server_attrs_loop (fuel : nat) (toks : list token) (st : attrs_state)
    : expansion attrs_state :=
  match fuel, toks with
  | _, [] => Expand st
  | O, _ => SyntaxError
  | S fuel, TkIdent id :: toks =>
    if decide (id = "req"%string) then
      server_attrs_loop fuel toks (AttrsSt true (as_resp st) (as_resp_type st) (as_error st))
    else if decide (id = "resp"%string) then
      server_attrs_loop fuel toks (AttrsSt (as_req st) true (as_resp_type st) (as_error st))
    else if decide (id = "resp_type"%string) then
      let! (ty, toks) := parse_eq_type parse_type toks in
      server_attrs_loop fuel toks (AttrsSt (as_req st) (as_resp st) (Some ty) (as_error st))
    else if decide (id = "error"%string) then
      let! (ty, toks) := parse_eq_type parse_type toks in
      server_attrs_loop fuel toks (AttrsSt (as_req st) (as_resp st) (as_resp_type st) (Some ty))
    else SyntaxError
  | S fuel, TkComma :: toks => server_attrs_loop fuel toks st
  | S _, _ :: _ => SyntaxError
  end.

(** [impl Parse for ServerTaskEnumAttrs]. *)
Definition server_attrs_parse (toks : list token) : expansion server_enum_attrs :=
  let! st := server_attrs_loop (length toks) toks (AttrsSt false false None None) in
  match as_error st with
  | Some error => Expand (SrvAttrs (as_req st) (as_resp st) (as_resp_type st) error)
  | None => SyntaxError
  end.

(** The first loop: every variant is a tuple of one field, and the printed
    types are counted. *)
Fixpoint server_count_types (variants : list syn_variant) (counts : type_counts)
    : expansion type_counts :=
  match variants with
  | [] => Expand counts
  | v :: rest =>
    let! ty := single_field v in
    server_count_types rest (count_type (type_string ty) counts)
  end.

(** The second loop. *)
Fixpoint server_enum_variants (has_req : bool) (counts : type_counts) (variants : list syn_variant)
    : expansion (list server_enum_variant) :=
  match variants with
  | [] => Expand []
  | v :: rest =>
    let! ty := single_field v in
    let! (actions, attrs) :=
      if has_req then
        let! actions := server_action_pats (server_actions (v_attrs v)) in
        let! _ := panic_if (bool_decide (actions = [])) in
        Expand (actions, strip_attrs "action" (v_attrs v))
      else Expand ([], v_attrs v) in
    let! _ := panic_if (1 <? default 0%nat (counts !! type_string ty))%nat in
    let! rest := server_enum_variants has_req counts rest in
    Expand (SEnumVariant (v_ident v) ty actions attrs :: rest)
  end.

Definition server_task_enum_impl (attrs : list token) (input : DeriveInput)
    : expansion server_enum_code :=
  match d_data input with
  | DEnum variants =>
    let! counts := server_count_types variants ∅ in
    let! a := server_attrs_parse attrs in
    let! resp_type :=
      if sa_resp a then
        let! _ := panic_if (bool_decide (is_Some (sa_resp_type a))) in
        Expand (ty_named (d_ident input))
      else expect (sa_resp_type a) in
    let! vs := server_enum_variants (sa_req a) counts variants in
    Expand (SEnumCode (d_ident input) (sa_error a) resp_type (sa_req a) (sa_resp a) vs)
  | _ => MacroPanic
  end.

End macro.

(** ** The traits of server tasks (stream/src/server/task.rs) *)

Class ServerTaskDecode (T : Type) : Type := {
  svr_decode_req : RpcAction -> Z -> bytes -> option bytes -> result T unit;
}.

Class ServerTaskAction (T : Type) : Type := {
  svr_get_action : T -> RpcAction;
}.

(** [_set_result] gives up the task's [noti]: a second call panics. *)
Class ServerTaskDone (T E : Type) : Type := {
  svr_set_result_raw : result unit E -> T -> may T;
}.

(** ** The generated impls *)
Section values.
Context {Inner : ident -> Type} {E : Type}.
Context {inner_decode : forall v, ServerTaskDecode (Inner v)}.
Context {inner_action : forall v, ServerTaskAction (Inner v)}.
Context {inner_encode : forall v, ServerTaskEncode (Inner v)}.
Context {inner_done : forall v, ServerTaskDone (Inner v) E}.
Context (path_i32 : SynPath -> Z) (code : server_enum_code).

Definition server_enum : Type := { v : ident & Inner v }.

Definition server_enum_from (v : ident) (task : Inner v) : server_enum := existT v task.

Definition pat_matches (p : action_pat) (action : RpcAction) : bool :=
  match p, action with
  | PStr s, AStr a => bool_decide (str_bytes s = a)
  | PNum n, ANum val => n =? val
  | PPath p, ANum val => val =? path_i32 p
  | _, _ => false
  end.

(** The arms of [match action], in the order they are generated. *)
Definition decode_arms : list (action_pat * ident) :=
  concat ((fun v => (fun p => (p, se_variant v)) <$> se_actions v) <$> se_variants code).

Fixpoint match_action (arms : list (action_pat * ident)) (action : RpcAction) : option ident :=
  match arms with
  | [] => None
  | (p, v) :: arms => if pat_matches p action then Some v else match_action arms action
  end.

(** [impl ServerTaskDecode]. *)
Definition server_enum_decode_req (action : RpcAction) (seq : Z) (req : bytes) (blob : option bytes)
    : result server_enum unit :=
  match match_action decode_arms action with
  | Some v =>
    match svr_decode_req (T := Inner v) action seq req blob with
    | Ok task => Ok (existT v task)
    | Err e => Err e
    end
  | None => Err tt
  end.

Definition pat_action (p : action_pat) : RpcAction :=
  match p with
  | PStr s => AStr (str_bytes s)
  | PNum n => ANum n
  | PPath p => ANum (path_i32 p)
  end.

(** [impl ServerTaskAction]: the action of a variant with one, else that of
    the task inside. *)
Fixpoint action_arms (vs : list server_enum_variant) (v : ident) : option (list action_pat) :=
  match vs with
  | [] => None
  | x :: vs => if decide (se_variant x = v) then Some (se_actions x) else action_arms vs v
  end.

Definition server_enum_get_action (t : server_enum) : RpcAction :=
  let 'existT v inner := t in
  match action_arms (se_variants code) v with
  | Some [p] => pat_action p
  | _ => svr_get_action inner
  end.

(** [impl ServerTaskEncode] and [impl ServerTaskDone]. *)
Definition server_enum_encode_resp (t : server_enum) (buf : bytes)
    : may (bytes * (Z * result (Z * option bytes) EncodedErr)) :=
  let 'existT v task := t in encode_resp task buf.

Definition server_enum_set_result_raw (res : result unit E) (t : server_enum) : may server_enum :=
  let 'existT v task := t in
  let? task := svr_set_result_raw res task in Ret (existT v task).

#[global] Instance server_enum_task : ServerTaskEncode server_enum := {|
  encode_resp := server_enum_encode_resp;
|}.

Lemma server_enum_outcome v (t : Inner v) seq o :
  resp_outcome t seq o -> resp_outcome (existT v t : server_enum) seq o.
Proof. destruct o as [[msg blob]|e]; intros H buf; cbn; apply H. Qed.

End values.

(** ** What the macro accepts *)
Section accepts.
Context (parse_type : type_parser) (type_string : SynType -> String.string).

Definition action_pat_of (a : nested_meta) : option action_pat :=
  match a with
  | NLit (LitStr s) => Some (PStr s)
  | NLit (LitInt i) => PNum <$> base10_parse_i32 i
  | NMeta (MPath p) => Some (PPath p)
  | _ => None
  end.

Lemma server_action_pats_spec l ps :
  server_action_pats l = Expand ps <-> Forall2 (fun a p => action_pat_of a = Some p) l ps.
Proof.
  assert (H1 : forall a p, server_action_pat a = Expand p <-> action_pat_of a = Some p).
  { intros [[]|[]] pat; cbn; try naive_solver. unfold base10_parse_i32. case_match; cbn; naive_solver. }
  revert ps. induction l as [|a l IH]; intros ps; cbn.
  - split; [intros [= <-]; constructor|]. by intros ->%Forall2_nil_inv_l.
  - split.
    + intros (p & Hp%H1 & (q & Hq%IH & [= <-])%exp_bind_Expand)%exp_bind_Expand. by constructor.
    + intros (p & q & Hp%H1 & Hq%IH & ->)%Forall2_cons_inv_l. rewrite Hp. cbn. by rewrite Hq.
Qed.

(** A variant of the expansion. *)
Definition server_variant_expands (has_req : bool) (v : syn_variant) (x : server_enum_variant) : Prop :=
  se_variant x = v_ident v /\ variant_type v = Some (se_inner x) /\
  if has_req
  then Forall2 (fun a p => action_pat_of a = Some p) (server_actions (v_attrs v)) (se_actions x) /\
       se_actions x <> [] /\ se_attrs x = strip_attrs "action" (v_attrs v)
  else se_actions x = [] /\ se_attrs x = v_attrs v.

Lemma server_count_types_spec vs counts c :
  server_count_types type_string vs counts = Expand c <->
  exists tys, Forall2 (fun v ty => variant_type v = Some ty) vs tys /\
    c = foldl (fun m n => count_type n m) counts (type_string <$> tys).
Proof.
  revert counts. induction vs as [|v vs IH]; intros counts; cbn.
  - split; [intros [= <-]; exists []; by split|]. by intros (tys & ->%Forall2_nil_inv_l & ->).
  - split.
    + intros (ty & Hty%single_field_spec & (tys & Hf & ->)%IH)%exp_bind_Expand.
      exists (ty :: tys). split; [by constructor|done].
    + intros (tys & (ty & tys' & Hty%single_field_spec & Hf & ->)%Forall2_cons_inv_l & ->).
      rewrite Hty. cbn. apply IH. by exists tys'.
Qed.

Lemma server_variant_step (has_req : bool) v actions attrs :
  (if has_req then
     let! actions := server_action_pats (server_actions (v_attrs v)) in
     let! _ := panic_if (bool_decide (actions = [])) in
     Expand (actions, strip_attrs "action" (v_attrs v))
   else Expand ([], v_attrs v)) = Expand (actions, attrs) <->
  if has_req
  then Forall2 (fun a p => action_pat_of a = Some p) (server_actions (v_attrs v)) actions /\
       actions <> [] /\ attrs = strip_attrs "action" (v_attrs v)
  else actions = [] /\ attrs = v_attrs v.
Proof.
  destruct has_req; [|naive_solver]. rewrite <-server_action_pats_spec. split.
  - intros (ps & Hp & ([] & Hn%panic_if_Expand & [= <- <-])%exp_bind_Expand)%exp_bind_Expand.
    by apply bool_decide_eq_false in Hn.
  - intros (-> & Hn & ->). cbn. by rewrite bool_decide_false.
Qed.

Lemma server_enum_variants_spec has_req counts vs xs :
  server_enum_variants type_string has_req counts vs = Expand xs <->
  Forall2 (server_variant_expands has_req) vs xs /\
  Forall (fun x => (default 0%nat (counts !! type_string (se_inner x)) <= 1)%nat) xs.
Proof.
  revert xs. induction vs as [|v vs IH]; intros xs; cbn [server_enum_variants].
  { split; [intros [= <-]; repeat constructor|]. by intros (->%Forall2_nil_inv_l & _). }
  split.
  - intros H. apply exp_bind_Expand in H as (ty & Hty%single_field_spec & H).
    apply exp_bind_Expand in H as ([actions attrs] & Ha%server_variant_step & H).
    apply exp_bind_Expand in H as ([] & Hc%panic_if_Expand%Nat.ltb_ge & H).
    apply exp_bind_Expand in H as (rest & [Hf H0]%IH & [= <-]).
    split; [constructor; [by split|done]|by constructor].
  - intros [(x & xs' & (E1 & E2 & E3) & Hf & ->)%Forall2_cons_inv_l [Hx H0]%Forall_cons].
    rewrite (proj2 (single_field_spec _ _) E2). cbn [exp_bind].
    rewrite (proj2 (server_variant_step has_req v (se_actions x) (se_attrs x)) E3). cbn [exp_bind].
    rewrite (proj2 (Nat.ltb_ge _ _) Hx). cbn [panic_if exp_bind].
    rewrite (proj2 (IH xs')) by done. cbn. destruct x. cbn in *. by subst.
Qed.

(** The types of the variants are those of the expansion. *)
Lemma expands_types b vs xs tys :
  Forall2 (server_variant_expands b) vs xs ->
  Forall2 (fun v ty => variant_type v = Some ty) vs tys -> tys = se_inner <$> xs.
Proof.
  intros H. revert tys. induction H as [|v x vs xs (_ & E & _) _ IH]; intros tys Ht.
  - by apply Forall2_nil_inv_l in Ht as ->.
  - apply Forall2_cons_inv_l in Ht as (ty & tys' & Hty & Ht & ->). cbn. rewrite (IH tys') by done. congruence.
Qed.

(** The counts are all one exactly when the printed types are distinct. *)
Lemma counted_once l :
  NoDup l <-> Forall (fun k =>
    (default 0%nat (foldl (fun m n => count_type n m) ∅ l !! k) <= 1)%nat) l.
Proof.
  rewrite filter_eq_NoDup, Forall_forall. split; intros H k Hk; specialize (H k Hk);
    rewrite count_type_spec in *; change (default 0%nat ((∅ : type_counts) !! k)) with 0%nat in *.
  - by rewrite H.
  - pose proof (filter_eq_In l k Hk). lia.
Qed.

End accepts.

(** ** Routing *)
Section routing.
Context {Inner : ident -> Type} {inner_decode : forall v, ServerTaskDecode (Inner v)}.
Context {inner_action : forall v, ServerTaskAction (Inner v)}.
Context (path_i32 : SynPath -> Z) (code : server_enum_code).

(** [#[action(..)]] of a variant lists the action. *)
Definition lists_action (action : RpcAction) (x : server_enum_variant) : bool :=
  existsb (fun p => pat_matches path_i32 p action) (se_actions x).

Lemma match_action_first arms action :
  match_action path_i32 arms action = snd <$> List.find (fun a => pat_matches path_i32 (fst a) action) arms.
Proof. induction arms as [|[p v] arms IH]; [done|]. cbn. by destruct (pat_matches path_i32 p action). Qed.

(** The flat list of arms decides like the variants in order. *)
Lemma match_action_variants action :
  match_action path_i32 (decode_arms code) action =
    se_variant <$> List.find (lists_action action) (se_variants code).
Proof.
  unfold decode_arms. induction (se_variants code) as [|x vs IH]; [done|]. cbn [fmap list_fmap concat List.find].
  unfold lists_action at 1. induction (se_actions x) as [|p ps IHp]; [exact IH|]. cbn.
  by destruct (pat_matches path_i32 p action).
Qed.

Lemma pat_matches_action p action : pat_matches path_i32 p action = true -> pat_action path_i32 p = action.
Proof.
  destruct p, action; cbn; try done.
  - by intros ->%bool_decide_eq_true.
  - by intros ->%Z.eqb_eq.
  - by intros ->%Z.eqb_eq.
Qed.

Lemma action_arms_in vs x :
  NoDup (se_variant <$> vs) -> x ∈ vs -> action_arms vs (se_variant x) = Some (se_actions x).
Proof.
  induction vs as [|y vs IH]; [by intros _ ?%elem_of_nil|]. cbn. intros [Hy Hn]%NoDup_cons Hx.
  apply elem_of_cons in Hx as [->|Hx]; [by rewrite decide_True|].
  rewrite decide_False; [by apply IH|]. intros E. apply Hy. rewrite E. by apply list_elem_of_fmap_2.
Qed.

(** C23. A request is decoded as the first variant that lists its action,
    with the task of that variant, and is refused when no variant does; and the
    decoded task reports the action it was decoded for, whether its variant
    lists one action or several (when the task inside keeps its action). *)
Theorem server_enum_routes action seq req blob :
  NoDup (se_variant <$> se_variants code) ->
  (forall v t, svr_decode_req (T := Inner v) action seq req blob = Ok t -> svr_get_action t = action) ->
  match List.find (lists_action action) (se_variants code) with
  | Some x =>
    (forall t, svr_decode_req (T := Inner (se_variant x)) action seq req blob = Ok t ->
      server_enum_decode_req path_i32 code action seq req blob = Ok (existT (se_variant x) t) /\
      server_enum_get_action path_i32 code (existT (se_variant x) t) = action) /\
    (svr_decode_req (T := Inner (se_variant x)) action seq req blob = Err tt ->
      server_enum_decode_req (Inner := Inner) path_i32 code action seq req blob = Err tt)
  | None => server_enum_decode_req (Inner := Inner) path_i32 code action seq req blob = Err tt
  end.
Proof.
  intros Hnd Hact. unfold server_enum_decode_req. rewrite match_action_variants.
  destruct (List.find _ _) as [x|] eqn:Hf; [|done]. cbn. apply List.find_some in Hf as [Hx Hl].
  apply list_elem_of_In in Hx. split; [|by intros ->]. intros t Ht. rewrite Ht. split; [done|].
  cbn. rewrite (action_arms_in _ _ Hnd Hx). specialize (Hact _ _ Ht). unfold lists_action in Hl.
  destruct (se_actions x) as [|p [|]]; [done| |done]. cbn in Hl. rewrite orb_false_r in Hl.
  by apply pat_matches_action.
Qed.
End routing.

(** ** Printing and parsing the arguments *)
Section print.
Context (parse_type : type_parser) (print_type : SynType -> list token).

(** An argument of [#[server_task_enum(..)]]. *)
Inductive attr_item : Type :=
| IReq
| IResp
| IRespType (ty : SynType)
| IError (ty : SynType).

Definition item_tokens (i : attr_item) : list token :=
  match i with
  | IReq => [TkIdent "req"]
  | IResp => [TkIdent "resp"]
  | IRespType ty => TkIdent "resp_type" :: TkEq :: print_type ty
  | IError ty => TkIdent "error" :: TkEq :: print_type ty
  end.

(** The arguments separated by commas, one or more; the last may do without. *)
Fixpoint print_items (items : list (attr_item * nat)) : list token :=
  match items with
  | [] => []
  | [(i, n)] => item_tokens i ++ replicate n TkComma
  | (i, n) :: items => item_tokens i ++ replicate (S n) TkComma ++ print_items items
  end.

Definition add_item (st : attrs_state) (i : attr_item) : attrs_state :=
  match i with
  | IReq => AttrsSt true (as_resp st) (as_resp_type st) (as_error st)
  | IResp => AttrsSt (as_req st) true (as_resp_type st) (as_error st)
  | IRespType ty => AttrsSt (as_req st) (as_resp st) (Some ty) (as_error st)
  | IError ty => AttrsSt (as_req st) (as_resp st) (as_resp_type st) (Some ty)
  end.

(** The last [error] and [resp_type] count. *)
Definition item_error (i : attr_item) : option SynType :=
  match i with IError ty => Some ty | _ => None end.
Definition item_resp_type (i : attr_item) : option SynType :=
  match i with IRespType ty => Some ty | _ => None end.

(** [syn] reads a printed type back up to a comma or the end. *)
Definition stops (rest : list token) : Prop := rest = [] \/ exists r, rest = TkComma :: r.
Definition readable (i : attr_item) : Prop :=
  match i with
  | IRespType ty | IError ty =>
    forall rest, stops rest -> parse_type (print_type ty ++ rest) = Some (ty, rest)
  | _ => True
  end.

Lemma loop_commas fuel n toks st :
  (n <= fuel)%nat ->
  server_attrs_loop parse_type fuel (replicate n TkComma ++ toks) st =
    server_attrs_loop parse_type (fuel - n) toks st.
Proof.
  revert fuel. induction n as [|n IH]; intros fuel H; [by rewrite Nat.sub_0_r|].
  destruct fuel; [lia|]. cbn. apply IH. lia.
Qed.

Lemma loop_item fuel i toks st :
  readable i -> stops toks ->
  server_attrs_loop parse_type (S fuel) (item_tokens i ++ toks) st =
    server_attrs_loop parse_type fuel toks (add_item st i).
Proof. intros Hp H. destruct i; cbn in *; try done; by rewrite Hp. Qed.

Lemma loop_end fuel st : server_attrs_loop parse_type fuel [] st = Expand st.
Proof. by destruct fuel. Qed.

Lemma stops_commas n toks : stops toks -> stops (replicate n TkComma ++ toks).
Proof. intros H. destruct n; [done|]. right. cbn. eauto. Qed.

(** One argument with the commas behind it. *)
Lemma loop_item_commas fuel i n toks st :
  readable i -> stops (replicate n TkComma ++ toks) -> (n < fuel)%nat ->
  server_attrs_loop parse_type fuel (item_tokens i ++ replicate n TkComma ++ toks) st =
    server_attrs_loop parse_type (fuel - S n) toks (add_item st i).
Proof.
  intros Hp Hs Hf. destruct fuel as [|fuel]; [lia|]. rewrite loop_item by done. by rewrite loop_commas by lia.
Qed.

Lemma item_tokens_length i : (1 <= length (item_tokens i))%nat.
Proof. destruct i; cbn; lia. Qed.

Lemma loop_items items fuel st :
  Forall (fun x => readable (fst x)) items -> (length (print_items items) <= fuel)%nat ->
  server_attrs_loop parse_type fuel (print_items items) st = Expand (foldl add_item st (fst <$> items)).
Proof.
  intros Hr. revert fuel st. induction Hr as [|[i n] items Hi Hr IH]; intros fuel st H; [by apply loop_end|].
  pose proof (item_tokens_length i). destruct items as [|x items].
  - cbn [print_items] in *. rewrite length_app, length_replicate in H.
    rewrite <-(app_nil_r (replicate n TkComma)), loop_item_commas; [by rewrite loop_end|done| |lia].
    apply stops_commas. by left.
  - change (print_items ((i, n) :: x :: items)) with
      (item_tokens i ++ replicate (S n) TkComma ++ print_items (x :: items)) in *.
    rewrite !length_app, length_replicate in H.
    rewrite loop_item_commas; [|done|right; cbn; eauto|lia]. rewrite IH by lia. done.
Qed.

Lemma last_default_cons {A} (x : A) l d :
  match last l with Some t => Some t | None => Some x end =
  match last (x :: l) with Some t => Some t | None => d end.
Proof.
  destruct l as [|y l]; [done|]. rewrite last_cons_cons.
  destruct (last (y :: l)) eqn:E; [done|]. by apply last_None in E.
Qed.

Lemma foldl_add_item items st :
  let st' := foldl add_item st items in
  as_req st' = as_req st || existsb (fun i => match i with IReq => true | _ => false end) items /\
  as_resp st' = as_resp st || existsb (fun i => match i with IResp => true | _ => false end) items /\
  as_resp_type st' = match last (omap item_resp_type items) with Some t => Some t | None => as_resp_type st end /\
  as_error st' = match last (omap item_error items) with Some t => Some t | None => as_error st end.
Proof.
  revert st. induction items as [|i items IH]; intros st; cbn.
  { by rewrite !orb_false_r. }
  destruct (IH (add_item st i)) as (-> & -> & -> & ->). cbn in *.
  destruct i; cbn; rewrite ?orb_true_r; try done; (split; [done|]; split; [done|]).
  - split; [apply last_default_cons|done].
  - split; [done|apply last_default_cons].
Qed.

(** The arguments of server_task_enum are read back from any sequence
    in which they are written, separated by one comma or more, with or without
    one at the end: [req] and [resp]
    are set when present, the last [resp_type] and the last [error] count, and
    only a missing [error] is a syntax error. *)
Theorem server_attrs_roundtrip items :
  Forall (fun x => readable (fst x)) items ->
  server_attrs_parse parse_type (print_items items) =
    match last (omap item_error (fst <$> items)) with
    | Some E => Expand (SrvAttrs
        (existsb (fun i => match i with IReq => true | _ => false end) (fst <$> items))
        (existsb (fun i => match i with IResp => true | _ => false end) (fst <$> items))
        (last (omap item_resp_type (fst <$> items))) E)
    | None => SyntaxError
    end.
Proof.
  intros Hr. unfold server_attrs_parse. rewrite loop_items by done. cbn [exp_bind].
  destruct (foldl_add_item (fst <$> items) (AttrsSt false false None None)) as (-> & -> & -> & ->). cbn.
  destruct (last (omap item_error (fst <$> items))); [|done].
  by destruct (last (omap item_resp_type (fst <$> items))).
Qed.
End print.

(** ** A concrete instance: [FileTask] of the macro's documentation *)
Module ServerMacroWitness.

Definition action (args : list nested_meta) : SynAttr :=
  Attr (ident_path "action") (Some (MList (ident_path "action") args)).
Definition file_action (n : ident) : SynPath := MkPath false [Seg "FileAction" ArgsNone; Seg n ArgsNone].
Definition path_arg (n : ident) : nested_meta := NMeta (MPath (file_action n)).
Definition type1 : type_parser := fun toks =>
  match toks with TkIdent id :: rest => Some (ty_named id, rest) | _ => None end.
Definition type_str (ty : SynType) : String.string := default ""%string (seg_ident <$> type_last_segment ty).
Definition file_enum : DeriveInput := Derive "FileTask" (DEnum [
  Variant "Open" (Some [ty_named "FileOpenReq"]) [action [path_arg "Open"]];
  Variant "Read" (Some [ty_named "FileIOReq"]) [action [path_arg "Read"; path_arg "Write"; path_arg "Truncate"]]]).
Definition file_code : server_enum_code := SEnumCode "FileTask" (ty_named "Errno") (ty_named "FileTask") true true [
  SEnumVariant "Open" (ty_named "FileOpenReq") [PPath (file_action "Open")] [];
  SEnumVariant "Read" (ty_named "FileIOReq")
    [PPath (file_action "Read"); PPath (file_action "Write"); PPath (file_action "Truncate")] []].

Example server_file_expands : server_task_enum_impl type1 type_str
  [TkIdent "req"; TkComma; TkIdent "resp"; TkComma; TkIdent "error"; TkEq; TkIdent "Errno"] file_enum
  = Expand file_code.
Proof. vm_compute. reflexivity. Qed.

(** The discriminants of [FileAction]. *)
Definition file_i32 (p : SynPath) : Z :=
  match path_segs p with
  | [_; Seg n _] =>
    if decide (n = "Open"%string) then 1 else if decide (n = "Read"%string) then 2
    else if decide (n = "Write"%string) then 3 else 4
  | _ => 0
  end.

(** Each variant holds its request and the action it came with. *)
Definition inner (_ : ident) : Type := RpcAction * bytes.
Definition inner_decode (v : ident) : ServerTaskDecode (inner v) :=
  {| svr_decode_req a _ b _ := Ok (a, b) |}.
Definition inner_action (v : ident) : ServerTaskAction (inner v) := {| svr_get_action t := fst t |}.

Lemma server_enum_routes_witness :
  @server_enum_decode_req inner inner_decode file_i32 file_code (ANum 3) 9 (str_bytes "x") None =
    Ok (existT "Read"%string (ANum 3, str_bytes "x")).
Proof.
  pose proof (server_enum_routes (inner_decode := inner_decode) (inner_action := inner_action)
    file_i32 file_code (ANum 3) 9 (str_bytes "x") None) as H.
  assert (Hnd : NoDup (se_variant <$> se_variants file_code))
    by (apply (bool_decide_unpack _); vm_compute; exact I).
  assert (Ha : forall v t, svr_decode_req (ServerTaskDecode := inner_decode v) (ANum 3) 9 (str_bytes "x") None = Ok t ->
    @svr_get_action _ (inner_action v) t = ANum 3) by (intros v t [= <-]; reflexivity).
  destruct (H Hnd Ha) as [Hok _]. exact (proj1 (Hok (ANum 3, str_bytes "x") eq_refl)).
Defined.

Definition print1 (ty : SynType) : list token := [TkIdent (type_str ty)].

Lemma server_attrs_roundtrip_witness :
  server_attrs_parse type1 [TkIdent "error"; TkEq; TkIdent "Errno"; TkComma; TkComma; TkIdent "req"] =
    Expand (SrvAttrs true false None (ty_named "Errno")).
Proof.
  refine (server_attrs_roundtrip type1 print1 [(IError (ty_named "Errno"), 1%nat); (IReq, 0%nat)] _).
  constructor; [|constructor; [exact I|constructor]]. intros rest _. reflexivity.
Defined.

End ServerMacroWitness.
