(* ===== verification/MacroCall.v ===== *)
(** * A call between generated tasks

    The macros of both ends composed over the wire: a task of a
    [client_task_enum] whose variants are [client_task] structs is sent to a
    server whose tasks are a [server_task_enum] of [ServerTaskVariantFull], is
    routed by its action, answered by the user's handler, and brought back. *)
From Stdlib Require Import ZArith Lia Strings.String.
From stdpp Require Import base list gmap strings.
From S2P Require Import Prelude Errors Codec Task Proto BTree Timer Net TcpClient ServerTask TcpServer.
From S2P Require Import EndToEnd MacroSyntax ClientMacro ClientGen ClientEnumMacro ServerMacro.
Local Open Scope Z_scope.
Local Open Scope rpc_scope.

(** ** The predefined server tasks as variants of an enum *)
Section instances.
Context {Q P E : Type} `{!Codec Q} `{!Codec P} `{!RpcErrCodec E}.

#[global] Instance Full_decode_task : ServerTaskDecode (ServerTaskVariantFull Q P E) := {|
  svr_decode_req := Full_decode_req;
|}.
#[global] Instance Full_action_task : ServerTaskAction (ServerTaskVariantFull Q P E) := {|
  svr_get_action := Full_get_action;
|}.
#[global] Instance Full_done_task : ServerTaskDone (ServerTaskVariantFull Q P E) E := {|
  svr_set_result_raw := Full_set_result_raw;
|}.

Lemma Full_decode_ok (q : Q) action seq msg blob :
  codec_decode msg = Ok q ->
  svr_decode_req (T := ServerTaskVariantFull Q P E) action seq msg blob =
    Ok (SvrFull seq (RpcActionOwned_from action) q blob None None None true).
Proof. intros H. cbn. unfold Full_decode_req. by rewrite H. Qed.

Lemma Full_keeps_action action seq msg blob (t : ServerTaskVariantFull Q P E) :
  svr_decode_req action seq msg blob = Ok t -> svr_get_action t = action.
Proof.
  cbn. unfold Full_decode_req. destruct (codec_decode msg); [|done]. intros [= <-]. apply to_action_from.
Qed.
End instances.

Section call.
Context {S S' : Type} `{!AsyncStream S} `{!AsyncStreamOk S} `{!AsyncStream S'} `{!AsyncStreamOk S'}.
Context (buffer_alloc : Z -> bool).
Context (alloc_i32 : forall n, 0 < n <= I32_MAX -> buffer_alloc n = true).
Context {M E : Type} `{!TaskEnv M E} `{!RpcErrCodec E}.
Context (env_reserve_exact : forall (x x' : val M E) n m,
  0 < n -> env_reserve x n = (x', Some m) -> m = n).

(** The client's enum: a [client_task] struct per variant. *)
Context (path_i32 : SynPath -> Z) (ccode : client_enum_code).
Context (codes : ident -> client_task_code) (users : ident -> user_impls M E).

Local Abbreviation sval := (struct_val M E).
Definition client_inner (_ : ident) : Type := sval.
#[local] Instance client_inner_task (v : ident) : ClientTask (client_inner v) :=
  generated_task (codes v) (users v).
Local Abbreviation client_enum := (enum_task (Inner := client_inner)).
#[local] Instance client_task : ClientTask client_enum := client_enum_task path_i32 ccode.

(** The server's enum, the types of its variants, and the user's handler. *)
Context {Q P : ident -> Type} {q_codec : forall v, Codec (Q v)} {p_codec : forall v, Codec (P v)}.
Context {q_ok : forall v, CodecOk (Q v)} {p_ok : forall v, CodecOk (P v)}.
Context (scode : server_enum_code).
Definition server_inner (v : ident) : Type := ServerTaskVariantFull (Q v) (P v) E.
Local Abbreviation server_task := (server_enum (Inner := server_inner)).
Context (f : forall v, Q v -> option bytes -> result (P v) E).

(** The handler's answer: the response stored, then [_set_result]. *)
Definition server_reply (t : server_task) : may server_task :=
  let 'existT v task := t in
  match f v (sf_req task) (sf_req_blob task) with
  | Ok p =>
    server_enum_set_result_raw (Inner := server_inner) (Ok tt)
      (existT v (SvrFull (sf_seq task) (sf_action task) (sf_req task) (sf_req_blob task) (Some p)
        (sf_resp_blob task) (sf_res task) (sf_noti task)))
  | Err e => server_enum_set_result_raw (Inner := server_inner) (Err e) (existT v task)
  end.

(** What the response to a request [q] says. *)
Definition reply_outcome {v} (r : result (P v) E) : result (bytes * option bytes) EncodedErr :=
  match r with
  | Ok p => match codec_encode p with Ok b => Ok (b, None) | Err _ => Err (ERpc Encode) end
  | Err e => Err (err_encode e)
  end.

(** Which replies can travel: a response that encodes to a message, not empty,
    within the limits, that the client's type reads; an error the wire keeps
    apart from the internal ones, of the client's error type. *)
Definition reply_sendable (d : done_code) (resp_ty : SynType) {v} (r : result (P v) E) : Prop :=
  match r with
  | Ok p => exists b x, codec_encode p = Ok b /\ b <> [] /\ zlen b <= I32_MAX /\ env_decode resp_ty b = Ok x
  | Err e => err_transportable e /\ err_sendable (err_encode e) /\
    forall b, env_err_decode (dn_error d) b = err_decode b
  end.

(** What the user of the client sees of a reply. *)
Definition reply_seen (g : client_task_code) (d : done_code) (resp_ty : SynType) {v}
    (r : result (P v) E) (t : sval) : Prop :=
  match r with
  | Ok p => exists b x, codec_encode p = Ok b /\ env_decode resp_ty b = Ok x /\
    t !! fst (ct_resp g) = Some (VOpt (Some x)) /\ gen_get_result d t = Some (Ok tt)
  | Err e => gen_get_result d t = Some (Err (User e))
  end.

Lemma reply_fits d resp_ty v (r : result (P v) E) :
  reply_sendable d resp_ty r -> outcome_fits (reply_outcome r).
Proof.
  destruct r as [p|e]; cbn; [|tauto]. intros (b & x & -> & _ & Hl & _). cbn. pose proof (zlen_nonneg b). lia.
Qed.

Lemma server_reply_outcome d resp_ty v seq a q blob :
  reply_sendable d resp_ty (f v q blob) ->
  exists resp, server_reply (existT v (SvrFull seq a q blob None None None true)) = Ret resp /\
    resp_outcome resp seq (reply_outcome (f v q blob)).
Proof using p_ok.
  intros Hs. cbn. destruct (f v q blob) as [p|e]; cbn in *.
  - destruct Hs as (b & x & Hb & _). rewrite Hb. eexists. split; [done|].
    apply (server_enum_outcome (Inner := server_inner)).
    by apply (Full_outcome_ok (SvrFull seq a q blob (Some p) None (Some (Ok tt)) false) p).
  - eexists. split; [done|]. apply (server_enum_outcome (Inner := server_inner) _ _ seq (Err (err_encode e))).
    by apply (Full_outcome_err (SvrFull seq a q blob None None (Some (Err e)) false)).
Qed.

Lemma client_reserve_exact (t t' : client_enum) n m :
  0 < n -> reserve_resp_blob t n = (t', Some m) -> m = n.
Proof using env_reserve_exact.
  destruct t as [vc v]. intros Hn H. cbn in H. unfold gen_reserve_resp_blob in H.
  destruct (ct_resp_blob (codes vc)) as [[fl ty]|]; [|done].
  destruct ((v : sval) !! fl) as [x|]; [|done]. cbn in H.
  destruct (env_reserve x n) as [x' lent] eqn:Er. cbn in H. injection H as <- ->. by eapply env_reserve_exact.
Qed.

(** The task [t] of variant [vc] after the outcome of the reply. *)
Lemma client_outcome vc (t : sval) d resp_ty v (r : result (P v) E) :
  ct_done (codes vc) = Some d -> arg_of "Option" (snd (ct_resp (codes vc))) = Some resp_ty ->
  fst (ct_resp (codes vc)) <> fst (dn_res d) -> reply_sendable d resp_ty r ->
  exists t', outcome_event error_handle_default (reply_outcome r) (existT vc t : client_enum) =
      EvDone (existT vc t' : client_enum) /\
    reply_seen (codes vc) d resp_ty r t'.
Proof using Type.
  intros Hd Hty Hne Hs. destruct r as [p|e]; cbn [reply_outcome reply_sendable reply_seen] in *.
  - destruct Hs as (b & x & Hb & Hbn & _ & Hx). rewrite Hb. unfold outcome_event, finish_event.
    cbn [blob_size Z.ltb Z.compare]. rewrite bool_decide_eq_false_2 by done. cbn.
    unfold gen_decode_resp. rewrite Hty. cbn. rewrite Hx. cbn. unfold task_set_ok. rewrite Hd.
    eexists. split; [done|]. exists b, x. split; [done|]. split; [done|].
    split; [|apply get_result_set]. unfold gen_set_ok, gen_set_res.
    rewrite struct_val_ne by done. apply struct_val_eq.
  - destruct Hs as (Ht & _ & Hdec). unfold err_transportable in Ht. unfold outcome_event, error_handle_default.
    destruct (wire_err (err_encode e)) as [y|n|y|y]; try done; cbn; unfold task_set_custom_error; rewrite Hd;
      (eexists; split; [done|]); unfold gen_set_custom_error; rewrite get_result_set; cbn; rewrite Hdec.
    + destruct Ht as [Hn Ht]. by rewrite as_u32_small, Ht.
    + by rewrite Ht.
Qed.

(** The blob of a request as the server sees it: an empty one is not sent. *)
Definition blob_seen (t : client_enum) : option bytes :=
  if 0 <? blob_size (get_req_blob t) then get_req_blob t else None.

(** C9. A call between generated tasks gives the caller what the
    handler made of the request. The client sends the task of any variant of
    its [client_task_enum]; the server decodes it as the first variant of its
    [server_task_enum] that lists the task's action, with the request's value
    and action; the handler's reply goes back under the task's number, and the
    client's task then holds the response, decoded at the type of its [resp]
    field, with [get_result] successful, or the handler's own error. *)
Theorem stream_call_roundtrip vc (v : sval) attr input fields d resp_ty cid seq x (q : Q (se_variant x)) msg
    (c : TcpClient S) :
  let t : client_enum := existT vc v in
  client_task_impl attr input = Expand (codes vc) -> d_data input = DStruct fields ->
  struct_typed fields v -> ct_done (codes vc) = Some d ->
  arg_of "Option" (snd (ct_resp (codes vc))) = Some resp_ty -> fst (ct_resp (codes vc)) <> fst (dn_res d) ->
  codec_encode q = Ok msg ->
  (forall req buf, v !! ct_req (codes vc) = Some req -> env_encode_into req buf = (buf ++ msg, Ok (zlen msg))) ->
  req_sendable cid t msg -> task_seq t = seq -> is_u64 seq ->
  NoDup (se_variant <$> se_variants scode) ->
  List.find (lists_action path_i32 (get_action t)) (se_variants scode) = Some x ->
  let r := f (se_variant x) q (blob_seen t) in
  reply_sendable d resp_ty r -> writable (tc_stream c) ->
  exists buf blob c1 reqf, ReqHead_encode [] cid t = Ret (buf, Ok blob) /\
    write_req buf blob true c = (c1, Ok tt) /\ written (tc_stream c1) = written (tc_stream c) ++ reqf /\
  forall (srv : TcpServer S') rest, incoming (ts_stream srv) = reqf ++ rest -> writable (ts_stream srv) ->
  exists srv1 rq ts resp srv2 respf, read_req buffer_alloc false srv = Ret (srv1, Ok rq) /\
    server_enum_decode_req (Inner := server_inner) path_i32 scode (sq_action rq) (sq_seq rq) (sq_msg rq) (sq_blob rq)
      = Ok (existT (se_variant x) ts) /\
    sf_req ts = q /\
    server_enum_get_action (Inner := server_inner) path_i32 scode (existT (se_variant x) ts) = get_action t /\
    server_reply (existT (se_variant x) ts) = Ret resp /\ write_resp resp srv1 = Ret (srv2, Ok tt) /\
    incoming (ts_stream srv2) = rest /\ written (ts_stream srv2) = written (ts_stream srv) ++ respf /\
  forall (c2 : TcpClient S) timer timer' rest', incoming (tc_stream c2) = respf ++ rest' ->
    take_task seq timer = (timer', Ready (Some t)) ->
  exists c3 v', read_resp_all buffer_alloc error_handle_default c2 timer =
      Ret (c3, timer', [EvDone (existT vc v' : client_enum)], RDone (Ok true)) /\
    incoming (tc_stream c3) = rest' /\ reply_seen (codes vc) d resp_ty r v'.
Proof using All.
  intros t Hg Hi Hv Hd Hty Hne Hq Henc Hsend Hseq Hu Hnd Hx r Hr Hw.
  apply client_task_impl_spec in Hg as (fields' & Hf & Hg). rewrite Hi in Hf. injection Hf as <-.
  assert (Ht : encodes_to t msg) by (apply client_enum_encodes; by eapply generated_encodes).
  destruct (send_frame cid t msg [] true c Ht Hsend Hw) as (buf & blob & c1 & E1 & W1 & Hw1 & _).
  exists buf, blob, c1, (req_frame cid t msg). repeat split; [done..|]. intros srv rest Hin Hws.
  destruct (read_req_frame buffer_alloc cid t msg srv rest Hsend) as (srv1 & E2 & Hi1 & Hw1' & Hwr1); [|done|].
  { intros Hp. apply alloc_i32. split; [done|]. apply Hsend. }
  pose proof (Full_decode_ok (P := P (se_variant x)) (E := E) q (get_action t) seq msg (blob_seen t)
    (codec_decode_encode _ _ Hq)) as Hdec.
  pose proof (server_enum_routes (Inner := server_inner) path_i32 scode (get_action t) seq msg (blob_seen t) Hnd
    (fun v t0 => Full_keeps_action (get_action t) seq msg (blob_seen t) t0)) as Hroute.
  rewrite Hx in Hroute. destruct Hroute as [Hroute _]. destruct (Hroute _ Hdec) as [Hro Hact].
  destruct (server_reply_outcome d resp_ty (se_variant x) seq (RpcActionOwned_from (get_action t)) q
    (blob_seen t) Hr) as (resp & Erep & Ho).
  pose proof (reply_fits _ _ _ _ Hr) as Hfit.
  destruct (write_resp_frame resp seq _ srv1 Ho (outcome_fits_sendable _ Hfit) (Hwr1 Hws))
    as (srv2 & E3 & Hi2 & Hw2 & _).
  exists srv1, (svr_view t msg). eexists. exists resp, srv2, (outcome_frame seq (reply_outcome r)).
  split; [exact E2|]. split; [unfold svr_view; cbn [sq_action sq_seq sq_msg sq_blob]; rewrite Hseq; exact Hro|].
  split; [done|]. split; [exact Hact|]. split; [exact Erep|]. split; [exact E3|].
  split; [congruence|]. split; [by rewrite Hw2, Hw1'|].
  intros c2 timer timer' rest' Hi' Htk.
  destruct (read_outcome buffer_alloc alloc_i32 error_handle_default seq _ t c2 timer timer' rest'
    client_reserve_exact Hu Hfit Hi' Htk) as (c3 & E4 & Hi3).
  destruct (client_outcome vc v d resp_ty (se_variant x) r Hd Hty Hne Hr) as (v' & Ev & Hseen).
  exists c3, v'. rewrite E4. split; [by rewrite <-Ev|done].
Qed.

End call.

(** ** A concrete instance: the file tasks of the macros' documentation *)
Module MacroCallWitness.
Import ClientGenWitness.

Definition client_enum_file : client_enum_code := CEnumCode "FileTask" (ty_named "Errno") [
  CEnumVariant "Open" (ty_named "FileReadTask") (ArmPath (ServerMacroWitness.file_action "Open")) [];
  CEnumVariant "Close" (ty_named "FileCloseTask") ArmInner []].
Definition codes (_ : ident) : client_task_code := file_code.
Definition users (_ : ident) : user_impls bytes (rint U8) := no_user.
Definition task7 : struct_val bytes (rint U8) := gen_set_seq file_code file_value 7.
Definition open_variant : server_enum_variant :=
  SEnumVariant "Open" (ty_named "FileOpenReq") [PPath (ServerMacroWitness.file_action "Open")] [].
(** The handler opens every path but the empty one. *)
Definition handler (v : ident) (q : bytes) (_ : option bytes) : result bytes (rint U8) :=
  if bool_decide (q = []) then Err (RInt 2) else Ok q.
Definition out : TcpClient mem_stream := TcpC (MemStream [] [] true) [].
Definition always (_ : Z) : bool := true.

Lemma stream_call_roundtrip_witness :
  exists buf blob c1 reqf,
    @ReqHead_encode _ (client_task ServerMacroWitness.file_i32 client_enum_file codes users) [] 1
      (existT "Open"%string task7) = Ret (buf, Ok blob) /\
    write_req buf blob true out = (c1, Ok tt) /\ written (tc_stream c1) = reqf.
Proof.
  destruct (stream_call_roundtrip (S := mem_stream) (S' := mem_stream) always ltac:(reflexivity)
    (fun (x x' : val bytes (rint U8)) n m _ (H : @env_reserve _ _ file_env x n = (x', Some m)) => ltac:(discriminate H))
    ServerMacroWitness.file_i32 client_enum_file codes users
    (Q := fun _ => bytes) (P := fun _ => bytes) (q_codec := fun _ => raw_codec) (p_codec := fun _ => raw_codec)
    ServerMacroWitness.file_code handler "Open"%string task7 file_args file_task file_fields file_done
    (ty_named "FileReadResp") 1 7 open_variant (str_bytes "/tmp/f") (str_bytes "/tmp/f") out)
    as (buf & blob & c1 & reqf & E1 & E2 & E3 & _).
  - exact file_task_expands.
  - reflexivity.
  - repeat (apply Forall_cons; split; [eexists; split; vm_compute; reflexivity|]). apply Forall_nil. exact I.
  - reflexivity.
  - reflexivity.
  - discriminate.
  - reflexivity.
  - intros req buf H. vm_compute in H. injection H as <-. reflexivity.
  - repeat split; vm_compute; congruence.
  - reflexivity.
  - split; vm_compute; congruence.
  - apply (bool_decide_unpack _). vm_compute. exact I.
  - reflexivity.
  - exists (str_bytes "/tmp/f"), (VData (str_bytes "/tmp/f")). repeat split; try reflexivity; vm_compute; congruence.
  - reflexivity.
  - exists buf, blob, c1, reqf. split; [exact E1|]. split; [exact E2|exact E3].
Defined.

End MacroCallWitness.
