(* ===== verification/FileTasks.v ===== *)
(** * The file service of the test suite: its tasks

    A complete application of the stream layer (test-suite/src/stream/client.rs
    and server.rs): client tasks to open, read and write files, each a
    [client_task] struct, in a [client_task_enum]; server tasks in a
    [server_task_enum]; and the handler that the throughput benchmark installs
    (test-suite/src/stream/bench/throughput.rs). The items are syntax trees, the
    tasks are what the macros make of them. *)
From Stdlib Require Import ZArith Lia Strings.String.
From stdpp Require Import base list gmap strings.
From S2P Require Import Prelude Errors Codec Task Proto Buffer Net TcpClient ServerTask Server RpcServer Stream StreamTrace FailoverClient Facts MacroSyntax ClientMacro ClientGen ClientEnumMacro ServerMacro MacroCall.
Local Open Scope Z_scope.
Local Open Scope rpc_scope.

(** ** Data *)

Inductive FileAction : Type := FaOpen | FaRead | FaWrite.

(** [#[repr(u8)]]: the discriminants. *)
Definition FileAction_discr (a : FileAction) : Z := match a with FaOpen => 1 | FaRead => 2 | FaWrite => 3 end.

(** [TryFrom<u8>]. *)
Definition FileAction_try_from {E} (value : Z) : result FileAction (RpcError E) :=
  if value =? 1 then Ok FaOpen
  else if value =? 2 then Ok FaRead
  else if value =? 3 then Ok FaWrite
  else Err (Rpc Method).

Lemma FileAction_roundtrip {E} a : FileAction_try_from (E := E) (as_u8 (FileAction_discr a)) = Ok a.
Proof. by destruct a. Qed.

Record FileOpenReq : Type := MkOpenReq { path : bytes }.
Record FileIOReq : Type := MkIOReq { inode : Z; offset : Z; io_len : Z }.
Record FileIOResp : Type := MkIOResp { ret_size : Z }.

(** ** The items, as the macros read them *)

Definition field_attr (role : ident) : SynAttr :=
  Attr (ident_path "field") (Some (MList (ident_path "field") [NMeta (MPath (ident_path role))])).
Definition file_action_path (n : ident) : SynPath := MkPath false [Seg "FileAction" ArgsNone; Seg n ArgsNone].
Definition action_attr (ns : list ident) : SynAttr :=
  Attr (ident_path "action") (Some (MList (ident_path "action") ((fun n => NMeta (MPath (file_action_path n))) <$> ns))).

Definition res_ty : SynType :=
  ty_app "Option" [ty_app "Result" [TyTuple []; ty_app "RpcError" [ty_named "Errno"]]].
Definition sender_ty : SynType :=
  ty_app "Option" [ty_app "MTx" [TyPath false false [Seg "mpsc" ArgsNone;
    Seg "List" (ArgsAngle [GType (ty_named "FileClientTask")])]]].

Definition debug_arg : list nested_meta := [NMeta (MPath (ident_path "debug"))].

Definition FileClientTaskOpen_item : DeriveInput := Derive "FileClientTaskOpen" (DStruct [
  Field "common" (ty_named "ClientTaskCommon") [field_attr "common"];
  Field "req" (ty_named "FileOpenReq") [field_attr "req"];
  Field "resp" (ty_app "Option" [TyTuple []]) [field_attr "resp"];
  Field "res" res_ty [field_attr "res"];
  Field "sender" sender_ty [field_attr "noti"]]).

Definition FileClientTaskRead_item : DeriveInput := Derive "FileClientTaskRead" (DStruct [
  Field "common" (ty_named "ClientTaskCommon") [field_attr "common"];
  Field "req" (ty_named "FileIOReq") [field_attr "req"];
  Field "resp" (ty_app "Option" [ty_named "FileIOResp"]) [field_attr "resp"];
  Field "read_data" (ty_app "Option" [ty_named "Buffer"]) [field_attr "resp_blob"];
  Field "res" res_ty [field_attr "res"];
  Field "sender" sender_ty [field_attr "noti"]]).

Definition FileClientTaskWrite_item : DeriveInput := Derive "FileClientTaskWrite" (DStruct [
  Field "common" (ty_named "ClientTaskCommon") [field_attr "common"];
  Field "req" (ty_named "FileIOReq") [field_attr "req"];
  Field "data" (ty_named "Buffer") [field_attr "req_blob"];
  Field "resp" (ty_app "Option" [ty_named "FileIOResp"]) [field_attr "resp"];
  Field "res" res_ty [field_attr "res"];
  Field "sender" sender_ty [field_attr "noti"]]).

Definition FileClientTask_item : DeriveInput := Derive "FileClientTask" (DEnum [
  Variant "Open" (Some [ty_named "FileClientTaskOpen"]) [action_attr ["Open"%string]];
  Variant "Read" (Some [ty_named "FileClientTaskRead"]) [action_attr ["Read"%string]];
  Variant "Write" (Some [ty_named "FileClientTaskWrite"]) [action_attr ["Write"%string]]]).
Definition client_enum_args : list token := [TkIdent "error"; TkEq; TkIdent "Errno"].

Definition FileServerTask_item : DeriveInput := Derive "FileServerTask" (DEnum [
  Variant "Open" (Some [ty_named "ServerTaskOpen"]) [action_attr ["Open"%string]];
  Variant "IO" (Some [ty_named "ServerTaskIO"]) [action_attr ["Read"; "Write"]%string]]).
Definition server_enum_args : list token :=
  [TkIdent "req"; TkComma; TkIdent "resp"; TkComma; TkIdent "error"; TkEq; TkIdent "Errno"].

(** ** What the macros make of them *)

(** The code of an expansion; no expansion here fails, see below. *)
Definition code_of {A} (dflt : A) (m : expansion A) : A := match m with Expand g => g | _ => dflt end.
Definition no_client_code : client_task_code :=
  ClientCode [] false (""%string, TyTuple []) ""%string (""%string, TyTuple []) None None None None.

Definition open_code : client_task_code :=
  Eval vm_compute in code_of no_client_code (client_task_impl debug_arg FileClientTaskOpen_item).
Definition read_code : client_task_code :=
  Eval vm_compute in code_of no_client_code (client_task_impl debug_arg FileClientTaskRead_item).
Definition write_code : client_task_code :=
  Eval vm_compute in code_of no_client_code (client_task_impl debug_arg FileClientTaskWrite_item).

Lemma open_expands : client_task_impl debug_arg FileClientTaskOpen_item = Expand open_code.
Proof. vm_compute. reflexivity. Qed.
Lemma read_expands : client_task_impl debug_arg FileClientTaskRead_item = Expand read_code.
Proof. vm_compute. reflexivity. Qed.
Lemma write_expands : client_task_impl debug_arg FileClientTaskWrite_item = Expand write_code.
Proof. vm_compute. reflexivity. Qed.

(** The impls of [ClientTaskGetResult] and [ClientTaskDone]: the same fields in
    the three structs. *)
Definition file_done : done_code := DoneCode ("res"%string, res_ty) (ty_named "Errno") ("sender"%string, sender_ty)
  (TyPath false false [Seg "mpsc" ArgsNone; Seg "List" (ArgsAngle [GType (ty_named "FileClientTask")])]).

Definition client_code : client_enum_code := CEnumCode "FileClientTask" (ty_named "Errno") [
  CEnumVariant "Open" (ty_named "FileClientTaskOpen") (ArmPath (file_action_path "Open")) [];
  CEnumVariant "Read" (ty_named "FileClientTaskRead") (ArmPath (file_action_path "Read")) [];
  CEnumVariant "Write" (ty_named "FileClientTaskWrite") (ArmPath (file_action_path "Write")) []].

Definition server_code : server_enum_code :=
  SEnumCode "FileServerTask" (ty_named "Errno") (ty_named "FileServerTask") true true [
  SEnumVariant "Open" (ty_named "ServerTaskOpen") [PPath (file_action_path "Open")] [];
  SEnumVariant "IO" (ty_named "ServerTaskIO") [PPath (file_action_path "Read"); PPath (file_action_path "Write")] []].

(** For any parser that reads [Errno] as a type and any printer that prints the
    type names differently. *)
Section expansions.
Context (parse_type : type_parser) (type_string : SynType -> String.string).
Context (parse_errno : parse_type [TkIdent "Errno"] = Some (ty_named "Errno", [])).
Context (print_inj : forall a b, type_string (ty_named a) = type_string (ty_named b) -> a = b).

Lemma client_enum_expands :
  client_task_enum_impl parse_type type_string client_enum_args FileClientTask_item = Expand client_code.
Proof using parse_errno print_inj.
  apply client_enum_accepts_iff. eexists _, _. split; [reflexivity|]. split; [reflexivity|]. split; [reflexivity|].
  split; [exact parse_errno|]. split; [repeat constructor|]. cbn.
  repeat (constructor; [rewrite ?elem_of_cons, elem_of_nil; intros H; repeat destruct H as [H|H]; try done;
    by apply print_inj in H|]). constructor.
Qed.

Lemma server_enum_expands :
  server_task_enum_impl parse_type type_string server_enum_args FileServerTask_item = Expand server_code.
Proof using parse_errno print_inj.
  assert (Hne : type_string (ty_named "ServerTaskOpen") <> type_string (ty_named "ServerTaskIO"))
    by (intros H; by apply print_inj in H).
  unfold server_task_enum_impl. cbn -[count_type server_attrs_parse]. unfold server_attrs_parse. cbn -[count_type].
  unfold parse_eq_type. rewrite parse_errno. cbn -[count_type].
  rewrite (count_type_ne _ (type_string (ty_named "ServerTaskOpen"))) by done. rewrite !count_type_eq.
  rewrite count_type_ne by done. reflexivity.
Qed.

End expansions.

(** ** Running the code *)

(** The values of the fields' own types. *)
Inductive file_data : Type :=
| DOpenReq (q : FileOpenReq)
| DIOReq (q : FileIOReq)
| DIOResp (p : FileIOResp)
| DUnit
| DBuffer (b : iobuf).

(** [FileAction::.. as i32]. *)
Definition file_path_i32 (p : SynPath) : Z :=
  let n := match last (path_segs p) with Some s => seg_ident s | None => ""%string end in
  if bool_decide (n = "Open"%string) then FileAction_discr FaOpen
  else if bool_decide (n = "Read"%string) then FileAction_discr FaRead
  else FileAction_discr FaWrite.

Section service.
(** [Errno], of the nix crate; the messages' serialization, by the codec; and
    [Buffer::alloc]. *)
Context {Errno : Type} (errno_raw : Errno -> Z) (from_raw : Z -> Errno) (errno_debug : Errno -> bytes).
Context (EINVAL : Errno).
Context `{!Codec FileOpenReq} `{!Codec FileIOReq} `{!Codec FileIOResp} `{!Codec unit}.
Context (alloc : Z -> option iobuf).

#[local] Instance Errno_codec : RpcErrCodec Errno := errno_err_codec errno_raw from_raw errno_debug.
Local Abbreviation fval := (val file_data Errno).
Local Abbreviation sval := (struct_val file_data Errno).

(** *** The impls the generated code calls *)

Definition decoded {A} (f : A -> file_data) (r : result A unit) : result fval unit :=
  match r with Ok x => Ok (VData (f x)) | Err e => Err e end.

(** [C::encode_into(&self.req, buffer)]. *)
Definition file_encode_into (x : fval) (buf : bytes) : bytes * result Z unit :=
  match x with
  | VData (DOpenReq q) => codec_encode_into q buf
  | VData (DIOReq q) => codec_encode_into q buf
  | _ => (buf, Err tt)
  end.

(** [C::decode(buffer)] at the type of the response. *)
Definition file_decode (ty : SynType) (buf : bytes) : result fval unit :=
  match ty with
  | TyTuple [] => decoded (fun _ : unit => DUnit) (codec_decode buf)
  | _ =>
    if bool_decide (type_name ty = Some "FileIOResp"%string) then decoded DIOResp (codec_decode buf)
    else Err tt
  end.

Definition file_as_ref (x : fval) : bytes := match x with VData (DBuffer b) => bdata b | _ => [] end.

(** The slice lent is the whole buffer. *)
Definition lent_of (b : iobuf) : option Z := Some (iobuf_len b).

(** [AllocateBuf::reserve] of [Buffer] and of [Option<Buffer>]; the size is an
    [i32]. *)
Definition file_reserve (x : fval) (n : Z) : fval * option Z :=
  if I32_MAX <? n then (x, None)
  else match x with
  | VData (DBuffer b) =>
    match Buffer_reserve b n with Some b => (VData (DBuffer b), lent_of b) | None => (x, None) end
  | VOpt None =>
    match OptBuffer_reserve alloc None n with
    | (Some b, true) => (VOpt (Some (VData (DBuffer b))), lent_of b)
    | _ => (x, None)
    end
  | VOpt (Some (VData (DBuffer b))) =>
    match OptBuffer_reserve alloc (Some b) n with
    | (Some b, true) => (VOpt (Some (VData (DBuffer b))), lent_of b)
    | _ => (x, None)
    end
  | _ => (x, None)
  end.

(** Writing at the start of the slice. *)
Definition fill_buffer (blob : bytes) (b : iobuf) : iobuf :=
  IoBuf (blob ++ drop (length blob) (bdata b)) (bcap b).
Definition file_fill (x : fval) (blob : bytes) : fval :=
  match x with
  | VData (DBuffer b) => VData (DBuffer (fill_buffer blob b))
  | VOpt (Some (VData (DBuffer b))) => VOpt (Some (VData (DBuffer (fill_buffer blob b))))
  | _ => x
  end.

Definition file_data_ty (m : file_data) (ty : SynType) : bool :=
  match m with
  | DOpenReq _ => bool_decide (type_name ty = Some "FileOpenReq"%string)
  | DIOReq _ => bool_decide (type_name ty = Some "FileIOReq"%string)
  | DIOResp _ => bool_decide (type_name ty = Some "FileIOResp"%string)
  | DUnit => match ty with TyTuple [] => true | _ => false end
  | DBuffer _ => bool_decide (type_name ty = Some "Buffer"%string)
  end.

(** No field of the structs is a number. *)
#[local] Instance file_env : TaskEnv file_data Errno := {|
  env_encode_into := file_encode_into;
  env_decode := file_decode;
  env_as_ref := file_as_ref;
  env_reserve := file_reserve;
  env_fill := file_fill;
  env_err_decode E r :=
    if bool_decide (type_name E = Some "Errno"%string) then errno_decode from_raw r else Err tt;
  env_path_i32 := file_path_i32;
  env_data_ty := file_data_ty;
  env_int_ty _ := false;
  env_err_ty _ E := bool_decide (type_name E = Some "Errno"%string);
|}.

(** *** Client tasks *)

(** The empty map, as a value that reduces. *)
Definition no_fields : sval := GMap GEmpty.

Definition FileClientTaskOpen_new (p : bytes) : sval :=
  <["common"%string := VCommon 0]> (<["sender"%string := VOpt (Some VSender)]>
  (<["req"%string := VData (DOpenReq (MkOpenReq p))]> (<["res"%string := VOpt None]>
  (<["resp"%string := VOpt None]> no_fields)))).

Definition FileClientTaskRead_new (ino off n : Z) : sval :=
  <["common"%string := VCommon 0]> (<["sender"%string := VOpt (Some VSender)]>
  (<["res"%string := VOpt None]> (<["req"%string := VData (DIOReq (MkIOReq ino off n))]>
  (<["resp"%string := VOpt None]> (<["read_data"%string := VOpt None]> no_fields))))).

Definition FileClientTaskWrite_new (ino off : Z) (data : iobuf) : sval :=
  <["common"%string := VCommon 0]> (<["sender"%string := VOpt (Some VSender)]>
  (<["res"%string := VOpt None]> (<["req"%string := VData (DIOReq (MkIOReq ino off (iobuf_len data)))]>
  (<["data"%string := VData (DBuffer data)]> (<["resp"%string := VOpt None]> no_fields))))).

(** The struct of each variant. *)
Definition task_codes (v : ident) : client_task_code :=
  if decide (v = "Open"%string) then open_code
  else if decide (v = "Read"%string) then read_code
  else write_code.

(** The methods the macros would leave to the user; every struct has [res] and
    [noti] fields, and the enum gives the actions. *)
Definition no_user : user_impls file_data Errno :=
  UserImpls (fun _ => ANum 0) (fun v _ _ _ => v) (fun v _ => v) (fun v => v).

Definition file_inner (_ : ident) : Type := sval.
#[local] Instance file_inner_task (v : ident) : ClientTask (file_inner v) := generated_task (task_codes v) no_user.

Definition FileClientTask : Type := enum_task (Inner := file_inner).
#[local] Instance file_client_task : ClientTask FileClientTask := client_enum_task file_path_i32 client_code.

(** [From] of the variants, and [get_result]. *)
Definition file_into (v : ident) (task : sval) : FileClientTask := enum_from (Inner := file_inner) v task.
Definition file_get_result (t : FileClientTask) : option (result unit (RpcError Errno)) :=
  let 'existT _ v := t in gen_get_result file_done v.

(** *** Server tasks

    [ServerTaskVariantFull] at the messages of the variant. *)
Definition is_open (v : ident) : bool := String.eqb v "Open".
Definition req_of (b : bool) : Type := if b then FileOpenReq else FileIOReq.
Definition resp_of (b : bool) : Type := if b then unit else FileIOResp.
#[local] Instance req_of_codec b : Codec (req_of b) := match b with true => _ | false => _ end.
#[local] Instance resp_of_codec b : Codec (resp_of b) := match b with true => _ | false => _ end.

Definition ServerTaskOpen : Type := ServerTaskVariantFull (req_of true) (resp_of true) Errno.
Definition ServerTaskIO : Type := ServerTaskVariantFull (req_of false) (resp_of false) Errno.
Definition file_server_inner (v : ident) : Type :=
  ServerTaskVariantFull (req_of (is_open v)) (resp_of (is_open v)) Errno.
Definition FileServerTask : Type := server_enum (Inner := file_server_inner).

#[local] Instance file_server_task : ServerTaskEncode FileServerTask := server_enum_task.

(** [ServerTaskDone::set_result]: the result recorded, the task is sent back
    through [noti] as the enum. *)
Definition file_set_result {b} (into : ServerTaskVariantFull (req_of b) (resp_of b) Errno -> FileServerTask)
    (res : result unit Errno) (task : ServerTaskVariantFull (req_of b) (resp_of b) Errno)
    : may (list FileServerTask) :=
  let? task := Full_set_result_raw res task in Ret [into task].

(** ** The handler of the throughput benchmark *)

Definition handle_open (into : ServerTaskOpen -> FileServerTask) (open_task : ServerTaskOpen)
    : may (list FileServerTask * result unit unit) :=
  let? sent := file_set_result into (Ok tt) open_task in Ret (sent, Ok tt).

(** [io_task.req_blob.take()], and the response stored. *)
Definition take_req_blob (t : ServerTaskIO) : option bytes * ServerTaskIO :=
  (sf_req_blob t,
   SvrFull (sf_seq t) (sf_action t) (sf_req t) None (sf_resp t) (sf_resp_blob t) (sf_res t) (sf_noti t)).
Definition store_resp (p : FileIOResp) (t : ServerTaskIO) : ServerTaskIO :=
  SvrFull (sf_seq t) (sf_action t) (sf_req t) (sf_req_blob t) (Some p) (sf_resp_blob t) (sf_res t) (sf_noti t).

Definition handle_io (into : ServerTaskIO -> FileServerTask) (io_task : ServerTaskIO)
    : may (list FileServerTask * result unit unit) :=
  let? action :=
    match Full_get_action io_task with
    | ANum action_num =>
      match FileAction_try_from (E := Errno) (as_u8 action_num) with Ok a => Ret a | Err _ => Panic end
    | AStr _ => Panic
    end in
  match action with
  | FaWrite =>
    let '(blob, io_task) := take_req_blob io_task in
    let? sent :=
      match blob with
      | Some blob => file_set_result into (Ok tt) (store_resp (MkIOResp (as_u64 (zlen blob))) io_task)
      | None => file_set_result into (Err EINVAL) io_task
      end in
    Ret (sent, Ok tt)
  | _ => Panic
  end.

Definition handle_variant (b : bool)
    : (ServerTaskVariantFull (req_of b) (resp_of b) Errno -> FileServerTask) ->
      ServerTaskVariantFull (req_of b) (resp_of b) Errno -> may (list FileServerTask * result unit unit) :=
  match b with true => handle_open | false => handle_io end.

Definition dispatch_task (task : FileServerTask) : may (list FileServerTask * result unit unit) :=
  let 'existT v t := task in handle_variant (is_open v) (existT v) t.

(** [new_closure_dispatcher]: decoding as the enum, then the handler. The
    responses are sent while it runs. *)
Definition file_dispatch (req : RpcSvrReq) : may (dispatched FileServerTask) :=
  let? (sent, r) :=
    dispatch_closure (server_enum_decode_req (Inner := file_server_inner) file_path_i32 server_code)
      dispatch_task req in
  Ret (Dispatched sent [] r).

(** ** Starting (client.rs and server.rs)

    Outside the repository: connecting a socket, and the buffers of orb. *)
Section start.
Context {S : Type} `{!AsyncStream S} {Socket : Type}.
Context (connect_timeout : bytes -> Z -> result Socket unit) (AsyncBufStream_new : Socket -> Z -> S).

(** [MyClient] is [ClientDefault]. *)
Definition init_client (config : ClientConfig) (addr : bytes) : result (ClientStream S FileClientTask) RpcIntErr :=
  ClientStream_connect connect_timeout AsyncBufStream_new (T := FileClientTask) (ClientDefault_new config) addr.

Definition init_failover_client (config : ClientConfig) (addrs : list bytes) (round_robin : bool)
    : FoClient S FileClientTask :=
  failover_of (T := FileClientTask) (ClientDefault_new config) addrs round_robin 3 100.

(** [MyServer] is [ServerDefault]; its configuration is a parameter of the
    server's steps. *)
Definition init_server : RpcServer S FileServerTask := RpcServer_new.

(** [local_addr]: the address bound, if [bind] and [local_addr] succeed. Every
    listener gets the dispatcher of the handler. *)
Definition init_server_closure (local_addr : option bytes) : result (RpcServer S FileServerTask * bytes) unit :=
  match local_addr with
  | Some addr =>
    match listen true init_server with
    | (server, Ok _) => Ok (server, addr)
    | (_, Err e) => Err e
    end
  | None => Err tt
  end.

End start.

(** ** Lemmas *)

Lemma open_new_typed p : struct_typed (ct_ast open_code) (FileClientTaskOpen_new p).
Proof. repeat (apply Forall_cons; split; [eexists; split; vm_compute; reflexivity|]). by apply Forall_nil. Qed.
Lemma read_new_typed i o n : struct_typed (ct_ast read_code) (FileClientTaskRead_new i o n).
Proof. repeat (apply Forall_cons; split; [eexists; split; vm_compute; reflexivity|]). by apply Forall_nil. Qed.
Lemma write_new_typed i o d : struct_typed (ct_ast write_code) (FileClientTaskWrite_new i o d).
Proof. repeat (apply Forall_cons; split; [eexists; split; vm_compute; reflexivity|]). by apply Forall_nil. Qed.

(** The three structs have the same impls of [ClientTaskDone]. *)
Lemma task_codes_done v : ct_done (task_codes v) = Some file_done.
Proof. unfold task_codes. by repeat case_decide. Qed.
Lemma task_codes_common v : fst (ct_common (task_codes v)) = "common"%string.
Proof. unfold task_codes. by repeat case_decide. Qed.
Lemma task_codes_resp v : fst (ct_resp (task_codes v)) = "resp"%string.
Proof. unfold task_codes. by repeat case_decide. Qed.

#[local] Instance file_client_task_ok : ClientTaskOk FileClientTask.
Proof.
  apply client_enum_task_ok. intros v. split.
  - intros t k. cbn. unfold gen_seq, gen_set_seq. by rewrite struct_val_eq.
  - intros t e. cbn. unfold task_set_rpc_error, gen_seq. rewrite task_codes_done, task_codes_common.
    unfold gen_set_rpc_error, gen_set_res. by rewrite struct_val_ne.
Qed.

(** The buffer of a response is a field of its own. *)
Lemma task_codes_blob v f ty : ct_resp_blob (task_codes v) = Some (f, ty) -> f = "read_data"%string.
Proof. unfold task_codes. repeat case_decide; cbn; congruence. Qed.
End service.
