(* ===== verification/FileService.v ===== *)
(** * The file service over one connection

    The file service of the test suite ([FileTasks]) run by the system of
    [System]: what the callers of its tasks get from the handler of the
    throughput benchmark, whatever is in flight. *)
From Stdlib Require Import ZArith Lia Strings.String.
From stdpp Require Import base list gmap strings.
From S2P Require Import Prelude Errors Codec Task ApiClient Proto Buffer BTree Timer TimerInv Net TcpClient ServerTask TcpServer ApiServer EndToEnd Server RpcServer Facts Stream StreamInv StreamTrace StreamPoll Wire System SystemEnds SystemInv SystemCall SystemRun MacroSyntax ClientMacro ClientGen ClientEnumMacro ServerMacro MacroCall FileTasks.
Local Open Scope Z_scope.
Local Open Scope rpc_scope.

(** ** What the service promises *)

(** A request of a caller, with the arguments of the task's constructor. *)
Inductive file_req : Type :=
| ROpen (p : bytes)
| RRead (ino off n : Z)
| RWrite (ino off : Z) (data : iobuf).

Section spec.
Context {Errno : Type} (EINVAL : Errno).

(** The answer: an open succeeds, a write reports the size of its data and
    must have some, and the handler has no answer to a read. *)
Definition file_serve (r : file_req) : option (result (option FileIOResp) Errno) :=
  match r with
  | ROpen _ => Some (Ok None)
  | RRead _ _ _ => None
  | RWrite _ _ data =>
    if bool_decide (bdata data = []) then Some (Err EINVAL)
    else Some (Ok (Some (MkIOResp (as_u64 (iobuf_len data)))))
  end.

(** The task of a request, as its caller submits it. *)
Definition file_task (r : file_req) : FileClientTask (Errno := Errno) :=
  match r with
  | ROpen p => file_into "Open" (FileClientTaskOpen_new p)
  | RRead ino off n => file_into "Read" (FileClientTaskRead_new ino off n)
  | RWrite ino off data => file_into "Write" (FileClientTaskWrite_new ino off data)
  end.

(** The request, read back from the fields. *)
Definition request_of (t : FileClientTask (Errno := Errno)) : option file_req :=
  let 'existT v s := t in
  if decide (v = "Open"%string) then
    match (s : struct_val file_data Errno) !! "req"%string with
    | Some (VData (DOpenReq q)) => Some (ROpen (path q))
    | _ => None
    end
  else
    match (s : struct_val file_data Errno) !! "req"%string with
    | Some (VData (DIOReq q)) =>
      if decide (v = "Read"%string) then Some (RRead (inode q) (offset q) (io_len q))
      else match (s : struct_val file_data Errno) !! "data"%string with
           | Some (VData (DBuffer b)) => Some (RWrite (inode q) (offset q) b)
           | _ => None
           end
    | _ => None
    end.

Lemma request_of_task r : request_of (file_task r) = Some r.
Proof. by destruct r. Qed.

(** What the caller finds in a task that has come back: its result, and the
    response in its [resp] field. *)
Definition shows (t : FileClientTask (Errno := Errno)) (a : result (option FileIOResp) Errno) : Prop :=
  match a with
  | Ok resp => file_get_result t = Some (Ok tt) /\
      (let 'existT _ s := t in (s : struct_val file_data Errno) !! "resp"%string) =
        Some (VOpt ((fun p => VData (DIOResp p)) <$> resp))
  | Err e => file_get_result t = Some (Err (User e))
  end.

(** Assigning a field that does not make the request. *)
Lemma request_insert v (s : struct_val file_data Errno) n x :
  n <> "req"%string -> n <> "data"%string ->
  request_of (existT v (<[n := x]> s)) = request_of (existT v s).
Proof. intros H1 H2. cbn. by rewrite !struct_val_ne by done. Qed.

End spec.

Section service.
Context {Errno : Type} (errno_raw : Errno -> Z) (from_raw : Z -> Errno) (errno_debug : Errno -> bytes).
Context (EINVAL : Errno).
Context `{!Codec FileOpenReq} `{!Codec FileIOReq} `{!Codec FileIOResp} `{!Codec unit}.
Context (alloc : Z -> option iobuf).

#[local] Instance Errno_codec : RpcErrCodec Errno := errno_err_codec errno_raw from_raw errno_debug.
#[local] Instance env : TaskEnv file_data Errno := file_env from_raw alloc.
#[local] Instance client_task : ClientTask (FileClientTask (Errno := Errno)) := file_client_task from_raw alloc.
#[local] Instance client_task_ok : ClientTaskOk (FileClientTask (Errno := Errno)) := file_client_task_ok from_raw alloc.
#[local] Instance server_task : ServerTaskEncode (FileServerTask (Errno := Errno)) :=
  file_server_task errno_raw from_raw errno_debug.
Abbreviation FT := (FileClientTask (Errno := Errno)).
Abbreviation dispatch := (file_dispatch EINVAL).

(** *** The client and the server that the helpers make are a new system *)
Lemma service_starts {Socket} connect_timeout (AsyncBufStream_new : Socket -> Z -> mem_stream) config addr local_addr c srv :
  (forall s n, AsyncBufStream_new s n = MemStream [] [] true) ->
  init_client (Errno := Errno) connect_timeout AsyncBufStream_new config addr = Ok c ->
  init_server_closure (Errno := Errno) (S := mem_stream) (Some local_addr) = Ok (srv, local_addr) ->
  map sd_conn (rv_conns (accept 0 (Some (MemStream [] [] true)) srv)) = [server_conn (MemStream [] [] true)] /\
  Sys (R := FileServerTask (Errno := Errno)) c (server_conn (MemStream [] [] true)) =
    sys_start 0 (cc_task_timeout config) (cc_thresholds config).
Proof.
  intros Hb Hc [= <-]. split; [done|].
  unfold init_client, ClientStream_connect, TcpClient_connect in Hc.
  destruct (connect_timeout addr _) as [sock|]; [|done]. rewrite Hb in Hc. by injection Hc as <-.
Qed.

(** *** The request of a task never changes *)

Lemma request_set_res v (s : struct_val file_data Errno) r :
  request_of (existT v (gen_set_res file_done s r)) = request_of (existT v s).
Proof. by apply request_insert. Qed.

#[local] Instance file_tag : TaskTag FT (option file_req).
Proof.
  refine (Build_TaskTag _ _ _ request_of _ _ _ _ _ _ _).
  - intros [v t] k. cbn -[request_of]. unfold gen_set_seq. rewrite task_codes_common. by apply request_insert.
  - intros [v t] e. cbn -[request_of]. unfold task_set_rpc_error. rewrite task_codes_done. apply request_set_res.
  - intros [v t] e i n. cbn -[request_of]. unfold task_set_custom_error. rewrite task_codes_done. apply request_set_res.
  - intros [v t]. cbn -[request_of]. unfold task_set_ok. rewrite task_codes_done. apply request_set_res.
  - intros [v t] b t' H. cbn in H. unfold gen_decode_resp in H.
    destruct (arg_of _ _); [|done]. cbn in H. destruct (file_decode _ _); [|done]. cbn in H. injection H as <-.
    rewrite task_codes_resp. by apply request_insert.
  - intros [v t] n t' o H. cbn in H. unfold gen_reserve_resp_blob in H.
    destruct (ct_resp_blob (task_codes v)) as [[f ty]|] eqn:E; cbn in H; [|by injection H as <- <-].
    destruct (_ !! f) as [x|]; cbn in H; [|by injection H as <- <-].
    destruct (file_reserve _ _ _) as [x' l]. injection H as <- <-. apply task_codes_blob in E as ->. by apply request_insert.
  - intros [v t] b. cbn -[request_of]. unfold gen_fill_resp_blob.
    destruct (ct_resp_blob (task_codes v)) as [[f ty]|] eqn:E; [|done]. cbn -[request_of].
    destruct (_ !! f) as [x|]; [|done]. apply task_codes_blob in E as ->. by apply request_insert.
Defined.

(** *** What the client layers ask of a task *)

Context {open_ok : CodecOk FileOpenReq} {io_ok : CodecOk FileIOReq} {resp_ok : CodecOk FileIOResp}.
(** The documented behaviour of [Buffer::alloc] and of the nix crate. *)
Context (alloc_len : forall n b, alloc n = Some b -> iobuf_len b = n).
Context (errno_inv : forall e, from_raw (errno_raw e) = e) (errno_range : forall e, 0 <= errno_raw e <= I32_MAX).
(** The encoding of a response: a small message, not empty. *)
Context (resp_msg : forall n, is_u64 n ->
  exists b, codec_encode (MkIOResp n) = Ok b /\ b <> [] /\ zlen b <= I32_MAX).

Lemma file_reserve_exact (x x' : val file_data Errno) n m :
  0 < n -> env_reserve x n = (x', Some m) -> m = n.
Proof using alloc_len.
  intros Hn. cbn. unfold file_reserve. destruct (Z.ltb_spec I32_MAX n) as [|Hle]; [done|].
  assert (Hu : as_usize n = n) by (unfold I32_MAX in *; apply as_usize_small; unfold is_usize; lia).
  assert (Hb : forall b b', (if negb (iobuf_len b =? as_usize n) then
      if bcap b <? as_usize n then None else Some (iobuf_set_len (as_usize n) b) else Some b) = Some b' ->
    iobuf_len b' = n).
  { intros b b'. rewrite Hu. destruct (Z.eqb_spec (iobuf_len b) n); cbn; [by intros [= <-]|].
    destruct (bcap b <? n); [done|]. intros [= <-]. unfold iobuf_set_len, iobuf_len. cbn. apply zlen_resize. lia. }
  destruct x as [| | |[| | | |b]|[[| | |[| | | |b]| | |]|]| |]; cbn; try done.
  - specialize (Hb b). unfold Buffer_reserve. destruct (if negb _ then _ else _) as [b'|]; [|done].
    intros [= <- <-]. by apply Hb.
  - specialize (Hb b). destruct (negb _); [destruct (bcap b <? _); [done|]|]; intros [= <- <-]; by apply Hb.
  - destruct (alloc _) as [b|] eqn:E; [|done]. intros [= <- <-]. by apply alloc_len.
Qed.

Lemma file_task_reserve_exact (t t' : FT) n m : 0 < n -> reserve_resp_blob t n = (t', Some m) -> m = n.
Proof using alloc_len.
  destruct t as [v s]. intros Hn H. cbn in H. unfold gen_reserve_resp_blob in H.
  destruct (ct_resp_blob (task_codes v)) as [[f ty]|]; [|done].
  destruct (_ !! f) as [x|]; [|done]. cbn in H. destruct (file_reserve alloc x n) as [x' lent] eqn:Er.
  cbn in H. injection H as <- ->. by apply (file_reserve_exact x x').
Qed.

(** A codec appends the message, or refuses. *)
Lemma codec_appends {A} `{!Codec A} `{!CodecOk A} (q : A) :
  (exists msg, codec_encode q = Ok msg /\ forall buf, codec_encode_into q buf = (buf ++ msg, Ok (zlen msg))) \/
  exists f, forall buf, codec_encode_into q buf = (f buf, Err tt).
Proof.
  destruct (codec_encode q) as [msg|[]] eqn:E; [left|right].
  - exists msg. split; [done|]. intros buf. by apply codec_encode_into_ok.
  - exists (fun buf => (codec_encode_into q buf).1). intros buf.
    by destruct (codec_encode_into_err _ buf E) as [junk ->].
Qed.

Lemma file_encode_appends (t : FT) :
  (exists msg, encodes_to t msg) \/ exists f, forall b, encode_req t b = (f b, Err tt).
Proof using open_ok io_ok.
  destruct t as [v s]. unfold encodes_to. cbn. unfold gen_encode_req.
  destruct (_ !! ct_req (task_codes v)) as [x|]; cbn; [|right; by exists (fun b => b)].
  destruct x as [| | |[q|q| | |]| | |]; cbn; try (right; by exists (fun b => b));
    (destruct (codec_appends q) as [(msg & _ & H)|?]; [left; by exists msg|by right]).
Qed.

(** *** The answers of the server *)

(** The answer to a write. *)
Definition write_outcome (blob : option bytes) : result (bytes * option bytes) EncodedErr :=
  match blob with
  | None => Err (err_encode EINVAL)
  | Some d =>
    match codec_encode (MkIOResp (as_u64 (zlen d))) with Ok b => Ok (b, None) | Err _ => Err (ERpc Encode) end
  end.

Lemma errno_sendable e : err_transportable e /\ err_sendable (err_encode e).
Proof using errno_inv errno_range.
  split; [by apply errno_roundtrip|]. cbn. apply as_u32_range.
Qed.

(** *** What the dispatcher does with a request *)

Definition refused : may (dispatched (FileServerTask (Errno := Errno))) := Ret (Dispatched [] [] (Err tt)).

(** The server's task, answered. *)
Definition open_answer (seq : Z) (q : FileOpenReq) (blob : option bytes) : FileServerTask (Errno := Errno) :=
  server_enum_from (Inner := file_server_inner) "Open"
    (SvrFull seq (ONum 1) q blob None None (Some (Ok tt)) false : file_server_inner "Open").
Definition write_answer (seq : Z) (q : FileIOReq) (blob : option bytes) : FileServerTask (Errno := Errno) :=
  server_enum_from (Inner := file_server_inner) "IO"
    (match blob with
     | Some d => SvrFull seq (ONum 3) q None (Some (MkIOResp (as_u64 (zlen d)))) None (Some (Ok tt)) false
     | None => SvrFull seq (ONum 3) q None None None (Some (Err EINVAL)) false
     end : file_server_inner "IO").

Lemma dispatch_str seq a msg blob : dispatch (SvrReq seq (AStr a) msg blob) = refused.
Proof. reflexivity. Qed.

Lemma dispatch_num seq n msg blob :
  dispatch (SvrReq seq (ANum n) msg blob) =
    if n =? 1 then
      match codec_decode msg with
      | Ok q => Ret (Dispatched [open_answer seq q blob] [] (Ok tt))
      | Err _ => refused
      end
    else if n =? 2 then match codec_decode msg : result FileIOReq unit with Ok _ => Panic | Err _ => refused end
    else if n =? 3 then
      match codec_decode msg with
      | Ok q => Ret (Dispatched [write_answer seq q blob] [] (Ok tt))
      | Err _ => refused
      end
    else refused.
Proof.
  unfold file_dispatch, dispatch_closure, server_enum_decode_req. cbn [sq_seq sq_action sq_msg sq_blob].
  change (match_action file_path_i32 (decode_arms server_code) (ANum n)) with
    (if n =? 1 then Some "Open"%string else if n =? 2 then Some "IO"%string
     else if n =? 3 then Some "IO"%string else None).
  destruct (Z.eqb_spec n 1) as [->|]; [cbn; unfold Full_decode_req; by destruct (codec_decode msg)|].
  destruct (Z.eqb_spec n 2) as [->|]; [cbn; unfold Full_decode_req; by destruct (codec_decode msg)|].
  destruct (Z.eqb_spec n 3) as [->|]; [|done].
  cbn. unfold Full_decode_req. by destruct (codec_decode msg), blob.
Qed.

Lemma open_answer_says seq q blob : msg_says (Ok (open_answer seq q blob)) (seq, Ok ([], None)).
Proof. intros buf. cbn. by rewrite app_nil_r. Qed.

Lemma write_answer_says seq q blob : msg_says (Ok (write_answer seq q blob)) (seq, write_outcome blob).
Proof using resp_ok resp_msg.
  destruct blob as [d|]; [|intros buf; cbn; by rewrite app_nil_r].
  unfold write_outcome. destruct (resp_msg (as_u64 (zlen d))) as (b & E & _); [apply as_u64_range|].
  rewrite E. intros buf. cbn. by rewrite (codec_encode_into_ok _ _ buf E).
Qed.

Lemma write_outcome_fits blob : outcome_fits (write_outcome blob).
Proof using resp_msg errno_inv errno_range.
  destruct blob as [d|]; cbn; [|apply (errno_sendable EINVAL)].
  destruct (resp_msg (as_u64 (zlen d))) as (b & -> & _ & Hl); [apply as_u64_range|]. cbn. lia.
Qed.

Lemma answers_num seq n msg blob (m : noti_msg (FileServerTask (Errno := Errno))) :
  m ∈ answers dispatch (SvrReq seq (ANum n) msg blob) -> n <> 0 ->
  m = Err (seq, Some Decode) /\ dispatch (SvrReq seq (ANum n) msg blob) = refused \/
  (exists q, n = 1 /\ codec_decode msg = Ok q /\ m = Ok (open_answer seq q blob)) \/
  (exists q, n = 3 /\ codec_decode msg = Ok q /\ m = Ok (write_answer seq q blob)).
Proof.
  unfold answers, is_ping. cbn [sq_action sq_msg sq_seq]. intros Hm Hn. rewrite (proj2 (Z.eqb_neq _ _) Hn) in Hm. cbn [andb] in Hm.
  rewrite dispatch_num in *. destruct (Z.eqb_spec n 1) as [->|].
  { destruct (codec_decode msg) as [q|]; cbn in Hm; apply list_elem_of_singleton in Hm as ->; [|by left].
    right; left. by exists q. }
  destruct (Z.eqb_spec n 2) as [->|].
  { destruct (codec_decode msg); cbn in Hm; [by apply elem_of_nil in Hm|]. apply list_elem_of_singleton in Hm as ->. by left. }
  destruct (Z.eqb_spec n 3) as [->|]; [|cbn in Hm; apply list_elem_of_singleton in Hm as ->; by left].
  destruct (codec_decode msg) as [q|]; cbn in Hm; apply list_elem_of_singleton in Hm as ->; [|by left].
  right; right. by exists q.
Qed.

(** Every answer says something of its own request that the wire can carry. *)
Lemma file_answers_ok (req : RpcSvrReq) (m : noti_msg (FileServerTask (Errno := Errno))) :
  m ∈ answers dispatch req -> exists o, msg_says m (sq_seq req, o) /\ outcome_fits o.
Proof using resp_ok resp_msg errno_inv errno_range.
  destruct req as [seq [a|n] msg blob]; intros Hm; cbn [sq_seq].
  { apply list_elem_of_singleton in Hm as ->. exists (Err (ERpc Decode)). split; [done|apply internal_fits]. }
  destruct (Z.eq_dec n 0) as [->|Hn].
  { exists (if bool_decide (msg = []) then Ok ([], None) else Err (ERpc Decode)).
    unfold answers, is_ping in Hm. cbn in Hm. destruct (bool_decide _); cbn in Hm;
      apply list_elem_of_singleton in Hm as ->; (split; [done|]); [by vm_compute|apply internal_fits]. }
  destruct (answers_num _ _ _ _ _ Hm Hn) as [[-> _]|[(q & -> & _ & ->)|(q & -> & _ & ->)]].
  - exists (Err (ERpc Decode)). split; [done|apply internal_fits].
  - exists (Ok ([], None)). split; [apply open_answer_says|by vm_compute].
  - exists (write_outcome blob). split; [apply write_answer_says|apply write_outcome_fits].
Qed.

(** *** What the caller gets *)

Lemma encoded_decodes {A} `{!Codec A} `{!CodecOk A} (q : A) msg :
  codec_encode_into q [] = ([] ++ msg, Ok (zlen msg)) -> codec_decode msg = Ok q.
Proof.
  intros H. destruct (codec_appends q) as [(msg' & E & H')|[f H']]; rewrite H' in H; [|done].
  injection H as ->. by apply codec_decode_encode.
Qed.

(** The answer to a request of the service, by its action. *)
Lemma open_answered seq msg blob (q : FileOpenReq) (m : noti_msg (FileServerTask (Errno := Errno))) o :
  codec_decode msg = Ok q -> m ∈ answers dispatch (SvrReq seq (ANum 1) msg blob) -> msg_says m (seq, o) ->
  o = Ok ([], None).
Proof.
  intros Hq Hm Hs. destruct (answers_num _ _ _ _ _ Hm) as [[_ E]|[(q' & _ & _ & ->)|(q' & ? & _)]]; [done| | |done].
  - rewrite dispatch_num in E. cbn in E. by rewrite Hq in E.
  - pose proof (msg_says_unique _ _ _ Hs (open_answer_says _ _ _)) as [= ->]. done.
Qed.

Lemma read_answered seq msg blob (q : FileIOReq) (m : noti_msg (FileServerTask (Errno := Errno))) :
  codec_decode msg = Ok q -> m ∈ answers dispatch (SvrReq seq (ANum 2) msg blob) -> False.
Proof.
  intros Hq Hm. destruct (answers_num _ _ _ _ _ Hm) as [[_ E]|[(q' & ? & _)|(q' & ? & _)]]; try done.
  rewrite dispatch_num in E. cbn in E. by rewrite Hq in E.
Qed.

Lemma write_answered seq msg blob (q : FileIOReq) (m : noti_msg (FileServerTask (Errno := Errno))) o :
  codec_decode msg = Ok q -> m ∈ answers dispatch (SvrReq seq (ANum 3) msg blob) -> msg_says m (seq, o) ->
  o = write_outcome blob.
Proof using resp_ok resp_msg.
  intros Hq Hm Hs. destruct (answers_num _ _ _ _ _ Hm) as [[_ E]|[(q' & ? & _)|(q' & _ & _ & ->)]]; [done| |done|].
  - rewrite dispatch_num in E. cbn in E. by rewrite Hq in E.
  - pose proof (msg_says_unique _ _ _ Hs (write_answer_says _ _ _)) as [= ->]. done.
Qed.

(** What the outcome of a write does to the task. *)
Lemma write_outcome_ok (s : struct_val file_data Errno) (p : FileIOResp) b :
  codec_encode p = Ok b -> b <> [] ->
  exists t', outcome_event error_handle_default (Ok (b, None)) (existT "Write"%string s : FT) = EvDone t' /\
    shows t' (Ok (Some p)).
Proof using resp_ok.
  intros E Hb. unfold outcome_event, finish_event. cbn [blob_size Z.ltb Z.compare].
  rewrite bool_decide_eq_false_2 by done.
  assert (Hd : decode_resp (existT "Write"%string s : FT) b =
    Ok (existT "Write"%string (<["resp"%string := VOpt (Some (VData (DIOResp p)))]> s) : FT)).
  { assert (Hf : file_decode (ty_named "FileIOResp") b = Ok (VData (DIOResp p) : val file_data Errno))
      by (cbn; by rewrite (codec_decode_encode _ _ E)).
    cbn. unfold gen_decode_resp. change (env_decode ?ty b) with (file_decode (Errno := Errno) ty b).
    change (arg_of "Option" (ct_resp (task_codes "Write")).2) with (Some (ty_named "FileIOResp")).
    cbn [mbind option_bind]. by rewrite Hf. }
  rewrite Hd. eexists. split; [reflexivity|]. cbn -[gen_get_result].
  split; [apply get_result_set|].
  transitivity ((<["resp"%string := VOpt (Some (VData (DIOResp p)))]> s : struct_val file_data Errno) !! "resp"%string).
  - by apply struct_val_ne.
  - apply struct_val_eq.
Qed.

Lemma write_outcome_err (s : struct_val file_data Errno) :
  exists t', outcome_event error_handle_default (Err (err_encode EINVAL)) (existT "Write"%string s : FT) = EvDone t' /\
    shows t' (Err EINVAL).
Proof using errno_inv errno_range.
  destruct (errno_sendable EINVAL) as [[Hn Hd] _]. eexists. split; [reflexivity|].
  transitivity (Some (Err (custom_error file_done (err_encode EINVAL)) : result unit (RpcError Errno)));
    [apply get_result_set|]. cbn in Hn, Hd |- *. by rewrite (as_u32_small _ Hn), Hd.
Qed.

Lemma file_shows r k msg (m : noti_msg (FileServerTask (Errno := Errno))) o :
  let t : FT := set_seq (file_task r) k in
  encodes_to t msg -> m ∈ answers dispatch (svr_view t msg) -> msg_says m (k, o) ->
  exists t' a, outcome_event error_handle_default o t = EvDone t' /\ file_serve EINVAL r = Some a /\ shows t' a.
Proof.
  intros t He Hm Hs. specialize (He []). destruct r as [p|ino off n|ino off data].
  - assert (Hq : codec_decode msg = Ok (MkOpenReq p)) by exact (encoded_decodes _ _ He).
    rewrite (open_answered k msg None _ m o Hq Hm Hs).
    eexists _, _. split; [reflexivity|]. split; [reflexivity|]. split; reflexivity.
  - assert (Hq : codec_decode msg = Ok (MkIOReq ino off n)) by exact (encoded_decodes _ _ He).
    destruct (read_answered k msg None _ m Hq Hm).
  - assert (Hq : codec_decode msg = Ok (MkIOReq ino off (iobuf_len data))) by exact (encoded_decodes _ _ He).
    set (blob := if 0 <? zlen (bdata data) then Some (bdata data) else None).
    rewrite (write_answered k msg blob _ m o Hq Hm Hs). subst blob. unfold file_serve.
    set (s := gen_set_seq write_code (FileClientTaskWrite_new ino off data) k : struct_val file_data Errno).
    destruct (Z.ltb_spec 0 (zlen (bdata data))) as [Hl|Hl].
    + rewrite bool_decide_eq_false_2 by (intros E; by rewrite E in Hl).
      cbn [write_outcome]. unfold iobuf_len.
      destruct (resp_msg (as_u64 (zlen (bdata data)))) as (b & E & Hb & _); [apply as_u64_range|]. rewrite E.
      destruct (write_outcome_ok s (MkIOResp (as_u64 (zlen (bdata data)))) b E Hb) as (t' & Et & Hs').
      exists t', (Ok (Some (MkIOResp (as_u64 (zlen (bdata data)))))). split; [exact Et|done].
    + pose proof (zlen_nonneg (bdata data)). rewrite bool_decide_eq_true_2 by (apply zlen_nil_iff; lia).
      destruct (write_outcome_err s) as (t' & E & Hs'). exists t', (Err EINVAL). split; [exact E|done].
Qed.

(** *** Failures of the connection *)

Lemma own_failure_shows ev :
  own_failure (T := FT) error_handle_default ev ->
  exists t, ev = EvDone t /\ (file_get_result t = Some (Err (Rpc IO)) \/ file_get_result t = Some (Err (Rpc Timeout))).
Proof.
  intros ([v s] & e & He & ->).
  assert (Hr : forall e, file_get_result (set_rpc_error (existT v s : FT) e) = Some (Err (Rpc e))).
  { intros e'. cbn -[gen_get_result]. unfold task_set_rpc_error. rewrite task_codes_done. apply get_result_set. }
  eexists. split; [reflexivity|]. destruct He as [-> | ->]; rewrite Hr; auto.
Qed.

(** *** Running the service *)
Context (buffer_alloc : Z -> bool) (alloc_i32 : forall n, 0 < n <= I32_MAX -> buffer_alloc n = true).
Context (cid timeout thr : Z) (cid_ok : is_u64 cid) (timeout_ok : 0 <= timeout).

(** C10. The callers of the file service. Any number of open, read and write
    tasks, built by their constructors, sent over one connection to a server
    that runs the benchmark's handler, under every interleaving of the
    coroutines and every behaviour of the network: a task that comes back is
    one that was submitted, and comes back once. It reports a failure of the
    connection (IO) or that no answer came in time (Timeout), or it shows what
    the service promises for its own request: an open succeeds, a write of data
    reports the size of exactly its data, a write of no data fails with EINVAL;
    a read is never answered.
    (The runs are those of [sys_run]: the read of a header that the close channel
    cuts off half-way, which puts the client out of step, is not followed.) *)
Theorem file_calls sys h :
  (forall t, t ∈ h_tasks h -> exists r, t = file_task r) ->
  sys_run buffer_alloc error_handle_default dispatch cid timeout thr sys h ->
  (forall ev, ev ∈ h_evs h -> exists t r, ev = EvDone t /\ file_task r ∈ h_tasks h /\ request_of t = Some r /\
    (file_get_result t = Some (Err (Rpc IO)) \/ file_get_result t = Some (Err (Rpc Timeout)) \/
     exists a, file_serve EINVAL r = Some a /\ shows t a)) /\
  exists rest, map request_of (h_tasks h) ≡ₚ map (fun ev => request_of (ev_task ev)) (h_evs h) ++ rest.
Proof using All.
  intros Htasks Hrun.
  assert (Hact : forall t, t ∈ h_tasks h -> forall k, action_sendable (get_action (set_seq t k))).
  { intros t [r ->]%Htasks k. by destruct r. }
  destruct (inv_sys_run buffer_alloc error_handle_default dispatch cid timeout thr (fun t => eq_refl)
    file_task_reserve_exact alloc_i32 cid_ok file_encode_appends (fun req m _ => file_answers_ok req m)
    sys h timeout_ok Hrun Hact) as (sent & back & H).
  destruct (sys_tags buffer_alloc error_handle_default dispatch cid timeout thr (fun t => eq_refl) sys h
    timeout_ok Hrun) as [_ [rest Hp]].
  split; [|exists (stream_tags (sy_client sys) ++ rest); rewrite Hp; solve_Permutation].
  intros ev Hev.
  assert (Htag : exists r, file_task r ∈ h_tasks h /\ request_of (ev_task ev) = Some r).
  { assert (Hin : ev_tag ev ∈ map tag (h_tasks h)).
    { rewrite Hp, !elem_of_app. right; left. by apply list_elem_of_fmap_2. }
    apply list_elem_of_fmap in Hin as (t & E & Ht). destruct (Htasks t Ht) as [r ->]. exists r.
    split; [done|]. etransitivity; [exact E|apply request_of_task]. }
  destruct Htag as (r & Hr & Er).
  pose proof (yi_events _ _ _ _ _ _ _ _ H) as Hes. rewrite Forall_forall in Hes.
  destruct (Hes ev Hev) as [Hf|Ha].
  { apply own_failure_shows in Hf as (t & -> & Hf). exists t, r. split; [done|]. split; [done|]. split; [done|]. tauto. }
  destruct Ha as (t0 & k & msg & m & o & Ht0 & Henc & _ & Hans & _ & Hsays & ->). cbn zeta in *.
  destruct (Htasks t0 Ht0) as [r0 ->].
  destruct (file_shows r0 k msg m o Henc Hans Hsays) as (t' & a & Ee & Ea & Hshow). rewrite Ee in *.
  assert (E : request_of (ev_task (EvDone t')) = Some r0).
  { rewrite <- Ee. etransitivity; [exact (ev_tag_outcome error_handle_default o _ (fun t => eq_refl))|].
    etransitivity; [apply tag_set_seq|apply request_of_task]. }
  rewrite E in Er. injection Er as ->.
  exists t', r. split; [done|]. split; [done|]. split; [done|]. right; right. by exists a.
Qed.

End service.

(** ** A concrete instance: a write and an open, served together *)
Module FileWitness.

Inductive errno2 : Type := EPERM | EINVAL.
Definition raw (e : errno2) : Z := match e with EPERM => 1 | EINVAL => 22 end.
Definition from_raw (n : Z) : errno2 := if n =? 1 then EPERM else EINVAL.
Definition debug (e : errno2) : bytes := match e with EPERM => str_bytes "EPERM" | EINVAL => str_bytes "EINVAL" end.

(** Messages: a path as it is, numbers on eight bytes. *)
Definition u64b (n : Z) : bool := (0 <=? n) && (n <? 2 ^ 64).
#[local] Instance open_codec : Codec FileOpenReq :=
  MsgpCodec (fun q => Some (path q)) (fun q => (path q, true)) (fun b => Some (MkOpenReq b)).
Definition io_bytes (q : FileIOReq) : option bytes :=
  if u64b (inode q) && u64b (offset q) && u64b (io_len q)
  then Some (le_bytes 8 (inode q) ++ le_bytes 8 (offset q) ++ le_bytes 8 (io_len q)) else None.
Definition written {A} (to : A -> option bytes) (x : A) : bytes * bool :=
  match to x with Some b => (b, true) | None => ([], false) end.
#[local] Instance io_codec : Codec FileIOReq :=
  MsgpCodec io_bytes (written io_bytes)
    (fun b => Some (MkIOReq (le_val (take 8 b)) (le_val (take 8 (drop 8 b))) (le_val (drop 16 b)))).
Definition resp_bytes (p : FileIOResp) : option bytes :=
  if u64b (ret_size p) then Some (le_bytes 8 (ret_size p)) else None.
#[local] Instance resp_codec : Codec FileIOResp :=
  MsgpCodec resp_bytes (written resp_bytes) (fun b => Some (MkIOResp (le_val b))).
#[local] Instance unit_codec : Codec unit :=
  MsgpCodec (fun _ => Some [Byte.xc0]) (fun _ => ([Byte.xc0], true)) (fun _ => Some tt).

Lemma written_to {A} (to : A -> option bytes) x :
  match to x with Some b => written to x = (b, true) | None => exists junk, written to x = (junk, false) end.
Proof. unfold written. destruct (to x); eauto. Qed.

Lemma u64b_ok n : u64b n = true -> is_u64 n.
Proof. unfold u64b, is_u64. lia. Qed.

#[local] Instance open_codec_ok : CodecOk FileOpenReq.
Proof. apply MsgpCodec_laws; [done|]. by intros [p] b [= <-]. Qed.
#[local] Instance resp_codec_ok : CodecOk FileIOResp.
Proof.
  apply MsgpCodec_laws; [apply written_to|]. intros [n] b. unfold resp_bytes. cbn [ret_size].
  destruct (u64b n) eqn:E; [|done]. intros H. apply (inj Some) in H as <-. by rewrite le_val_u64 by (by apply u64b_ok).
Qed.
#[local] Instance io_codec_ok : CodecOk FileIOReq.
Proof.
  apply MsgpCodec_laws; [apply written_to|]. intros [i o n] b. unfold io_bytes. cbn [inode offset io_len].
  destruct (u64b i && u64b o && u64b n) eqn:E; [|done]. intros H. apply (inj Some) in H as <-.
  apply andb_prop in E as [[Ei Eo]%andb_prop En].
  rewrite take_app_length', drop_app_length', take_app_length' by (by rewrite length_le_bytes).
  replace 16%nat with (8 + 8)%nat by done. rewrite <- drop_drop.
  rewrite !drop_app_length' by (by rewrite length_le_bytes). by rewrite !le_val_u64 by (by apply u64b_ok).
Qed.

Definition alloc (n : Z) : option iobuf :=
  if n <? 0 then None else Some (IoBuf (replicate (Z.to_nat n) Byte.x00) n).
Lemma alloc_len n b : alloc n = Some b -> iobuf_len b = n.
Proof.
  unfold alloc. destruct (Z.ltb_spec n 0); [done|]. intros [= <-]. unfold iobuf_len, zlen. cbn.
  rewrite length_replicate. lia.
Qed.

Abbreviation T := (FileClientTask (Errno := errno2)).
Abbreviation R := (FileServerTask (Errno := errno2)).
#[local] Instance ct : ClientTask T := file_client_task from_raw alloc.
#[local] Instance st : ServerTaskEncode R := file_server_task raw from_raw debug.
Definition dispatch : RpcSvrReq -> may (dispatched R) := file_dispatch EINVAL.
Definition always (_ : Z) : bool := true.

(** A write of three bytes, an open, a write of nothing; they are read and
    answered in pieces, and all come back. *)
Definition data (x : String.string) : iobuf := IoBuf (str_bytes x) 16.
Definition r1 : file_req := RWrite 1 0 (data "abc").
Definition r2 : file_req := ROpen (str_bytes "/tmp/f").
Definition r3 : file_req := RWrite 1 3 (data "").
Definition task (r : file_req) : T := file_task r.
Definition schedule : list (turn T) :=
  [TSend (task r1); TSend (task r2); TUp 59; TServe; TSend (task r3); TWrite; TUp 200; TServe; TServe;
   TDown 200; TReceive; TWrite; TWrite; TDown 200; TReceive; TReceive].

Definition result : System T R * history T R := schedule_result always error_handle_default dispatch 1 3 4 schedule.
Definition seen : history T R := result.2.

Lemma resp_msg n : is_u64 n -> exists b, codec_encode (MkIOResp n) = Ok b /\ b <> [] /\ zlen b <= I32_MAX.
Proof.
  intros [H1 H2]. exists (le_bytes 8 n). cbn -[le_bytes]. unfold MsgpCodec_encode, resp_bytes, u64b. cbn -[le_bytes].
  rewrite (proj2 (Z.leb_le _ _) H1), (proj2 (Z.ltb_lt _ _) H2). by split.
Qed.

(** All three come back: the write with the size of its data, the open, and
    the write of nothing with EINVAL. *)
Lemma file_calls_witness :
  map (fun ev => (request_of (ev_task ev), file_get_result (ev_task ev))) (h_evs seen) =
    [(Some r1, Some (Ok tt)); (Some r2, Some (Ok tt)); (Some r3, Some (Err (User EINVAL)))] /\
  forall ev, ev ∈ h_evs seen -> exists t r, ev = EvDone t /\ file_task r ∈ h_tasks seen /\ request_of t = Some r /\
    (file_get_result t = Some (Err (Rpc IO)) \/ file_get_result t = Some (Err (Rpc Timeout)) \/
     exists a, file_serve EINVAL r = Some a /\ shows t a).
Proof.
  split; [vm_compute; reflexivity|].
  destruct (file_calls raw from_raw debug EINVAL alloc alloc_len ltac:(by intros []) ltac:(by intros [])
    resp_msg always (fun n _ => eq_refl) 1 3 4 SystemWitness.one_u64 ltac:(lia) result.1 seen) as [H _].
  - assert (E : h_tasks seen = [task r1; task r2; task r3]).
    { vm_cast_no_check (eq_refl [task r1; task r2; task r3]). }
    rewrite E.
    intros t [-> |[-> |[-> |[]%elem_of_nil]%elem_of_cons]%elem_of_cons]%elem_of_cons; by eexists.
  - apply schedule_run.
  - exact H.
Defined.

End FileWitness.
