(* ===== verification/ServiceMacro.v ===== *)
(** * The API macros (macros/src)

    [service] turns an [impl Trait for Struct] into a [ServiceStatic],
    [service_mux_struct] a struct of services into a dispatcher,
    [endpoint_async] a trait into calls of a client. The generated dispatch is
    that of [ApiServer] ([service_serve], [mux_struct_serve]); here is how the
    macros fill it, and what they refuse. *)
From Stdlib Require Import ZArith Lia Strings.String.
From stdpp Require Import base list strings.
From S2P Require Import Prelude Errors Codec Task ServerTask ApiServer MacroSyntax.
Local Open Scope Z_scope.
Local Open Scope rpc_scope.

(** ** Items *)

(** [FnArg]: [self], or a typed argument whose pattern may be an identifier. *)
Inductive fn_arg : Type :=
| Receiver
| Typed (pat : option ident) (ty : SynType).

(** [Signature]; the output is [None] for [ReturnType::Default]. *)
Record fn_sig : Type := FnSig {
  sig_ident : ident;
  sig_async : bool;
  sig_inputs : list fn_arg;
  sig_output : option SynType;
}.

(** [ImplItem] and [TraitItem]. *)
Inductive assoc_item : Type :=
| IMethod (sig : fn_sig)
| IOther.

Inductive syn_item : Type :=
| ItImpl (trait_ : option (list segment)) (items : list assoc_item)
| ItStruct (fields : list (ident * SynType))
| ItOther.

(** ** Return types *)

(** [get_result_type_from_future]: the [Output] of the first [Future<..>]
    bound that binds one. *)
Definition output_binding (arg : generic_argument) : option SynType :=
  match arg with
  | GBinding n ty => if decide (n = "Output"%string) then Some ty else None
  | _ => None
  end.

Definition future_output (b : bound) : option SynType :=
  match b with
  | BTrait segs =>
    match last segs with
    | Some seg =>
      match angle_args "Future" seg with
      | Some args => head (omap output_binding args)
      | None => None
      end
    | None => None
    end
  | BLifetime => None
  end.

Definition get_result_type_from_future (ty : SynType) : option SynType :=
  match ty with
  | TyImplTrait bounds => head (omap future_output bounds)
  | _ => None
  end.

(** [Result<_, RpcError..>]: two arguments, the second a path to [RpcError]. *)
Definition check_result_type (ty : SynType) : bool :=
  match type_last_segment ty with
  | Some seg =>
    match angle_args "Result" seg with
    | Some [_; GType ety] =>
      match type_last_segment ety with
      | Some error_segment => bool_decide (seg_ident error_segment = "RpcError"%string)
      | None => false
      end
    | _ => false
    end
  | None => false
  end.

Definition check_return_type (output : option SynType) (returns_impl_future : bool) : bool :=
  match output with
  | Some ty =>
    if returns_impl_future then
      match get_result_type_from_future ty with
      | Some output_type => check_result_type output_type
      | None => false
      end
    else check_result_type ty
  | None => false
  end.

Definition returns_impl_future (sig : fn_sig) : bool :=
  match sig_output sig with
  | Some ty => bool_decide (is_Some (get_result_type_from_future ty))
  | None => false
  end.

(** ** #[service] *)

(** [segment.ident == "Pin" && type_path.path.segments.len() > 1]. *)
Definition returns_pin_box_future (sig : fn_sig) : bool :=
  match sig_output sig with
  | Some (TyPath _ _ segs) =>
    match last segs with
    | Some seg => bool_decide (seg_ident seg = "Pin"%string) && (1 <? length segs)%nat
    | None => false
    end
  | _ => false
  end.

Definition should_await (sig : fn_sig) : bool :=
  sig_async sig || returns_pin_box_future sig || returns_impl_future sig.

(** The first typed argument. *)
Definition typed_arg (arg : fn_arg) : option SynType :=
  match arg with Typed _ ty => Some ty | Receiver => None end.

Definition service_method_data (sig : fn_sig) : expansion (ident * SynType) :=
  let! arg_ty := expect (head (omap typed_arg (sig_inputs sig))) in
  let! _ := panic_if (negb (should_await sig)) in
  Expand (sig_ident sig, arg_ty).

Fixpoint service_methods_data (items : list assoc_item) : expansion (list (ident * SynType)) :=
  match items with
  | [] => Expand []
  | IMethod sig :: items =>
    let! m := service_method_data sig in
    let! ms := service_methods_data items in
    Expand (m :: ms)
  | IOther :: items => service_methods_data items
  end.

(** The generated [ServiceStatic]: [SERVICE_NAME], and the methods with an
    arm and a [__handle_<method>]. *)
Record service_code : Type := SvcCode {
  sc_name : ident;
  sc_methods : list (ident * SynType);
}.

Definition service (item : syn_item) : expansion service_code :=
  match item with
  | ItImpl (Some path) items =>
    let! seg := expect (last path) in
    let! methods := service_methods_data items in
    Expand (SvcCode (seg_ident seg) methods)
  | _ => MacroPanic
  end.

(** [serve]: an arm per method; [handlers m] is [__handle_m]. *)
Definition service_arms (c : service_code) (handlers : ident -> handler) : list (bytes * handler) :=
  (fun m => (str_bytes (fst m), handlers (fst m))) <$> sc_methods c.

(** ** #[service_mux_struct] *)

(** [SERVICE_NAME] and [serve] of a field's type. *)
Record static_service : Type := StaticSvc { ss_name : ident; ss_serve : handler }.

(** An arm per field: [<ty as ServiceStatic<C>>::SERVICE_NAME => self.f.serve(req)]. *)
Definition service_mux_struct (impls : ident -> SynType -> static_service) (item : syn_item)
    : expansion (list (bytes * handler)) :=
  match item with
  | ItStruct fields =>
    Expand ((fun f => let s := impls (fst f) (snd f) in (str_bytes (ss_name s), ss_serve s)) <$> fields)
  | _ => MacroPanic
  end.

(** The [ServiceStatic] of a type annotated with [#[service]]. *)
Definition static_of (c : service_code) (handlers : ident -> handler) : static_service :=
  StaticSvc (sc_name c) (service_serve (service_arms c handlers)).

(** ** endpoint_client!: the struct around a caller *)

Record endpoint_client (C : Type) : Type := EndpointClient { caller : C }.
Arguments EndpointClient {C} caller.
Arguments caller {C} e.

Definition endpoint_new {C} (c : C) : endpoint_client C := EndpointClient c.
Definition endpoint_as_ref {C} (e : endpoint_client C) : C := caller e.
Definition endpoint_clone {C} (clone : C -> C) (e : endpoint_client C) : endpoint_client C :=
  EndpointClient (clone (caller e)).

(** ** #[endpoint_async] *)

(** A generated method: it calls [em_service_method] with its argument, or
    with [()]. *)
Record endpoint_method : Type := EMethod {
  em_ident : ident;
  em_service_method : bytes;
  em_arg : option (ident * SynType);
  em_async : bool;
  em_impl_future : bool;
}.

Definition endpoint_method_impl (trait_name : ident) (sig : fn_sig) : expansion endpoint_method :=
  let! arg :=
    match sig_inputs sig with
    | [_] => MacroPanic
    | [_; arg] =>
      Expand (match arg with Typed (Some n) ty => Some (n, ty) | _ => None end)
    | _ => MacroPanic
    end in
  let name := service_method (str_bytes trait_name) (str_bytes (sig_ident sig)) in
  let impl_future := returns_impl_future sig in
  let! _ := panic_if (negb (check_return_type (sig_output sig) impl_future)) in
  Expand (EMethod (sig_ident sig) name arg (sig_async sig || impl_future) impl_future).

Fixpoint generate_trait_impl (trait_name : ident) (items : list assoc_item)
    : expansion (list endpoint_method) :=
  match items with
  | [] => Expand []
  | IMethod sig :: items =>
    let! m := endpoint_method_impl trait_name sig in
    let! ms := generate_trait_impl trait_name items in
    Expand (m :: ms)
  | IOther :: items => generate_trait_impl trait_name items
  end.

(** The attribute is one identifier, the name of the client. *)
Definition endpoint_async_args (toks : list token) : expansion ident :=
  match toks with [TkIdent client_name] => Expand client_name | _ => SyntaxError end.

Definition endpoint_async (toks : list token) (trait_name : ident) (items : list assoc_item)
    : expansion (ident * list endpoint_method) :=
  let! client_name := endpoint_async_args toks in
  let! methods := generate_trait_impl trait_name items in
  Expand (client_name, methods).

(** The call a generated method makes: [caller.call(name, &arg)]. *)
Definition endpoint_call {A R} (call : bytes -> A -> R) (m : endpoint_method) (arg : A) : R :=
  call (em_service_method m) arg.

(** ** What the macros accept *)

Definition is_rpc_result (ty : SynType) : Prop :=
  exists s ok_arg ety e, type_last_segment ty = Some s /\ angle_args "Result" s = Some [ok_arg; GType ety] /\
    type_last_segment ety = Some e /\ seg_ident e = "RpcError"%string.

(** A method of an endpoint: [&self] and one argument, and a result that is
    a [Result<_, RpcError<_>>], or a future of one. *)
Definition endpoint_ok (sig : fn_sig) : Prop :=
  length (sig_inputs sig) = 2%nat /\
  exists ty, sig_output sig = Some ty /\ is_rpc_result (default ty (get_result_type_from_future ty)).

(** A method of a service: an argument, and something to await. *)
Definition service_ok (sig : fn_sig) : Prop :=
  (exists p ty, Typed p ty ∈ sig_inputs sig) /\ should_await sig = true.

Definition methods_of (items : list assoc_item) : list fn_sig :=
  omap (fun i => match i with IMethod sig => Some sig | IOther => None end) items.

Lemma check_result_type_spec ty : check_result_type ty = true <-> is_rpc_result ty.
Proof.
  unfold check_result_type, is_rpc_result. split.
  - destruct (type_last_segment ty) as [s|]; [|done].
    destruct (angle_args "Result" s) as [[|a [|[ety| |] [|]]]|] eqn:Ea; try done.
    destruct (type_last_segment ety) as [e|] eqn:Ee; [|done]. intros H%bool_decide_eq_true.
    by exists s, a, ety, e.
  - intros (s & a & ety & e & -> & -> & -> & He). by apply bool_decide_eq_true.
Qed.

Lemma check_return_type_spec sig :
  check_return_type (sig_output sig) (returns_impl_future sig) = true <->
  exists ty, sig_output sig = Some ty /\ is_rpc_result (default ty (get_result_type_from_future ty)).
Proof.
  unfold check_return_type, returns_impl_future. destruct (sig_output sig) as [ty|]; [|naive_solver].
  setoid_rewrite <-check_result_type_spec.
  destruct (get_result_type_from_future ty) as [out|] eqn:Eo; cbn;
    (split; [intros H; exists ty; by rewrite Eo|intros (ty' & [= <-] & H); by rewrite Eo in H]).
Qed.

Lemma endpoint_method_impl_ok t sig :
  (exists m, endpoint_method_impl t sig = Expand m) <-> endpoint_ok sig.
Proof.
  unfold endpoint_ok. rewrite <-check_return_type_spec. unfold endpoint_method_impl.
  destruct (sig_inputs sig) as [|a [|b [|]]]; cbn; try (split; [by intros []|by intros []]).
  destruct (check_return_type _ _); cbn; [|split; [by intros []|by intros []]]. split; [done|]. eauto.
Qed.

Lemma service_method_data_ok sig :
  (exists m, service_method_data sig = Expand m) <-> service_ok sig.
Proof.
  unfold service_method_data, service_ok. destruct (should_await sig); cbn.
  - assert (H : (exists p ty, Typed p ty ∈ sig_inputs sig) <-> exists ty, head (omap typed_arg (sig_inputs sig)) = Some ty).
    { induction (sig_inputs sig) as [|[|p ty] l IH]; cbn.
      - split; [by intros (? & ? & ?%elem_of_nil)|by intros []].
      - rewrite <-IH. setoid_rewrite elem_of_cons. naive_solver.
      - split; [eauto|]. intros _. exists p, ty. by left. }
    rewrite H. destruct (head _); cbn; naive_solver.
  - split; [|by intros []]. intros [m Hm]. apply exp_bind_Expand in Hm as (? & ? & ?). done.
Qed.

(** The loop over the items, for either macro. *)
Lemma items_all {B} (g : fn_sig -> expansion B) (P : fn_sig -> Prop) (loop : list assoc_item -> expansion (list B)) :
  (forall sig, (exists m, g sig = Expand m) <-> P sig) ->
  loop [] = Expand [] -> (forall items, loop (IOther :: items) = loop items) ->
  (forall sig items, loop (IMethod sig :: items) =
     let! m := g sig in let! ms := loop items in Expand (m :: ms)) ->
  forall items, (exists ms, loop items = Expand ms) <-> Forall P (methods_of items).
Proof.
  intros Hg H0 Ho Hm items. induction items as [|[sig|] items IH]; cbn.
  - split; [constructor|eauto].
  - rewrite Hm, Forall_cons, <-Hg, <-IH. split.
    + intros [ms H]. inv_exp. eauto.
    + intros [[m ->] [ms ->]]. cbn. eauto.
  - by rewrite Ho.
Qed.

(** The endpoint_async macro accepts exactly the traits whose methods
    take one argument besides [&self] and return [Result<_, RpcError<_>>], or
    an [impl Future] with that [Output]. *)
Theorem endpoint_accepts_iff toks trait_name items :
  (exists r, endpoint_async toks trait_name items = Expand r) <->
  (exists client, toks = [TkIdent client]) /\ Forall endpoint_ok (methods_of items).
Proof.
  rewrite <-(items_all (endpoint_method_impl trait_name) endpoint_ok (generate_trait_impl trait_name)
    (endpoint_method_impl_ok trait_name)) by done.
  unfold endpoint_async, endpoint_async_args. split.
  - intros [r H]. destruct toks as [|[n| | |] [|]]; try done. cbn in H. inv_exp. eauto.
  - intros [[n ->] [ms Hms]]. cbn. rewrite Hms. cbn. eauto.
Qed.

(** The service macro accepts exactly the [impl Trait for Struct]
    blocks whose methods take an argument and are [async], return an
    [impl Future] that binds its [Output], or a [Pin] of a qualified path. *)
Theorem service_accepts_iff item :
  (exists c, service item = Expand c) <->
  exists path items, item = ItImpl (Some path) items /\ path <> [] /\ Forall service_ok (methods_of items).
Proof.
  pose proof (items_all service_method_data service_ok service_methods_data service_method_data_ok
    eq_refl ltac:(done) ltac:(done)) as Hall. unfold service. split.
  - intros [c H]. destruct item as [[path|] items| |]; try done. inv_exp. exists path, items.
    split; [done|]. rewrite <-Hall. split; [by intros ->|eauto].
  - intros (path & items & -> & Hp & [ms Hms]%Hall). apply last_is_Some in Hp as [seg ->]. cbn.
    rewrite Hms. cbn. eauto.
Qed.

(** ** Routing *)

Lemma str_bytes_inj a b : str_bytes a = str_bytes b -> a = b.
Proof.
  unfold str_bytes. intros H. rewrite <-(String.string_of_list_byte_of_string a).
  rewrite <-(String.string_of_list_byte_of_string b). by rewrite H.
Qed.

(** The arms of a struct of services: the first field of that service name. *)
Definition serves (impls : ident -> SynType -> static_service) (n : ident) (f : ident * SynType) : bool :=
  bool_decide (ss_name (impls (fst f) (snd f)) = n).

Lemma mux_arms_find impls fields arms n :
  service_mux_struct impls (ItStruct fields) = Expand arms ->
  match_arms arms (str_bytes n) =
    (fun f => ss_serve (impls (fst f) (snd f))) <$> List.find (serves impls n) fields.
Proof.
  intros [= <-]. induction fields as [|f fields IH]; [done|]. cbn. unfold serves at 1.
  case_decide as Hd; case_bool_decide as Hb; try done.
  - apply str_bytes_inj in Hd. congruence.
  - by rewrite Hb in Hd.
Qed.

Lemma service_arms_find c handlers n :
  n ∈ fst <$> sc_methods c -> match_arms (service_arms c handlers) (str_bytes n) = Some (handlers n).
Proof.
  unfold service_arms. induction (sc_methods c) as [|[m ty] ms IH]; [by intros ?%elem_of_nil|].
  cbn. intros H. case_decide as Hd; [by apply str_bytes_inj in Hd as ->|].
  apply elem_of_cons in H as [->|H]; [done|]. by apply IH.
Qed.

Lemma service_methods_idents items ms :
  service_methods_data items = Expand ms -> fst <$> ms = sig_ident <$> methods_of items.
Proof.
  revert ms. induction items as [|[sig|] items IH]; intros ms H; cbn in *; [by injection H as <-| |by apply IH].
  unfold service_method_data in H. inv_exp. subst. cbn. f_equal. by apply IH.
Qed.

Lemma endpoint_method_sound t items ms m :
  generate_trait_impl t items = Expand ms -> m ∈ ms ->
  em_service_method m = service_method (str_bytes t) (str_bytes (em_ident m)) /\
  em_ident m ∈ sig_ident <$> methods_of items.
Proof.
  revert ms. induction items as [|[sig|] items IH]; intros ms H Hm; cbn in *.
  - injection H as <-. by apply elem_of_nil in Hm.
  - unfold endpoint_method_impl in H. inv_exp. subst.
    apply elem_of_cons in Hm as [->|Hm]; [split; [done|by left]|].
    edestruct IH as [-> ?]; [done..|]. split; [done|by right].
  - by apply (IH ms).
Qed.

(** C24. Every call of a generated client reaches the handler of its
    method. For a trait [T] accepted by endpoint_async, an [impl T for S]
    accepted by service (with the methods of the trait), and a struct accepted
    by service_mux_struct in which a field of type [S] is the first of that
    service name, the request of each client method is dispatched to the
    [__handle_] function of that method with its body. *)
Theorem endpoint_methods_served toks trait_name items client ms path impl_items sc handlers
    impls fields x arms :
  endpoint_async toks trait_name items = Expand (client, ms) ->
  service (ItImpl (Some path) impl_items) = Expand sc ->
  seg_ident <$> last path = Some trait_name ->
  (forall sig, sig ∈ methods_of items -> sig_ident sig ∈ sig_ident <$> methods_of impl_items) ->
  service_mux_struct impls (ItStruct fields) = Expand arms ->
  List.find (serves impls trait_name) fields = Some x ->
  impls (fst x) (snd x) = static_of sc handlers ->
  Byte.x2e ∉ str_bytes trait_name ->
  forall m req, m ∈ ms -> sq_action req = AStr (em_service_method m) ->
    api_dispatch_req (inline_dispatch (mux_struct_serve arms)) req =
      inline_dispatch (handlers (em_ident m))
        (ApiSReq (sq_seq req) (str_bytes trait_name) (str_bytes (em_ident m)) (Some (sq_msg req))).
Proof.
  intros He Hs Hp Hsub Hmux Hx Hst Hdot m req Hm Hreq.
  unfold endpoint_async in He. apply exp_bind_Expand in He as (c & _ & He).
  apply exp_bind_Expand in He as (ms' & Hms & [= _ <-]).
  destruct (endpoint_method_sound _ _ _ _ Hms Hm) as [Hname Hin]. rewrite Hname in Hreq.
  rewrite (dispatch_split req (str_bytes trait_name) (str_bytes (em_ident m))) by done.
  unfold inline_dispatch, mux_struct_serve. cbn [aq_service].
  rewrite (mux_arms_find _ _ _ _ Hmux), Hx. cbn. rewrite Hst. cbn. unfold service_serve. cbn [aq_method].
  rewrite service_arms_find; [done|].
  unfold service in Hs. apply exp_bind_Expand in Hs as (seg & _ & Hs).
  apply exp_bind_Expand in Hs as (data & Hd & [= <-]). cbn. rewrite (service_methods_idents _ _ Hd).
  apply list_elem_of_fmap in Hin as (sig & -> & Hsig). by apply Hsub.
Qed.

(** Of two fields whose services have one name, the later is never
    reached: the dispatcher of the struct answers every request as if that
    field were not there. *)
Theorem mux_struct_shadows impls fields1 x fields2 y fields3 arms arms' :
  ss_name (impls (fst x) (snd x)) = ss_name (impls (fst y) (snd y)) ->
  service_mux_struct impls (ItStruct (fields1 ++ x :: fields2 ++ y :: fields3)) = Expand arms ->
  service_mux_struct impls (ItStruct (fields1 ++ x :: fields2 ++ fields3)) = Expand arms' ->
  forall req, mux_struct_serve arms req = mux_struct_serve arms' req.
Proof.
  intros Hn [= <-] [= <-] req. unfold mux_struct_serve.
  rewrite !fmap_app. cbn [fmap list_fmap]. rewrite !fmap_app, !match_arms_app. cbn [fmap list_fmap match_arms].
  destruct (match_arms _ _); [done|]. case_decide as Hx; [done|]. rewrite !match_arms_app. cbn [match_arms].
  destruct (match_arms _ _); [done|]. rewrite decide_False; [done|]. by rewrite <-Hn.
Qed.

(** ** Concrete instances: the examples of the macros' documentation *)
Module ServiceMacroWitness.

Definition rpc_result (n : ident) : SynType :=
  ty_app "Result" [ty_named n; ty_app "RpcError" [TyTuple []]].
Definition future_of (ty : SynType) : SynType :=
  TyImplTrait [BTrait [Seg "Future" (ArgsAngle [GBinding "Output" ty])]; BTrait [Seg "Send" ArgsNone]].
Definition math_method (n : ident) : assoc_item :=
  IMethod (FnSig n true [Receiver; Typed (Some "args"%string) (ty_named "MathArgs")]
    (Some (rpc_result "MathResp"))).
Definition echo_method : assoc_item :=
  IMethod (FnSig "echo" false [Receiver; Typed (Some "args"%string) (ty_named "EchoArgs")]
    (Some (future_of (rpc_result "EchoResp")))).
Definition echo_code : service_code := SvcCode "EchoService" [("echo"%string, ty_named "EchoArgs")].

Example echo_service : service (ItImpl (Some [Seg "EchoService" ArgsNone]) [echo_method]) = Expand echo_code.
Proof. vm_compute. reflexivity. Qed.

(** A method that is not asynchronous is refused by [service] and, when its
    result is none of [RpcError], by [endpoint_async]. *)
Example blocking_refused : service (ItImpl (Some [Seg "EchoService" ArgsNone])
  [IMethod (FnSig "echo" false [Receiver; Typed None (ty_named "EchoArgs")] (Some (rpc_result "EchoResp")))])
  = MacroPanic.
Proof. vm_compute. reflexivity. Qed.

Example invalid_return_refused : endpoint_async [TkIdent "DemoClient"] "InvalidReturnService"
  [IMethod (FnSig "compute" true [Receiver; Typed (Some "args"%string) (ty_named "MyArg")] (Some (ty_named "i32")))]
  = MacroPanic.
Proof. vm_compute. reflexivity. Qed.

Definition answer (b : bytes) : handler := fun q => Ret (ApiSResp (aq_seq q) (Some b) (Some (Ok tt))).
Definition handlers (n : ident) : handler := answer (str_bytes n).
Definition impls (_ : ident) (_ : SynType) : static_service := static_of echo_code handlers.
Definition arms : list (bytes * handler) :=
  [(str_bytes "EchoService", service_serve (service_arms echo_code handlers))].

Lemma endpoint_methods_served_witness :
  api_dispatch_req (inline_dispatch (mux_struct_serve arms))
      (SvrReq 4 (AStr (str_bytes "EchoService.echo")) (str_bytes "hi") None) =
    Ret ([ApiSResp 4 (Some (str_bytes "echo")) (Some (Ok tt))], Ok tt).
Proof.
  pose (m := EMethod "echo" (service_method (str_bytes "EchoService") (str_bytes "echo"))
    (Some ("args"%string, ty_named "EchoArgs")) true true).
  refine (endpoint_methods_served [TkIdent "EchoClient"] "EchoService" [echo_method] "EchoClient" [m]
    [Seg "EchoService" ArgsNone] [echo_method] echo_code handlers impls [("echo"%string, ty_named "EchoServiceImpl")]
    ("echo"%string, ty_named "EchoServiceImpl") arms _ _ _ _ _ _ _ _ m _ _ _).
  - vm_compute. reflexivity.
  - vm_compute. reflexivity.
  - reflexivity.
  - intros sig Hs. apply list_elem_of_fmap. exists sig. split; [reflexivity|exact Hs].
  - reflexivity.
  - vm_compute. reflexivity.
  - reflexivity.
  - apply (bool_decide_unpack _). vm_compute. exact I.
  - left.
  - vm_compute. reflexivity.
Defined.

(** [ServiceMux] of the documentation: [AddService] and [MultiplyService] both
    implement [MathService]. *)
Definition math_code : service_code :=
  SvcCode "MathService" [("add"%string, ty_named "MathArgs"); ("multiply"%string, ty_named "MathArgs")].
Definition math_impls (field : ident) (_ : SynType) : static_service :=
  static_of math_code (fun m => answer (str_bytes field)).
Definition math_fields : list (ident * SynType) :=
  [("add"%string, ty_named "AddService"); ("multiply"%string, ty_named "MultiplyService")].

Definition math_serve (field : ident) : handler :=
  service_serve (service_arms math_code (fun _ => answer (str_bytes field))).

(** A request for [multiply] is answered by [AddService]. *)
Lemma mux_struct_shadows_witness :
  mux_struct_serve [(str_bytes "MathService", math_serve "add"); (str_bytes "MathService", math_serve "multiply")]
    (ApiSReq 4 (str_bytes "MathService") (str_bytes "multiply") (Some [])) =
      Ret (ApiSResp 4 (Some (str_bytes "add")) (Some (Ok tt))).
Proof.
  rewrite (mux_struct_shadows math_impls [] ("add"%string, ty_named "AddService") []
    ("multiply"%string, ty_named "MultiplyService") [] _
    [(str_bytes "MathService", math_serve "add")] eq_refl eq_refl eq_refl).
  vm_compute. reflexivity.
Defined.

End ServiceMacroWitness.
