(* ===== verification/Graceful.v ===== *)
(** * Graceful restart (stream/src/server/graceful.rs)

    [GracefulServer] hands the listening sockets of a server to the program
    that replaces it: the parent writes their numbers into an environment
    variable, the child parses it back. The variable's text, the restart with
    its waiting loop, the recovery of the listeners and the signal loop are
    modelled; processes, files, sockets and the clock are parameters. *)
From Stdlib Require Import ZArith Lia Strings.String.
From Stdlib Require Import Strings.Byte.
From stdpp Require Import base functions list strings pretty sorting.
From S2P Require Import Prelude.
Local Open Scope Z_scope.
Local Open Scope rpc_scope.

(** ** Text of the environment variable *)

(** [slice::join] and [str::split] with a separator of one byte. *)
Fixpoint join (sep : Byte.byte) (l : list bytes) : bytes :=
  match l with
  | [] => []
  | [s] => s
  | s :: l => s ++ sep :: join sep l
  end.

Fixpoint split_on (sep : Byte.byte) (s : bytes) : list bytes :=
  match s with
  | [] => [[]]
  | b :: s =>
    if decide (b = sep) then [] :: split_on sep s
    else match split_on sep s with
         | w :: ws => (b :: w) :: ws
         | [] => [[b]]
         end
  end.

(** [i32::to_string], and [str::parse::<i32>]: an optional sign and digits,
    of a value that fits. *)
Definition i32_to_string (n : Z) : bytes := str_bytes (pretty n).

Definition digit_val (b : Byte.byte) : option Z :=
  let v := Z_of_byte b - 48 in
  if (0 <=? v) && (v <=? 9) then Some v else None.

Fixpoint digits_val (acc : Z) (s : bytes) : option Z :=
  match s with
  | [] => Some acc
  | b :: s => match digit_val b with Some d => digits_val (10 * acc + d) s | None => None end
  end.

Definition parse_digits (s : bytes) : option Z :=
  match s with [] => None | _ => digits_val 0 s end.

Definition parse_i32 (s : bytes) : option Z :=
  let v := match s with
           | b :: s' =>
             if decide (b = Byte.x2d) then Z.opp <$> parse_digits s'
             else if decide (b = Byte.x2b) then parse_digits s'
             else parse_digits s
           | [] => None
           end in
  match v with
  | Some n => if (- 2 ^ 31 <=? n) && (n <? 2 ^ 31) then Some n else None
  | None => None
  end.

Fixpoint parse_all (l : list bytes) : may (list Z) :=
  match l with
  | [] => Ret []
  | s :: l => let? n := unwrap (parse_i32 s) in let? ns := parse_all l in Ret (n :: ns)
  end.

(** ** GracefulServer *)

Record GracefulServer : Type := Graceful {
  run_dir : bytes;
  prog_name : bytes;
  listen_fds : list bytes;
  recovered : bool;
  recover_listen_fds : list Z;
  restart_timeout : Z;
  close_signals : list Z;
}.

Definition set_listen_fds (l : list bytes) (g : GracefulServer) : GracefulServer :=
  Graceful (run_dir g) (prog_name g) l (recovered g) (recover_listen_fds g) (restart_timeout g)
    (close_signals g).

Definition set_recover_fds (l : list Z) (g : GracefulServer) : GracefulServer :=
  Graceful (run_dir g) (prog_name g) (listen_fds g) (recovered g) l (restart_timeout g)
    (close_signals g).

(** [check_recover]: [env] is the value of [_GRACEFUL_RESTART]; [to_str] of an
    [OsString] that is not UTF-8 is [None]. *)
Definition check_recover (env : option bytes) (g : GracefulServer) : may GracefulServer :=
  match env with
  | Some env_recover_fds_str =>
    let? s := unwrap (from_utf8 env_recover_fds_str) in
    let? fds := parse_all (split_on Byte.x2c s) in
    Ret (Graceful (run_dir g) (prog_name g) (listen_fds g) true (recover_listen_fds g ++ fds)
      (restart_timeout g) (close_signals g))
  | None => Ret g
  end.

Definition Graceful_new (env : option bytes) (run_dir prog_name : bytes) (restart_timeout : Z)
    (close_signals : list Z) : may GracefulServer :=
  check_recover env (Graceful run_dir prog_name [] false [] restart_timeout close_signals).

(** The file names: [run_dir/prog.pid] and [run_dir/prog_pid]. *)
Section paths.
Context (path_join : bytes -> bytes -> bytes).

Definition pid_file_path (g : GracefulServer) : bytes :=
  path_join (run_dir g) (prog_name g ++ str_bytes ".pid").

Definition child_pid_file_path (g : GracefulServer) (pid : Z) : bytes :=
  path_join (run_dir g) (prog_name g ++ str_bytes "_" ++ i32_to_string pid).

(** [write_pid_file]: the file system maps paths to contents. [open_ok],
    [wrote] and [sync_ok] are what the calls do: a [write_all] that fails has
    written the first bytes only. *)
Definition write_pid_file (open_ok : bool) (wrote : option nat) (sync_ok : bool) (p : bytes) (pid : Z)
    (files : bytes -> option bytes) : (bytes -> option bytes) * result unit unit :=
  if open_ok then
    let text := i32_to_string pid in
    match wrote with
    | Some n => (<[p := Some (take n text)]> files, Err tt)
    | None => (<[p := Some text]> files, if sync_ok then Ok tt else Err tt)
    end
  else (files, Err tt).

Definition write_child_pid_file (open_ok : bool) (wrote : option nat) (sync_ok : bool) (g : GracefulServer) (pid : Z)
    (files : bytes -> option bytes) : (bytes -> option bytes) * result unit unit :=
  write_pid_file open_ok wrote sync_ok (child_pid_file_path g pid) pid files.

(** Success leaves the number in the file. A child whose write fails has
    notified its parent all the same: the file is there once it is opened. *)
Lemma write_child_pid_file_spec open_ok wrote sync_ok g pid files :
  let x := write_child_pid_file open_ok wrote sync_ok g pid files in
  (x.2 = Ok tt -> x.1 (child_pid_file_path g pid) = Some (i32_to_string pid)) /\
  (open_ok = true -> is_Some (x.1 (child_pid_file_path g pid))) /\
  (forall p, p <> child_pid_file_path g pid -> x.1 p = files p).
Proof.
  unfold write_child_pid_file, write_pid_file. destruct open_ok; cbn; [|done].
  split; [destruct wrote, sync_ok; try done; intros _; apply fn_lookup_insert|].
  split; [intros _|intros p Hp]; destruct wrote; cbn; try (by apply fn_lookup_insert_ne);
    rewrite fn_lookup_insert; eauto.
Qed.

(** *** restart

    [spawn env keep] starts the child with the variable set to [env] and the
    descriptors [keep] left open over exec; [file_at p t] says whether [p] can
    be opened at time [t] (in milliseconds); [after_sleep t] is the time after
    sleeping one second at [t]; [try_wait pid] is the child's state. *)
Context (spawn : bytes -> list Z -> result Z unit).
Context (file_at : bytes -> Z -> bool).
Context (after_sleep : Z -> Z).
Context (try_wait : Z -> result (option unit) unit).

(** The loop [while now - start <= timeout]: [Some true] when the file was
    found, [Some false] when the time is over, [None] without fuel. *)
Fixpoint wait_child (fuel : nat) (path : bytes) (start timeout now : Z) : option bool :=
  match fuel with
  | O => None
  | S fuel =>
    if now - start <=? timeout then
      if file_at path now then Some true
      else wait_child fuel path start timeout (after_sleep now)
    else Some false
  end.

(** Enough turns for a loop that sleeps a second in each. *)
Definition wait_fuel (timeout : Z) : nat := S (S (Z.to_nat (timeout / 1000))).

Definition restart (now : Z) (g : GracefulServer) : may (result unit unit) :=
  let? preserved_fds := parse_all (listen_fds g) in
  let listen_fds_str := join Byte.x2c (listen_fds g) in
  let preserved_fds := merge_sort Z.le preserved_fds in
  match spawn listen_fds_str preserved_fds with
  | Err e => Ret (Err e)
  | Ok child_pid =>
    match wait_child (wait_fuel (restart_timeout g)) (child_pid_file_path g child_pid) now
            (restart_timeout g) now with
    | Some true => Ret (Ok tt)
    | _ =>
      match try_wait child_pid with
      | Ok (Some _) => Ret (Err tt)
      | Ok None => Ret (Ok tt)
      | Err e => Ret (Err e)
      end
    end
  end.

(** *** ready

    [restart_at n] is the outcome of the n-th restart. [Some n]: the loop ended
    after [n] restarts; [None]: it waits for the next signal. *)
Fixpoint signal_loop (restart_signal : option Z) (restart_at : nat -> may (result unit unit))
    (n : nat) (signals : list Z) : may (option nat) :=
  match signals with
  | [] => Ret None
  | signal :: signals =>
    if bool_decide (restart_signal = Some signal) then
      let? r := restart_at n in
      match r with
      | Ok _ => Ret (Some (S n))
      | Err _ => signal_loop restart_signal restart_at (S n) signals
      end
    else Ret (Some n)
  end.

(** The signals listened to. *)
Definition ready_sigs (restart_signal : option Z) (g : GracefulServer) : list Z :=
  match restart_signal with
  | Some s => if bool_decide (s ∈ close_signals g) then close_signals g else close_signals g ++ [s]
  | None => close_signals g
  end.

(** [write_file] is [write_pid_file]: whether it succeeds. [signals_ok] is
    [Signals::new]; [signals] are the signals delivered, all of the set. The
    result says whether [exit_closure] has run, and the files written. *)
Definition ready (write_file : bytes -> bool) (signals_ok : list Z -> bool) (pid : Z)
    (restart_signal : option Z) (restart_at : nat -> may (result unit unit)) (signals : list Z)
    (g : GracefulServer) : may (result (option nat * list bytes) unit) :=
  if write_file (pid_file_path g) then
    let files := pid_file_path g ::
      (if recovered g && write_file (child_pid_file_path g pid) then [child_pid_file_path g pid] else []) in
    if signals_ok (ready_sigs restart_signal g) then
      let? ended := signal_loop restart_signal restart_at 0 signals in Ret (Ok (ended, files))
    else Panic
  else Ret (Err tt).

End paths.

(** *** new_listener

    [try_from_raw_fd fd] and [bind] are those of the listener type at [addr]. *)
Definition new_listener {L} (as_raw_fd : L -> Z) (try_from_raw_fd : Z -> result L unit) (bind : result L unit)
    (g : GracefulServer) : GracefulServer * result L unit :=
  let fallback g :=
    match bind with
    | Err e => (g, Err e)
    | Ok listener =>
      (set_listen_fds (listen_fds g ++ [i32_to_string (as_raw_fd listener)]) g, Ok listener)
    end in
  match recover_listen_fds g with
  | raw_fd :: rest =>
    let g := set_recover_fds rest g in
    match try_from_raw_fd raw_fd with
    | Ok listener => (set_listen_fds (listen_fds g ++ [i32_to_string raw_fd]) g, Ok listener)
    | Err _ => fallback g
    end
  | [] => fallback g
  end.

(** Listeners created one after another. *)
Fixpoint new_listeners {L} (as_raw_fd : L -> Z) (calls : list ((Z -> result L unit) * result L unit))
    (g : GracefulServer) : GracefulServer * list (result L unit) :=
  match calls with
  | [] => (g, [])
  | (try_from_raw_fd, bind) :: calls =>
    let '(g, r) := new_listener as_raw_fd try_from_raw_fd bind g in
    let '(g, rs) := new_listeners as_raw_fd calls g in
    (g, r :: rs)
  end.

(** ** Lemmas on the text *)

Lemma split_on_sep_free sep s : sep ∉ s -> split_on sep s = [s].
Proof.
  induction s as [|b s IH]; [done|]. intros [Hb Hs]%not_elem_of_cons. simpl.
  rewrite decide_False by done. by rewrite IH.
Qed.

Lemma split_on_app sep s t : sep ∉ s -> split_on sep (s ++ sep :: t) = s :: split_on sep t.
Proof.
  induction s as [|b s IH]; intros Hs; simpl; [by rewrite decide_True|].
  apply not_elem_of_cons in Hs as [Hb Hs]. rewrite decide_False by done. by rewrite IH.
Qed.

(** Splitting inverts joining, but for the empty list: the empty text is one
    empty piece. *)
Lemma split_join sep l : l <> [] -> Forall (fun s => sep ∉ s) l -> split_on sep (join sep l) = l.
Proof.
  intros Hn Hl. induction Hl as [|s l Hs Hl IH]; [done|]. destruct l as [|s' l].
  - by apply split_on_sep_free.
  - cbn [join]. rewrite split_on_app by done. f_equal. by apply IH.
Qed.

Definition is_digit (b : Byte.byte) : bool := in_rng 48 57 b.

Lemma digit_val_spec b v : digit_val b = Some v -> is_digit b = true /\ 0 <= v <= 9.
Proof.
  unfold digit_val, is_digit, in_rng.
  destruct (Z.leb_spec 0 (Z_of_byte b - 48)), (Z.leb_spec (Z_of_byte b - 48) 9); cbn [andb]; try done.
  intros [= <-]. split; [|lia]. apply andb_true_iff. rewrite !Z.leb_le. lia.
Qed.

Lemma pretty_char_digit (x : N) : (x < 10)%N ->
  digit_val (Ascii.byte_of_ascii (pretty_N_char x)) = Some (Z.of_N x).
Proof.
  intros H. destruct (decide (x = 0 \/ x = 1 \/ x = 2 \/ x = 3 \/ x = 4 \/ x = 5 \/ x = 6 \/ x = 7 \/ x = 8 \/ x = 9)%N)
    as [Hx|Hx]; [|lia].
  repeat (destruct Hx as [->|Hx]; [vm_compute; reflexivity|]). subst. vm_compute. reflexivity.
Qed.

Lemma str_bytes_cons a s : str_bytes (String a s) = Ascii.byte_of_ascii a :: str_bytes s.
Proof. done. Qed.

(** Reading back the decimal digits of a number. *)
Lemma digits_pretty_go x s : digits_val 0 (str_bytes (pretty_N_go x s)) = digits_val (Z.of_N x) (str_bytes s).
Proof.
  revert s. induction (N.lt_wf_0 x) as [x _ IH]; intros s. destruct (decide (x = 0%N)) as [->|Hx].
  - by rewrite pretty_N_go_0.
  - rewrite pretty_N_go_step by lia. rewrite IH by (apply N.div_lt; lia). rewrite str_bytes_cons. cbn [digits_val].
    rewrite pretty_char_digit by (apply N.mod_lt; lia). f_equal.
    rewrite N2Z.inj_div, N2Z.inj_mod. pose proof (Z.div_mod (Z.of_N x) 10 ltac:(lia)). lia.
Qed.

Lemma digits_val_digits acc s v : digits_val acc s = Some v -> forallb is_digit s = true.
Proof.
  revert acc. induction s as [|b s IH]; intros acc H; [done|]. cbn in *.
  destruct (digit_val b) as [d|] eqn:E; [|done]. apply digit_val_spec in E as [-> _]. by eapply IH.
Qed.

Lemma digits_pretty_N (x : N) : digits_val 0 (str_bytes (pretty x)) = Some (Z.of_N x).
Proof.
  unfold pretty, pretty_N. case_decide as H; [by subst|]. by rewrite digits_pretty_go.
Qed.

Lemma pretty_N_cons (x : N) : exists b s, str_bytes (pretty x) = b :: s /\ is_digit b = true.
Proof.
  pose proof (digits_val_digits _ _ _ (digits_pretty_N x)) as Hd.
  destruct (str_bytes (pretty x)) as [|b s] eqn:E.
  - pose proof (digits_pretty_N x) as H. rewrite E in H. cbn in H. injection H as H.
    assert (x = 0%N) as -> by lia. vm_compute in E. done.
  - cbn in Hd. apply andb_true_iff in Hd as [Hb _]. eauto.
Qed.

Lemma is_digit_not_sign b : is_digit b = true -> b <> Byte.x2d /\ b <> Byte.x2b /\ b <> Byte.x2c.
Proof. intros H. repeat split; intros ->; vm_compute in H; done. Qed.

(** [parse] reads back what [to_string] writes. *)
Lemma parse_i32_to_string n : is_i32 n -> parse_i32 (i32_to_string n) = Some n.
Proof.
  unfold is_i32, i32_to_string, parse_i32. intros H.
  assert (Hin : (- 2 ^ 31 <=? n) && (n <? 2 ^ 31) = true) by (apply andb_true_iff; lia).
  destruct n as [|p|p].
  - vm_compute. reflexivity.
  - change (pretty (Z.pos p)) with (pretty (N.pos p)).
    destruct (pretty_N_cons (N.pos p)) as (b & s & E & Hb).
    pose proof (digits_pretty_N (N.pos p)) as Hd. rewrite E in *.
    destruct (is_digit_not_sign b Hb) as (H1 & H2 & _).
    rewrite decide_False, decide_False by done. unfold parse_digits. rewrite Hd.
    change (Z.of_N (N.pos p)) with (Z.pos p). by rewrite Hin.
  - change (pretty (Z.neg p)) with (String (Ascii.ascii_of_byte Byte.x2d) (pretty (N.pos p))). rewrite str_bytes_cons.
    change (Ascii.byte_of_ascii (Ascii.ascii_of_byte Byte.x2d)) with Byte.x2d. rewrite decide_True by done.
    destruct (pretty_N_cons (N.pos p)) as (b & s & E & Hb).
    pose proof (digits_pretty_N (N.pos p)) as Hd. rewrite E in *. unfold parse_digits. rewrite Hd. cbn [fmap option_fmap option_map].
    change (- Z.of_N (N.pos p)) with (Z.neg p). by rewrite Hin.
Qed.

(** The text of a number: digits and a sign, no comma. *)
Lemma i32_to_string_chars n : forallb (fun b => is_digit b || bool_decide (b = Byte.x2d)) (i32_to_string n) = true.
Proof.
  assert (HN : forall x : N, forallb (fun b => is_digit b || bool_decide (b = Byte.x2d)) (str_bytes (pretty x)) = true).
  { intros x. pose proof (digits_val_digits _ _ _ (digits_pretty_N x)) as Hd.
    rewrite forallb_forall in *. intros b Hb. by rewrite Hd. }
  unfold i32_to_string. destruct n as [|p|p]; [done|apply (HN (N.pos p))|].
  change (pretty (Z.neg p)) with (String (Ascii.ascii_of_byte Byte.x2d) (pretty (N.pos p))). rewrite str_bytes_cons. cbn [forallb].
  rewrite HN. done.
Qed.

Lemma i32_to_string_no_comma n : Byte.x2c ∉ i32_to_string n.
Proof.
  intros H%list_elem_of_In. pose proof (i32_to_string_chars n) as Hc. rewrite forallb_forall in Hc.
  specialize (Hc _ H). vm_compute in Hc. done.
Qed.

Lemma parse_all_to_string fds :
  Forall is_i32 fds -> parse_all (i32_to_string <$> fds) = Ret fds.
Proof.
  induction 1 as [|n fds Hn _ IH]; [done|]. cbn. rewrite parse_i32_to_string by done. cbn. by rewrite IH.
Qed.

Lemma join_ascii fds : forallb (in_rng 0 127) (join Byte.x2c (i32_to_string <$> fds)) = true.
Proof.
  assert (Hs : forall n, forallb (in_rng 0 127) (i32_to_string n) = true).
  { intros n. pose proof (i32_to_string_chars n) as Hc. rewrite forallb_forall in *. intros b Hb.
    specialize (Hc b Hb). apply orb_true_iff in Hc as [H|H%bool_decide_eq_true]; [|by subst].
    unfold is_digit, in_rng in *. apply andb_true_iff in H as [?%Z.leb_le ?%Z.leb_le].
    apply andb_true_iff. rewrite !Z.leb_le. lia. }
  induction fds as [|n fds IH]; [done|]. destruct fds as [|m fds]; [apply Hs|].
  change (join Byte.x2c (i32_to_string <$> n :: m :: fds)) with
    (i32_to_string n ++ Byte.x2c :: join Byte.x2c (i32_to_string <$> m :: fds)).
  rewrite forallb_app. cbn [forallb]. by rewrite Hs, IH.
Qed.

(** The child's view of the variable. *)
Lemma check_recover_join fds g :
  fds <> [] -> Forall is_i32 fds ->
  check_recover (Some (join Byte.x2c (i32_to_string <$> fds))) g =
    Ret (Graceful (run_dir g) (prog_name g) (listen_fds g) true (recover_listen_fds g ++ fds)
      (restart_timeout g) (close_signals g)).
Proof.
  intros Hn Hf. unfold check_recover. rewrite from_utf8_valid by (apply utf8_ascii, join_ascii). cbn [may_bind unwrap].
  rewrite split_join; [by rewrite parse_all_to_string| |].
  - by destruct fds.
  - apply Forall_fmap, Forall_forall. intros n _. apply i32_to_string_no_comma.
Qed.

(** Recovering the listeners in order. *)
Lemma new_listeners_recover {L} (as_raw_fd : L -> Z) (calls : list ((Z -> result L unit) * result L unit)) fds ls g :
  recover_listen_fds g = fds -> Forall2 (fun c p => fst c (fst p) = Ok (snd p)) calls (zip fds ls) ->
  length fds = length ls ->
  new_listeners as_raw_fd calls g =
    (set_recover_fds [] (set_listen_fds (listen_fds g ++ (i32_to_string <$> fds)) g), Ok <$> ls).
Proof.
  revert fds ls g. induction calls as [|[try bind] calls IH]; intros fds ls g Hg Hc Hl;
    destruct fds as [|fd fds], ls as [|l ls]; try done; try (by inversion Hc).
  - cbn. rewrite app_nil_r. destruct g. cbn in *. by subst.
  - cbn [zip zip_with] in Hc. apply Forall2_cons in Hc as [Ht Hc]. cbn in Ht.
    cbn [new_listeners]. unfold new_listener. rewrite Hg, Ht.
    rewrite (IH fds ls); [|done..|by injection Hl]. cbn. by rewrite <-app_assoc.
Qed.

(** ** Properties *)

(** C22. A graceful restart hands the listening sockets over. A child
    started with the variable a parent writes for its listeners (one at least)
    recovers exactly their descriptors, in their order; creating its listeners
    in the same order it takes each from its descriptor, without binding, and
    ends with the listeners of the parent to hand over in turn. *)
Theorem graceful_handover {L} (as_raw_fd : L -> Z) (parent : GracefulServer) fds dir prog timeout sigs
    (calls : list ((Z -> result L unit) * result L unit)) ls :
  listen_fds parent = i32_to_string <$> fds -> fds <> [] -> Forall is_i32 fds ->
  length fds = length ls -> Forall2 (fun c p => fst c (fst p) = Ok (snd p)) calls (zip fds ls) ->
  exists child, Graceful_new (Some (join Byte.x2c (listen_fds parent))) dir prog timeout sigs = Ret child /\
    recovered child = true /\ recover_listen_fds child = fds /\
    exists child', new_listeners as_raw_fd calls child = (child', Ok <$> ls) /\
      listen_fds child' = listen_fds parent /\ recover_listen_fds child' = [].
Proof.
  intros Hp Hn Hf Hl Hc. unfold Graceful_new. rewrite Hp, check_recover_join by done.
  eexists. split; [done|]. split; [done|]. split; [done|].
  rewrite (new_listeners_recover as_raw_fd calls fds ls) by done. eexists. split; [done|]. done.
Qed.

(** A parent without listeners makes its child panic at the start:
    the variable is then the empty text, which splits into one empty piece, and
    that is no number. Whatever the directory, the name or the signals. *)
Theorem graceful_empty_panics (parent : GracefulServer) dir prog timeout sigs :
  listen_fds parent = [] ->
  Graceful_new (Some (join Byte.x2c (listen_fds parent))) dir prog timeout sigs = Panic.
Proof. by intros ->. Qed.

(** *** The restart of the parent *)
Section wait.
Context (file_at : bytes -> Z -> bool) (after_sleep : Z -> Z).
Context (sleep_second : forall t, t + 1000 <= after_sleep t).

(** The times at which the loop looks for the file. *)
Definition polled (now t : Z) : Prop := exists k, t = Nat.iter k after_sleep now.

Definition file_seen (path : bytes) (now timeout : Z) : Prop :=
  exists t, polled now t /\ t - now <= timeout /\ file_at path t = true.

Lemma iter_sleep k now : now <= Nat.iter k after_sleep now.
Proof using sleep_second. induction k as [|k IH]; [simpl; lia|]. rewrite Nat.iter_succ. specialize (sleep_second (Nat.iter k after_sleep now)). lia. Qed.

Lemma iter_sleep_shift k now : Nat.iter k after_sleep (after_sleep now) = Nat.iter (S k) after_sleep now.
Proof using Type. by rewrite Nat.iter_succ_r. Qed.

Lemma wait_child_spec fuel path start timeout now :
  start <= now -> timeout - (now - start) < 1000 * Z.of_nat (fuel - 1) -> (0 < fuel)%nat ->
  exists b, wait_child file_at after_sleep fuel path start timeout now = Some b /\
    (b = true <-> exists k, Nat.iter k after_sleep now - start <= timeout /\
      file_at path (Nat.iter k after_sleep now) = true).
Proof using sleep_second.
  revert now. induction fuel as [|fuel IH]; intros now Hs Hf H0; [lia|]. cbn [wait_child].
  destruct (Z.leb_spec (now - start) timeout) as [Hle|Hgt].
  - destruct (file_at path now) eqn:Ef; [exists true; split; [done|]; split; [|done]; intros _; by exists 0%nat|].
    pose proof (sleep_second now). destruct fuel as [|fuel]; [cbn in Hf; lia|].
    destruct (IH (after_sleep now)) as (b & -> & Hb); [lia..|]. exists b. split; [done|].
    rewrite Hb. setoid_rewrite iter_sleep_shift. split.
    + intros (k & H1 & H2). by exists (S k).
    + intros ([|k] & H1 & H2); [cbn in H2; congruence|]. by exists k.
  - exists false. split; [done|]. split; [done|]. intros (k & H1 & _). pose proof (iter_sleep k now). lia.
Qed.

Context (path_join : bytes -> bytes -> bytes) (spawn : bytes -> list Z -> result Z unit).
Context (try_wait : Z -> result (option unit) unit).

(** C32. A restart ends and never panics on the listeners of the server:
    it starts the child with their text and with exactly their descriptors kept
    open, in ascending order, and gives up on the child only when it cannot be
    started, or when its file was not seen at any look within the timeout and
    the child has exited or cannot be waited for. *)
Theorem restart_ends g fds now :
  listen_fds g = i32_to_string <$> fds -> Forall is_i32 fds ->
  exists keep r, keep ≡ₚ fds /\ Sorted Z.le keep /\
    restart path_join spawn file_at after_sleep try_wait now g = Ret r /\
    match spawn (join Byte.x2c (listen_fds g)) keep with
    | Err e => r = Err e
    | Ok pid =>
      let seen := file_seen (child_pid_file_path path_join g pid) now (restart_timeout g) in
      (seen -> r = Ok tt) /\
      (~ seen -> r = match try_wait pid with Ok (Some _) => Err tt | Ok None => Ok tt | Err e => Err e end)
    end.
Proof using sleep_second.
  intros Hl Hf. exists (merge_sort Z.le fds). unfold restart. rewrite Hl, parse_all_to_string by done. cbn [may_bind].
  assert (Hfuel : restart_timeout g - (now - now) < 1000 * Z.of_nat (wait_fuel (restart_timeout g) - 1)).
  { unfold wait_fuel. pose proof (Z.div_mod (restart_timeout g) 1000 ltac:(lia)).
    pose proof (Z.mod_pos_bound (restart_timeout g) 1000 ltac:(lia)). lia. }
  destruct (spawn _ _) as [pid|e].
  - destruct (wait_child_spec (wait_fuel (restart_timeout g)) (child_pid_file_path path_join g pid) now
      (restart_timeout g) now ltac:(lia) Hfuel ltac:(unfold wait_fuel; lia)) as (b & -> & Hb).
    assert (Hseen : b = true <-> file_seen (child_pid_file_path path_join g pid) now (restart_timeout g)).
    { rewrite Hb. unfold file_seen, polled. naive_solver. }
    exists (if b then Ok tt
            else match try_wait pid with Ok (Some _) => Err tt | Ok None => Ok tt | Err e => Err e end).
    split; [apply merge_sort_Permutation|]. split; [apply Sorted_merge_sort; intros x y; lia|].
    split; [destruct b; [done|]; by destruct (try_wait pid) as [[]|]|]. cbn zeta. rewrite <-Hseen.
    by destruct b.
  - eexists. split; [apply merge_sort_Permutation|]. split; [apply Sorted_merge_sort; intros x y; lia|]. done.
Qed.
End wait.

(** The server goes on serving exactly while every signal asks for a restart
    and every restart fails. *)
Lemma signal_loop_spec restart_signal restart_at n signals :
  (forall k, exists r, restart_at k = Ret r) ->
  exists o, signal_loop restart_signal restart_at n signals = Ret o /\
    (o = None <-> Forall (fun s => restart_signal = Some s) signals /\
      forall k, (k < length signals)%nat -> restart_at (n + k)%nat = Ret (Err tt)).
Proof.
  intros Hr. revert n. induction signals as [|s signals IH]; intros n; cbn [signal_loop].
  { exists None. split; [done|]. split; [|done]. intros _. split; [constructor|]. cbn. lia. }
  case_bool_decide as Hs.
  - destruct (Hr n) as [[u|e] Hn]; rewrite Hn; cbn [may_bind].
    + exists (Some (S n)). split; [done|]. split; [done|]. intros [_ H]. specialize (H 0%nat ltac:(cbn; lia)).
      rewrite Nat.add_0_r in H. congruence.
    + destruct (IH (S n)) as (o & -> & Ho). exists o. split; [done|]. rewrite Ho, Forall_cons. split.
      * intros [Hf Hk]. split; [done|]. intros [|k] Hlt.
        { rewrite Nat.add_0_r. by destruct e. }
        rewrite <-plus_n_Sm. apply Hk. cbn in Hlt. lia.
      * intros [[_ Hf] Hk]. split; [done|]. intros k Hlt. specialize (Hk (S k)). rewrite <-plus_n_Sm in Hk.
        apply Hk. cbn. lia.
  - exists (Some n). split; [done|]. split; [done|]. rewrite Forall_cons. intros [[? _] _]. done.
Qed.

(** ** Concrete instances *)
Module GracefulWitness.

(** Two listeners, on descriptors 12 and 7. *)
Definition parent : GracefulServer :=
  Graceful (str_bytes "/run") (str_bytes "srv") [i32_to_string 12; i32_to_string 7] false [] 2500 [15].

Example parent_env : join Byte.x2c (listen_fds parent) = str_bytes "12,7".
Proof. vm_compute. reflexivity. Qed.

(** A listener is its descriptor. *)
Definition take_fd (fd : Z) : result Z unit := Ok fd.

Lemma graceful_handover_witness :
  exists child, Graceful_new (Some (str_bytes "12,7")) (str_bytes "/run") (str_bytes "srv") 2500 [15] = Ret child /\
    recover_listen_fds child = [12; 7] /\
    exists child', new_listeners (fun fd => fd) [(take_fd, Err tt); (take_fd, Err tt)] child = (child', [Ok 12; Ok 7]) /\
      join Byte.x2c (listen_fds child') = str_bytes "12,7".
Proof.
  destruct (graceful_handover (fun fd : Z => fd) parent [12; 7] (str_bytes "/run") (str_bytes "srv") 2500 [15]
    [(take_fd, Err tt); (take_fd, Err tt)] [12; 7]) as (child & E & _ & Hr & child' & En & Hl & _).
  - reflexivity.
  - discriminate.
  - repeat constructor; vm_compute; congruence.
  - reflexivity.
  - repeat constructor.
  - exists child. split; [exact E|]. split; [exact Hr|]. exists child'. split; [exact En|].
    rewrite Hl. vm_compute. reflexivity.
Defined.

Definition no_listener : GracefulServer := Graceful (str_bytes "/run") (str_bytes "srv") [] false [] 2500 [15].

Lemma graceful_empty_panics_witness :
  listen_fds no_listener = [] /\
  Graceful_new (Some []) (str_bytes "/run") (str_bytes "srv") 2500 [15] = Panic.
Proof.
  split; [reflexivity|].
  exact (graceful_empty_panics no_listener (str_bytes "/run") (str_bytes "srv") 2500 [15] eq_refl).
Defined.

(** The child's file appears after two seconds. *)
Definition slash (a b : bytes) : bytes := a ++ Byte.x2f :: b.
Definition spawn (_ : bytes) (_ : list Z) : result Z unit := Ok 4321.
Definition file_at (_ : bytes) (t : Z) : bool := 2000 <=? t.
Definition after_sleep (t : Z) : Z := t + 1001.
Definition exited (_ : Z) : result (option unit) unit := Ok (Some tt).

Lemma restart_ends_witness :
  exists keep, keep ≡ₚ [12; 7] /\ Sorted Z.le keep /\
    restart slash spawn file_at after_sleep exited 0 parent = Ret (Ok tt).
Proof.
  destruct (restart_ends file_at after_sleep ltac:(intros t; unfold after_sleep; lia) slash spawn exited parent [12; 7] 0)
    as (keep & r & Hk & Hs & E & Hseen & _).
  - reflexivity.
  - repeat constructor; vm_compute; congruence.
  - exists keep. split; [exact Hk|]. split; [exact Hs|]. rewrite E. f_equal. apply Hseen.
    exists 2002. split; [exists 2%nat; reflexivity|]. split; vm_compute; congruence.
Defined.

End GracefulWitness.
