(* ===== verification/Display.v ===== *)
(** * The text of headers and tasks in the log

    The [Display] impls of the two headers (stream/src/proto.rs), the [Debug]
    impls of requests and server tasks (stream/src/server/mod.rs, task.rs) and
    the one that [client_task] generates. A line of the log identifies the
    fields it shows. *)
From Stdlib Require Import ZArith Lia Strings.String.
From stdpp Require Import base list sets gmap strings pretty.
From S2P Require Import Prelude Errors Task ApiClient Proto ServerTask Graceful MacroSyntax ClientMacro ClientGen.
Local Open Scope Z_scope.
Local Open Scope rpc_scope.

(** [{}] and [{:?}] of an integer. *)
Definition dec (n : Z) : bytes := str_bytes (pretty n).

Definition ReqHead_fmt (h : ReqHead) : bytes :=
  str_bytes "[client_id:" ++ dec (rq_client_id h) ++ str_bytes ", seq:" ++ dec (rq_seq h) ++
  str_bytes ", msg:" ++ dec (rq_msg_len h) ++ str_bytes ", blob:" ++ dec (rq_blob_len h) ++
  match ReqHead_get_action h with
  | Ok action_num => str_bytes ", action:" ++ dec action_num ++ str_bytes "]"
  | Err action_len => str_bytes "action_len:" ++ dec action_len ++ str_bytes "]"
  end.

Definition RespHead_fmt (h : RespHead) : bytes :=
  str_bytes "[seq:" ++ dec (rs_seq h) ++ str_bytes ", flag:" ++ dec (rs_flag h) ++
  str_bytes ", msg:" ++ dec (rs_msg_len h) ++ str_bytes ", blob:" ++ dec (rs_blob_len h) ++ str_bytes "]".

(** ** A number ends where something else begins *)

Definition dec_char (b : Byte.byte) : bool := is_digit b || bool_decide (b = Byte.x2d).

Lemma dec_inj n m : dec n = dec m -> n = m.
Proof.
  intros E. apply (f_equal String.string_of_list_byte) in E. unfold dec, str_bytes in E.
  rewrite !String.string_of_list_byte_of_string in E. by apply (inj pretty).
Qed.

Lemma dec_chars n : Forall (fun b => dec_char b = true) (dec n).
Proof. apply Forall_forall. intros b Hb%list_elem_of_In. pose proof (i32_to_string_chars n) as H.
  rewrite forallb_forall in H. by apply H.
Qed.

(** Text whose first character does not belong to a number. *)
Definition ends_number (s : bytes) : Prop := match s with b :: _ => dec_char b = false | [] => False end.

Lemma dec_split n m r s : ends_number r -> ends_number s -> dec n ++ r = dec m ++ s -> n = m /\ r = s.
Proof.
  intros Hr Hs E. assert (H : dec n = dec m /\ r = s); [|destruct H as [?%dec_inj ?]; done].
  pose proof (dec_chars n) as Hn. pose proof (dec_chars m) as Hm. revert E Hn Hm.
  generalize (dec n) (dec m). intros l. induction l as [|b l IH]; intros [|c k] E Hn Hm; cbn in E.
  - done.
  - subst r. apply Forall_cons in Hm as [Hc _]. cbn in Hr. congruence.
  - subst s. apply Forall_cons in Hn as [Hb _]. cbn in Hs. congruence.
  - injection E as -> E. apply Forall_cons in Hn as [_ Hn], Hm as [_ Hm].
    destruct (IH k E Hn Hm) as [-> ->]. done.
Qed.

(** ** Lines identify headers *)

Lemma RespHead_fmt_inj h h' :
  RespHead_fmt h = RespHead_fmt h' ->
  rs_seq h = rs_seq h' /\ rs_flag h = rs_flag h' /\ rs_msg_len h = rs_msg_len h' /\ rs_blob_len h = rs_blob_len h'.
Proof.
  unfold RespHead_fmt. intros E%app_inv_head.
  apply dec_split in E as [-> E%app_inv_head]; [|done..].
  apply dec_split in E as [-> E%app_inv_head]; [|done..].
  apply dec_split in E as [-> E%app_inv_head]; [|done..].
  apply dec_split in E as [-> _]; done.
Qed.

Lemma ReqHead_fmt_inj h h' :
  ReqHead_fmt h = ReqHead_fmt h' ->
  rq_client_id h = rq_client_id h' /\ rq_seq h = rq_seq h' /\ rq_msg_len h = rq_msg_len h' /\
  rq_blob_len h = rq_blob_len h' /\ ReqHead_get_action h = ReqHead_get_action h'.
Proof.
  assert (Hend : forall h, ends_number (match ReqHead_get_action h with
    | Ok action_num => str_bytes ", action:" ++ dec action_num ++ str_bytes "]"
    | Err action_len => str_bytes "action_len:" ++ dec action_len ++ str_bytes "]"
    end)) by (intros h0; by destruct (ReqHead_get_action h0)).
  unfold ReqHead_fmt. intros E%app_inv_head.
  apply dec_split in E as [-> E%app_inv_head]; [|done..].
  apply dec_split in E as [-> E%app_inv_head]; [|done..].
  apply dec_split in E as [-> E%app_inv_head]; [|done..].
  apply dec_split in E as [-> E]; [|auto..]. repeat (split; [done|]).
  destruct (ReqHead_get_action h) as [a|a], (ReqHead_get_action h') as [b|b]; [|done|done|];
    apply app_inv_head in E; apply dec_split in E as [-> _]; done.
Qed.

(** ** Requests and tasks *)
Section debug.
(** [{:?}] of a string, which escapes it. *)
Context (str_debug : bytes -> bytes).

(** The derived impls of [RpcAction] and [RpcActionOwned]. *)
Definition RpcAction_debug (a : RpcAction) : bytes :=
  match a with
  | AStr s => str_bytes "Str(" ++ str_debug s ++ str_bytes ")"
  | ANum n => str_bytes "Num(" ++ dec n ++ str_bytes ")"
  end.

Definition RpcSvrReq_fmt (r : RpcSvrReq) : bytes :=
  str_bytes "req(seq=" ++ dec (sq_seq r) ++ str_bytes ", action=" ++ RpcAction_debug (sq_action r) ++ str_bytes ")".

(** [write!] of the result, with the [Display] of the user's error. *)
Definition res_fmt {E} (e_fmt : E -> bytes) (res : option (result unit E)) : bytes :=
  match res with
  | Some (Ok _) => str_bytes " ok"
  | Some (Err e) => str_bytes " err: " ++ e_fmt e
  | None => []
  end.

Definition Variant_fmt {M E} (m_debug : M -> bytes) (e_fmt : E -> bytes) (t : ServerTaskVariant M E) : bytes :=
  str_bytes "task seq=" ++ dec (sv_seq t) ++ str_bytes " action=" ++ RpcAction_debug (to_action (sv_action t)) ++
  str_bytes " " ++ m_debug (sv_msg t) ++ res_fmt e_fmt (sv_res t).

Definition Full_fmt {Q P E} (q_debug : Q -> bytes) (e_fmt : E -> bytes) (t : ServerTaskVariantFull Q P E) : bytes :=
  str_bytes "task seq=" ++ dec (sf_seq t) ++ str_bytes " action=" ++ RpcAction_debug (to_action (sf_action t)) ++
  str_bytes " " ++ q_debug (sf_req t) ++ res_fmt e_fmt (sf_res t).

Lemma RpcSvrReq_fmt_seq r r' : RpcSvrReq_fmt r = RpcSvrReq_fmt r' -> sq_seq r = sq_seq r'.
Proof. intros E%app_inv_head. by apply dec_split in E as [-> _]. Qed.

Lemma Variant_fmt_seq {M E} (m : M -> bytes) (e : E -> bytes) t t' :
  Variant_fmt m e t = Variant_fmt m e t' -> sv_seq t = sv_seq t'.
Proof. intros H%app_inv_head. by apply dec_split in H as [-> _]. Qed.

Lemma Full_fmt_seq {Q P E} (q : Q -> bytes) (e : E -> bytes) (t t' : ServerTaskVariantFull Q P E) :
  Full_fmt q e t = Full_fmt q e t' -> sf_seq t = sf_seq t'.
Proof. intros H%app_inv_head. by apply dec_split in H as [-> _]. Qed.

End debug.

(** *** The [Debug] impl that [client_task] generates with [debug] *)
Section client_debug.
Context {M Er : Type} `{!TaskEnv M Er} (val_debug : val M Er -> bytes).

Definition gen_debug_fmt (name : ident) (g : client_task_code) (v : struct_val M Er) : option bytes :=
  seq ← gen_seq g v; req ← v !! ct_req g; resp ← v !! fst (ct_resp g);
  match resp with
  | VOpt o =>
    Some (str_bytes name ++ str_bytes "(seq=" ++ dec seq ++ str_bytes " req=" ++ val_debug req ++
      match o with Some x => str_bytes " resp=" ++ val_debug x | None => [] end ++ str_bytes ")")
  | _ => None
  end.

Context {env_ok : TaskEnvOk}.

(** It runs on every value of the struct. *)
Lemma gen_debug_sound name attr input fields g v :
  client_task_impl attr input = Expand g -> d_data input = DStruct fields ->
  NoDup (f_ident <$> fields) -> rustc_accepts g -> struct_typed fields v ->
  is_Some (gen_debug_fmt name g v).
Proof.
  intros (fields' & Hf & Hg)%client_task_impl_spec Hd Hnd Hrc Hv. rewrite Hd in Hf. injection Hf as <-.
  destruct (sound_common attr fields g v Hg Hnd Hrc Hv) as [[seq Hs] _]. unfold gen_debug_fmt. rewrite Hs. cbn.
  pose proof (ex_req _ _ _ Hg) as ([n ty] & Hl & E)%fmap_Some. cbn in E.
  destruct (struct_lookup _ _ _ Hv (tagged_declares _ _ _ Hl)) as (x & Hx & _). cbn in Hx.
  rewrite E, Hx. cbn.
  destruct (struct_lookup _ _ _ Hv (tagged_declares _ _ _ (ex_resp _ _ _ Hg))) as (y & Hy & Ht).
  rewrite Hy. cbn. destruct (check_option_arg _ (ex_resp_option _ _ _ Hg)) as [rt Hr].
  pose proof (canonical _ _ _ Ht (arg_of_name _ _ _ Hr) ltac:(unfold builtin_types; set_solver)) as Hc.
  by destruct y.
Qed.

End client_debug.
